(* ===== verification/_CoqProject ===== *)
-Q . S2P
Prelude.v
RustStr.v
RustPath.v
RoleAssignment.v
Contract.v
LoopContract.v
Lifecycle.v
Replay.v
Ledger.v
LifecycleFacts.v
Evidence.v
Sample.v
LifecycleProps.v
WorktreeProps.v
BuilderLoopProps.v
BreakerProps.v
LedgerProps.v
RoleProps.v
RunProps.v
ReplayProps.v
EventText.v
RecordedRun.v
Mirror.v
ReloadRun.v
ReloadProps.v
Wiring.v
WiringProps.v
Reservation.v
ReservationProps.v
MemoryContract.v
MemoryLog.v
MemoryCandidate.v
MemoryState.v
MemoryLogFacts.v
MemoryCandidateFacts.v
MemoryOps.v
MemorySample.v
MemoryLogProps.v
MemoryStartProps.v
MemoryDerive.v
MemoryDeriveProps.v
MemoryDecision.v
MemoryDecisionProps.v
MemoryQueueProps.v
RustText.v
RustTextFacts.v
HandoffTypes.v
HandoffNormal.v
HandoffStore.v
HandoffGate.v
Handoff.v
HandoffGateProps.v
HandoffMachine.v
HandoffFacts.v
HandoffDispatch.v
HandoffMigration.v
HandoffSample.v
HandoffProps.v
HandoffLedgerProps.v
HandoffLock.v
HandoffLockProps.v
ActorProvenance.v
ActorProvenanceProps.v
ConnectionGate.v
ConnectionGateProps.v
Basis.v
BasisProps.v
Settlement.v
SettlementProps.v
Delegation.v
DelegationProps.v
Projection.v
ProjectionProps.v
Blackboard.v
BlackboardProps.v
Spill.v
SpillProps.v
