(* ===== verification/Prelude.v ===== *)
(** * Governed tasks, operator capability, producer reservations, reviewed project
    memory, findings handoffs, settlements, delegations and the blackboard of Impulse

    The program. Impulse (src/impulse-rs) is a daemon that coordinates coding
    agents. Its core is the governed task: an operator registers a task, a worker
    claims to have done it, the daemon verifies the claim, a supervisor recommends
    and an operator decides; an accepted outcome may be promoted from its staged
    worktree, and its record joins a queue of memory candidates an operator
    reviews. Every step is an event of the run, every request is idempotent, and
    everything is a file below [.impulse/] that is checked when it is loaded.

    The parts and how they meet. A surface (CLI, desktop, REPL) sends the daemon a
    [GovernedTaskMutationRequest] over a socket. The connection (ConnectionGate.v)
    reads it as one bounded line and admits it by the class the connection earned
    with the operator capability (ActorProvenance.v). The project ledger (Ledger.v) finds the run,
    checks project, fence and revision and lets the state machine (Lifecycle.v)
    advance it, which consults the contract of a run (Contract.v), the loop budget
    of a Builder (LoopContract.v) and the role evaluation (RoleAssignment.v). The
    ledger commits the new file, then asks the memory component, through the class
    [MemoryCandidates], to record the candidate of an accepted run; MemoryState.v
    is that component and [MemoryQueueProps.memory_component] the instance. At
    start-up the ledger replays every stored run (Replay.v), the reservation
    journal is reconciled (Reservation.v) and so are the review queue and the
    promoted log (MemoryState.v). Beside the governed path, agents hand findings to
    each other through the handoff gate (Handoff.v): each finding cites a file, a
    commit or a fetched URL, and the gate checks that the source records the
    finding's subject before the handoff is delivered. A coordinator that ran
    several candidates for one task records its choice as a settlement
    (Settlement.v), which holds when the basis of the choice moved (Basis.v), and
    the daemon tracks the work it delegated (Delegation.v). Texts too long for a
    conversation or a claim are parked in the blackboard (Blackboard.v) and paged
    back in (Projection.v, Spill.v); a claim shortened that way goes through the
    claim validation of Contract.v.

    ** Files, components and code

    - Prelude.v: the result monad [result E A] with its notations and inversion
      tactics ([result_inv], [bool_inv]), checked u64 arithmetic, stable sorting,
      and maps iterated in key order ([btree_items], for [BTreeMap]).
    - RustStr.v, RustPath.v: strings as lists of Unicode scalar values with their
      UTF-8 bytes, [trim], [lines], hex tests; [std::path] on Unix.
    - RoleAssignment.v: impulse-ops/src/role_assignment.rs.
    - Contract.v, Wiring.v: impulse-ops/src/governed_task.rs and governed_wiring.rs:
      ids, enums, records (field [f] of the source is [run_f] and so on), request
      validation, projections, the rules shared with the surfaces.
    - LoopContract.v: src/loop_contract.rs: budgets, evaluation, breaker, report.
    - Lifecycle.v: src/state/governed_task.rs, [apply_mutation]: one definition per
      arm, the guards they share, the governed Builder loop, fencing.
    - Replay.v: the same file, [validate_task_history]: a stored run is rebuilt by
      replaying its events through the live [apply_mutation].
    - Ledger.v: the same file: load, registration, idempotent revisioned mutation,
      reads. [LedgerState] is the ledger in memory beside the file.
    - Reservation.v: src/state/producer_reservation.rs: the journal, its operations,
      reconciliation, and side effects that run under a reservation.
    - MemoryContract.v: impulse-ops/src/memory_candidate.rs and memory_wiring.rs.
    - MemoryLog.v: src/state/memory_record.rs: the append-only digest chain, the
      derived record, the GENOME projection and the index marker.
    - MemoryCandidate.v, MemoryState.v: src/state/memory_candidate.rs: derivation,
      migration, reconciliation, start-up, recording, deciding, reads. [MemoryState]
      holds ledger and log in memory beside the three files; operations are
      computations of [memory_op], a state monad that stops at the first error and
      keeps what was changed before it.
    - HandoffTypes.v, HandoffStore.v, HandoffGate.v, Handoff.v: src/handoff/types.rs,
      store.rs, gate.rs and mod.rs: findings and their normal forms; the ledger
      [GateStore], its migrations and the read-modify-write [with_store]; the checks
      of a claim; the six actions and [dispatch_for]. HandoffLock.v: the lock file
      of store.rs, as actions of processes that interleave. RustText.v has the text and
      number parsing they need.
    - HandoffGateProps.v, HandoffMachine.v: the specification of a backed claim and
      the abstract ledger machine [gate_step]; HandoffNormal.v, HandoffFacts.v,
      HandoffDispatch.v: normal forms, reloads, what every call does.
    - ActorProvenance.v: impulse-ops/src/operator_capability.rs and
      src/daemon/actor_provenance.rs: tokens, their comparison, the class of a
      connection. ConnectionGate.v: the socket boundary of src/daemon/mod.rs and
      handlers.rs: a bounded line, a whole connection ([handle_connection]), and
      [daemon_event], the interleaving of connections, registrations and producers.
    - Basis.v, Settlement.v: src/basis.rs and src/settlement.rs.
    - Delegation.v: src/delegation/tracker.rs and types.rs and the delegation
      requests of the daemon; [run_tracker] in DelegationProps.v is any sequence of
      its operations.
    - Projection.v, Blackboard.v: src/blackboard/projection.rs and mod.rs: pages of a
      text by byte offsets, the table of expiring rows. Spill.v: the tools of
      src/ion_repl/tool_blackboard.rs, spilled outputs and claim summaries, and the
      claim flow of tool_claim.rs.
    - [...Facts], Evidence.v, EventText.v, RecordedRun.v, Mirror.v, ReloadRun.v,
      MemoryOps.v, MemoryDerive.v, MemoryDecision.v: lemmas, by component.
    - Sample.v, MemorySample.v, HandoffSample.v: concrete hosts and histories for the witnesses.
    - [...Props]: the theorems; a theorem with hypotheses is followed, at the end of
      its file, by [<name>_witness], which applies it to a concrete case.

    ** What the theorems show

    - Lifecycle (LifecycleProps, WorktreeProps, BuilderLoopProps, RunProps): an
      accepted run has its linked evidence, a settled review is final, mutations
      refine an abstract lifecycle and append one event each, histories are
      contiguous and bounded, staged worktrees stay
      until the review settles, only the accepted commit is promoted, claims
      escalate exactly at the limits, what registers can be launched, and
      [apply_mutation] never panics.
    - Ledger (LedgerProps): refinement of the runs, exactly-once requests, one
      receipt per revision, optimistic concurrency, commit or no change, for each
      decision what memory, file and answer are; a replaced worker is fenced out,
      except for the replay of what it committed before.
    - Reload (ReplayProps, ReloadProps): a run that loads has its evidence whoever
      wrote the file; whatever the operations wrote loads again.
    - Roles and breaker (RoleProps, BreakerProps, WiringProps).
    - Reservations (ReservationProps): at most one open per producer, every open
      one closed at start-up, effects recorded truly, the journal reloads.
    - Memory log (MemoryLogProps): the committed part is tamper-evident, an append
      is read back, the projection's fence holds.
    - Memory queue (MemoryStartProps, MemoryDeriveProps, MemoryQueueProps): start-up
      keeps every decision, accepted runs derive a candidate that never changes,
      unless they are profiled and claimed no commit; an acceptance queues it and a
      replay makes up for a lost one.
    - Decisions (MemoryDecisionProps): one receipt or no change, idempotence,
      reload, recovery of an interrupted promotion, dismissals touch only the
      queue, and what a promotion refused too late leaves behind.
    - Handoffs (HandoffProps, HandoffLedgerProps, HandoffMigration): a call is one
      step of the ledger machine and never passes silently; an accepted handoff is
      backed by its sources and, under the lock, final up to the normal form of its
      sources; the gate is exactly its specification;
      generations of shared artifacts lose no update; what was written is read back
      unless a source has whitespace at its ends, which can lock the ledger; older
      schemas keep every record. The ledger lock (HandoffLockProps): taking it ends,
      a dead owner is replaced, it excludes unless its file is read before its body
      is written, and then any two live processes can hold it.
    - Operator capability (ActorProvenanceProps, ConnectionGateProps): the byte loop
      decides equality, a client resolves the published token, the class of a
      connection rises exactly on it; a line is bounded, every connection is served
      to its end; from whatever ledger the daemon loads ([daemon_start]) and under any
      interleaving, no further run is accepted without the capability, and a
      connection that never had it leaves profiled runs alone, except that a
      registration can overtake the class check of a request sent before.
    - Settlements (BasisProps, SettlementProps): a captured basis is fresh exactly
      when every source reads as it did, or a ref or registry entry fails with the
      very text that was captured; the constructor of a record accepts exactly
      the complete comparisons; which records can be read back.
    - Delegations (DelegationProps): the tracker is bounded, what finished is final,
      when a delegation is refused and what makes room for one.
    - Blackboard (ProjectionProps, BlackboardProps, SpillProps): pages reassemble the
      text; a live entry stays and an expired one is absent, whenever rows are
      purged; a spilled output can be read back and its key survives compaction; a
      shortened claim is one the daemon admits, and a refused one leaves nothing.

    ** Parameters

    Code that is not the program's own is a parameter with the behaviour it
    documents: [Host] (RFC 3339 parsing, SHA-256, JSON bytes of a mutation, the
    Unicode table of alphanumerics) with [HostLaws]; [SerdeJson], [ReservationJson],
    [MemoryJson] and [CandidateJson] (the bytes serde writes), [MemoryJsonLaws]
    (an entry parses back from one line, sources determine what they cover);
    [GateJson] with [GateJsonLaws] (the JSON of a handoff ledger), [ClaimFields] (the
    fields serde reads of a claim), [GateWorld] (files and git as one handoff call
    sees them); [Storage] with [CanonicalPaths] (path canonicalization); [FreshIds] (uuids);
    [BasisWorld] (what files, git and JSON pointers answer); [HashOrder] (a hash map
    lists its values in some order); [PayloadJson] and [ConfigJson] (serde_json on
    payloads and configuration); [BoardFailures] (which SQLite actions fail); the
    parser of a request line and the formatting of instants. No law says that
    SHA-256 is injective: a theorem that needs it offers the two entries that
    collide instead. Clocks are arguments, and so is the outcome of every lock and
    write: an atomic replacement happens or not; an append may also be torn.

    ** Bounds

    Only [handle_connection] uses fuel, one unit for each line; one more than the
    bytes sent is enough ([connection_is_served]). Every other loop of the modelled
    code recurses on a list, the retry loop of the lock on the number of attempts
    left, and the search for a character boundary on the distance to either end of
    the text. The id counter of the delegation tracker wraps at 64 bits; its
    theorems are about fewer than 2^64 - 1 events.
    A [u64] or [usize] is a [Z]; additions the source checks are checked here
    ([u64_checked_add]), and the counters it does not check are bounded by limits
    proved of them.

    ** Not modelled

    Serde derivations (values, not texts, are stored); mutex poisoning and tracing;
    the inside of an atomic write and of the other locks. Whole components left out, because
    they are I/O, process control, rendering or text scoring around this core: the
    producers that run git and cargo (src/governed_producers.rs; their ledger
    requests are modelled), the schemas and JSON answers of the handoff tool, the
    other request families of the daemon, the set-up of its socket and the file of
    its capability, agent discovery and orchestration, retrieval and
    injection, model providers, the REPL, MCP and plugins, the surfaces and the
    desktop application. Candidates for an extension, in order: the agent registry
    (impulse-ops/src/agent_registry.rs), the registration and producer requests of the
    daemon in the detail of its mutations. *)
From stdpp Require Export base tactics list gmap option sorting pretty strings.
From Stdlib Require Export ZArith Lia.

#[global] Set Default Proof Using "Type".
#[global] Unset Program Cases.

(** * Fallible computations

    Rust's [Result<A, E>], with the monad operations in stdpp's notations, so
    that [x ← e; k] is [let x = e?; k] and [e ;; k] is [e?; k]. *)

Inductive result (E A : Type) : Type :=
  | Ok (a : A)
  | Err (e : E).
Arguments Ok {E A} a.
Arguments Err {E A} e.

#[export] Instance result_ret {E} : MRet (result E) := λ A a, Ok a.
#[export] Instance result_bind {E} : MBind (result E) := λ A B f m,
  match m with Ok a => f a | Err e => Err e end.
#[export] Instance result_fmap {E} : FMap (result E) := λ A B f m,
  match m with Ok a => Ok (f a) | Err e => Err e end.

#[export] Instance result_eq_dec {E A} `{EqDecision E, EqDecision A} :
  EqDecision (result E A).
Proof. solve_decision. Defined.

(** [map_err f r] is Rust's [r.map_err(f)]. *)
Definition map_err {E F A} (f : E → F) (m : result E A) : result F A :=
  match m with Ok a => Ok a | Err e => Err (f e) end.

(** [ok_or o e] is [o.ok_or(e)]. *)
Definition ok_or {E A} (o : option A) (e : E) : result E A :=
  match o with Some a => Ok a | None => Err e end.

(** [reject_if c e] is [if c { return Err(e) }]. *)
Definition reject_if {E} (c : bool) (e : E) : result E unit :=
  if c then Err e else Ok tt.

(** [for x in l { f(x)? }]. *)
Fixpoint for_each {E A} (f : A → result E unit) (l : list A) : result E unit :=
  match l with
  | [] => Ok tt
  | x :: l => f x ;; for_each f l
  end.

Definition is_ok {E A} (m : result E A) : bool :=
  match m with Ok _ => true | Err _ => false end.

Section result_lemmas.
Context {E : Type}.

Lemma bind_Ok {A B} (m : result E A) (f : A → result E B) b :
  m ≫= f = Ok b ↔ ∃ a, m = Ok a ∧ f a = Ok b.
Proof. destruct m; cbn; naive_solver. Qed.

Lemma bind_Err {A B} (m : result E A) (f : A → result E B) e :
  m ≫= f = Err e ↔ m = Err e ∨ ∃ a, m = Ok a ∧ f a = Err e.
Proof. destruct m; cbn; naive_solver. Qed.

Lemma bind_ret_l {A B} (a : A) (f : A → result E B) : Ok a ≫= f = f a.
Proof. done. Qed.

Lemma bind_assoc {A B C} (m : result E A) (f : A → result E B) (g : B → result E C) :
  (m ≫= f) ≫= g = m ≫= (λ a, f a ≫= g).
Proof. by destruct m. Qed.

Lemma reject_if_Ok (c : bool) (e : E) u : reject_if c e = Ok u ↔ c = false.
Proof. destruct c, u; cbn; naive_solver. Qed.

Lemma reject_if_Err (c : bool) (e e' : E) :
  reject_if c e = Err e' ↔ c = true ∧ e = e'.
Proof. destruct c; cbn; naive_solver. Qed.

Lemma ok_or_Ok {A} (o : option A) (e : E) a : ok_or o e = Ok a ↔ o = Some a.
Proof. destruct o; cbn; naive_solver. Qed.

Lemma ok_or_Err {A} (o : option A) (e e' : E) :
  ok_or o e = Err e' ↔ o = None ∧ e = e'.
Proof. destruct o; cbn; naive_solver. Qed.

Lemma map_err_Ok {F A} (f : E → F) (m : result E A) a :
  map_err f m = Ok a ↔ m = Ok a.
Proof. destruct m; cbn; naive_solver. Qed.

Lemma for_each_Ok {A} (f : A → result E unit) l u :
  for_each f l = Ok u ↔ Forall (λ x, f x = Ok tt) l.
Proof.
  destruct u. induction l as [|x l IH]; cbn; [by split; [constructor|]|].
  rewrite bind_Ok, Forall_cons, <-IH.
  split; [intros ([] & ? & ?); done|intros [??]; by exists tt].
Qed.

Lemma for_each_app {A} (f : A → result E unit) l k :
  for_each f (l ++ k) = (for_each f l ;; for_each f k).
Proof.
  induction l as [|x l IH]; cbn; [done|].
  destruct (f x) as [[]|]; cbn; [apply IH|done].
Qed.

Lemma map_err_Err {F A} (f : E → F) (m : result E A) e :
  map_err f m = Err e ↔ ∃ e', m = Err e' ∧ f e' = e.
Proof. destruct m; cbn; naive_solver. Qed.

Lemma for_each_Err {A} (f : A → result E unit) l e :
  for_each f l = Err e → ∃ x, x ∈ l ∧ f x = Err e.
Proof.
  induction l as [|x l IH]; [done|]. cbn [for_each].
  rewrite bind_Err. intros [H|([] & _ & H)].
  - exists x. split; [by left|done].
  - destruct (IH H) as (y & ? & ?). exists y. split; [by right|done].
Qed.

Lemma Ok_inj {A} (a b : A) : @Ok E A a = Ok b → a = b.
Proof. by intros [= ->]. Qed.

Lemma is_ok_true {A} (m : result E A) : is_ok m = true ↔ ∃ a, m = Ok a.
Proof. destruct m; cbn; naive_solver. Qed.
End result_lemmas.

(** [result_inv] turns every hypothesis that a monadic computation returned
    [Ok] into the facts that made it do so. *)
Ltac result_inv_step :=
  match goal with
  | H : Ok _ = Ok _ |- _ => apply Ok_inj in H; subst
  | H : Err _ = Ok _ |- _ => discriminate H
  | H : Ok _ = Err _ |- _ => discriminate H
  | H : mbind _ _ = Ok _ |- _ =>
      apply bind_Ok in H; destruct H as (? & ? & H)
  | H : reject_if _ _ = Ok _ |- _ => apply reject_if_Ok in H
  | H : ok_or _ _ = Ok _ |- _ => apply ok_or_Ok in H
  | H : map_err _ _ = Ok _ |- _ => apply map_err_Ok in H
  | H : for_each _ _ = Ok _ |- _ => apply for_each_Ok in H
  | H : mret _ = Ok _ |- _ => apply Ok_inj in H; subst
  | u : unit |- _ => destruct u
  end.
Ltac result_inv := repeat result_inv_step.

(** [error_inv] does the same for the error a computation returned: one goal
    for each place it may come from. *)
Ltac error_inv_step :=
  match goal with
  | H : Err _ = Err _ |- _ => injection H; clear H; intros; subst
  | H : Err _ = Ok _ |- _ => discriminate H
  | H : Ok _ = Err _ |- _ => discriminate H
  | H : mbind _ _ = Err _ |- _ => apply bind_Err in H; destruct H as [H|(? & ? & H)]
  | H : reject_if _ _ = Err _ |- _ => apply reject_if_Err in H; destruct H as [? H]; try subst
  | H : ok_or _ _ = Err _ |- _ => apply ok_or_Err in H; destruct H as [? H]; try subst
  | H : map_err _ _ = Err _ |- _ => apply map_err_Err in H; destruct H as (? & ? & H); try subst
  | H : for_each _ _ = Err _ |- _ => apply for_each_Err in H; destruct H as (? & ? & H)
  end.
Ltac error_inv := repeat error_inv_step.

(** [bool_inv] decomposes boolean facts into propositions. *)
Ltac bool_inv_step :=
  match goal with
  | H : (_ && _)%bool = true |- _ => apply andb_true_iff in H; destruct H
  | H : (_ || _)%bool = false |- _ => apply orb_false_iff in H; destruct H
  | H : (bool_decide _ || bool_decide _)%bool = true |- _ =>
      rewrite orb_true_iff, !bool_decide_eq_true in H
  | H : negb _ = true |- _ => apply negb_true_iff in H
  | H : negb _ = false |- _ => apply negb_false_iff in H
  | H : bool_decide _ = true |- _ => apply bool_decide_eq_true in H
  | H : bool_decide _ = false |- _ => apply bool_decide_eq_false in H
  | H : ¬ (_ ≠ _) |- _ => apply dec_stable in H
  | H : Is_true _ |- _ => apply Is_true_eq_true in H
  | H : (_ <? _)%Z = true |- _ => apply Z.ltb_lt in H
  | H : (_ <? _)%Z = false |- _ => apply Z.ltb_ge in H
  | H : (_ <=? _)%Z = true |- _ => apply Z.leb_le in H
  | H : (_ <=? _)%Z = false |- _ => apply Z.leb_gt in H
  | H : (_ =? _)%Z = true |- _ => apply Z.eqb_eq in H
  | H : (_ =? _)%Z = false |- _ => apply Z.eqb_neq in H
  end.
Ltac bool_inv := repeat bool_inv_step.

(** * Machine integers

    [u64], [usize] (64-bit targets) and [u32] values are [Z]s; the operations
    that can leave the range are written out. *)

Definition u64_max : Z := 2 ^ 64 - 1.

Definition u64_checked_add (a b : Z) : option Z :=
  if (a + b <=? u64_max)%Z then Some (a + b)%Z else None.
Definition u64_checked_sub (a b : Z) : option Z :=
  if (b <=? a)%Z then Some (a - b)%Z else None.
Definition usize_saturating_sub (a b : Z) : Z := Z.max 0 (a - b).
Definition usize_saturating_add (a b : Z) : Z := Z.min u64_max (a + b).

(** [zlen l] is [l.len()] of a Rust vector, a [usize]. *)
Definition zlen {A} (l : list A) : Z := Z.of_nat (length l).

Lemma zlen_nonneg {A} (l : list A) : (0 ≤ zlen l)%Z.
Proof. unfold zlen; lia. Qed.
Lemma zlen_nil {A} : zlen (@nil A) = 0%Z.
Proof. done. Qed.
Lemma zlen_cons {A} (x : A) l : zlen (x :: l) = (1 + zlen l)%Z.
Proof. unfold zlen; cbn [length]; lia. Qed.
Lemma zlen_app {A} (l k : list A) : zlen (l ++ k) = (zlen l + zlen k)%Z.
Proof. unfold zlen; rewrite length_app; lia. Qed.
Lemma zlen_snoc {A} (l : list A) x : zlen (l ++ [x]) = (zlen l + 1)%Z.
Proof. rewrite zlen_app; done. Qed.

Create HintDb impulse.
Create Rewrite HintDb impulse.
#[export] Hint Rewrite @zlen_nil @zlen_cons @zlen_snoc @zlen_app : impulse.
#[export] Hint Resolve zlen_nonneg : impulse.

Lemma u64_checked_add_Some a b c :
  u64_checked_add a b = Some c ↔ (c = a + b ∧ a + b ≤ u64_max)%Z.
Proof.
  unfold u64_checked_add. destruct (Z.leb_spec (a + b) u64_max); naive_solver lia.
Qed.

Lemma u64_checked_sub_Some a b c :
  u64_checked_sub a b = Some c ↔ (c = a - b ∧ b ≤ a)%Z.
Proof.
  unfold u64_checked_sub. destruct (Z.leb_spec b a); naive_solver lia.
Qed.

(** * Lists *)

(** [last_mut(|x| *x = f(x))] on a vector. *)
Definition map_last {A} (f : A → A) (l : list A) : list A :=
  match reverse l with
  | [] => []
  | x :: r => reverse r ++ [f x]
  end.

Lemma map_last_snoc {A} (f : A → A) l x : map_last f (l ++ [x]) = l ++ [f x].
Proof. unfold map_last. rewrite reverse_snoc. by rewrite reverse_involutive. Qed.

Lemma map_last_nil {A} (f : A → A) : map_last f [] = [].
Proof. done. Qed.

Lemma last_app_singleton {A} (l : list A) x : last (l ++ [x]) = Some x.
Proof. apply last_snoc. Qed.

#[export] Hint Rewrite @map_last_snoc @last_app_singleton : impulse.

Lemma last_elem_of {A} (l : list A) x : last l = Some x → x ∈ l.
Proof. intros [k ->]%last_Some. apply elem_of_app; right. by apply list_elem_of_singleton. Qed.

Lemma last_None_nil {A} (l : list A) : last l = None ↔ l = [].
Proof. apply last_None. Qed.

Lemma existsb_false_Forall {A} (p : A → bool) l :
  existsb p l = false ↔ Forall (λ x, p x = false) l.
Proof.
  induction l as [|x l IH]; cbn; [by split; [constructor|]|].
  rewrite orb_false_iff, Forall_cons, IH. done.
Qed.

Lemma forallb_true_Forall {A} (p : A → bool) l :
  forallb p l = true ↔ Forall (λ x, p x = true) l.
Proof.
  induction l as [|x l IH]; cbn; [by split; [constructor|]|].
  rewrite andb_true_iff, Forall_cons, IH. done.
Qed.

Lemma filter_none {A} (P : A → Prop) `{∀ a : A, Decision (P a)} (l : list A) :
  Forall (λ x, ¬ P x) l → filter P l = [].
Proof. induction 1 as [|x l Hx _ IH]; [done|]. by rewrite filter_cons_False. Qed.

(** [slice::sort_by] with the order [leb]: stable. *)
Section stable_sort.
Context {A : Type} (leb : A → A → bool).

Fixpoint sort_insert (x : A) (l : list A) : list A :=
  match l with
  | [] => [x]
  | y :: l' => if leb x y then x :: l else y :: sort_insert x l'
  end.
Definition stable_sort (l : list A) : list A := foldr sort_insert [] l.

Lemma sort_insert_perm x l : sort_insert x l ≡ₚ x :: l.
Proof.
  induction l as [|y l IH]; cbn; [done|].
  destruct (leb x y); [done|]. rewrite IH. apply Permutation_swap.
Qed.

Lemma stable_sort_perm l : stable_sort l ≡ₚ l.
Proof.
  induction l as [|x l IH]; cbn; [done|]. by rewrite sort_insert_perm, IH.
Qed.

Context (leb_total : ∀ x y, leb x y = true ∨ leb y x = true).
Context (leb_trans : ∀ x y z, leb x y = true → leb y z = true → leb x z = true).

Lemma sort_insert_sorted x l :
  StronglySorted (λ a b, leb a b = true) l →
  StronglySorted (λ a b, leb a b = true) (sort_insert x l).
Proof using leb_total leb_trans.
  induction 1 as [|y l Hl IH Hy]; cbn; [by repeat constructor|].
  destruct (leb x y) eqn:E.
  - constructor; [by constructor|]. constructor; [done|].
    eapply Forall_impl; [done|]. cbn. intros z Hz. by eapply leb_trans.
  - constructor; [done|]. rewrite sort_insert_perm. constructor; [|done].
    destruct (leb_total x y); congruence.
Qed.

Lemma stable_sort_sorted l : StronglySorted (λ a b, leb a b = true) (stable_sort l).
Proof using leb_total leb_trans.
  induction l; cbn; [constructor|by apply sort_insert_sorted].
Qed.

Context (leb_antisym : ∀ x y, leb x y = true → leb y x = true → x = y).

Lemma stable_sort_unique l k : l ≡ₚ k → stable_sort l = stable_sort k.
Proof using leb_total leb_trans leb_antisym.
  intros Hperm.
  apply (StronglySorted_unique_strong (λ a b, leb a b = true));
    [intros; by apply leb_antisym|apply stable_sort_sorted..|].
  by rewrite !stable_sort_perm.
Qed.
End stable_sort.

(** [BTreeMap] iteration: by increasing key. *)
Definition btree_items {K V} `{Countable K} (leb : K → K → bool) (m : gmap K V) : list (K * V) :=
  stable_sort (λ a b, leb a.1 b.1) (map_to_list m).

Lemma elem_of_btree_items {K V} `{Countable K} leb (m : gmap K V) k v :
  (k, v) ∈ btree_items leb m ↔ m !! k = Some v.
Proof. unfold btree_items. by rewrite stable_sort_perm, elem_of_map_to_list. Qed.

Lemma btree_items_perm {K V} `{Countable K} leb (m : gmap K V) :
  btree_items leb m ≡ₚ map_to_list m.
Proof. apply stable_sort_perm. Qed.
