(* ===== verification/RustStr.v ===== *)
(** Rust strings and Unix paths.

    A [String] is the list of its Unicode scalar values, and [bytes] is its
    UTF-8 encoding, so [len] counts bytes as Rust does while [chars] walks
    scalar values. The Unicode predicates the source uses are complete, except
    [char::is_alphanumeric], whose table above ASCII is a parameter. *)
From S2P Require Export Prelude.
Local Open Scope Z_scope.

(** * Strings *)

Abbreviation rstring := (list Z).

(** A string literal of the source. *)
Definition lit (s : string) : rstring :=
  (λ c, Z.of_nat (Ascii.nat_of_ascii c)) <$> String.list_ascii_of_string s.
Arguments lit s%_string.

(** [format!("{n}")] of an integer. *)
Definition show_Z (n : Z) : rstring := lit (pretty n).

Definition utf8_encode (c : Z) : list Z :=
  if c <? 128 then [c]
  else if c <? 2048 then [192 + c / 64; 128 + c mod 64]
  else if c <? 65536 then
    [224 + c / 4096; 128 + (c / 64) mod 64; 128 + c mod 64]
  else
    [240 + c / 262144; 128 + (c / 4096) mod 64; 128 + (c / 64) mod 64; 128 + c mod 64].

Definition bytes (s : rstring) : list Z := s ≫= utf8_encode.

(** [s.len()]: the number of UTF-8 bytes. *)
Definition len (s : rstring) : Z := zlen (bytes s).

Definition is_empty (s : rstring) : bool := match s with [] => true | _ => false end.

(** [char::is_whitespace]: the Unicode [White_Space] property. *)
Definition char_is_whitespace (c : Z) : bool :=
  ((9 <=? c) && (c <=? 13)) || (c =? 32) || (c =? 133) || (c =? 160)
  || (c =? 5760) || ((8192 <=? c) && (c <=? 8202)) || (c =? 8232)
  || (c =? 8233) || (c =? 8239) || (c =? 8287) || (c =? 12288).

(** [char::is_control]: the general category [Cc]. *)
Definition char_is_control (c : Z) : bool :=
  ((0 <=? c) && (c <=? 31)) || ((127 <=? c) && (c <=? 159)).

Definition is_ascii_digit (b : Z) : bool := (48 <=? b) && (b <=? 57).
Definition is_ascii_lower (b : Z) : bool := (97 <=? b) && (b <=? 122).
Definition is_ascii_upper (b : Z) : bool := (65 <=? b) && (b <=? 90).
Definition is_lower_hex_letter (b : Z) : bool := (97 <=? b) && (b <=? 102).
Definition is_ascii_hexdigit (b : Z) : bool :=
  is_ascii_digit b || is_lower_hex_letter b || ((65 <=? b) && (b <=? 70)).

(** [char::is_alphanumeric]: ASCII is decided here, the Unicode table above it
    is the standard library's. *)
Class UnicodeTables := unicode_alphanumeric : Z → bool.

Definition char_is_alphanumeric `{UnicodeTables} (c : Z) : bool :=
  if c <? 128 then is_ascii_digit c || is_ascii_lower c || is_ascii_upper c
  else unicode_alphanumeric c.

Fixpoint drop_while (p : Z → bool) (s : rstring) : rstring :=
  match s with
  | [] => []
  | c :: s' => if p c then drop_while p s' else s
  end.

Definition trim (s : rstring) : rstring :=
  reverse (drop_while char_is_whitespace (reverse (drop_while char_is_whitespace s))).

(** [s.contains('\0')]. *)
Definition contains_nul (s : rstring) : bool := existsb (Z.eqb 0) s.

Fixpoint strip_prefix (p s : rstring) : option rstring :=
  match p, s with
  | [], _ => Some s
  | a :: p', b :: s' => if a =? b then strip_prefix p' s' else None
  | _ :: _, [] => None
  end.

Definition starts_with (p s : rstring) : bool :=
  match strip_prefix p s with Some _ => true | None => false end.

(** [s.split('\n')] without the trailing newline handling of [lines]: the
    pieces between the separators. *)
Fixpoint split_on (sep : Z) (cur : rstring) (s : rstring) : list rstring :=
  match s with
  | [] => [reverse cur]
  | c :: s' => if c =? sep then reverse cur :: split_on sep [] s'
               else split_on sep (c :: cur) s'
  end.

Definition strip_trailing_cr (s : rstring) : rstring :=
  match reverse s with 13 :: r => reverse r | _ => s end.

(** [str::lines]: lines end with [\n] or [\r\n]; a final line without a newline
    is kept as it is, an empty one is dropped. *)
Definition str_lines (s : rstring) : list rstring :=
  match reverse (split_on 10 [] s) with
  | [] => []
  | final :: before =>
      (strip_trailing_cr <$> reverse before) ++
      (match final with [] => [] | _ => [final] end)
  end.

(** The order of [String]: lexicographic on bytes, which is the order on scalar
    values. *)
Fixpoint str_leb (a b : rstring) : bool :=
  match a, b with
  | [], _ => true
  | _ :: _, [] => false
  | x :: a', y :: b' => (x <? y) || ((x =? y) && str_leb a' b')
  end.

(** ** Lemmas *)

Lemma bytes_app s t : bytes (s ++ t) = bytes s ++ bytes t.
Proof. unfold bytes. by rewrite bind_app. Qed.

Lemma len_app s t : len (s ++ t) = len s + len t.
Proof. unfold len. by rewrite bytes_app, zlen_app. Qed.

Lemma utf8_encode_length c : (1 ≤ length (utf8_encode c) ≤ 4)%nat.
Proof. unfold utf8_encode. repeat case_match; cbn; lia. Qed.

Lemma len_cons c s : len (c :: s) = zlen (utf8_encode c) + len s.
Proof. unfold len, bytes. cbn. by rewrite zlen_app. Qed.

Lemma len_nonneg s : 0 ≤ len s.
Proof. apply zlen_nonneg. Qed.

Lemma len_bounds s : zlen s ≤ len s ≤ 4 * zlen s.
Proof.
  induction s as [|c s IH]; [done|].
  rewrite len_cons, zlen_cons.
  assert (1 ≤ zlen (utf8_encode c) ≤ 4)
    by (unfold zlen; pose proof (utf8_encode_length c); lia).
  lia.
Qed.

#[export] Hint Rewrite len_app : impulse.
#[export] Hint Resolve len_nonneg : impulse.

Lemma drop_while_nil p s : drop_while p s = [] ↔ Forall (λ c, p c = true) s.
Proof.
  induction s as [|c s IH]; cbn; [by split; [constructor|]|].
  rewrite Forall_cons. destruct (p c); naive_solver.
Qed.

Lemma drop_while_Forall p s :
  Forall (λ c, p c = true) s → drop_while p s = [].
Proof. apply drop_while_nil. Qed.

Lemma drop_while_suffix p s : ∃ t, s = t ++ drop_while p s ∧ Forall (λ c, p c = true) t.
Proof.
  induction s as [|c s (t & Heq & Ht)]; [by exists []|]. cbn.
  destruct (p c) eqn:Hc; [|by exists []].
  exists (c :: t). split; [cbn; by f_equal|by constructor].
Qed.

Lemma drop_while_In p s c : c ∈ drop_while p s → c ∈ s.
Proof.
  intros H. destruct (drop_while_suffix p s) as (t & Heq & _).
  rewrite Heq. apply elem_of_app. by right.
Qed.

Lemma trim_nil s : trim s = [] ↔ Forall (λ c, char_is_whitespace c = true) s.
Proof.
  unfold trim. split.
  - intros H%(f_equal reverse). rewrite reverse_involutive in H. cbn in H.
    rewrite drop_while_nil, Forall_reverse in H.
    destruct (drop_while_suffix char_is_whitespace s) as (t & Heq & Ht).
    rewrite Heq. by apply Forall_app.
  - intros H. by rewrite (drop_while_Forall _ s).
Qed.

Lemma is_empty_true s : is_empty s = true ↔ s = [].
Proof. by destruct s. Qed.

Lemma trim_nonblank s c : c ∈ s → char_is_whitespace c = false → is_empty (trim s) = false.
Proof.
  intros Hin Hc. destruct (is_empty (trim s)) eqn:E; [|done].
  apply is_empty_true, trim_nil in E. rewrite Forall_forall in E.
  rewrite E in Hc; done.
Qed.

Lemma contains_nul_app s t : contains_nul (s ++ t) = contains_nul s || contains_nul t.
Proof. apply existsb_app. Qed.

Lemma contains_nul_false s : contains_nul s = false ↔ Forall (λ c, c ≠ 0) s.
Proof.
  unfold contains_nul. rewrite existsb_false_Forall.
  apply Forall_iff; intros c. rewrite Z.eqb_neq. naive_solver.
Qed.

#[export] Hint Rewrite contains_nul_app : impulse.

Lemma strip_prefix_Some p s t : strip_prefix p s = Some t ↔ s = p ++ t.
Proof.
  revert s; induction p as [|a p IH]; intros s; cbn; [naive_solver|].
  destruct s as [|b s]; [naive_solver|].
  destruct (Z.eqb_spec a b); [subst; rewrite IH|]; naive_solver.
Qed.

Lemma strip_prefix_app p t : strip_prefix p (p ++ t) = Some t.
Proof. by apply strip_prefix_Some. Qed.

Lemma str_leb_refl a : str_leb a a = true.
Proof. induction a as [|x a IH]; cbn; [done|]. rewrite Z.eqb_refl, IH. by destruct (x <? x). Qed.

Lemma str_leb_total a b : str_leb a b = true ∨ str_leb b a = true.
Proof.
  revert b; induction a as [|x a IH]; intros [|y b]; cbn; [by left..|by right|].
  destruct (Z.ltb_spec x y), (Z.ltb_spec y x); cbn; [by left..|by right|].
  assert (x = y) as -> by lia. rewrite !Z.eqb_refl. cbn. apply IH.
Qed.

Lemma str_leb_trans a b c : str_leb a b = true → str_leb b c = true → str_leb a c = true.
Proof.
  revert b c; induction a as [|x a IH]; intros [|y b] [|z c]; cbn; try done.
  rewrite !orb_true_iff, !andb_true_iff, !Z.ltb_lt, !Z.eqb_eq.
  intros [|[-> ?]] [|[-> ?]]; [left; lia|left; lia|left; lia|right].
  split; [done|by eapply IH].
Qed.

Lemma str_leb_antisym a b : str_leb a b = true → str_leb b a = true → a = b.
Proof.
  revert b; induction a as [|x a IH]; intros [|y b]; cbn; try done.
  rewrite !orb_true_iff, !andb_true_iff, !Z.ltb_lt, !Z.eqb_eq.
  intros [|[-> ?]] [|[? ?]]; try lia. f_equal. by apply IH.
Qed.

Lemma elem_of_split_on sep cur s piece c :
  piece ∈ split_on sep cur s → c ∈ piece → c ∈ cur ∨ c ∈ s.
Proof.
  revert cur. induction s as [|x s IH]; intros cur; cbn.
  - rewrite list_elem_of_singleton. intros ->. rewrite elem_of_reverse. auto.
  - destruct (x =? sep).
    + intros [->|Hp]%elem_of_cons; [rewrite elem_of_reverse; auto|].
      intros Hc. destruct (IH [] Hp Hc) as [?%elem_of_nil|?]; [done|right; by right].
    + intros Hp Hc. destruct (IH (x :: cur) Hp Hc) as [[->|?]%elem_of_cons|?];
        [right; by left|by left|right; by right].
Qed.

Lemma ascii_bytes s : Forall (λ c, 0 ≤ c < 128) s → bytes s = s.
Proof.
  induction 1 as [|c s Hc Hs IH]; [done|]. cbn. unfold bytes in IH. rewrite IH.
  unfold utf8_encode. by destruct (Z.ltb_spec c 128); [|lia].
Qed.
