(* ===== verification/RustPath.v ===== *)
(** [std::path] on Unix: components, equality, [is_absolute] and [join].

    A path is the text it was made from; two paths are equal when their
    component sequences are. *)
From S2P Require Export RustStr.
Local Open Scope Z_scope.

Inductive Component : Type :=
  | Prefix
  | RootDir
  | CurDir
  | ParentDir
  | Normal (name : rstring).

#[export] Instance Component_eq_dec : EqDecision Component.
Proof. solve_decision. Defined.

Definition slash : Z := 47.

(** [Path::is_absolute] (a Unix path has a root exactly when it is absolute). *)
Definition path_is_absolute (p : rstring) : bool :=
  match p with c :: _ => c =? slash | [] => false end.

Definition component_of (piece : rstring) : option Component :=
  if bool_decide (piece = []) then None
  else if bool_decide (piece = lit ".") then None
  else if bool_decide (piece = lit "..") then Some ParentDir
  else Some (Normal piece).

(** [Path::components]: repeated separators and interior [.] are dropped, a
    leading [.] of a relative path is kept. *)
Definition path_components (p : rstring) : list Component :=
  let pieces := split_on slash [] p in
  if path_is_absolute p then RootDir :: omap component_of pieces
  else match pieces with
       | first :: rest =>
           if bool_decide (first = lit ".") then CurDir :: omap component_of rest
           else omap component_of pieces
       | [] => []
       end.

Definition path_eqb (a b : rstring) : bool :=
  bool_decide (path_components a = path_components b).

(** [Path::join]. *)
Definition path_join (base p : rstring) : rstring :=
  if path_is_absolute p then p
  else match last base with
       | Some c => if c =? slash then base ++ p else base ++ [slash] ++ p
       | None => p
       end.

(** ** Lemmas *)

Lemma split_on_app sep cur s t :
  split_on sep cur (s ++ sep :: t) = split_on sep cur s ++ split_on sep [] t.
Proof.
  revert cur; induction s as [|c s IH]; intros cur; cbn [split_on app].
  - by rewrite Z.eqb_refl.
  - destruct (c =? sep); cbn; by rewrite IH.
Qed.

Lemma split_on_none sep cur s :
  Forall (λ c, c ≠ sep) s → split_on sep cur s = [reverse cur ++ s].
Proof.
  intros H; revert cur; induction H as [|c s Hc Hs IH]; intros cur; cbn.
  - by rewrite app_nil_r.
  - destruct (Z.eqb_spec c sep); [done|]. rewrite IH, reverse_cons.
    by rewrite <-app_assoc.
Qed.

Lemma path_eqb_refl p : path_eqb p p = true.
Proof. unfold path_eqb. by rewrite bool_decide_eq_true. Qed.

Lemma path_is_absolute_app p q : path_is_absolute p = true → path_is_absolute (p ++ q) = true.
Proof. by destruct p. Qed.

Lemma path_join_absolute base p :
  path_is_absolute base = true → path_is_absolute (path_join base p) = true.
Proof.
  unfold path_join. destruct (path_is_absolute p) eqn:E; [done|]. intros H.
  destruct (last base) eqn:L.
  - case_match; by apply path_is_absolute_app.
  - apply last_None in L. by subst.
Qed.

(** Joining one ordinary segment to an absolute path adds one component. *)
Lemma path_components_join_segment base seg :
  path_is_absolute base = true →
  seg ≠ [] → seg ≠ lit "." → seg ≠ lit ".." → Forall (λ c, c ≠ slash) seg →
  path_components (path_join base seg) = path_components base ++ [Normal seg].
Proof.
  intros Habs H0 H1 H2 Hseg.
  assert (Hrel : path_is_absolute seg = false).
  { destruct seg as [|c seg]; [done|]. inversion Hseg; subst. cbn. by apply Z.eqb_neq. }
  assert (Hone : omap component_of (split_on slash [] seg) = [Normal seg]).
  { rewrite split_on_none by done. cbn. unfold component_of.
    by rewrite !bool_decide_eq_false_2. }
  unfold path_join. rewrite Hrel.
  destruct (last base) as [c|] eqn:L; [|apply last_None in L; by subst].
  apply last_Some in L as [k ->].
  unfold path_components. destruct (Z.eqb_spec c slash) as [->|Hc].
  - rewrite path_is_absolute_app, Habs by done.
    rewrite <-(app_assoc k [slash] seg). cbn [app]. rewrite split_on_app, omap_app, Hone.
    rewrite (split_on_app slash [] k []), omap_app. cbn. by rewrite app_nil_r.
  - rewrite path_is_absolute_app, Habs by done.
    cbn [app]. rewrite split_on_app, omap_app, Hone. done.
Qed.
