(* ===== verification/RoleAssignment.v ===== *)
(** Product roles and runtime capability enforcement
    (impulse-ops/src/role_assignment.rs).

    Identifiers are open strings validated at construction; an assignment lists
    the capabilities a role requires and [evaluate_role_compatibility] compares
    them with what a runtime declares, optionally raised by the world scope. *)
From S2P Require Export RustStr.
Local Open Scope Z_scope.

(** The filesystem authority of a run (declared in governed_task.rs). *)
Inductive WorldScope : Type :=
  | ReadOnlySnapshot
  | DisposableScratch
  | StagedAuthoritative
  | Authoritative.
#[export] Instance WorldScope_eq_dec : EqDecision WorldScope.
Proof. solve_decision. Defined.

Definition world_scope_as_str (s : WorldScope) : rstring :=
  match s with
  | ReadOnlySnapshot => lit "read_only_snapshot"
  | DisposableScratch => lit "disposable_scratch"
  | StagedAuthoritative => lit "staged_authoritative"
  | Authoritative => lit "authoritative"
  end.

Definition requires_staged_worktree (s : WorldScope) : bool :=
  match s with StagedAuthoritative => true | _ => false end.

Definition is_materializable (s : WorldScope) : bool :=
  match s with StagedAuthoritative | Authoritative => true | _ => false end.

Inductive RoleAssignmentError : Type :=
  | InvalidAgentRoleId (value : rstring)
  | InvalidRuntimeCapabilityId (value : rstring)
  | DuplicateRuntimeCapability (capability : rstring).

Definition is_valid_open_id (value : rstring) : bool :=
  negb (is_empty value)
  && negb (existsb (λ c, char_is_whitespace c || char_is_control c) value).

Definition AgentRoleId_try_new (value : rstring) : result RoleAssignmentError rstring :=
  reject_if (negb (is_valid_open_id value)) (InvalidAgentRoleId value) ;;
  Ok value.

Definition RuntimeCapabilityId_try_new (value : rstring) : result RoleAssignmentError rstring :=
  reject_if (negb (is_valid_open_id value)) (InvalidRuntimeCapabilityId value) ;;
  Ok value.

Inductive EnforcementStrength : Type :=
  | Unsupported
  | Advisory
  | Mediated
  | Structural.
#[export] Instance EnforcementStrength_eq_dec : EqDecision EnforcementStrength.
Proof. solve_decision. Defined.

(** The derived [Ord]: declaration order. *)
Definition strength_rank (e : EnforcementStrength) : Z :=
  match e with Unsupported => 0 | Advisory => 1 | Mediated => 2 | Structural => 3 end.
Definition strength_geb (a b : EnforcementStrength) : bool :=
  strength_rank b <=? strength_rank a.
Definition strength_max (a b : EnforcementStrength) : EnforcementStrength :=
  if strength_geb b a then b else a.

Record RuntimeCapabilitySupport := {
  support_capability : rstring;
  support_enforcement : EnforcementStrength
}.

Record RoleCapabilityRequirement := {
  requirement_capability : rstring;
  requirement_minimum_enforcement : EnforcementStrength;
  requirement_mandatory : bool
}.
#[export] Instance RoleCapabilityRequirement_eq_dec : EqDecision RoleCapabilityRequirement.
Proof. solve_decision. Defined.

Record AgentRoleAssignment := {
  assignment_role : rstring;
  assignment_requirements : list RoleCapabilityRequirement
}.
#[export] Instance AgentRoleAssignment_eq_dec : EqDecision AgentRoleAssignment.
Proof. solve_decision. Defined.

Definition GOVERNED_BUILDER_ROLE_ID : rstring := lit "builder".

Definition canonical_governed_builder_assignment : AgentRoleAssignment :=
  {| assignment_role := GOVERNED_BUILDER_ROLE_ID;
     assignment_requirements :=
       [ {| requirement_capability := lit "workspace.target";
            requirement_minimum_enforcement := Mediated;
            requirement_mandatory := true |};
         {| requirement_capability := lit "process.lifecycle";
            requirement_minimum_enforcement := Mediated;
            requirement_mandatory := true |};
         {| requirement_capability := lit "filesystem.scoped";
            requirement_minimum_enforcement := Structural;
            requirement_mandatory := false |} ] |}.

Definition FILESYSTEM_SCOPED_CAPABILITY : rstring := lit "filesystem.scoped".

Definition world_scope_filesystem_enforcement (scope : WorldScope) : EnforcementStrength :=
  match scope with
  | StagedAuthoritative => Mediated
  | ReadOnlySnapshot | DisposableScratch | Authoritative => Unsupported
  end.

Definition world_scope_capability_support (scope : WorldScope) : list RuntimeCapabilitySupport :=
  let enforcement := world_scope_filesystem_enforcement scope in
  if bool_decide (enforcement = Unsupported) then []
  else [ {| support_capability := FILESYSTEM_SCOPED_CAPABILITY;
            support_enforcement := enforcement |} ].

Record CapabilityCompatibility := {
  check_capability : rstring;
  check_required : EnforcementStrength;
  check_available : EnforcementStrength;
  check_mandatory : bool
}.
#[export] Instance CapabilityCompatibility_eq_dec : EqDecision CapabilityCompatibility.
Proof. solve_decision. Defined.

Definition is_satisfied (c : CapabilityCompatibility) : bool :=
  strength_geb (check_available c) (check_required c).

Record RoleCompatibility := {
  compat_platform : rstring;
  compat_role : rstring;
  compat_checks : list CapabilityCompatibility
}.
#[export] Instance RoleCompatibility_eq_dec : EqDecision RoleCompatibility.
Proof. solve_decision. Defined.

Definition launch_allowed (r : RoleCompatibility) : bool :=
  forallb (λ c, negb (check_mandatory c) || is_satisfied c) (compat_checks r).
Definition is_blocked (r : RoleCompatibility) : bool := negb (launch_allowed r).
Definition is_degraded (r : RoleCompatibility) : bool :=
  launch_allowed r && existsb (λ c, negb (is_satisfied c)) (compat_checks r).

(** The duplicate scan of [evaluate_role_compatibility]: [seen] is the slice
    before the current index. *)
Fixpoint reject_duplicate_support (seen rest : list RuntimeCapabilitySupport)
    : result RoleAssignmentError unit :=
  match rest with
  | [] => Ok tt
  | support :: rest =>
      reject_if
        (existsb (λ previous, bool_decide
           (support_capability previous = support_capability support)) seen)
        (DuplicateRuntimeCapability (support_capability support)) ;;
      reject_duplicate_support (seen ++ [support]) rest
  end.

Definition available_enforcement (declared : list RuntimeCapabilitySupport)
    (capability : rstring) : EnforcementStrength :=
  foldr strength_max Unsupported
    (support_enforcement <$>
       filter (λ support, support_capability support = capability) declared).

Definition evaluate_role_compatibility (platform : rstring)
    (declared : list RuntimeCapabilitySupport) (assignment : AgentRoleAssignment)
    : result RoleAssignmentError RoleCompatibility :=
  reject_duplicate_support [] declared ;;
  Ok {| compat_platform := platform;
        compat_role := assignment_role assignment;
        compat_checks :=
          (λ requirement,
             {| check_capability := requirement_capability requirement;
                check_required := requirement_minimum_enforcement requirement;
                check_available :=
                  available_enforcement declared (requirement_capability requirement);
                check_mandatory := requirement_mandatory requirement |})
          <$> assignment_requirements assignment |}.

(** [merged.iter_mut().find(..)]: raise the first declaration of the capability,
    or append the contribution. *)
Fixpoint merge_support (support : RuntimeCapabilitySupport)
    (merged : list RuntimeCapabilitySupport) : list RuntimeCapabilitySupport :=
  match merged with
  | [] => [support]
  | declared :: rest =>
      if bool_decide (support_capability declared = support_capability support) then
        {| support_capability := support_capability declared;
           support_enforcement :=
             strength_max (support_enforcement declared) (support_enforcement support) |} :: rest
      else declared :: merge_support support rest
  end.

Definition evaluate_role_compatibility_in_world (platform : rstring)
    (declared : list RuntimeCapabilitySupport) (assignment : AgentRoleAssignment)
    (scope : WorldScope) : result RoleAssignmentError RoleCompatibility :=
  let scoped := world_scope_capability_support scope in
  match scoped with
  | [] => evaluate_role_compatibility platform declared assignment
  | _ =>
      let merged := foldl (λ merged support, merge_support support merged) declared scoped in
      evaluate_role_compatibility platform merged assignment
  end.
