(* ===== verification/Contract.v ===== *)
(** The durable contract of governed task runs (impulse-ops/src/governed_task.rs):
    identifiers, the registration and its validation, the records of a run, the
    mutations a caller may request and the read-only projections of a run.

    A field [f] of the source record [GovernedTaskRun] is [run_f] here, and the
    other records follow the same scheme with their own prefix. Constructors of
    two enumerations that share a name in the source carry a prefix: the event
    kinds are [Event...], the supervisor's [ChangesRequested] verdict is
    [VerdictChangesRequested]. The newtype ids are the validated text itself. *)
From S2P Require Export RustPath RoleAssignment.
Local Open Scope Z_scope.

Definition MAX_GOVERNED_TASK_BYTES : Z := 8 * 1024.
Definition MAX_ACCEPTANCE_CRITERIA : Z := 64.
Definition MAX_GOVERNED_TEXT_BYTES : Z := 16 * 1024.
Definition MAX_GOVERNED_REFERENCES : Z := 64.
Definition MAX_GOVERNED_COMMANDS : Z := 64.
Definition MAX_GOVERNED_COMMAND_ARGS : Z := 256.
Definition MAX_GOVERNED_REFERENCE_BYTES : Z := 4 * 1024.
Definition MAX_GOVERNED_COMMAND_ARG_BYTES : Z := 16 * 1024.
Definition MAX_GOVERNED_RECORDS_PER_KIND : Z := 256.
Definition MAX_GOVERNED_EVENTS : Z := 1024.
Definition GOVERNED_SUPERVISOR_REVIEW_CONTRACT_VERSION : rstring := lit "1".
Definition MAX_PROFILED_TASK_BYTES : Z := 2 * 1024.
Definition MAX_PROFILED_ACCEPTANCE_CRITERIA : Z := 16.
Definition MAX_PROFILED_ACCEPTANCE_CRITERION_BYTES : Z := 512.
Definition MAX_PROFILED_CLAIM_SUMMARY_BYTES : Z := 4 * 1024.

(** [str::parse::<u64>]: an optional [+], then at least one digit, in range. *)
Fixpoint parse_digits (acc : Z) (s : rstring) : option Z :=
  match s with
  | [] => Some acc
  | c :: s =>
      if is_ascii_digit c then
        let acc := 10 * acc + (c - 48) in
        if acc <=? u64_max then parse_digits acc s else None
      else None
  end.
Definition parse_u64 (s : rstring) : option Z :=
  match s with
  | [] => None
  | 43 :: [] => None
  | 43 :: s => parse_digits 0 s
  | s => parse_digits 0 s
  end.

(** [env] is the value of the lease-generation variable, if it is set. *)
Definition lease_generation_from_env (env : option rstring) : option Z :=
  env ≫= λ value, parse_u64 (trim value).

Inductive GovernedTaskContractError : Type :=
  | InvalidId (kind value : rstring)
  | InvalidField (field message : rstring).
#[export] Instance GovernedTaskContractError_eq_dec : EqDecision GovernedTaskContractError.
Proof. solve_decision. Defined.

Abbreviation contract_result := (result GovernedTaskContractError).

Definition validate_open_id (kind value : rstring) : contract_result rstring :=
  reject_if
    (is_empty value || (256 <? len value)
     || existsb (λ c, char_is_whitespace c || char_is_control c) value)
    (InvalidId kind value) ;;
  Ok value.

Definition GovernedTaskId_try_new (value : rstring) : contract_result rstring :=
  validate_open_id (lit "governed_task_id") value.
Definition GovernedRequestId_try_new (value : rstring) : contract_result rstring :=
  validate_open_id (lit "governed_request_id") value.
Definition GovernedRecordId_try_new (value : rstring) : contract_result rstring :=
  validate_open_id (lit "governed_record_id") value.

Inductive ApprovalPolicy : Type := OperatorRequired.
#[export] Instance ApprovalPolicy_eq_dec : EqDecision ApprovalPolicy.
Proof. solve_decision. Defined.

Inductive GovernedVerificationProfile : Type := RustWorkspaceV1.
#[export] Instance GovernedVerificationProfile_eq_dec : EqDecision GovernedVerificationProfile.
Proof. solve_decision. Defined.

(** * Actors and lifecycle states *)

Inductive GovernedActorKind : Type :=
  | System | Worker | Verifier | Supervisor | Operator.
#[export] Instance GovernedActorKind_eq_dec : EqDecision GovernedActorKind.
Proof. solve_decision. Defined.

Record GovernedActor := { actor_kind : GovernedActorKind; actor_id : rstring }.
#[export] Instance GovernedActor_eq_dec : EqDecision GovernedActor.
Proof. solve_decision. Defined.

Inductive GovernedExecutionState : Type :=
  | Registered | Running | LaunchFailed | RuntimeExited.
#[export] Instance GovernedExecutionState_eq_dec : EqDecision GovernedExecutionState.
Proof. solve_decision. Defined.

Inductive GovernedExitKind : Type :=
  | Natural | OperatorCancelled | Timeout | Crashed.
#[export] Instance GovernedExitKind_eq_dec : EqDecision GovernedExitKind.
Proof. solve_decision. Defined.

Inductive GovernedReviewState : Type :=
  | AwaitingClaim
  | AwaitingVerification
  | VerificationFailed
  | AwaitingSupervisor
  | ChangesRequested
  | Escalated
  | AwaitingOperator
  | Accepted
  | Rejected.
#[export] Instance GovernedReviewState_eq_dec : EqDecision GovernedReviewState.
Proof. solve_decision. Defined.

(** * Staged worktrees and promotion *)

Inductive StagedWorktreeStatus : Type := Active | Discarded.
#[export] Instance StagedWorktreeStatus_eq_dec : EqDecision StagedWorktreeStatus.
Proof. solve_decision. Defined.

Inductive SharedConfigComponent : Type :=
  | RepositoryConfig | WorktreeConfig | InfoAttributes.
#[export] Instance SharedConfigComponent_eq_dec : EqDecision SharedConfigComponent.
Proof. solve_decision. Defined.

Definition shared_config_component_as_str (c : SharedConfigComponent) : rstring :=
  match c with
  | RepositoryConfig => lit ".git/config"
  | WorktreeConfig => lit ".git/config.worktree"
  | InfoAttributes => lit ".git/info/attributes"
  end.

Definition SHARED_REPOSITORY_CONFIG_SCHEME_VERSION : Z := 3.
Definition LEGACY_SHARED_REPOSITORY_CONFIG_SCHEME_VERSION : Z := 0.

Record SharedRepositoryConfigDigest := {
  digest_scheme_version : Z;
  digest_repository_config : rstring;
  digest_worktree_config : option rstring;
  digest_info_attributes : option rstring
}.
#[export] Instance SharedRepositoryConfigDigest_eq_dec : EqDecision SharedRepositoryConfigDigest.
Proof. solve_decision. Defined.

Definition digest_current (repository_config : rstring)
    (worktree_config info_attributes : option rstring) : SharedRepositoryConfigDigest :=
  {| digest_scheme_version := SHARED_REPOSITORY_CONFIG_SCHEME_VERSION;
     digest_repository_config := repository_config;
     digest_worktree_config := worktree_config;
     digest_info_attributes := info_attributes |}.

Definition is_current_scheme (d : SharedRepositoryConfigDigest) : bool :=
  digest_scheme_version d =? SHARED_REPOSITORY_CONFIG_SCHEME_VERSION.

Definition first_difference (a b : SharedRepositoryConfigDigest) : option SharedConfigComponent :=
  if bool_decide (digest_repository_config a ≠ digest_repository_config b) then
    Some RepositoryConfig
  else if bool_decide (digest_worktree_config a ≠ digest_worktree_config b) then
    Some WorktreeConfig
  else if bool_decide (digest_info_attributes a ≠ digest_info_attributes b) then
    Some InfoAttributes
  else None.

Inductive SharedRepositoryConfigPin : Type :=
  | Recorded (digest : SharedRepositoryConfigDigest)
  | Unknown.
#[export] Instance SharedRepositoryConfigPin_eq_dec : EqDecision SharedRepositoryConfigPin.
Proof. solve_decision. Defined.

Definition pin_recorded (p : SharedRepositoryConfigPin) : option SharedRepositoryConfigDigest :=
  match p with Recorded d => Some d | Unknown => None end.
Definition pin_comparable (p : SharedRepositoryConfigPin) : option SharedRepositoryConfigDigest :=
  match pin_recorded p with
  | Some d => if is_current_scheme d then Some d else None
  | None => None
  end.
Definition pin_is_comparable (p : SharedRepositoryConfigPin) : bool :=
  match pin_comparable p with Some _ => true | None => false end.

Record StagedWorktree := {
  staged_id : rstring;
  staged_actor : GovernedActor;
  staged_root : rstring;
  staged_initial_subject_revision : rstring;
  staged_shared_config_digest : SharedRepositoryConfigPin;
  staged_status : StagedWorktreeStatus;
  staged_materialized_at : rstring;
  staged_based_on_revision : Z
}.
#[export] Instance StagedWorktree_eq_dec : EqDecision StagedWorktree.
Proof. solve_decision. Defined.

Record StagedWorktreeInput := {
  staged_input_actor : GovernedActor;
  staged_input_root : rstring;
  staged_input_initial_subject_revision : rstring;
  staged_input_shared_config_digest : SharedRepositoryConfigPin
}.
#[export] Instance StagedWorktreeInput_eq_dec : EqDecision StagedWorktreeInput.
Proof. solve_decision. Defined.

Inductive PromotionBlockedReason : Type :=
  | CanonicalHeadMoved
  | DetachedHead
  | ConcurrentBranchUpdate
  | RepositoryConfigChanged (component : SharedConfigComponent)
  | RepositoryConfigUnpinned.
#[export] Instance PromotionBlockedReason_eq_dec : EqDecision PromotionBlockedReason.
Proof. solve_decision. Defined.

Definition promotion_blocked_reason_as_str (r : PromotionBlockedReason) : rstring :=
  match r with
  | CanonicalHeadMoved => lit "canonical_head_moved"
  | DetachedHead => lit "detached_head"
  | ConcurrentBranchUpdate => lit "concurrent_branch_update"
  | RepositoryConfigChanged _ => lit "repository_config_changed"
  | RepositoryConfigUnpinned => lit "repository_config_unpinned"
  end.

(** The [Display] text. *)
Definition show_blocked_reason (r : PromotionBlockedReason) : rstring :=
  match r with
  | RepositoryConfigChanged component =>
      promotion_blocked_reason_as_str r ++ lit " changed ("
        ++ shared_config_component_as_str component ++ lit ")"
  | other => promotion_blocked_reason_as_str other
  end.

Inductive GovernedPromotionOutcome : Type :=
  | Promoted (promoted_revision : rstring)
  | PromotionBlocked (canonical_head : rstring) (reason : PromotionBlockedReason).
#[export] Instance GovernedPromotionOutcome_eq_dec : EqDecision GovernedPromotionOutcome.
Proof. solve_decision. Defined.

Definition is_promoted (o : GovernedPromotionOutcome) : bool :=
  match o with Promoted _ => true | PromotionBlocked _ _ => false end.
Definition blocked_reason (o : GovernedPromotionOutcome) : option PromotionBlockedReason :=
  match o with Promoted _ => None | PromotionBlocked _ reason => Some reason end.

Record GovernedPromotionInput := {
  promotion_input_actor : GovernedActor;
  promotion_input_accepted_revision : rstring;
  promotion_input_initial_subject_revision : rstring;
  promotion_input_outcome : GovernedPromotionOutcome
}.
#[export] Instance GovernedPromotionInput_eq_dec : EqDecision GovernedPromotionInput.
Proof. solve_decision. Defined.

Record GovernedPromotion := {
  promotion_id : rstring;
  promotion_actor : GovernedActor;
  promotion_accepted_revision : rstring;
  promotion_initial_subject_revision : rstring;
  promotion_outcome : GovernedPromotionOutcome;
  promotion_recorded_at : rstring;
  promotion_based_on_revision : Z
}.
#[export] Instance GovernedPromotion_eq_dec : EqDecision GovernedPromotion.
Proof. solve_decision. Defined.

(** * Claims, verifications, verdicts and decisions *)

Record WorkerCompletionClaimInput := {
  claim_input_actor : GovernedActor;
  claim_input_summary : rstring;
  claim_input_subject_revision : rstring;
  claim_input_artifact_ids : list rstring;
  claim_input_diff_ref : option rstring
}.
#[export] Instance WorkerCompletionClaimInput_eq_dec : EqDecision WorkerCompletionClaimInput.
Proof. solve_decision. Defined.

Record WorkerCompletionClaim := {
  claim_id : rstring;
  claim_actor : GovernedActor;
  claim_summary : rstring;
  claim_subject_revision : rstring;
  claim_artifact_ids : list rstring;
  claim_diff_ref : option rstring;
  claim_loop_report_digest : option rstring;
  claim_loop_report_version : option Z;
  claim_submitted_at : rstring;
  claim_based_on_revision : Z
}.
#[export] Instance WorkerCompletionClaim_eq_dec : EqDecision WorkerCompletionClaim.
Proof. solve_decision. Defined.

Record GovernedCommandEvidence := {
  command_name : rstring;
  command_executable : rstring;
  command_redacted_args : list rstring;
  command_command_digest : rstring;
  command_exit_code : option Z;
  command_success : bool;
  command_output_digest : rstring;
  command_output_ref : option rstring;
  command_output_bytes : Z;
  command_output_truncated : bool
}.
#[export] Instance GovernedCommandEvidence_eq_dec : EqDecision GovernedCommandEvidence.
Proof. solve_decision. Defined.

Inductive GovernedVerificationOutcome : Type := Passed | Failed | Inconclusive.
#[export] Instance GovernedVerificationOutcome_eq_dec : EqDecision GovernedVerificationOutcome.
Proof. solve_decision. Defined.

Record GovernedVerificationInput := {
  verification_input_actor : GovernedActor;
  verification_input_claim_id : rstring;
  verification_input_subject_revision : rstring;
  verification_input_policy : rstring;
  verification_input_outcome : GovernedVerificationOutcome;
  verification_input_commands : list GovernedCommandEvidence;
  verification_input_artifact_ids : list rstring;
  verification_input_notes : option rstring
}.
#[export] Instance GovernedVerificationInput_eq_dec : EqDecision GovernedVerificationInput.
Proof. solve_decision. Defined.

Record GovernedVerification := {
  verification_id : rstring;
  verification_actor : GovernedActor;
  verification_claim_id : rstring;
  verification_subject_revision : rstring;
  verification_policy : rstring;
  verification_outcome : GovernedVerificationOutcome;
  verification_commands : list GovernedCommandEvidence;
  verification_artifact_ids : list rstring;
  verification_notes : option rstring;
  verification_recorded_at : rstring;
  verification_based_on_revision : Z
}.
#[export] Instance GovernedVerification_eq_dec : EqDecision GovernedVerification.
Proof. solve_decision. Defined.

Inductive SupervisorVerdictKind : Type :=
  | RecommendAccept | VerdictChangesRequested | Escalate.
#[export] Instance SupervisorVerdictKind_eq_dec : EqDecision SupervisorVerdictKind.
Proof. solve_decision. Defined.

Record SupervisorVerdictInput := {
  verdict_input_actor : GovernedActor;
  verdict_input_verification_id : rstring;
  verdict_input_verdict : SupervisorVerdictKind;
  verdict_input_rationale : rstring
}.
#[export] Instance SupervisorVerdictInput_eq_dec : EqDecision SupervisorVerdictInput.
Proof. solve_decision. Defined.

Record SupervisorVerdict := {
  verdict_id : rstring;
  verdict_actor : GovernedActor;
  verdict_verification_id : rstring;
  verdict_verdict : SupervisorVerdictKind;
  verdict_rationale : rstring;
  verdict_decided_at : rstring;
  verdict_based_on_revision : Z
}.
#[export] Instance SupervisorVerdict_eq_dec : EqDecision SupervisorVerdict.
Proof. solve_decision. Defined.

Inductive OperatorDecisionKind : Type := Approve | Reject.
#[export] Instance OperatorDecisionKind_eq_dec : EqDecision OperatorDecisionKind.
Proof. solve_decision. Defined.

Record OperatorDecisionInput := {
  decision_input_actor : GovernedActor;
  decision_input_supervisor_verdict_id : rstring;
  decision_input_decision : OperatorDecisionKind;
  decision_input_rationale : rstring
}.
#[export] Instance OperatorDecisionInput_eq_dec : EqDecision OperatorDecisionInput.
Proof. solve_decision. Defined.

Inductive OperatorAuthentication : Type := Declared | CapabilityAuthenticated.
#[export] Instance OperatorAuthentication_eq_dec : EqDecision OperatorAuthentication.
Proof. solve_decision. Defined.

Record OperatorDecision := {
  decision_id : rstring;
  decision_actor : GovernedActor;
  decision_supervisor_verdict_id : rstring;
  decision_decision : OperatorDecisionKind;
  decision_rationale : rstring;
  decision_decided_at : rstring;
  decision_based_on_revision : Z;
  decision_authentication : OperatorAuthentication
}.
#[export] Instance OperatorDecision_eq_dec : EqDecision OperatorDecision.
Proof. solve_decision. Defined.

(** * Mutations and their requests *)

Inductive GovernedTaskMutation : Type :=
  | MarkRunning (actor : GovernedActor)
  | MarkLaunchFailed (actor : GovernedActor) (reason : rstring)
  | MarkRuntimeExited (actor : GovernedActor) (reason : option rstring)
      (exit_kind : GovernedExitKind)
  | MaterializeStagedWorktree (staged : StagedWorktreeInput)
  | DiscardStagedWorktree (actor : GovernedActor) (reason : rstring)
  | SubmitClaim (claim : WorkerCompletionClaimInput)
  | RecordVerification (verification : GovernedVerificationInput)
  | RecordSupervisorVerdict (verdict : SupervisorVerdictInput)
  | RecordOperatorDecision (decision : OperatorDecisionInput)
  | NoteProducerReservationInterrupted (actor : GovernedActor) (reason : rstring)
  | RecordPromotion (promotion : GovernedPromotionInput)
  | TakeOverWorker (actor : GovernedActor) (reason : rstring).
#[export] Instance GovernedTaskMutation_eq_dec : EqDecision GovernedTaskMutation.
Proof. solve_decision. Defined.

Record GovernedTaskMutationRequest := {
  request_request_id : rstring;
  request_project_id : rstring;
  request_task_id : rstring;
  request_expected_revision : Z;
  request_mutation : GovernedTaskMutation;
  request_fencing_generation : option Z
}.

Inductive GovernedTaskEventKind : Type :=
  | EventRegistered
  | EventStagedWorktreeMaterialized
  | EventStagedWorktreeDiscarded
  | EventRunning
  | EventLaunchFailed
  | EventRuntimeExited
  | EventClaimSubmitted
  | EventLoopTripped
  | EventVerificationRecorded
  | EventSupervisorVerdictRecorded
  | EventOperatorDecisionRecorded
  | EventProducerReservationInterrupted
  | EventPromotionRecorded
  | EventWorkerTakenOver.
#[export] Instance GovernedTaskEventKind_eq_dec : EqDecision GovernedTaskEventKind.
Proof. solve_decision. Defined.

Record GovernedTaskEvent := {
  event_id : rstring;
  event_revision : Z;
  event_kind : GovernedTaskEventKind;
  event_actor : GovernedActor;
  event_detail : rstring;
  event_created_at : rstring
}.
#[export] Instance GovernedTaskEvent_eq_dec : EqDecision GovernedTaskEvent.
Proof. solve_decision. Defined.

Definition set_event_revision (r : Z) (e : GovernedTaskEvent) : GovernedTaskEvent :=
  {| event_id := event_id e; event_revision := r; event_kind := event_kind e;
     event_actor := event_actor e; event_detail := event_detail e;
     event_created_at := event_created_at e |}.

(** * The run record *)

Record GovernedTaskRun := {
  run_id : rstring;
  run_revision : Z;
  run_project_id : rstring;
  run_workspace_root : rstring;
  run_task : rstring;
  run_acceptance_criteria : list rstring;
  run_approval_policy : ApprovalPolicy;
  run_world_scope : WorldScope;
  run_verification_profile : option GovernedVerificationProfile;
  run_role_assignment : option AgentRoleAssignment;
  run_role_compatibility : option RoleCompatibility;
  run_runtime_id : rstring;
  run_agent_id : rstring;
  run_session_id : option rstring;
  run_initial_subject_revision : option rstring;
  run_staged_worktree : option StagedWorktree;
  run_promotions : list GovernedPromotion;
  run_execution_state : GovernedExecutionState;
  run_exit_kind : GovernedExitKind;
  run_review_state : GovernedReviewState;
  run_claims : list WorkerCompletionClaim;
  run_verifications : list GovernedVerification;
  run_supervisor_verdicts : list SupervisorVerdict;
  run_operator_decisions : list OperatorDecision;
  run_events : list GovernedTaskEvent;
  run_created_at : rstring;
  run_updated_at : rstring
}.

(** Field assignments on [&mut GovernedTaskRun]. *)
Definition set_revision (revision' : Z) (t : GovernedTaskRun) : GovernedTaskRun :=
  {| run_id := run_id t; run_revision := revision'; run_project_id := run_project_id t;
     run_workspace_root := run_workspace_root t; run_task := run_task t;
     run_acceptance_criteria := run_acceptance_criteria t;
     run_approval_policy := run_approval_policy t; run_world_scope := run_world_scope t;
     run_verification_profile := run_verification_profile t;
     run_role_assignment := run_role_assignment t;
     run_role_compatibility := run_role_compatibility t; run_runtime_id := run_runtime_id t;
     run_agent_id := run_agent_id t; run_session_id := run_session_id t;
     run_initial_subject_revision := run_initial_subject_revision t;
     run_staged_worktree := run_staged_worktree t; run_promotions := run_promotions t;
     run_execution_state := run_execution_state t; run_exit_kind := run_exit_kind t;
     run_review_state := run_review_state t; run_claims := run_claims t;
     run_verifications := run_verifications t;
     run_supervisor_verdicts := run_supervisor_verdicts t;
     run_operator_decisions := run_operator_decisions t; run_events := run_events t;
     run_created_at := run_created_at t; run_updated_at := run_updated_at t |}.
Definition set_staged_worktree (staged_worktree' : option StagedWorktree) (t : GovernedTaskRun) : GovernedTaskRun :=
  {| run_id := run_id t; run_revision := run_revision t; run_project_id := run_project_id t;
     run_workspace_root := run_workspace_root t; run_task := run_task t;
     run_acceptance_criteria := run_acceptance_criteria t;
     run_approval_policy := run_approval_policy t; run_world_scope := run_world_scope t;
     run_verification_profile := run_verification_profile t;
     run_role_assignment := run_role_assignment t;
     run_role_compatibility := run_role_compatibility t; run_runtime_id := run_runtime_id t;
     run_agent_id := run_agent_id t; run_session_id := run_session_id t;
     run_initial_subject_revision := run_initial_subject_revision t;
     run_staged_worktree := staged_worktree'; run_promotions := run_promotions t;
     run_execution_state := run_execution_state t; run_exit_kind := run_exit_kind t;
     run_review_state := run_review_state t; run_claims := run_claims t;
     run_verifications := run_verifications t;
     run_supervisor_verdicts := run_supervisor_verdicts t;
     run_operator_decisions := run_operator_decisions t; run_events := run_events t;
     run_created_at := run_created_at t; run_updated_at := run_updated_at t |}.
Definition set_promotions (promotions' : list GovernedPromotion) (t : GovernedTaskRun) : GovernedTaskRun :=
  {| run_id := run_id t; run_revision := run_revision t; run_project_id := run_project_id t;
     run_workspace_root := run_workspace_root t; run_task := run_task t;
     run_acceptance_criteria := run_acceptance_criteria t;
     run_approval_policy := run_approval_policy t; run_world_scope := run_world_scope t;
     run_verification_profile := run_verification_profile t;
     run_role_assignment := run_role_assignment t;
     run_role_compatibility := run_role_compatibility t; run_runtime_id := run_runtime_id t;
     run_agent_id := run_agent_id t; run_session_id := run_session_id t;
     run_initial_subject_revision := run_initial_subject_revision t;
     run_staged_worktree := run_staged_worktree t; run_promotions := promotions';
     run_execution_state := run_execution_state t; run_exit_kind := run_exit_kind t;
     run_review_state := run_review_state t; run_claims := run_claims t;
     run_verifications := run_verifications t;
     run_supervisor_verdicts := run_supervisor_verdicts t;
     run_operator_decisions := run_operator_decisions t; run_events := run_events t;
     run_created_at := run_created_at t; run_updated_at := run_updated_at t |}.
Definition set_execution_state (execution_state' : GovernedExecutionState) (t : GovernedTaskRun) : GovernedTaskRun :=
  {| run_id := run_id t; run_revision := run_revision t; run_project_id := run_project_id t;
     run_workspace_root := run_workspace_root t; run_task := run_task t;
     run_acceptance_criteria := run_acceptance_criteria t;
     run_approval_policy := run_approval_policy t; run_world_scope := run_world_scope t;
     run_verification_profile := run_verification_profile t;
     run_role_assignment := run_role_assignment t;
     run_role_compatibility := run_role_compatibility t; run_runtime_id := run_runtime_id t;
     run_agent_id := run_agent_id t; run_session_id := run_session_id t;
     run_initial_subject_revision := run_initial_subject_revision t;
     run_staged_worktree := run_staged_worktree t; run_promotions := run_promotions t;
     run_execution_state := execution_state'; run_exit_kind := run_exit_kind t;
     run_review_state := run_review_state t; run_claims := run_claims t;
     run_verifications := run_verifications t;
     run_supervisor_verdicts := run_supervisor_verdicts t;
     run_operator_decisions := run_operator_decisions t; run_events := run_events t;
     run_created_at := run_created_at t; run_updated_at := run_updated_at t |}.
Definition set_exit_kind (exit_kind' : GovernedExitKind) (t : GovernedTaskRun) : GovernedTaskRun :=
  {| run_id := run_id t; run_revision := run_revision t; run_project_id := run_project_id t;
     run_workspace_root := run_workspace_root t; run_task := run_task t;
     run_acceptance_criteria := run_acceptance_criteria t;
     run_approval_policy := run_approval_policy t; run_world_scope := run_world_scope t;
     run_verification_profile := run_verification_profile t;
     run_role_assignment := run_role_assignment t;
     run_role_compatibility := run_role_compatibility t; run_runtime_id := run_runtime_id t;
     run_agent_id := run_agent_id t; run_session_id := run_session_id t;
     run_initial_subject_revision := run_initial_subject_revision t;
     run_staged_worktree := run_staged_worktree t; run_promotions := run_promotions t;
     run_execution_state := run_execution_state t; run_exit_kind := exit_kind';
     run_review_state := run_review_state t; run_claims := run_claims t;
     run_verifications := run_verifications t;
     run_supervisor_verdicts := run_supervisor_verdicts t;
     run_operator_decisions := run_operator_decisions t; run_events := run_events t;
     run_created_at := run_created_at t; run_updated_at := run_updated_at t |}.
Definition set_review_state (review_state' : GovernedReviewState) (t : GovernedTaskRun) : GovernedTaskRun :=
  {| run_id := run_id t; run_revision := run_revision t; run_project_id := run_project_id t;
     run_workspace_root := run_workspace_root t; run_task := run_task t;
     run_acceptance_criteria := run_acceptance_criteria t;
     run_approval_policy := run_approval_policy t; run_world_scope := run_world_scope t;
     run_verification_profile := run_verification_profile t;
     run_role_assignment := run_role_assignment t;
     run_role_compatibility := run_role_compatibility t; run_runtime_id := run_runtime_id t;
     run_agent_id := run_agent_id t; run_session_id := run_session_id t;
     run_initial_subject_revision := run_initial_subject_revision t;
     run_staged_worktree := run_staged_worktree t; run_promotions := run_promotions t;
     run_execution_state := run_execution_state t; run_exit_kind := run_exit_kind t;
     run_review_state := review_state'; run_claims := run_claims t;
     run_verifications := run_verifications t;
     run_supervisor_verdicts := run_supervisor_verdicts t;
     run_operator_decisions := run_operator_decisions t; run_events := run_events t;
     run_created_at := run_created_at t; run_updated_at := run_updated_at t |}.
Definition set_claims (claims' : list WorkerCompletionClaim) (t : GovernedTaskRun) : GovernedTaskRun :=
  {| run_id := run_id t; run_revision := run_revision t; run_project_id := run_project_id t;
     run_workspace_root := run_workspace_root t; run_task := run_task t;
     run_acceptance_criteria := run_acceptance_criteria t;
     run_approval_policy := run_approval_policy t; run_world_scope := run_world_scope t;
     run_verification_profile := run_verification_profile t;
     run_role_assignment := run_role_assignment t;
     run_role_compatibility := run_role_compatibility t; run_runtime_id := run_runtime_id t;
     run_agent_id := run_agent_id t; run_session_id := run_session_id t;
     run_initial_subject_revision := run_initial_subject_revision t;
     run_staged_worktree := run_staged_worktree t; run_promotions := run_promotions t;
     run_execution_state := run_execution_state t; run_exit_kind := run_exit_kind t;
     run_review_state := run_review_state t; run_claims := claims';
     run_verifications := run_verifications t;
     run_supervisor_verdicts := run_supervisor_verdicts t;
     run_operator_decisions := run_operator_decisions t; run_events := run_events t;
     run_created_at := run_created_at t; run_updated_at := run_updated_at t |}.
Definition set_verifications (verifications' : list GovernedVerification) (t : GovernedTaskRun) : GovernedTaskRun :=
  {| run_id := run_id t; run_revision := run_revision t; run_project_id := run_project_id t;
     run_workspace_root := run_workspace_root t; run_task := run_task t;
     run_acceptance_criteria := run_acceptance_criteria t;
     run_approval_policy := run_approval_policy t; run_world_scope := run_world_scope t;
     run_verification_profile := run_verification_profile t;
     run_role_assignment := run_role_assignment t;
     run_role_compatibility := run_role_compatibility t; run_runtime_id := run_runtime_id t;
     run_agent_id := run_agent_id t; run_session_id := run_session_id t;
     run_initial_subject_revision := run_initial_subject_revision t;
     run_staged_worktree := run_staged_worktree t; run_promotions := run_promotions t;
     run_execution_state := run_execution_state t; run_exit_kind := run_exit_kind t;
     run_review_state := run_review_state t; run_claims := run_claims t;
     run_verifications := verifications'; run_supervisor_verdicts := run_supervisor_verdicts t;
     run_operator_decisions := run_operator_decisions t; run_events := run_events t;
     run_created_at := run_created_at t; run_updated_at := run_updated_at t |}.
Definition set_supervisor_verdicts (supervisor_verdicts' : list SupervisorVerdict) (t : GovernedTaskRun) : GovernedTaskRun :=
  {| run_id := run_id t; run_revision := run_revision t; run_project_id := run_project_id t;
     run_workspace_root := run_workspace_root t; run_task := run_task t;
     run_acceptance_criteria := run_acceptance_criteria t;
     run_approval_policy := run_approval_policy t; run_world_scope := run_world_scope t;
     run_verification_profile := run_verification_profile t;
     run_role_assignment := run_role_assignment t;
     run_role_compatibility := run_role_compatibility t; run_runtime_id := run_runtime_id t;
     run_agent_id := run_agent_id t; run_session_id := run_session_id t;
     run_initial_subject_revision := run_initial_subject_revision t;
     run_staged_worktree := run_staged_worktree t; run_promotions := run_promotions t;
     run_execution_state := run_execution_state t; run_exit_kind := run_exit_kind t;
     run_review_state := run_review_state t; run_claims := run_claims t;
     run_verifications := run_verifications t; run_supervisor_verdicts := supervisor_verdicts';
     run_operator_decisions := run_operator_decisions t; run_events := run_events t;
     run_created_at := run_created_at t; run_updated_at := run_updated_at t |}.
Definition set_operator_decisions (operator_decisions' : list OperatorDecision) (t : GovernedTaskRun) : GovernedTaskRun :=
  {| run_id := run_id t; run_revision := run_revision t; run_project_id := run_project_id t;
     run_workspace_root := run_workspace_root t; run_task := run_task t;
     run_acceptance_criteria := run_acceptance_criteria t;
     run_approval_policy := run_approval_policy t; run_world_scope := run_world_scope t;
     run_verification_profile := run_verification_profile t;
     run_role_assignment := run_role_assignment t;
     run_role_compatibility := run_role_compatibility t; run_runtime_id := run_runtime_id t;
     run_agent_id := run_agent_id t; run_session_id := run_session_id t;
     run_initial_subject_revision := run_initial_subject_revision t;
     run_staged_worktree := run_staged_worktree t; run_promotions := run_promotions t;
     run_execution_state := run_execution_state t; run_exit_kind := run_exit_kind t;
     run_review_state := run_review_state t; run_claims := run_claims t;
     run_verifications := run_verifications t;
     run_supervisor_verdicts := run_supervisor_verdicts t;
     run_operator_decisions := operator_decisions'; run_events := run_events t;
     run_created_at := run_created_at t; run_updated_at := run_updated_at t |}.
Definition set_events (events' : list GovernedTaskEvent) (t : GovernedTaskRun) : GovernedTaskRun :=
  {| run_id := run_id t; run_revision := run_revision t; run_project_id := run_project_id t;
     run_workspace_root := run_workspace_root t; run_task := run_task t;
     run_acceptance_criteria := run_acceptance_criteria t;
     run_approval_policy := run_approval_policy t; run_world_scope := run_world_scope t;
     run_verification_profile := run_verification_profile t;
     run_role_assignment := run_role_assignment t;
     run_role_compatibility := run_role_compatibility t; run_runtime_id := run_runtime_id t;
     run_agent_id := run_agent_id t; run_session_id := run_session_id t;
     run_initial_subject_revision := run_initial_subject_revision t;
     run_staged_worktree := run_staged_worktree t; run_promotions := run_promotions t;
     run_execution_state := run_execution_state t; run_exit_kind := run_exit_kind t;
     run_review_state := run_review_state t; run_claims := run_claims t;
     run_verifications := run_verifications t;
     run_supervisor_verdicts := run_supervisor_verdicts t;
     run_operator_decisions := run_operator_decisions t; run_events := events';
     run_created_at := run_created_at t; run_updated_at := run_updated_at t |}.
Definition set_updated_at (updated_at' : rstring) (t : GovernedTaskRun) : GovernedTaskRun :=
  {| run_id := run_id t; run_revision := run_revision t; run_project_id := run_project_id t;
     run_workspace_root := run_workspace_root t; run_task := run_task t;
     run_acceptance_criteria := run_acceptance_criteria t;
     run_approval_policy := run_approval_policy t; run_world_scope := run_world_scope t;
     run_verification_profile := run_verification_profile t;
     run_role_assignment := run_role_assignment t;
     run_role_compatibility := run_role_compatibility t; run_runtime_id := run_runtime_id t;
     run_agent_id := run_agent_id t; run_session_id := run_session_id t;
     run_initial_subject_revision := run_initial_subject_revision t;
     run_staged_worktree := run_staged_worktree t; run_promotions := run_promotions t;
     run_execution_state := run_execution_state t; run_exit_kind := run_exit_kind t;
     run_review_state := run_review_state t; run_claims := run_claims t;
     run_verifications := run_verifications t;
     run_supervisor_verdicts := run_supervisor_verdicts t;
     run_operator_decisions := run_operator_decisions t; run_events := run_events t;
     run_created_at := run_created_at t; run_updated_at := updated_at' |}.

Definition lease_generation (t : GovernedTaskRun) : Z :=
  zlen (filter (λ e, event_kind e = EventWorkerTakenOver) (run_events t)).

Definition latest_claim (t : GovernedTaskRun) : option WorkerCompletionClaim :=
  last (run_claims t).
Definition latest_verification (t : GovernedTaskRun) : option GovernedVerification :=
  last (run_verifications t).
Definition latest_supervisor_verdict (t : GovernedTaskRun) : option SupervisorVerdict :=
  last (run_supervisor_verdicts t).
Definition latest_promotion (t : GovernedTaskRun) : option GovernedPromotion :=
  last (run_promotions t).
Definition is_accepted (t : GovernedTaskRun) : bool :=
  bool_decide (run_review_state t = Accepted).

Definition active_staged_worktree (t : GovernedTaskRun) : option StagedWorktree :=
  match run_staged_worktree t with
  | Some staged => if bool_decide (staged_status staged = Active) then Some staged else None
  | None => None
  end.

(** The task id must be one path segment. *)
Definition is_path_segment_char (c : Z) : bool :=
  is_ascii_lower c || is_ascii_upper c || is_ascii_digit c || (c =? 45) || (c =? 95).

Definition validate_path_segment (field value : rstring) : contract_result unit :=
  reject_if
    (is_empty value || (128 <? len value) || bool_decide (value = lit ".")
     || bool_decide (value = lit "..") || starts_with (lit ".") value
     || existsb (λ c, negb (is_path_segment_char c)) value)
    (InvalidField field
       (lit "must be one filesystem path segment of at most 128 ASCII letters, digits, `-`, or `_`")).

Definition expected_staged_worktree_root (t : GovernedTaskRun) : contract_result rstring :=
  validate_path_segment (lit "task_id") (run_id t) ;;
  Ok (path_join (path_join (path_join (run_workspace_root t) (lit ".impulse"))
        (lit "worktrees")) (run_id t)).

Inductive LaunchWorkingDirectoryError : Type :=
  | StagedWorktreeNotMaterialized (task_id : rstring) (scope : WorldScope).

Definition launch_working_directory (t : GovernedTaskRun)
    : result LaunchWorkingDirectoryError rstring :=
  match active_staged_worktree t with
  | Some staged => Ok (staged_root staged)
  | None =>
      if bool_decide (run_world_scope t = StagedAuthoritative) then
        Err (StagedWorktreeNotMaterialized (run_id t) (run_world_scope t))
      else Ok (run_workspace_root t)
  end.

(** ** Promises: a worker's claims beside the evidence for them *)

Inductive PromiseClaimedStatus : Type := Done.
Inductive PromiseEvidencedStatus : Type := Open | Kept.
#[export] Instance PromiseEvidencedStatus_eq_dec : EqDecision PromiseEvidencedStatus.
Proof. solve_decision. Defined.

Record GovernedPromise := {
  promise_claim_id : rstring;
  promise_promised_by : GovernedActor;
  promise_summary : rstring;
  promise_subject_revision : rstring;
  promise_claimed_status : PromiseClaimedStatus;
  promise_evidenced_status : PromiseEvidencedStatus;
  promise_evidence : list rstring;
  promise_latest_evidence_outcome : option GovernedVerificationOutcome;
  promise_superseded : bool
}.

Definition diverges (p : GovernedPromise) : bool :=
  negb (promise_superseded p)
  && match promise_claimed_status p with Done => true end
  && bool_decide (promise_evidenced_status p ≠ Kept).

(** The verifications that bear on a claim. *)
Definition bearing_verifications (t : GovernedTaskRun) (claim : WorkerCompletionClaim)
    : list GovernedVerification :=
  filter (λ v, actor_kind (verification_actor v) = Verifier
               ∧ verification_claim_id v = claim_id claim
               ∧ verification_subject_revision v = claim_subject_revision claim)
    (run_verifications t).

Definition promise_of (t : GovernedTaskRun) (index : nat) (claim : WorkerCompletionClaim)
    : GovernedPromise :=
  let bearing := bearing_verifications t claim in
  let latest_outcome := verification_outcome <$> last bearing in
  {| promise_claim_id := claim_id claim;
     promise_promised_by := claim_actor claim;
     promise_summary := claim_summary claim;
     promise_subject_revision := claim_subject_revision claim;
     promise_claimed_status := Done;
     promise_evidenced_status :=
       match latest_outcome with Some Passed => Kept | _ => Open end;
     promise_evidence := verification_id <$> bearing;
     promise_latest_evidence_outcome := latest_outcome;
     promise_superseded := negb (Z.of_nat index =? zlen (run_claims t) - 1) |}.

Definition promises (t : GovernedTaskRun) : list GovernedPromise :=
  imap (promise_of t) (run_claims t).

Definition claim_evidence_divergence (t : GovernedTaskRun) : option GovernedPromise :=
  List.find diverges (promises t).

(** * Registration *)

Record GovernedTaskRegistration := {
  reg_request_id : rstring;
  reg_task_id : rstring;
  reg_project_id : rstring;
  reg_workspace_root : rstring;
  reg_task : rstring;
  reg_acceptance_criteria : list rstring;
  reg_approval_policy : ApprovalPolicy;
  reg_world_scope : WorldScope;
  reg_verification_profile : option GovernedVerificationProfile;
  reg_role_assignment : option AgentRoleAssignment;
  reg_role_compatibility : option RoleCompatibility;
  reg_runtime_id : rstring;
  reg_agent_id : rstring;
  reg_session_id : option rstring;
  reg_initial_subject_revision : option rstring
}.
#[export] Instance GovernedTaskRegistration_eq_dec : EqDecision GovernedTaskRegistration.
Proof. solve_decision. Defined.

Definition validate_nonblank (field value : rstring) (max_bytes : Z) : contract_result unit :=
  reject_if (is_empty (trim value) || contains_nul value || (max_bytes <? len value))
    (InvalidField field
       (lit "must be nonblank, NUL-free, and at most " ++ show_Z max_bytes ++ lit " UTF-8 bytes")).

Definition is_lower_hex_byte (b : Z) : bool := is_ascii_digit b || is_lower_hex_letter b.

Definition is_git_commit_oid (value : rstring) : bool :=
  ((len value =? 40) || (len value =? 64)) && forallb is_lower_hex_byte (bytes value).

Definition validate_git_commit_oid (field value : rstring) : contract_result unit :=
  reject_if (negb (is_git_commit_oid value))
    (InvalidField field
       (lit "must be a 40- or 64-character lowercase hexadecimal Git commit OID")).

Definition is_sha256_digest (value : rstring) : bool :=
  match strip_prefix (lit "sha256:") value with
  | Some hex => (len hex =? 64) && forallb is_ascii_hexdigit (bytes hex)
  | None => false
  end.

Definition validate_sha256_digest (field value : rstring) : contract_result unit :=
  reject_if (negb (is_sha256_digest value))
    (InvalidField field
       (lit "must use the sha256:<64 hexadecimal characters> format")).

(** [validate], in the order of its checks: first the plain fields. *)
Definition validate_registration_fields (r : GovernedTaskRegistration) : contract_result unit :=
  validate_nonblank (lit "project_id") (reg_project_id r) 256 ;;
  validate_nonblank (lit "workspace_root") (reg_workspace_root r) (16 * 1024) ;;
  validate_nonblank (lit "task") (reg_task r) MAX_GOVERNED_TASK_BYTES ;;
  validate_nonblank (lit "runtime_id") (reg_runtime_id r) 256 ;;
  validate_nonblank (lit "agent_id") (reg_agent_id r) 256 ;;
  reject_if (MAX_ACCEPTANCE_CRITERIA <? zlen (reg_acceptance_criteria r))
    (InvalidField (lit "acceptance_criteria")
       (lit "must contain at most " ++ show_Z MAX_ACCEPTANCE_CRITERIA ++ lit " entries")) ;;
  for_each (λ criterion,
      validate_nonblank (lit "acceptance_criteria") criterion MAX_GOVERNED_TEXT_BYTES)
    (reg_acceptance_criteria r) ;;
  match reg_session_id r with
  | Some session_id => validate_nonblank (lit "session_id") session_id 256
  | None => Ok tt
  end ;;
  reject_if
    (bool_decide (reg_task_id r = reg_agent_id r)
     || bool_decide (reg_session_id r = Some (reg_task_id r)))
    (InvalidField (lit "task_id") (lit "must be distinct from agent_id and session_id")) ;;
  match reg_initial_subject_revision r with
  | Some subject => validate_nonblank (lit "initial_subject_revision") subject 1024
  | None => Ok tt
  end.

(** ... then the world scope ... *)
Definition validate_registration_scope (r : GovernedTaskRegistration) : contract_result unit :=
  reject_if (negb (is_materializable (reg_world_scope r)))
    (InvalidField (lit "world_scope")
       (lit "world scope `" ++ world_scope_as_str (reg_world_scope r)
          ++ lit "` is declared but not materializable by this daemon")) ;;
  if requires_staged_worktree (reg_world_scope r) then
    reject_if (bool_decide (reg_verification_profile r = None))
      (InvalidField (lit "world_scope")
         (lit "a staged world scope requires a closed-loop verification profile so the initial Git OID is daemon-attested")) ;;
    validate_path_segment (lit "task_id") (reg_task_id r)
  else Ok tt.

(** ... then what a closed-loop profile requires ... *)
Definition validate_registration_profile (r : GovernedTaskRegistration) : contract_result unit :=
  match reg_verification_profile r with
  | None => Ok tt
  | Some _ =>
      reject_if (bool_decide (reg_acceptance_criteria r = []))
        (InvalidField (lit "acceptance_criteria")
           (lit "a closed-loop verification profile requires at least one criterion")) ;;
      subject ← ok_or (reg_initial_subject_revision r)
        (InvalidField (lit "initial_subject_revision")
           (lit "a closed-loop verification profile requires a clean Git commit OID")) ;
      validate_git_commit_oid (lit "initial_subject_revision") subject ;;
      validate_nonblank (lit "task") (reg_task r) MAX_PROFILED_TASK_BYTES ;;
      reject_if (MAX_PROFILED_ACCEPTANCE_CRITERIA <? zlen (reg_acceptance_criteria r))
        (InvalidField (lit "acceptance_criteria")
           (lit "a closed-loop profile supports at most "
              ++ show_Z MAX_PROFILED_ACCEPTANCE_CRITERIA ++ lit " exact criteria")) ;;
      for_each (λ criterion,
          validate_nonblank (lit "acceptance_criteria") criterion
            MAX_PROFILED_ACCEPTANCE_CRITERION_BYTES)
        (reg_acceptance_criteria r) ;;
      assignment ← ok_or (reg_role_assignment r)
        (InvalidField (lit "role_assignment")
           (lit "a closed-loop verification profile requires the canonical Builder role")) ;
      reject_if (bool_decide (assignment ≠ canonical_governed_builder_assignment))
        (InvalidField (lit "role_assignment")
           (lit "a closed-loop verification profile requires the canonical Builder role requirements")) ;;
      reject_if (bool_decide (reg_role_compatibility r = None))
        (InvalidField (lit "role_compatibility")
           (lit "a closed-loop verification profile requires a matching runtime compatibility result"))
  end.

(** The cover test of [validate]: every requirement has exactly one check and
    every check states one requirement. *)
Definition checks_exactly_cover (requirements : list RoleCapabilityRequirement)
    (checks : list CapabilityCompatibility) : bool :=
  (zlen requirements =? zlen checks)
  && negb (existsb (λ requirement,
       negb (zlen (filter (λ check,
               check_capability check = requirement_capability requirement) checks) =? 1))
       requirements)
  && negb (existsb (λ check,
       negb (existsb (λ requirement,
         bool_decide (requirement_capability requirement = check_capability check)
         && bool_decide (requirement_minimum_enforcement requirement = check_required check)
         && bool_decide (requirement_mandatory requirement = check_mandatory check))
         requirements)) checks).

(** ... and last the agreement of assignment and compatibility. *)
Definition validate_registration_compatibility (r : GovernedTaskRegistration)
    : contract_result unit :=
  reject_if (match reg_role_compatibility r with Some c => is_blocked c | None => false end)
    (InvalidField (lit "role_compatibility")
       (lit "blocked compatibility cannot be registered")) ;;
  match reg_role_assignment r, reg_role_compatibility r with
  | Some assignment, Some compatibility =>
      reject_if (bool_decide (assignment_role assignment ≠ compat_role compatibility))
        (InvalidField (lit "role_compatibility")
           (lit "compatibility role must match the assigned role")) ;;
      reject_if (bool_decide (compat_platform compatibility ≠ reg_runtime_id r))
        (InvalidField (lit "role_compatibility")
           (lit "compatibility platform must match runtime_id")) ;;
      reject_if (negb (checks_exactly_cover (assignment_requirements assignment)
                         (compat_checks compatibility)))
        (InvalidField (lit "role_compatibility")
           (lit "compatibility checks must exactly cover the assigned requirements"))
  | None, None => Ok tt
  | _, _ =>
      Err (InvalidField (lit "role_assignment")
             (lit "role assignment and compatibility must be supplied together"))
  end.

Definition validate_registration (r : GovernedTaskRegistration) : contract_result unit :=
  validate_registration_fields r ;;
  validate_registration_scope r ;;
  validate_registration_profile r ;;
  validate_registration_compatibility r.

(** [GovernedTaskRegistrationBuilder::build]: the builder holds the same fields
    with the two ids not validated yet. *)
Definition build_registration (b : GovernedTaskRegistration)
    : contract_result GovernedTaskRegistration :=
  GovernedRequestId_try_new (reg_request_id b) ;;
  GovernedTaskId_try_new (reg_task_id b) ;;
  validate_registration b ;;
  Ok b.

(** * Producer requests *)

Record GovernedClaimRequest := {
  claim_request_request_id : rstring;
  claim_request_project_id : rstring;
  claim_request_task_id : rstring;
  claim_request_expected_revision : Z;
  claim_request_summary : rstring;
  claim_request_artifact_ids : list rstring;
  claim_request_generation : option Z
}.

Definition validate_claim_request (c : GovernedClaimRequest) : contract_result unit :=
  validate_nonblank (lit "summary") (claim_request_summary c) MAX_PROFILED_CLAIM_SUMMARY_BYTES ;;
  reject_if (MAX_GOVERNED_REFERENCES <? zlen (claim_request_artifact_ids c))
    (InvalidField (lit "artifact_ids")
       (lit "must contain at most " ++ show_Z MAX_GOVERNED_REFERENCES ++ lit " entries")) ;;
  for_each (λ artifact_id,
      validate_nonblank (lit "artifact_ids") artifact_id MAX_GOVERNED_REFERENCE_BYTES)
    (claim_request_artifact_ids c).

Record GovernedSupervisorReviewEnvelope := {
  envelope_contract_version : rstring;
  envelope_task_id : rstring;
  envelope_task_revision : Z;
  envelope_claim_id : rstring;
  envelope_verification_id : rstring;
  envelope_subject_revision : rstring;
  envelope_acceptance_criteria_count : Z;
  envelope_acceptance_criteria_digest : rstring;
  envelope_verdict : SupervisorVerdictKind;
  envelope_rationale : rstring
}.

Definition validate_shape (e : GovernedSupervisorReviewEnvelope) : contract_result unit :=
  reject_if
    (bool_decide (envelope_contract_version e ≠ GOVERNED_SUPERVISOR_REVIEW_CONTRACT_VERSION))
    (InvalidField (lit "contract_version")
       (lit "must equal " ++ GOVERNED_SUPERVISOR_REVIEW_CONTRACT_VERSION)) ;;
  validate_git_commit_oid (lit "subject_revision") (envelope_subject_revision e) ;;
  validate_sha256_digest (lit "acceptance_criteria_digest")
    (envelope_acceptance_criteria_digest e) ;;
  validate_nonblank (lit "rationale") (envelope_rationale e) MAX_GOVERNED_TEXT_BYTES.
