(* ===== verification/LoopContract.v ===== *)
(** The loop contract (src/loop_contract.rs): declared budgets, the pure
    evaluation of a budget against durable observations, the per-run breaker and
    the report it leaves behind.

    A [Duration] or an [Instant] is a number of nanoseconds. Counters are
    [usize]s that only ever count steps of one run. *)
From S2P Require Export RustStr.
Local Open Scope Z_scope.

Definition secs (n : Z) : Z := n * 1000000000.
Definition as_millis (d : Z) : Z := d / 1000000.
Definition from_millis (m : Z) : Z := m * 1000000.
(** [u64::try_from(d.as_millis()).unwrap_or(u64::MAX)]. *)
Definition millis_u64 (d : Z) : Z := Z.min (as_millis d) u64_max.

Definition ION_DEFAULT_MAX_ROUNDS : Z := 10.
Definition ION_DEFAULT_WALL_CLOCK : Z := secs 180.
Definition ION_DEFAULT_REPEATED_CALL_STREAK : Z := 3.
Definition ION_DEFAULT_SAME_ERROR_STREAK : Z := 3.
Definition ION_DEFAULT_MAX_TOOL_CALLS : Z := 50.
Definition ION_DEFAULT_MAX_CONTEXT_CHARS : Z := 200000.
Definition GOVERNED_BUILDER_MAX_CLAIM_CYCLES : Z := 5.
Definition GOVERNED_BUILDER_WALL_CLOCK : Z := secs (4 * 60 * 60).
Definition GOVERNED_BUILDER_SAME_FAILURE_STREAK : Z := 3.
Definition GOVERNED_BUILDER_LOOP_VERSION : Z := 1.
Definition ERROR_SIGNATURE_MAX_CHARS : nat := 120.

Record LoopBudget := {
  budget_max_rounds : Z;
  budget_wall_clock : Z;
  budget_max_repeated_call_streak : option Z;
  budget_max_same_error_streak : option Z;
  budget_max_context_chars : option Z;
  budget_max_tool_calls : option Z
}.

Definition ion_default : LoopBudget :=
  {| budget_max_rounds := ION_DEFAULT_MAX_ROUNDS;
     budget_wall_clock := ION_DEFAULT_WALL_CLOCK;
     budget_max_repeated_call_streak := Some ION_DEFAULT_REPEATED_CALL_STREAK;
     budget_max_same_error_streak := Some ION_DEFAULT_SAME_ERROR_STREAK;
     budget_max_context_chars := Some ION_DEFAULT_MAX_CONTEXT_CHARS;
     budget_max_tool_calls := Some ION_DEFAULT_MAX_TOOL_CALLS |}.

Definition governed_builder_budget : LoopBudget :=
  {| budget_max_rounds := GOVERNED_BUILDER_MAX_CLAIM_CYCLES;
     budget_wall_clock := GOVERNED_BUILDER_WALL_CLOCK;
     budget_max_repeated_call_streak := None;
     budget_max_same_error_streak := Some GOVERNED_BUILDER_SAME_FAILURE_STREAK;
     budget_max_context_chars := None;
     budget_max_tool_calls := None |}.

Inductive LoopTrip : Type :=
  | RoundCap (rounds : Z)
  | WallClock (millis : Z)
  | RepeatedCall (tool : rstring) (streak : Z)
  | RepeatedRound (calls streak : Z)
  | SameError (tool : rstring) (streak : Z) (signature : rstring)
  | ContextBudget (chars limit : Z)
  | ToolCallBudget (calls : Z).
#[export] Instance LoopTrip_eq_dec : EqDecision LoopTrip.
Proof. solve_decision. Defined.

(** The [Display] text of a trip. *)
Definition show_trip (t : LoopTrip) : rstring :=
  match t with
  | RoundCap rounds =>
      lit "round cap of " ++ show_Z rounds ++ lit " reached without a final reply"
  | WallClock millis => lit "wall-clock budget of " ++ show_Z millis ++ lit "ms elapsed"
  | RepeatedCall tool streak =>
      lit "tool '" ++ tool ++ lit "' was requested with identical input "
        ++ show_Z streak ++ lit " times in a row"
  | RepeatedRound calls streak =>
      lit "the same batch of " ++ show_Z calls ++ lit " tool call(s) was requested in "
        ++ show_Z streak ++ lit " consecutive rounds"
  | SameError tool streak signature =>
      lit "tool '" ++ tool ++ lit "' failed " ++ show_Z streak
        ++ lit " times in a row with the same error: " ++ signature
  | ContextBudget chars limit =>
      lit "conversation history is " ++ show_Z chars
        ++ lit " characters after compaction, over the " ++ show_Z limit
        ++ lit "-character context budget"
  | ToolCallBudget calls =>
      lit "tool-call budget of " ++ show_Z calls
        ++ lit " spent; the next requested call did not run"
  end.

Record SameErrorObservation := {
  same_error_tool : rstring;
  same_error_streak_seen : Z;
  same_error_signature : rstring
}.

Record LoopObservation := {
  observed_rounds_used : Z;
  observed_elapsed : Z;
  observed_same_error : option SameErrorObservation
}.

(** [error_signature]: the first trimmed line with a letter or digit, else the
    trimmed whole, cut to 120 characters. *)
Definition error_signature `{UnicodeTables} (content : rstring) : rstring :=
  let line :=
    match List.find (existsb char_is_alphanumeric) (trim <$> str_lines content) with
    | Some line => line
    | None => trim content
    end in
  take ERROR_SIGNATURE_MAX_CHARS line.

Definition evaluate_observed `{UnicodeTables} (b : LoopBudget) (o : LoopObservation)
    : option LoopTrip :=
  if budget_max_rounds b <=? observed_rounds_used o then
    Some (RoundCap (budget_max_rounds b))
  else if budget_wall_clock b <=? observed_elapsed o then
    Some (WallClock (millis_u64 (observed_elapsed o)))
  else match budget_max_same_error_streak b, observed_same_error o with
       | Some limit, Some same_error =>
           if limit <=? same_error_streak_seen same_error then
             Some (SameError (same_error_tool same_error) (same_error_streak_seen same_error)
                     (error_signature (same_error_signature same_error)))
           else None
       | _, _ => None
       end.

Record LoopContract := { contract_name : rstring; contract_budget : LoopBudget }.

Inductive LoopContractError : Type :=
  | ZeroRounds (name : rstring)
  | ZeroWallClock (name : rstring)
  | ZeroStreak (name limit : rstring)
  | ZeroContextBudget (name : rstring)
  | ZeroToolCallBudget (name : rstring).

Definition ion_tool_loop : LoopContract :=
  {| contract_name := lit "ion_tool_loop"; contract_budget := ion_default |}.
Definition governed_builder : LoopContract :=
  {| contract_name := lit "governed_builder"; contract_budget := governed_builder_budget |}.

Definition validate_loop_contract (c : LoopContract) : result LoopContractError unit :=
  let name := contract_name c in
  let budget := contract_budget c in
  reject_if (budget_max_rounds budget =? 0) (ZeroRounds name) ;;
  reject_if (budget_wall_clock budget =? 0) (ZeroWallClock name) ;;
  reject_if (bool_decide (budget_max_repeated_call_streak budget = Some 0))
    (ZeroStreak name (lit "max_repeated_call_streak")) ;;
  reject_if (bool_decide (budget_max_same_error_streak budget = Some 0))
    (ZeroStreak name (lit "max_same_error_streak")) ;;
  reject_if (bool_decide (budget_max_context_chars budget = Some 0))
    (ZeroContextBudget name) ;;
  reject_if (bool_decide (budget_max_tool_calls budget = Some 0))
    (ZeroToolCallBudget name).

Inductive LoopTermination : Type :=
  | Completed
  | Tripped (trip : LoopTrip)
  | LoopFailed (error : rstring).

Record LoopReport := {
  report_contract : rstring;
  report_termination : LoopTermination;
  report_rounds_used : Z;
  report_tool_calls : Z;
  report_tool_errors : Z;
  report_tool_calls_interrupted : Z;
  report_compactions : Z;
  report_calls_by_tool : gmap rstring Z;
  report_elapsed_ms : Z
}.

(** * JSON values and their canonical text *)

(** [serde_json::Value]. A number is its printed text; an object's entries are
    in the map's iteration order, keys distinct. *)
Inductive json : Type :=
  | JNull
  | JBool (b : bool)
  | JNumber (text : rstring)
  | JString (s : rstring)
  | JArray (items : list json)
  | JObject (entries : list (rstring * json)).

(** serde_json's text of a string scalar (quoting and escaping). *)
Class SerdeJson := json_string : rstring → rstring.

(** [keys.sort()]. *)
Definition sort_keys (l : list rstring) : list rstring := stable_sort str_leb l.

Fixpoint join_with (sep : rstring) (l : list rstring) : rstring :=
  match l with
  | [] => []
  | [x] => x
  | x :: l => x ++ sep ++ join_with sep l
  end.

(** [&map[key]]. *)
Definition assoc_get {A} (key : rstring) (d : A) (m : list (rstring * A)) : A :=
  match List.find (λ e, bool_decide (e.1 = key)) m with Some e => e.2 | None => d end.

Section canonical.
Context `{SerdeJson}.

Definition write_object (written : list (rstring * rstring)) : rstring :=
  lit "{" ++ join_with (lit ",")
    ((λ key, json_string key ++ lit ":" ++ assoc_get key [] written)
       <$> sort_keys written.*1)
  ++ lit "}".

Fixpoint canonical_json (value : json) : rstring :=
  match value with
  | JObject map =>
      write_object ((fix go (map : list (rstring * json)) :=
         match map with
         | [] => []
         | (key, v) :: map => (key, canonical_json v) :: go map
         end) map)
  | JArray items =>
      lit "[" ++ join_with (lit ",") (canonical_json <$> items) ++ lit "]"
  | JNull => lit "null"
  | JBool b => if b then lit "true" else lit "false"
  | JNumber text => text
  | JString s => json_string s
  end.
End canonical.

(** [serde_json::to_value] of the report types, as their serde attributes say:
    internally tagged enums and the two fields skipped when they are empty. *)
Definition json_num (n : Z) : json := JNumber (show_Z n).

Definition trip_to_value (t : LoopTrip) : json :=
  JObject match t with
  | RoundCap rounds =>
      [(lit "kind", JString (lit "round_cap")); (lit "rounds", json_num rounds)]
  | WallClock millis =>
      [(lit "kind", JString (lit "wall_clock")); (lit "millis", json_num millis)]
  | RepeatedCall tool streak =>
      [(lit "kind", JString (lit "repeated_call")); (lit "streak", json_num streak);
       (lit "tool", JString tool)]
  | RepeatedRound calls streak =>
      [(lit "calls", json_num calls); (lit "kind", JString (lit "repeated_round"));
       (lit "streak", json_num streak)]
  | SameError tool streak signature =>
      [(lit "kind", JString (lit "same_error")); (lit "signature", JString signature);
       (lit "streak", json_num streak); (lit "tool", JString tool)]
  | ContextBudget chars limit =>
      [(lit "chars", json_num chars); (lit "kind", JString (lit "context_budget"));
       (lit "limit", json_num limit)]
  | ToolCallBudget calls =>
      [(lit "calls", json_num calls); (lit "kind", JString (lit "tool_call_budget"))]
  end.

Definition termination_to_value (t : LoopTermination) : json :=
  JObject match t with
  | Completed => [(lit "outcome", JString (lit "completed"))]
  | Tripped trip =>
      [(lit "outcome", JString (lit "tripped")); (lit "trip", trip_to_value trip)]
  | LoopFailed error =>
      [(lit "error", JString error); (lit "outcome", JString (lit "failed"))]
  end.

Definition report_to_value (r : LoopReport) : json :=
  JObject
    ((if bool_decide (report_calls_by_tool r = ∅) then []
      else [(lit "calls_by_tool",
             JObject ((λ k, (k, json_num (default 0 (report_calls_by_tool r !! k))))
                      <$> sort_keys (map_to_list (report_calls_by_tool r)).*1))])
     ++ (if report_compactions r =? 0 then []
         else [(lit "compactions", json_num (report_compactions r))])
     ++ [(lit "contract", JString (report_contract r));
         (lit "elapsed_ms", json_num (report_elapsed_ms r));
         (lit "rounds_used", json_num (report_rounds_used r));
         (lit "termination", termination_to_value (report_termination r));
         (lit "tool_calls", json_num (report_tool_calls r));
         (lit "tool_calls_interrupted", json_num (report_tool_calls_interrupted r));
         (lit "tool_errors", json_num (report_tool_errors r))]).

(** * The breaker *)

Record CallOutcome := { outcome_is_error : bool; outcome_content : rstring }.

Record LoopBreaker := {
  brk_contract : LoopContract;
  brk_started : Z;
  brk_rounds_used : Z;
  brk_dispatched : Z;
  brk_tool_calls : Z;
  brk_tool_errors : Z;
  brk_last_call_key : option rstring;
  brk_repeated_call_streak : Z;
  brk_last_error_key : option (rstring * rstring);
  brk_same_error_streak : Z;
  brk_round_keys : list rstring;
  brk_last_round_keys : option (list rstring);
  brk_repeated_round_streak : Z;
  brk_compactions : Z;
  brk_calls_by_tool : gmap rstring Z
}.

Definition breaker_new (contract : LoopContract) (now : Z) : LoopBreaker :=
  {| brk_contract := contract; brk_started := now; brk_rounds_used := 0;
     brk_dispatched := 0; brk_tool_calls := 0; brk_tool_errors := 0;
     brk_last_call_key := None; brk_repeated_call_streak := 0;
     brk_last_error_key := None; brk_same_error_streak := 0;
     brk_round_keys := []; brk_last_round_keys := None;
     brk_repeated_round_streak := 0; brk_compactions := 0;
     brk_calls_by_tool := ∅ |}.

Definition observe_compaction (b : LoopBreaker) : LoopBreaker :=
  {| brk_contract := brk_contract b; brk_started := brk_started b;
     brk_rounds_used := brk_rounds_used b; brk_dispatched := brk_dispatched b;
     brk_tool_calls := brk_tool_calls b; brk_tool_errors := brk_tool_errors b;
     brk_last_call_key := brk_last_call_key b;
     brk_repeated_call_streak := brk_repeated_call_streak b;
     brk_last_error_key := brk_last_error_key b;
     brk_same_error_streak := brk_same_error_streak b;
     brk_round_keys := brk_round_keys b; brk_last_round_keys := brk_last_round_keys b;
     brk_repeated_round_streak := brk_repeated_round_streak b;
     brk_compactions := brk_compactions b + 1;
     brk_calls_by_tool := brk_calls_by_tool b |}.

Definition begin_round (b : LoopBreaker) : result LoopTrip (Z * LoopBreaker) :=
  let max_rounds := budget_max_rounds (contract_budget (brk_contract b)) in
  reject_if (max_rounds <=? brk_rounds_used b) (RoundCap max_rounds) ;;
  let index := brk_rounds_used b in
  Ok (index,
      {| brk_contract := brk_contract b; brk_started := brk_started b;
         brk_rounds_used := brk_rounds_used b + 1; brk_dispatched := brk_dispatched b;
         brk_tool_calls := brk_tool_calls b; brk_tool_errors := brk_tool_errors b;
         brk_last_call_key := brk_last_call_key b;
         brk_repeated_call_streak := brk_repeated_call_streak b;
         brk_last_error_key := brk_last_error_key b;
         brk_same_error_streak := brk_same_error_streak b;
         brk_round_keys := []; brk_last_round_keys := brk_last_round_keys b;
         brk_repeated_round_streak := brk_repeated_round_streak b;
         brk_compactions := brk_compactions b;
         brk_calls_by_tool := brk_calls_by_tool b |}).

Definition admit_call (b : LoopBreaker) : result LoopTrip LoopBreaker :=
  match budget_max_tool_calls (contract_budget (brk_contract b)) with
  | Some limit => reject_if (limit <=? brk_dispatched b) (ToolCallBudget limit)
  | None => Ok tt
  end ;;
  Ok {| brk_contract := brk_contract b; brk_started := brk_started b;
        brk_rounds_used := brk_rounds_used b; brk_dispatched := brk_dispatched b + 1;
        brk_tool_calls := brk_tool_calls b; brk_tool_errors := brk_tool_errors b;
        brk_last_call_key := brk_last_call_key b;
        brk_repeated_call_streak := brk_repeated_call_streak b;
        brk_last_error_key := brk_last_error_key b;
        brk_same_error_streak := brk_same_error_streak b;
        brk_round_keys := brk_round_keys b; brk_last_round_keys := brk_last_round_keys b;
        brk_repeated_round_streak := brk_repeated_round_streak b;
        brk_compactions := brk_compactions b;
        brk_calls_by_tool := brk_calls_by_tool b |}.

Definition end_round (b : LoopBreaker) : option LoopTrip * LoopBreaker :=
  let with_rounds last streak :=
    {| brk_contract := brk_contract b; brk_started := brk_started b;
       brk_rounds_used := brk_rounds_used b; brk_dispatched := brk_dispatched b;
       brk_tool_calls := brk_tool_calls b; brk_tool_errors := brk_tool_errors b;
       brk_last_call_key := brk_last_call_key b;
       brk_repeated_call_streak := brk_repeated_call_streak b;
       brk_last_error_key := brk_last_error_key b;
       brk_same_error_streak := brk_same_error_streak b;
       brk_round_keys := []; brk_last_round_keys := last;
       brk_repeated_round_streak := streak;
       brk_compactions := brk_compactions b;
       brk_calls_by_tool := brk_calls_by_tool b |} in
  match brk_round_keys b with
  | [] => (None, with_rounds None 0)
  | round_keys =>
      let keys := sort_keys round_keys in
      let streak :=
        if bool_decide (brk_last_round_keys b = Some keys)
        then brk_repeated_round_streak b + 1 else 1 in
      (match budget_max_repeated_call_streak (contract_budget (brk_contract b)) with
       | Some limit =>
           if limit <=? streak then Some (RepeatedRound (zlen keys) streak) else None
       | None => None
       end, with_rounds (Some keys) streak)
  end.

Section observe.
Context `{SerdeJson, UnicodeTables}.

Definition call_key (tool : rstring) (input : json) : rstring :=
  tool ++ [31] ++ canonical_json input.

(** The state update of [observe_call]. *)
Definition observe_call_state (tool : rstring) (input : json) (outcome : CallOutcome)
    (b : LoopBreaker) : LoopBreaker :=
  let key := call_key tool input in
  let repeated := bool_decide (brk_last_call_key b = Some key) in
  let error_key := (tool, error_signature (outcome_content outcome)) in
  let same := bool_decide (brk_last_error_key b = Some error_key) in
  {| brk_contract := brk_contract b; brk_started := brk_started b;
     brk_rounds_used := brk_rounds_used b; brk_dispatched := brk_dispatched b;
     brk_tool_calls := brk_tool_calls b + 1;
     brk_tool_errors :=
       if outcome_is_error outcome then brk_tool_errors b + 1 else brk_tool_errors b;
     brk_last_call_key := if repeated then brk_last_call_key b else Some key;
     brk_repeated_call_streak := if repeated then brk_repeated_call_streak b + 1 else 1;
     brk_last_error_key :=
       if outcome_is_error outcome then
         (if same then brk_last_error_key b else Some error_key)
       else None;
     brk_same_error_streak :=
       if outcome_is_error outcome then
         (if same then brk_same_error_streak b + 1 else 1)
       else 0;
     brk_round_keys := brk_round_keys b ++ [key];
     brk_last_round_keys := brk_last_round_keys b;
     brk_repeated_round_streak := brk_repeated_round_streak b;
     brk_compactions := brk_compactions b;
     brk_calls_by_tool :=
       <[tool := default 0 (brk_calls_by_tool b !! tool) + 1]> (brk_calls_by_tool b) |}.

(** The two streak tests at its end. *)
Definition observe_call_trip (tool : rstring) (b : LoopBreaker) : option LoopTrip :=
  let budget := contract_budget (brk_contract b) in
  let same_error :=
    match budget_max_same_error_streak budget, brk_last_error_key b with
    | Some limit, Some (_, signature) =>
        if limit <=? brk_same_error_streak b
        then Some (SameError tool (brk_same_error_streak b) signature) else None
    | _, _ => None
    end in
  match budget_max_repeated_call_streak budget with
  | Some limit =>
      if limit <=? brk_repeated_call_streak b
      then Some (RepeatedCall tool (brk_repeated_call_streak b)) else same_error
  | None => same_error
  end.

Definition observe_call (tool : rstring) (input : json) (outcome : CallOutcome)
    (b : LoopBreaker) : option LoopTrip * LoopBreaker :=
  let b := observe_call_state tool input outcome b in
  (observe_call_trip tool b, b).
End observe.

Definition breaker_report (b : LoopBreaker) (termination : LoopTermination) (now : Z)
    : LoopReport :=
  {| report_contract := contract_name (brk_contract b);
     report_termination := termination;
     report_rounds_used := brk_rounds_used b;
     report_tool_calls := brk_tool_calls b;
     report_tool_errors := brk_tool_errors b;
     report_tool_calls_interrupted :=
       usize_saturating_sub (brk_dispatched b) (brk_tool_calls b);
     report_compactions := brk_compactions b;
     report_calls_by_tool := brk_calls_by_tool b;
     report_elapsed_ms := millis_u64 (now - brk_started b) |}.
