(* ===== verification/Lifecycle.v ===== *)
(** The governed-task state machine (src/state/governed_task.rs,
    [apply_mutation] and everything it calls).

    One definition per arm of [apply_mutation]; each takes the task the arm
    mutates and returns the mutated task or the error. A caller of
    [apply_mutation] drops its task when it gets an error, so a partly mutated
    task is never observed. The two random UUIDs an arm may draw are an explicit
    [FreshIds] argument. *)
From S2P Require Export Contract LoopContract.
Local Open Scope Z_scope.

(** * The host: what the source calls outside the repository *)

Class Host := {
  host_unicode :: UnicodeTables;
  host_json :: SerdeJson;
  (** chrono's [DateTime::parse_from_rfc3339], as nanoseconds of UTC. *)
  parse_from_rfc3339 : rstring → option Z;
  (** sha2's digest of some bytes, printed with [{:x}]. *)
  sha256_hex : list Z → rstring;
  (** [serde_json::to_vec] of a registration and of a [SemanticMutation]. *)
  registration_json : GovernedTaskRegistration → list Z;
  semantic_mutation_json : rstring → rstring → GovernedTaskMutation → list Z
}.

(** A digest is printed as 64 lowercase hexadecimal digits. *)
Class HostLaws `{Host} := {
  sha256_hex_len input : len (sha256_hex input) = 64;
  sha256_hex_digits input : forallb is_lower_hex_byte (bytes (sha256_hex input)) = true
}.

(** * Errors *)

Inductive PresentedGeneration : Type := Missing | Stale (generation : Z).
#[export] Instance PresentedGeneration_eq_dec : EqDecision PresentedGeneration.
Proof. solve_decision. Defined.

Inductive GovernedTaskStateError : Type :=
  | Contract (error : GovernedTaskContractError)
  | NotFound (task_id : rstring)
  | AlreadyExists (task_id : rstring)
  | ProjectMismatch (expected received : rstring)
  | WorkspaceMismatch (expected received : rstring)
  | RevisionConflict (expected current : Z)
  | IdempotencyConflict (request_id task_id : rstring)
  | IdempotencyPayloadConflict (request_id : rstring)
  | InvalidTransition (message : rstring)
  | Fenced (task_id : rstring) (presented : PresentedGeneration) (current : Z).

(** [anyhow::Error]: a typed error, a message, or either under a context.
    [Panicked] stands for an [expect] that fails. *)
Inductive AnyError : Type :=
  | StateError (error : GovernedTaskStateError)
  | ContractError (error : GovernedTaskContractError)
  | LoopError (error : LoopContractError)
  | Message (message : rstring)
  | WithContext (context : rstring) (source : AnyError)
  | Panicked (message : rstring).

Abbreviation state_result := (result AnyError).

Definition with_context {A} (context : rstring) (m : state_result A) : state_result A :=
  map_err (WithContext context) m.

Definition invalid_transition_error (message : rstring) : AnyError :=
  StateError (InvalidTransition message).
Definition invalid_transition {A} (message : rstring) : state_result A :=
  Err (invalid_transition_error message).

(** * Input checks *)

Definition MAX_REASON_BYTES : Z := 16 * 1024.

Definition require_bounded_text (label value : rstring) (max_bytes : Z) : state_result unit :=
  reject_if (is_empty (trim value) || contains_nul value || (max_bytes <? len value))
    (invalid_transition_error
       (label ++ lit " must be nonblank, NUL-free, and at most " ++ show_Z max_bytes
          ++ lit " bytes")).

Definition require_text (label value : rstring) : state_result unit :=
  require_bounded_text label value MAX_REASON_BYTES.

(** [{:?}] of an actor kind. *)
Definition show_actor_kind (k : GovernedActorKind) : rstring :=
  match k with
  | System => lit "System" | Worker => lit "Worker" | Verifier => lit "Verifier"
  | Supervisor => lit "Supervisor" | Operator => lit "Operator"
  end.

Definition require_actor (actor : GovernedActor) (expected : GovernedActorKind)
    : state_result unit :=
  reject_if (bool_decide (actor_kind actor ≠ expected))
    (invalid_transition_error
       (lit "actor kind " ++ show_actor_kind (actor_kind actor) ++ lit " cannot perform "
          ++ show_actor_kind expected ++ lit " transition")) ;;
  require_text (lit "actor id") (actor_id actor).

Definition require_capacity (label : rstring) (current maximum : Z) : state_result unit :=
  reject_if (maximum <=? current)
    (invalid_transition_error (label ++ lit " reached its limit of " ++ show_Z maximum)).

Definition require_commit_oid (label value : rstring) : state_result unit :=
  reject_if (negb (((len value =? 40) || (len value =? 64))
                   && forallb is_lower_hex_byte (bytes value)))
    (invalid_transition_error
       (label ++ lit " must be a 40- or 64-character lowercase hexadecimal Git commit OID")).

Definition require_sha256_digest (label value : rstring) : state_result unit :=
  match strip_prefix (lit "sha256:") value with
  | None => invalid_transition (label ++ lit " must use the sha256:<hex> format")
  | Some hex =>
      reject_if (negb (len hex =? 64) || negb (forallb is_ascii_hexdigit (bytes hex)))
        (invalid_transition_error
           (label ++ lit " must contain exactly 64 hexadecimal SHA-256 characters"))
  end.

Definition validate_reference_ids (label : rstring) (references : list rstring)
    : state_result unit :=
  reject_if (MAX_GOVERNED_REFERENCES <? zlen references)
    (invalid_transition_error
       (label ++ lit " must contain at most " ++ show_Z MAX_GOVERNED_REFERENCES
          ++ lit " entries")) ;;
  for_each (λ reference, require_bounded_text label reference MAX_GOVERNED_REFERENCE_BYTES)
    references.

Definition escapes_project (c : Component) : bool :=
  match c with ParentDir | RootDir | Prefix => true | CurDir | Normal _ => false end.

Definition require_project_relative_ref (label value : rstring) : state_result unit :=
  require_bounded_text label value MAX_GOVERNED_REFERENCE_BYTES ;;
  reject_if (path_is_absolute value || existsb escapes_project (path_components value))
    (invalid_transition_error (label ++ lit " must be a project-local relative reference")).

(** [success] must agree with the exit code. *)
Definition exit_code_agrees (success : bool) (exit_code : option Z) : bool :=
  match success, exit_code with
  | true, Some code => code =? 0
  | false, None => true
  | false, Some code => negb (code =? 0)
  | true, None => false
  end.

Definition validate_command (command : GovernedCommandEvidence) : state_result unit :=
  require_bounded_text (lit "verification command name") (command_name command)
    MAX_GOVERNED_REFERENCE_BYTES ;;
  require_bounded_text (lit "verification command executable") (command_executable command)
    MAX_GOVERNED_REFERENCE_BYTES ;;
  reject_if (MAX_GOVERNED_COMMAND_ARGS <? zlen (command_redacted_args command))
    (invalid_transition_error
       (lit "verification command evidence must contain at most "
          ++ show_Z MAX_GOVERNED_COMMAND_ARGS ++ lit " redacted arguments")) ;;
  for_each (λ argument,
      reject_if (contains_nul argument || (MAX_GOVERNED_COMMAND_ARG_BYTES <? len argument))
        (invalid_transition_error
           (lit "verification command arguments must be NUL-free and at most "
              ++ show_Z MAX_GOVERNED_COMMAND_ARG_BYTES ++ lit " bytes")))
    (command_redacted_args command) ;;
  require_sha256_digest (lit "verification command digest") (command_command_digest command) ;;
  reject_if (negb (exit_code_agrees (command_success command) (command_exit_code command)))
    (invalid_transition_error
       (lit "verification command success must agree with its process exit code")) ;;
  require_sha256_digest (lit "verification output digest") (command_output_digest command) ;;
  match command_output_ref command with
  | Some output_ref => require_project_relative_ref (lit "verification output ref") output_ref
  | None => Ok tt
  end.

Definition validate_verification (v : GovernedVerificationInput) : state_result unit :=
  let commands := verification_input_commands v in
  let outcome := verification_input_outcome v in
  require_bounded_text (lit "verification subject revision")
    (verification_input_subject_revision v) MAX_GOVERNED_REFERENCE_BYTES ;;
  require_bounded_text (lit "verification policy") (verification_input_policy v)
    MAX_GOVERNED_REFERENCE_BYTES ;;
  reject_if (MAX_GOVERNED_COMMANDS <? zlen commands)
    (invalid_transition_error
       (lit "verification commands must contain at most " ++ show_Z MAX_GOVERNED_COMMANDS
          ++ lit " entries")) ;;
  validate_reference_ids (lit "verification artifact ids") (verification_input_artifact_ids v) ;;
  match verification_input_notes v with
  | Some notes => require_text (lit "verification notes") notes
  | None => Ok tt
  end ;;
  reject_if ((bool_decide (outcome = Passed) || bool_decide (outcome = Failed))
             && bool_decide (commands = []))
    (invalid_transition_error
       (lit "passed or failed verification requires command evidence")) ;;
  reject_if (bool_decide (outcome = Passed) && existsb (λ c, negb (command_success c)) commands)
    (invalid_transition_error
       (lit "passing verification cannot contain failed commands")) ;;
  reject_if (bool_decide (outcome = Failed) && forallb command_success commands)
    (invalid_transition_error
       (lit "failed verification requires at least one failed command")) ;;
  for_each validate_command commands.

Definition validate_promotion_outcome (promotion : GovernedPromotionInput) : state_result unit :=
  require_commit_oid (lit "promotion accepted revision")
    (promotion_input_accepted_revision promotion) ;;
  require_commit_oid (lit "promotion initial subject revision")
    (promotion_input_initial_subject_revision promotion) ;;
  match promotion_input_outcome promotion with
  | Promoted promoted_revision =>
      require_commit_oid (lit "promoted revision") promoted_revision ;;
      reject_if (bool_decide (promoted_revision ≠ promotion_input_accepted_revision promotion))
        (invalid_transition_error
           (lit "a promoted outcome must land exactly the accepted subject revision"))
  | PromotionBlocked canonical_head reason =>
      require_commit_oid (lit "blocked canonical head") canonical_head ;;
      reject_if
        ((bool_decide (reason = CanonicalHeadMoved)
          || bool_decide (reason = ConcurrentBranchUpdate))
         && bool_decide (canonical_head = promotion_input_initial_subject_revision promotion))
        (invalid_transition_error
           (lit "a promotion is blocked on a moved head only when that head differs from the initial OID"))
  end.

Definition require_optional_digest (label : rstring) (component : option rstring)
    : state_result unit :=
  match component with
  | Some component => require_sha256_digest label component
  | None => Ok tt
  end.

Definition require_shared_config_digest (pin : SharedRepositoryConfigPin) : state_result unit :=
  match pin_recorded pin with
  | None => Ok tt
  | Some digest =>
      require_sha256_digest (lit "staged worktree repository config digest")
        (digest_repository_config digest) ;;
      require_optional_digest (lit "staged worktree worktree-config digest")
        (digest_worktree_config digest) ;;
      require_optional_digest (lit "staged worktree info-attributes digest")
        (digest_info_attributes digest)
  end.

Definition require_expected_staged_root (task : GovernedTaskRun) (root : rstring)
    : state_result unit :=
  expected ← map_err (λ e, StateError (Contract e)) (expected_staged_worktree_root task) ;
  reject_if (negb (path_is_absolute root) || negb (path_eqb root expected))
    (invalid_transition_error
       (lit "staged worktree root must be the daemon-derived path " ++ expected)).

(** * Task-state predicates *)

Inductive PromotionPreconditionFailure : Type :=
  | CapacityExhausted (limit : Z)
  | NotStagedScope
  | NotAccepted
  | NoActiveStagedWorktree
  | NoClaim
  | AlreadyPromoted.

Definition show_promotion_precondition_failure (f : PromotionPreconditionFailure) : rstring :=
  match f with
  | CapacityExhausted limit =>
      lit "governed promotions reached its limit of " ++ show_Z limit
  | NotStagedScope => lit "only a staged_authoritative world scope promotes an outcome"
  | NotAccepted => lit "promotion requires an accepted governed task"
  | NoActiveStagedWorktree => lit "promotion requires an active staged worktree"
  | NoClaim => lit "promotion requires an accepted worker claim"
  | AlreadyPromoted => lit "this governed outcome was already promoted"
  end.

Definition record_promotion_preconditions_hold (task : GovernedTaskRun)
    : result PromotionPreconditionFailure unit :=
  reject_if (MAX_GOVERNED_RECORDS_PER_KIND <=? zlen (run_promotions task))
    (CapacityExhausted MAX_GOVERNED_RECORDS_PER_KIND) ;;
  reject_if (bool_decide (run_world_scope task ≠ StagedAuthoritative)) NotStagedScope ;;
  reject_if (bool_decide (run_review_state task ≠ Accepted)) NotAccepted ;;
  reject_if (bool_decide (active_staged_worktree task = None)) NoActiveStagedWorktree ;;
  reject_if (bool_decide (latest_claim task = None)) NoClaim ;;
  reject_if
    (match latest_promotion task with
     | Some previous => is_promoted (promotion_outcome previous)
     | None => false
     end) AlreadyPromoted.

(** The state layer's copy of the discard rule. *)
Definition staged_worktree_is_discardable (task : GovernedTaskRun) : bool :=
  if bool_decide (run_execution_state task = LaunchFailed) then true
  else if bool_decide (run_execution_state task = RuntimeExited)
          && bool_decide (run_review_state task = AwaitingClaim) then true
  else
    let builder_still_working :=
      bool_decide (run_execution_state task = Running)
      && negb (match run_review_state task with
               | Accepted | Rejected | Escalated => true
               | _ => false
               end) in
    if negb builder_still_working
       && match run_staged_worktree task with
          | Some staged => negb (pin_is_comparable (staged_shared_config_digest staged))
          | None => false
          end then true
    else match run_review_state task with
         | Rejected | Escalated => true
         | Accepted => match latest_promotion task with Some _ => true | None => false end
         | _ => false
         end.

(** * Record ids and events *)

Record FreshIds := { fresh_record : rstring; fresh_event : rstring }.

Definition new_record_id (prefix uuid : rstring) : rstring := prefix ++ lit "-" ++ uuid.

Definition new_event (ids : FreshIds) (revision : Z) (kind : GovernedTaskEventKind)
    (actor : GovernedActor) (detail created_at : rstring) : GovernedTaskEvent :=
  {| event_id := new_record_id (lit "event") (fresh_event ids);
     event_revision := revision;
     event_kind := kind;
     event_actor := actor;
     event_detail := detail;
     event_created_at := created_at |}.

(** [task.events.push(event)]. *)
Definition push_event (event : GovernedTaskEvent) (task : GovernedTaskRun) : GovernedTaskRun :=
  set_events (run_events task ++ [event]) task.

(** * The mutation context *)

Record ReplayedClaimEvidence := {
  replayed_digest : option rstring;
  replayed_version : option Z;
  replayed_tripped : bool
}.

Record MutationContext := {
  ctx_now : rstring;
  ctx_operator_authentication : OperatorAuthentication;
  ctx_replay_claim : option ReplayedClaimEvidence;
  ctx_is_replay : bool
}.

Definition live_context (now : rstring) (authentication : OperatorAuthentication)
    : MutationContext :=
  {| ctx_now := now; ctx_operator_authentication := authentication;
     ctx_replay_claim := None; ctx_is_replay := false |}.

(** * The governed Builder loop *)

Definition current_governed_loop_version : Z := GOVERNED_BUILDER_LOOP_VERSION.
Definition GOVERNED_VERIFICATION_TOOL : rstring := lit "governed_verification".

Definition verification_failure_signature (v : GovernedVerification) : option rstring :=
  if bool_decide (verification_outcome v ≠ Failed) then None
  else match List.find (λ c, negb (command_success c)) (verification_commands v) with
       | Some command => Some (command_name command)
       | None =>
           match verification_notes v with
           | Some notes => Some notes
           | None => Some (verification_policy v)
           end
       end.

(** The loop of [trailing_verification_failure_streak] over the verifications,
    newest first. *)
Fixpoint failure_streak_loop (signature : option rstring) (streak : Z)
    (newest_first : list GovernedVerification) : option (rstring * Z) :=
  let finish := (λ s, (s, streak)) <$> signature in
  match newest_first with
  | [] => finish
  | v :: rest =>
      match verification_failure_signature v with
      | None => finish
      | Some current =>
          match signature with
          | None => failure_streak_loop (Some current) 1 rest
          | Some previous =>
              if bool_decide (previous = current)
              then failure_streak_loop signature (streak + 1) rest
              else finish
          end
      end
  end.

Definition trailing_verification_failure_streak (task : GovernedTaskRun)
    : option (rstring * Z) :=
  failure_streak_loop None 0 (reverse (run_verifications task)).

Record GovernedLoopState := {
  loop_trip : option LoopTrip;
  loop_report_digest : rstring;
  loop_report_version : Z
}.

Section machine.
Context `{Host}.

(** Elapsed time as a [Duration]: whole milliseconds, never negative. *)
Definition elapsed_between (start finish : rstring) : state_result Z :=
  start ← ok_or (parse_from_rfc3339 start)
    (Message (lit "governed task creation timestamp must be a valid RFC 3339 timestamp")) ;
  finish ← ok_or (parse_from_rfc3339 finish)
    (Message (lit "governed task event timestamp must be a valid RFC 3339 timestamp")) ;
  Ok (from_millis (Z.max (Z.quot (finish - start) 1000000) 0)).

Definition governed_loop_report_digest (report : LoopReport) (version : Z) : rstring :=
  lit "sha256:" ++
  sha256_hex (bytes (lit "impulse-governed-loop-report-v") ++ bytes (show_Z version)
              ++ [0] ++ bytes (canonical_json (report_to_value report))).

(** The report of a claim under evaluation. *)
Definition governed_loop_report (task : GovernedTaskRun) (trip : option LoopTrip)
    (elapsed : Z) : LoopReport :=
  {| report_contract := contract_name governed_builder;
     report_termination := match trip with Some trip => Tripped trip | None => Completed end;
     report_rounds_used := usize_saturating_add (zlen (run_claims task)) 1;
     report_tool_calls := zlen (run_verifications task);
     report_tool_errors :=
       zlen (filter (λ v, verification_outcome v ≠ Passed) (run_verifications task));
     report_tool_calls_interrupted := 0;
     report_compactions := 0;
     report_calls_by_tool := ∅;
     report_elapsed_ms := millis_u64 elapsed |}.

Definition observe_task (task : GovernedTaskRun) (elapsed : Z) : LoopObservation :=
  {| observed_rounds_used := zlen (run_claims task);
     observed_elapsed := elapsed;
     observed_same_error :=
       (λ failure, {| same_error_tool := GOVERNED_VERIFICATION_TOOL;
                      same_error_streak_seen := failure.2;
                      same_error_signature := failure.1 |})
       <$> trailing_verification_failure_streak task |}.

(** The verdict recomputed under the running evidence version. *)
Definition recomputed_loop_state (task : GovernedTaskRun) (now : rstring)
    : state_result GovernedLoopState :=
  with_context (lit "governed Builder loop contract is unusable")
    (map_err LoopError (validate_loop_contract governed_builder)) ;;
  elapsed ← elapsed_between (run_created_at task) now ;
  let trip := evaluate_observed (contract_budget governed_builder)
                (observe_task task elapsed) in
  Ok {| loop_trip := trip;
        loop_report_digest :=
          governed_loop_report_digest (governed_loop_report task trip elapsed)
            current_governed_loop_version;
        loop_report_version := current_governed_loop_version |}.

Definition governed_builder_loop_state (task : GovernedTaskRun) (now : rstring)
    (replay : option ReplayedClaimEvidence) : state_result (option GovernedLoopState) :=
  if bool_decide (run_world_scope task ≠ StagedAuthoritative) then Ok None
  else match replay with
       | Some replay =>
           if bool_decide (replayed_version replay ≠ Some current_governed_loop_version) then
             match replayed_digest replay, replayed_version replay with
             | Some digest, Some version =>
                 Ok (Some {| loop_trip :=
                               if replayed_tripped replay
                               then Some (RoundCap (zlen (run_claims task))) else None;
                             loop_report_digest := digest;
                             loop_report_version := version |})
             | _, _ => Ok None
             end
           else Some <$> recomputed_loop_state task now
       | None => Some <$> recomputed_loop_state task now
       end.

(** * The arms of [apply_mutation] *)

Implicit Types (task : GovernedTaskRun) (ctx : MutationContext) (ids : FreshIds).

Definition apply_materialize_staged_worktree (staged : StagedWorktreeInput)
    (event_revision : Z) ctx ids task : state_result GovernedTaskRun :=
  let now := ctx_now ctx in
  require_actor (staged_input_actor staged) System ;;
  reject_if (bool_decide (run_world_scope task ≠ StagedAuthoritative))
    (invalid_transition_error
       (lit "only a staged_authoritative world scope materializes a staged worktree")) ;;
  reject_if (bool_decide (run_staged_worktree task ≠ None))
    (invalid_transition_error (lit "staged worktree was already materialized")) ;;
  reject_if (bool_decide (run_execution_state task ≠ Registered))
    (invalid_transition_error
       (lit "staged worktree must be materialized before the runtime launches")) ;;
  initial ← ok_or (run_initial_subject_revision task)
    (invalid_transition_error
       (lit "staged world scope lost its registered initial Git OID")) ;
  reject_if (bool_decide (staged_input_initial_subject_revision staged ≠ initial))
    (invalid_transition_error
       (lit "staged worktree must be materialized at the registered initial Git OID")) ;;
  require_expected_staged_root task (staged_input_root staged) ;;
  let id := new_record_id (lit "staged-worktree") (fresh_record ids) in
  require_shared_config_digest (staged_input_shared_config_digest staged) ;;
  let worktree :=
    {| staged_id := id;
       staged_actor := staged_input_actor staged;
       staged_root := staged_input_root staged;
       staged_initial_subject_revision := staged_input_initial_subject_revision staged;
       staged_shared_config_digest := staged_input_shared_config_digest staged;
       staged_status := Active;
       staged_materialized_at := now;
       staged_based_on_revision := run_revision task |} in
  Ok (push_event
        (new_event ids event_revision EventStagedWorktreeMaterialized
           (staged_input_actor staged)
           (lit "staged worktree " ++ id ++ lit " materialized") now)
        (set_staged_worktree (Some worktree) task)).

Definition discard_staged (s : StagedWorktree) : StagedWorktree :=
  {| staged_id := staged_id s; staged_actor := staged_actor s; staged_root := staged_root s;
     staged_initial_subject_revision := staged_initial_subject_revision s;
     staged_shared_config_digest := staged_shared_config_digest s;
     staged_status := Discarded;
     staged_materialized_at := staged_materialized_at s;
     staged_based_on_revision := staged_based_on_revision s |}.

Definition apply_discard_staged_worktree (actor : GovernedActor) (reason : rstring)
    (event_revision : Z) ctx ids task : state_result GovernedTaskRun :=
  require_actor actor System ;;
  require_text (lit "staged worktree discard reason") reason ;;
  match run_staged_worktree task with
  | Some staged =>
      reject_if (bool_decide (staged_status staged ≠ Active))
        (invalid_transition_error (lit "staged worktree was already discarded"))
  | None => invalid_transition (lit "task has no staged worktree to discard")
  end ;;
  reject_if (negb (staged_worktree_is_discardable task))
    (invalid_transition_error
       (lit "a staged worktree is discarded only after rejection or a completed promotion")) ;;
  Ok (push_event
        (new_event ids event_revision EventStagedWorktreeDiscarded actor reason (ctx_now ctx))
        (set_staged_worktree (discard_staged <$> run_staged_worktree task) task)).

Definition promotion_summary (outcome : GovernedPromotionOutcome) : rstring :=
  match outcome with
  | Promoted promoted_revision => lit "promoted to " ++ promoted_revision
  | PromotionBlocked canonical_head reason =>
      lit "blocked (" ++ show_blocked_reason reason ++ lit "); canonical head is "
        ++ canonical_head
  end.

Definition apply_record_promotion (promotion : GovernedPromotionInput)
    (event_revision : Z) ctx ids task : state_result GovernedTaskRun :=
  let now := ctx_now ctx in
  map_err (λ failure, invalid_transition_error (show_promotion_precondition_failure failure))
    (record_promotion_preconditions_hold task) ;;
  require_actor (promotion_input_actor promotion) System ;;
  staged ← ok_or (active_staged_worktree task)
    (Panicked (lit "precondition proved an active staged worktree")) ;
  reject_if
    (bool_decide (promotion_input_initial_subject_revision promotion
                  ≠ staged_initial_subject_revision staged))
    (invalid_transition_error
       (lit "promotion must reference the staged worktree's initial Git OID")) ;;
  claim ← ok_or (latest_claim task)
    (Panicked (lit "precondition proved a current worker claim")) ;
  reject_if
    (bool_decide (promotion_input_accepted_revision promotion ≠ claim_subject_revision claim))
    (invalid_transition_error
       (lit "promotion must reference the accepted claim's subject revision")) ;;
  validate_promotion_outcome promotion ;;
  let id := new_record_id (lit "promotion") (fresh_record ids) in
  let record :=
    {| promotion_id := id;
       promotion_actor := promotion_input_actor promotion;
       promotion_accepted_revision := promotion_input_accepted_revision promotion;
       promotion_initial_subject_revision :=
         promotion_input_initial_subject_revision promotion;
       promotion_outcome := promotion_input_outcome promotion;
       promotion_recorded_at := now;
       promotion_based_on_revision := run_revision task |} in
  Ok (push_event
        (new_event ids event_revision EventPromotionRecorded (promotion_input_actor promotion)
           (lit "promotion " ++ id ++ lit " recorded as "
              ++ promotion_summary (promotion_input_outcome promotion)) now)
        (set_promotions (run_promotions task ++ [record]) task)).

Definition apply_take_over_worker (actor : GovernedActor) (reason : rstring)
    (event_revision : Z) ctx ids task : state_result GovernedTaskRun :=
  reject_if (negb (bool_decide (actor_kind actor = System)
                   || bool_decide (actor_kind actor = Operator)))
    (invalid_transition_error
       (lit "only the daemon or an operator can take over a worker lease")) ;;
  require_text (lit "worker takeover reason") reason ;;
  reject_if (bool_decide (run_execution_state task ≠ Running))
    (invalid_transition_error
       (lit "a worker lease is taken over only while the run is running")) ;;
  reject_if (match run_review_state task with Accepted | Rejected => true | _ => false end)
    (invalid_transition_error
       (lit "a settled review has no worker lease to take over")) ;;
  reject_if (negb (ctx_is_replay ctx)
             && match run_review_state task with
                | AwaitingVerification | AwaitingSupervisor | AwaitingOperator | Escalated => true
                | _ => false
                end)
    (invalid_transition_error
       (lit "a claim is under review; take over only after it is sent back")) ;;
  reject_if (requires_staged_worktree (run_world_scope task)
             && bool_decide (active_staged_worktree task = None))
    (invalid_transition_error
       (lit "a staged_authoritative takeover requires an active staged worktree")) ;;
  Ok (push_event
        (new_event ids event_revision EventWorkerTakenOver actor reason (ctx_now ctx)) task).

Definition apply_mark_running (actor : GovernedActor)
    (event_revision : Z) ctx ids task : state_result GovernedTaskRun :=
  require_actor actor System ;;
  reject_if (bool_decide (run_execution_state task ≠ Registered))
    (invalid_transition_error (lit "only a registered task can start running")) ;;
  (if negb (ctx_is_replay ctx) && bool_decide (run_world_scope task = StagedAuthoritative) then
     match active_staged_worktree task with
     | None =>
         invalid_transition
           (lit "a staged_authoritative task starts running only after its staged worktree is materialized")
     | Some staged =>
         reject_if (negb (pin_is_comparable (staged_shared_config_digest staged)))
           (invalid_transition_error
              (lit "the staged worktree's shared-repository-configuration pin cannot be compared by this build; discard the staged worktree and re-materialize it before starting the runtime"))
     end
   else Ok tt) ;;
  Ok (push_event
        (new_event ids event_revision EventRunning actor
           (lit "runtime launch acknowledged") (ctx_now ctx))
        (set_execution_state Running task)).

Definition apply_mark_launch_failed (actor : GovernedActor) (reason : rstring)
    (event_revision : Z) ctx ids task : state_result GovernedTaskRun :=
  require_actor actor System ;;
  require_text (lit "launch failure reason") reason ;;
  reject_if (bool_decide (run_execution_state task ≠ Registered))
    (invalid_transition_error (lit "launch failure requires a registered task")) ;;
  Ok (push_event
        (new_event ids event_revision EventLaunchFailed actor reason (ctx_now ctx))
        (set_execution_state LaunchFailed task)).

(** [reason.as_deref()] is checked when present. *)
Definition require_optional_text (label : rstring) (reason : option rstring)
    : state_result unit :=
  match reason with Some reason => require_text label reason | None => Ok tt end.

Definition apply_mark_runtime_exited (actor : GovernedActor) (reason : option rstring)
    (exit_kind : GovernedExitKind) (event_revision : Z) ctx ids task
    : state_result GovernedTaskRun :=
  require_actor actor System ;;
  reject_if (bool_decide (run_execution_state task ≠ Running))
    (invalid_transition_error (lit "runtime exit requires a running task")) ;;
  require_optional_text (lit "runtime exit reason") reason ;;
  Ok (push_event
        (new_event ids event_revision EventRuntimeExited actor
           (default (lit "runtime exited") reason) (ctx_now ctx))
        (set_exit_kind exit_kind (set_execution_state RuntimeExited task))).

(** The checks of [SubmitClaim]. *)
Definition admit_claim (claim : WorkerCompletionClaimInput) ctx task : state_result unit :=
  require_capacity (lit "worker claims") (zlen (run_claims task))
    MAX_GOVERNED_RECORDS_PER_KIND ;;
  require_actor (claim_input_actor claim) Worker ;;
  reject_if (bool_decide (actor_id (claim_input_actor claim) ≠ run_agent_id task))
    (invalid_transition_error
       (lit "worker claim actor does not match assigned agent")) ;;
  reject_if (negb (bool_decide (run_execution_state task = Running)
                   || bool_decide (run_execution_state task = RuntimeExited)))
    (invalid_transition_error (lit "claim requires a launched or exited runtime")) ;;
  reject_if (negb (ctx_is_replay ctx)
             && bool_decide (run_exit_kind task = OperatorCancelled))
    (invalid_transition_error (lit "run was cancelled; claim refused")) ;;
  reject_if (negb (match run_review_state task with
                   | AwaitingClaim | ChangesRequested | VerificationFailed => true
                   | _ => false
                   end))
    (invalid_transition_error (lit "review state does not accept a worker claim")) ;;
  reject_if (negb (ctx_is_replay ctx)
             && requires_staged_worktree (run_world_scope task)
             && bool_decide (active_staged_worktree task = None))
    (invalid_transition_error
       (lit "a staged_authoritative claim requires an active staged worktree")) ;;
  require_text (lit "claim summary") (claim_input_summary claim) ;;
  require_bounded_text (lit "claim subject revision") (claim_input_subject_revision claim)
    MAX_GOVERNED_REFERENCE_BYTES ;;
  validate_reference_ids (lit "claim artifact ids") (claim_input_artifact_ids claim) ;;
  match claim_input_diff_ref claim with
  | Some diff_ref => require_project_relative_ref (lit "claim diff ref") diff_ref
  | None => Ok tt
  end.

Definition apply_submit_claim (claim : WorkerCompletionClaimInput)
    (event_revision : Z) ctx ids task : state_result GovernedTaskRun :=
  let now := ctx_now ctx in
  admit_claim claim ctx task ;;
  loop_state ← governed_builder_loop_state task now (ctx_replay_claim ctx) ;
  let id := new_record_id (lit "claim") (fresh_record ids) in
  let record :=
    {| claim_id := id;
       claim_actor := claim_input_actor claim;
       claim_summary := claim_input_summary claim;
       claim_subject_revision := claim_input_subject_revision claim;
       claim_artifact_ids := claim_input_artifact_ids claim;
       claim_diff_ref := claim_input_diff_ref claim;
       claim_loop_report_digest := loop_report_digest <$> loop_state;
       claim_loop_report_version := loop_report_version <$> loop_state;
       claim_submitted_at := now;
       claim_based_on_revision := run_revision task |} in
  let task := set_claims (run_claims task ++ [record]) task in
  match loop_state ≫= loop_trip with
  | Some trip =>
      Ok (push_event
            (new_event ids event_revision EventLoopTripped (claim_input_actor claim)
               (lit "worker completion claim " ++ id
                  ++ lit " tripped the governed Builder loop contract: " ++ show_trip trip) now)
            (set_review_state Escalated task))
  | None =>
      Ok (push_event
            (new_event ids event_revision EventClaimSubmitted (claim_input_actor claim)
               (lit "worker completion claim " ++ id ++ lit " submitted") now)
            (set_review_state AwaitingVerification task))
  end.

Definition show_outcome (o : GovernedVerificationOutcome) : rstring :=
  match o with
  | Passed => lit "Passed" | Failed => lit "Failed" | Inconclusive => lit "Inconclusive"
  end.

Definition apply_record_verification (verification : GovernedVerificationInput)
    (event_revision : Z) ctx ids task : state_result GovernedTaskRun :=
  let now := ctx_now ctx in
  require_capacity (lit "verification records") (zlen (run_verifications task))
    MAX_GOVERNED_RECORDS_PER_KIND ;;
  require_actor (verification_input_actor verification) Verifier ;;
  reject_if (bool_decide (run_review_state task ≠ AwaitingVerification))
    (invalid_transition_error
       (lit "verification requires an awaiting-verification task")) ;;
  claim ← ok_or (latest_claim task)
    (invalid_transition_error (lit "verification requires a worker claim")) ;
  reject_if (bool_decide (verification_input_claim_id verification ≠ claim_id claim))
    (invalid_transition_error (lit "verification must reference the latest claim")) ;;
  reject_if (bool_decide (verification_input_subject_revision verification
                          ≠ claim_subject_revision claim))
    (invalid_transition_error
       (lit "verification subject revision must match the latest claim")) ;;
  validate_verification verification ;;
  let id := new_record_id (lit "verification") (fresh_record ids) in
  let outcome := verification_input_outcome verification in
  let record :=
    {| verification_id := id;
       verification_actor := verification_input_actor verification;
       verification_claim_id := verification_input_claim_id verification;
       verification_subject_revision := verification_input_subject_revision verification;
       verification_policy := verification_input_policy verification;
       verification_outcome := outcome;
       verification_commands := verification_input_commands verification;
       verification_artifact_ids := verification_input_artifact_ids verification;
       verification_notes := verification_input_notes verification;
       verification_recorded_at := now;
       verification_based_on_revision := run_revision task |} in
  Ok (push_event
        (new_event ids event_revision EventVerificationRecorded
           (verification_input_actor verification)
           (lit "verification " ++ id ++ lit " recorded as " ++ show_outcome outcome) now)
        (set_review_state
           (if bool_decide (outcome = Passed) then AwaitingSupervisor else VerificationFailed)
           (set_verifications (run_verifications task ++ [record]) task))).

Definition show_verdict (v : SupervisorVerdictKind) : rstring :=
  match v with
  | RecommendAccept => lit "RecommendAccept"
  | VerdictChangesRequested => lit "ChangesRequested"
  | Escalate => lit "Escalate"
  end.

Definition review_state_of_verdict (v : SupervisorVerdictKind) : GovernedReviewState :=
  match v with
  | RecommendAccept => AwaitingOperator
  | VerdictChangesRequested => ChangesRequested
  | Escalate => Escalated
  end.

Definition apply_record_supervisor_verdict (verdict : SupervisorVerdictInput)
    (event_revision : Z) ctx ids task : state_result GovernedTaskRun :=
  let now := ctx_now ctx in
  require_capacity (lit "supervisor verdicts") (zlen (run_supervisor_verdicts task))
    MAX_GOVERNED_RECORDS_PER_KIND ;;
  require_actor (verdict_input_actor verdict) Supervisor ;;
  reject_if (negb (bool_decide (run_review_state task = AwaitingSupervisor)
                   || bool_decide (run_review_state task = VerificationFailed)))
    (invalid_transition_error (lit "supervisor verdict requires current verification")) ;;
  require_text (lit "supervisor rationale") (verdict_input_rationale verdict) ;;
  verification ← ok_or (latest_verification task)
    (invalid_transition_error (lit "supervisor verdict requires verification")) ;
  reject_if (bool_decide (verdict_input_verification_id verdict
                          ≠ verification_id verification))
    (invalid_transition_error
       (lit "supervisor verdict must reference latest verification")) ;;
  reject_if (bool_decide (verdict_input_verdict verdict = RecommendAccept)
             && bool_decide (verification_outcome verification ≠ Passed))
    (invalid_transition_error
       (lit "accept recommendation requires passing verification")) ;;
  let id := new_record_id (lit "supervisor-verdict") (fresh_record ids) in
  let verdict_kind := verdict_input_verdict verdict in
  let record :=
    {| verdict_id := id;
       verdict_actor := verdict_input_actor verdict;
       verdict_verification_id := verdict_input_verification_id verdict;
       verdict_verdict := verdict_kind;
       verdict_rationale := verdict_input_rationale verdict;
       verdict_decided_at := now;
       verdict_based_on_revision := run_revision task |} in
  Ok (push_event
        (new_event ids event_revision EventSupervisorVerdictRecorded
           (verdict_input_actor verdict)
           (lit "supervisor verdict " ++ id ++ lit " recorded as "
              ++ show_verdict verdict_kind) now)
        (set_review_state (review_state_of_verdict verdict_kind)
           (set_supervisor_verdicts (run_supervisor_verdicts task ++ [record]) task))).

Definition show_decision (d : OperatorDecisionKind) : rstring :=
  match d with Approve => lit "Approve" | Reject => lit "Reject" end.

Definition apply_record_operator_decision (decision : OperatorDecisionInput)
    (event_revision : Z) ctx ids task : state_result GovernedTaskRun :=
  let now := ctx_now ctx in
  require_capacity (lit "operator decisions") (zlen (run_operator_decisions task))
    MAX_GOVERNED_RECORDS_PER_KIND ;;
  require_actor (decision_input_actor decision) Operator ;;
  reject_if (bool_decide (run_review_state task ≠ AwaitingOperator))
    (invalid_transition_error
       (lit "operator decision requires awaiting-operator state")) ;;
  require_text (lit "operator rationale") (decision_input_rationale decision) ;;
  supervisor ← ok_or (latest_supervisor_verdict task)
    (invalid_transition_error (lit "operator decision requires supervisor verdict")) ;
  reject_if
    (bool_decide (decision_input_supervisor_verdict_id decision ≠ verdict_id supervisor)
     || bool_decide (verdict_verdict supervisor ≠ RecommendAccept))
    (invalid_transition_error
       (lit "operator decision must reference latest accept recommendation")) ;;
  let id := new_record_id (lit "operator-decision") (fresh_record ids) in
  let decision_kind := decision_input_decision decision in
  let record :=
    {| decision_id := id;
       decision_actor := decision_input_actor decision;
       decision_supervisor_verdict_id := decision_input_supervisor_verdict_id decision;
       decision_decision := decision_kind;
       decision_rationale := decision_input_rationale decision;
       decision_decided_at := now;
       decision_based_on_revision := run_revision task;
       decision_authentication := ctx_operator_authentication ctx |} in
  Ok (push_event
        (new_event ids event_revision EventOperatorDecisionRecorded
           (decision_input_actor decision)
           (lit "operator decision " ++ id ++ lit " recorded as "
              ++ show_decision decision_kind) now)
        (set_review_state
           (match decision_kind with Approve => Accepted | Reject => Rejected end)
           (set_operator_decisions (run_operator_decisions task ++ [record]) task))).

Definition apply_note_producer_reservation_interrupted (actor : GovernedActor)
    (reason : rstring) (event_revision : Z) ctx ids task : state_result GovernedTaskRun :=
  require_actor actor System ;;
  require_text (lit "producer reservation interruption reason") reason ;;
  Ok (push_event
        (new_event ids event_revision EventProducerReservationInterrupted actor reason
           (ctx_now ctx)) task).

Definition apply_arm (mutation : GovernedTaskMutation)
    : Z → MutationContext → FreshIds → GovernedTaskRun → state_result GovernedTaskRun :=
  match mutation with
  | MaterializeStagedWorktree staged => apply_materialize_staged_worktree staged
  | DiscardStagedWorktree actor reason => apply_discard_staged_worktree actor reason
  | RecordPromotion promotion => apply_record_promotion promotion
  | TakeOverWorker actor reason => apply_take_over_worker actor reason
  | MarkRunning actor => apply_mark_running actor
  | MarkLaunchFailed actor reason => apply_mark_launch_failed actor reason
  | MarkRuntimeExited actor reason exit_kind =>
      apply_mark_runtime_exited actor reason exit_kind
  | SubmitClaim claim => apply_submit_claim claim
  | RecordVerification verification => apply_record_verification verification
  | RecordSupervisorVerdict verdict => apply_record_supervisor_verdict verdict
  | RecordOperatorDecision decision => apply_record_operator_decision decision
  | NoteProducerReservationInterrupted actor reason =>
      apply_note_producer_reservation_interrupted actor reason
  end.

Definition apply_mutation (mutation : GovernedTaskMutation) (event_revision : Z) ctx ids task
    : state_result GovernedTaskRun :=
  require_capacity (lit "governed task events") (zlen (run_events task))
    MAX_GOVERNED_EVENTS ;;
  apply_arm mutation event_revision ctx ids task.
End machine.

(** * Worker-lease fencing *)

Definition is_fenced_mutation (mutation : GovernedTaskMutation) : bool :=
  match mutation with
  | SubmitClaim _ | RecordVerification _ | RecordPromotion _ => true
  | _ => false
  end.

Definition require_current_lease_generation (task : GovernedTaskRun)
    (mutation : GovernedTaskMutation) (presented : option Z) : state_result unit :=
  if negb (is_fenced_mutation mutation) then Ok tt
  else
    let current := lease_generation task in
    let fenced presented :=
      Err (StateError (Fenced (run_id task) presented current)) in
    match presented with
    | Some generation =>
        if generation =? current then Ok tt else fenced (Stale generation)
    | None => if current =? 0 then Ok tt else fenced Missing
    end.
