(* ===== verification/Replay.v ===== *)
(** Reload validation of one stored run (src/state/governed_task.rs,
    [validate_task_history]): every recorded event is turned back into the
    mutation that wrote it, replayed through [apply_mutation] on a projection of
    the run that starts at registration, and the outcome is compared with what
    is stored. The result is the idempotency fingerprint of every mutation.

    The fresh UUIDs the replay draws are the argument [uuids], by revision. *)
From S2P Require Export Lifecycle.
Local Open Scope Z_scope.

Definition bail {A} (message : rstring) : state_result A := Err (Message message).
Definition bail_if (c : bool) (message : rstring) : state_result unit :=
  reject_if c (Message message).

(** [{:?}] of an event kind. *)
Definition show_event_kind (k : GovernedTaskEventKind) : rstring :=
  match k with
  | EventRegistered => lit "Registered"
  | EventStagedWorktreeMaterialized => lit "StagedWorktreeMaterialized"
  | EventStagedWorktreeDiscarded => lit "StagedWorktreeDiscarded"
  | EventRunning => lit "Running"
  | EventLaunchFailed => lit "LaunchFailed"
  | EventRuntimeExited => lit "RuntimeExited"
  | EventClaimSubmitted => lit "ClaimSubmitted"
  | EventLoopTripped => lit "LoopTripped"
  | EventVerificationRecorded => lit "VerificationRecorded"
  | EventSupervisorVerdictRecorded => lit "SupervisorVerdictRecorded"
  | EventOperatorDecisionRecorded => lit "OperatorDecisionRecorded"
  | EventProducerReservationInterrupted => lit "ProducerReservationInterrupted"
  | EventPromotionRecorded => lit "PromotionRecorded"
  | EventWorkerTakenOver => lit "WorkerTakenOver"
  end.

Definition is_claim_event (k : GovernedTaskEventKind) : bool :=
  match k with EventClaimSubmitted | EventLoopTripped => true | _ => false end.

Section fingerprints.
Context `{Host}.

Definition fingerprint_bytes (payload : list Z) : rstring :=
  lit "sha256-v1:" ++ sha256_hex payload.

Definition fingerprint_registration (r : GovernedTaskRegistration) : rstring :=
  fingerprint_bytes (registration_json r).

Definition canonical_mutation (mutation : GovernedTaskMutation) : GovernedTaskMutation :=
  match mutation with
  | MarkRuntimeExited actor None exit_kind =>
      MarkRuntimeExited actor (Some (lit "runtime exited")) exit_kind
  | mutation => mutation
  end.

Definition fingerprint_mutation (project_id task_id : rstring)
    (mutation : GovernedTaskMutation) : rstring :=
  fingerprint_bytes (semantic_mutation_json project_id task_id (canonical_mutation mutation)).

Definition fingerprint_mutation_operation (request : GovernedTaskMutationRequest) : rstring :=
  fingerprint_mutation (request_project_id request) (request_task_id request)
    (request_mutation request).

Definition require_request_fingerprint (value : rstring) : state_result unit :=
  match strip_prefix (lit "sha256-v1:") value with
  | None => bail (lit "request fingerprint must use sha256-v1:<hex> format")
  | Some hex =>
      bail_if (negb (len hex =? 64) || negb (forallb is_lower_hex_byte (bytes hex)))
        (lit "request fingerprint must contain 64 lowercase hexadecimal characters")
  end.

Definition require_rfc3339 (label value : rstring) : state_result unit :=
  match parse_from_rfc3339 value with
  | Some _ => Ok tt
  | None => bail (label ++ lit " must be a valid RFC 3339 timestamp")
  end.
End fingerprints.

(** * The state of the replay loop *)

Record ReplayState := {
  rp_seen_ids : gset rstring;
  rp_claim_index : nat;
  rp_verification_index : nat;
  rp_supervisor_index : nat;
  rp_operator_index : nat;
  rp_promotion_index : nat;
  rp_staged_events : nat;
  rp_fingerprints : gmap Z rstring;
  rp_projection : GovernedTaskRun
}.

Definition rp_set_seen (seen : gset rstring) (st : ReplayState) : ReplayState :=
  {| rp_seen_ids := seen; rp_claim_index := rp_claim_index st;
     rp_verification_index := rp_verification_index st;
     rp_supervisor_index := rp_supervisor_index st; rp_operator_index := rp_operator_index st;
     rp_promotion_index := rp_promotion_index st; rp_staged_events := rp_staged_events st;
     rp_fingerprints := rp_fingerprints st; rp_projection := rp_projection st |}.
Definition rp_set_projection (p : GovernedTaskRun) (st : ReplayState) : ReplayState :=
  {| rp_seen_ids := rp_seen_ids st; rp_claim_index := rp_claim_index st;
     rp_verification_index := rp_verification_index st;
     rp_supervisor_index := rp_supervisor_index st; rp_operator_index := rp_operator_index st;
     rp_promotion_index := rp_promotion_index st; rp_staged_events := rp_staged_events st;
     rp_fingerprints := rp_fingerprints st; rp_projection := p |}.
Definition rp_set_fingerprints (f : gmap Z rstring) (st : ReplayState) : ReplayState :=
  {| rp_seen_ids := rp_seen_ids st; rp_claim_index := rp_claim_index st;
     rp_verification_index := rp_verification_index st;
     rp_supervisor_index := rp_supervisor_index st; rp_operator_index := rp_operator_index st;
     rp_promotion_index := rp_promotion_index st; rp_staged_events := rp_staged_events st;
     rp_fingerprints := f; rp_projection := rp_projection st |}.
(** [x_index += 1] for the record kinds and the staged events. *)
Definition rp_bump (claims verifications supervisors operators promotions staged : nat)
    (st : ReplayState) : ReplayState :=
  {| rp_seen_ids := rp_seen_ids st; rp_claim_index := rp_claim_index st + claims;
     rp_verification_index := rp_verification_index st + verifications;
     rp_supervisor_index := rp_supervisor_index st + supervisors;
     rp_operator_index := rp_operator_index st + operators;
     rp_promotion_index := rp_promotion_index st + promotions;
     rp_staged_events := rp_staged_events st + staged;
     rp_fingerprints := rp_fingerprints st; rp_projection := rp_projection st |}.

(** [if !seen_ids.insert(id) { bail }]. *)
Definition insert_seen (id : rstring) (st : ReplayState) : state_result ReplayState :=
  bail_if (bool_decide (id ∈ rp_seen_ids st))
    (lit "duplicate governed record id `" ++ id ++ lit "`") ;;
  Ok (rp_set_seen ({[id]} ∪ rp_seen_ids st) st).

Section replay.
Context `{Host}.

Definition validate_record_link (id : rstring) (actor : GovernedActor)
    (based_on_revision : Z) (timestamp : rstring) (event : GovernedTaskEvent)
    (st : ReplayState) : state_result ReplayState :=
  bail_if (bool_decide (u64_checked_add based_on_revision 1 ≠ Some (event_revision event)))
    (lit "governed record `" ++ id
       ++ lit "` is not based on the revision immediately before its event") ;;
  bail_if (bool_decide (actor ≠ event_actor event))
    (lit "governed record `" ++ id ++ lit "` actor does not match its lifecycle event") ;;
  require_rfc3339 (lit "governed record timestamp") timestamp ;;
  insert_seen id st.

(** What one event replays as: the mutation on the projection (whose record
    ids are fresh), the mutation that is fingerprinted (with the stored ids)
    and the provenance of an operator decision. *)
Record Replayed := {
  replayed_mutation : GovernedTaskMutation;
  fingerprint_input : GovernedTaskMutation;
  replayed_authentication : OperatorAuthentication
}.

Definition replay_same (m : GovernedTaskMutation) : Replayed :=
  {| replayed_mutation := m; fingerprint_input := m; replayed_authentication := Declared |}.

Definition staged_mutation (staged : StagedWorktree) : GovernedTaskMutation :=
  MaterializeStagedWorktree
    {| staged_input_actor := staged_actor staged;
       staged_input_root := staged_root staged;
       staged_input_initial_subject_revision := staged_initial_subject_revision staged;
       staged_input_shared_config_digest := staged_shared_config_digest staged |}.

Definition replay_staged_materialized (task : GovernedTaskRun) (event : GovernedTaskEvent)
    (st : ReplayState) : state_result (Replayed * ReplayState) :=
  staged ← ok_or (run_staged_worktree task)
    (Message (lit "staged worktree event has no corresponding staged record")) ;
  st ← validate_record_link (staged_id staged) (staged_actor staged)
         (staged_based_on_revision staged) (staged_materialized_at staged) event st ;
  Ok (replay_same (staged_mutation staged), rp_bump 0 0 0 0 0 1 st).

Definition replay_staged_discarded (task : GovernedTaskRun) (event : GovernedTaskEvent)
    (st : ReplayState) : state_result (Replayed * ReplayState) :=
  bail_if (bool_decide (run_staged_worktree task = None))
    (lit "staged worktree discard event has no staged record") ;;
  Ok (replay_same (DiscardStagedWorktree (event_actor event) (event_detail event)),
      rp_bump 0 0 0 0 0 1 st).

Definition promotion_mutation (promotion : GovernedPromotion) : GovernedTaskMutation :=
  RecordPromotion
    {| promotion_input_actor := promotion_actor promotion;
       promotion_input_accepted_revision := promotion_accepted_revision promotion;
       promotion_input_initial_subject_revision :=
         promotion_initial_subject_revision promotion;
       promotion_input_outcome := promotion_outcome promotion |}.

Definition replay_promotion (task : GovernedTaskRun) (event : GovernedTaskEvent)
    (st : ReplayState) : state_result (Replayed * ReplayState) :=
  promotion ← ok_or (run_promotions task !! rp_promotion_index st)
    (Message (lit "promotion event has no corresponding promotion record")) ;
  st ← validate_record_link (promotion_id promotion) (promotion_actor promotion)
         (promotion_based_on_revision promotion) (promotion_recorded_at promotion) event st ;
  Ok (replay_same (promotion_mutation promotion), rp_bump 0 0 0 0 1 0 st).

Definition claim_mutation (claim : WorkerCompletionClaim) : GovernedTaskMutation :=
  SubmitClaim
    {| claim_input_actor := claim_actor claim;
       claim_input_summary := claim_summary claim;
       claim_input_subject_revision := claim_subject_revision claim;
       claim_input_artifact_ids := claim_artifact_ids claim;
       claim_input_diff_ref := claim_diff_ref claim |}.

Definition replay_claim (task : GovernedTaskRun) (event : GovernedTaskEvent)
    (st : ReplayState) : state_result (Replayed * ReplayState) :=
  claim ← ok_or (run_claims task !! rp_claim_index st)
    (Message (lit "claim event has no corresponding worker claim")) ;
  st ← validate_record_link (claim_id claim) (claim_actor claim)
         (claim_based_on_revision claim) (claim_submitted_at claim) event st ;
  Ok (replay_same (claim_mutation claim), rp_bump 1 0 0 0 0 0 st).

Definition verification_mutation (claim_id : rstring) (v : GovernedVerification)
    : GovernedTaskMutation :=
  RecordVerification
    {| verification_input_actor := verification_actor v;
       verification_input_claim_id := claim_id;
       verification_input_subject_revision := verification_subject_revision v;
       verification_input_policy := verification_policy v;
       verification_input_outcome := verification_outcome v;
       verification_input_commands := verification_commands v;
       verification_input_artifact_ids := verification_artifact_ids v;
       verification_input_notes := verification_notes v |}.

Definition replay_verification (task : GovernedTaskRun) (event : GovernedTaskEvent)
    (st : ReplayState) : state_result (Replayed * ReplayState) :=
  verification ← ok_or (run_verifications task !! rp_verification_index st)
    (Message (lit "verification event has no corresponding verification record")) ;
  st ← validate_record_link (verification_id verification) (verification_actor verification)
         (verification_based_on_revision verification)
         (verification_recorded_at verification) event st ;
  stored_claim ← ok_or (run_claims task !! Nat.pred (rp_claim_index st))
    (Message (lit "verification record has no preceding worker claim")) ;
  bail_if (bool_decide (verification_claim_id verification ≠ claim_id stored_claim))
    (lit "verification record does not reference the current worker claim") ;;
  replay_claim ← ok_or (latest_claim (rp_projection st))
    (Message (lit "replayed verification has no worker claim")) ;
  Ok ({| replayed_mutation := verification_mutation (claim_id replay_claim) verification;
         fingerprint_input := verification_mutation (claim_id stored_claim) verification;
         replayed_authentication := Declared |}, rp_bump 0 1 0 0 0 0 st).

Definition verdict_mutation (verification_id : rstring) (v : SupervisorVerdict)
    : GovernedTaskMutation :=
  RecordSupervisorVerdict
    {| verdict_input_actor := verdict_actor v;
       verdict_input_verification_id := verification_id;
       verdict_input_verdict := verdict_verdict v;
       verdict_input_rationale := verdict_rationale v |}.

Definition replay_verdict (task : GovernedTaskRun) (event : GovernedTaskEvent)
    (st : ReplayState) : state_result (Replayed * ReplayState) :=
  verdict ← ok_or (run_supervisor_verdicts task !! rp_supervisor_index st)
    (Message (lit "supervisor event has no corresponding supervisor verdict")) ;
  st ← validate_record_link (verdict_id verdict) (verdict_actor verdict)
         (verdict_based_on_revision verdict) (verdict_decided_at verdict) event st ;
  stored_verification ←
    ok_or (run_verifications task !! Nat.pred (rp_verification_index st))
      (Message (lit "supervisor verdict has no preceding verification")) ;
  bail_if (bool_decide (verdict_verification_id verdict ≠ verification_id stored_verification))
    (lit "supervisor verdict does not reference current verification") ;;
  replay_verification ← ok_or (latest_verification (rp_projection st))
    (Message (lit "replayed supervisor verdict has no verification")) ;
  Ok ({| replayed_mutation := verdict_mutation (verification_id replay_verification) verdict;
         fingerprint_input := verdict_mutation (verification_id stored_verification) verdict;
         replayed_authentication := Declared |}, rp_bump 0 0 1 0 0 0 st).

Definition decision_mutation (verdict_id : rstring) (d : OperatorDecision)
    : GovernedTaskMutation :=
  RecordOperatorDecision
    {| decision_input_actor := decision_actor d;
       decision_input_supervisor_verdict_id := verdict_id;
       decision_input_decision := decision_decision d;
       decision_input_rationale := decision_rationale d |}.

Definition replay_decision (task : GovernedTaskRun) (event : GovernedTaskEvent)
    (st : ReplayState) : state_result (Replayed * ReplayState) :=
  decision ← ok_or (run_operator_decisions task !! rp_operator_index st)
    (Message (lit "operator event has no corresponding operator decision")) ;
  st ← validate_record_link (decision_id decision) (decision_actor decision)
         (decision_based_on_revision decision) (decision_decided_at decision) event st ;
  stored_verdict ← ok_or (run_supervisor_verdicts task !! Nat.pred (rp_supervisor_index st))
    (Message (lit "operator decision has no preceding supervisor verdict")) ;
  bail_if (bool_decide (decision_supervisor_verdict_id decision ≠ verdict_id stored_verdict))
    (lit "operator decision does not reference current supervisor verdict") ;;
  replay_verdict ← ok_or (latest_supervisor_verdict (rp_projection st))
    (Message (lit "replayed operator decision has no supervisor verdict")) ;
  Ok ({| replayed_mutation := decision_mutation (verdict_id replay_verdict) decision;
         fingerprint_input := decision_mutation (verdict_id stored_verdict) decision;
         replayed_authentication := decision_authentication decision |},
      rp_bump 0 0 0 1 0 0 st).

(** The [match event.kind] of the loop. *)
Definition replay_event_mutation (task : GovernedTaskRun) (event : GovernedTaskEvent)
    (st : ReplayState) : state_result (Replayed * ReplayState) :=
  let actor := event_actor event in
  let detail := event_detail event in
  match event_kind event with
  | EventRegistered => bail (lit "registration event may appear only at revision zero")
  | EventStagedWorktreeMaterialized => replay_staged_materialized task event st
  | EventStagedWorktreeDiscarded => replay_staged_discarded task event st
  | EventPromotionRecorded => replay_promotion task event st
  | EventRunning => Ok (replay_same (MarkRunning actor), st)
  | EventLaunchFailed => Ok (replay_same (MarkLaunchFailed actor detail), st)
  | EventRuntimeExited =>
      Ok (replay_same (MarkRuntimeExited actor (Some detail) (run_exit_kind task)), st)
  | EventClaimSubmitted | EventLoopTripped => replay_claim task event st
  | EventVerificationRecorded => replay_verification task event st
  | EventSupervisorVerdictRecorded => replay_verdict task event st
  | EventOperatorDecisionRecorded => replay_decision task event st
  | EventProducerReservationInterrupted =>
      Ok (replay_same (NoteProducerReservationInterrupted actor detail), st)
  | EventWorkerTakenOver => Ok (replay_same (TakeOverWorker actor detail), st)
  end.

Definition require_replayed_loop_evidence (revision : Z)
    (stored replayed : WorkerCompletionClaim) : state_result unit :=
  match claim_loop_report_digest stored, claim_loop_report_version stored with
  | None, None => Ok tt
  | Some digest, Some version =>
      require_sha256_digest (lit "claim loop report digest") digest ;;
      if bool_decide (version ≠ current_governed_loop_version) then Ok tt
      else bail_if
        (bool_decide (claim_loop_report_digest replayed ≠ claim_loop_report_digest stored)
         || bool_decide (claim_loop_report_version replayed ≠ claim_loop_report_version stored))
        (lit "governed task claim at revision " ++ show_Z revision
           ++ lit " does not replay to its stored loop report digest")
  | _, _ =>
      bail (lit "governed task claim at revision " ++ show_Z revision
              ++ lit " carries loop evidence with a missing digest or version")
  end.

Definition replay_claim_evidence (task : GovernedTaskRun) (event : GovernedTaskEvent)
    (st : ReplayState) : option ReplayedClaimEvidence :=
  if is_claim_event (event_kind event) then
    (λ stored, {| replayed_digest := claim_loop_report_digest stored;
                  replayed_version := claim_loop_report_version stored;
                  replayed_tripped :=
                    bool_decide (event_kind event = EventLoopTripped) |})
    <$> run_claims task !! Nat.pred (rp_claim_index st)
  else None.

(** The checks on an event before it is replayed. *)
Definition replay_check_event (index : Z) (event : GovernedTaskEvent) (st : ReplayState)
    : state_result ReplayState :=
  bail_if (bool_decide (event_revision event ≠ index))
    (lit "governed task event revision " ++ show_Z (event_revision event)
       ++ lit " is not contiguous at index " ++ show_Z index) ;;
  require_text (lit "governed task event detail") (event_detail event) ;;
  require_rfc3339 (lit "governed task event timestamp") (event_created_at event) ;;
  st ← insert_seen (event_id event) st ;
  based_on_revision ← ok_or (u64_checked_sub (event_revision event) 1)
    (Message (lit "non-registration event has revision zero")) ;
  Ok (rp_set_projection (set_revision based_on_revision (rp_projection st)) st).

(** The checks after it. *)
Definition replay_check_result (task : GovernedTaskRun) (event : GovernedTaskEvent)
    (projection : GovernedTaskRun) (st : ReplayState) : state_result unit :=
  replayed ← ok_or (last (run_events projection))
    (Message (lit "replayed governed task mutation emitted no event")) ;
  bail_if (bool_decide (event_kind replayed ≠ event_kind event))
    (lit "governed task event at revision " ++ show_Z (event_revision event)
       ++ lit " replays as " ++ show_event_kind (event_kind replayed) ++ lit ", not "
       ++ show_event_kind (event_kind event)) ;;
  if is_claim_event (event_kind event) then
    stored ← ok_or (run_claims task !! Nat.pred (rp_claim_index st))
      (Message (lit "claim event lost its stored claim")) ;
    replayed ← ok_or (latest_claim projection)
      (Message (lit "replayed claim event produced no claim")) ;
    require_replayed_loop_evidence (event_revision event) stored replayed
  else Ok tt.

(** One iteration of the loop. *)
Definition replay_event (task : GovernedTaskRun) (uuids : Z → FreshIds) (index : Z)
    (event : GovernedTaskEvent) (st : ReplayState) : state_result ReplayState :=
  st ← replay_check_event index event st ;
  mutation_and_state ← replay_event_mutation task event st ;
  let replayed := mutation_and_state.1 in
  let st := mutation_and_state.2 in
  let fingerprint :=
    fingerprint_mutation (run_project_id task) (run_id task) (fingerprint_input replayed) in
  bail_if (bool_decide (is_Some (rp_fingerprints st !! event_revision event)))
    (lit "governed task contains duplicate mutation revision "
       ++ show_Z (event_revision event)) ;;
  let st := rp_set_fingerprints
              (<[event_revision event := fingerprint]> (rp_fingerprints st)) st in
  projection ← with_context
    (lit "governed task event " ++ show_event_kind (event_kind event)
       ++ lit " at revision " ++ show_Z (event_revision event) ++ lit " cannot be replayed")
    (apply_mutation (replayed_mutation replayed) (event_revision event)
       {| ctx_now := event_created_at event;
          ctx_operator_authentication := replayed_authentication replayed;
          ctx_replay_claim := replay_claim_evidence task event st;
          ctx_is_replay := true |}
       (uuids (event_revision event)) (rp_projection st)) ;
  replay_check_result task event projection st ;;
  Ok (rp_set_projection (set_revision (event_revision event) projection) st).

Fixpoint replay_events (task : GovernedTaskRun) (uuids : Z → FreshIds) (index : Z)
    (events : list GovernedTaskEvent) (st : ReplayState) : state_result ReplayState :=
  match events with
  | [] => Ok st
  | event :: events =>
      st ← replay_event task uuids index event st ;
      replay_events task uuids (index + 1) events st
  end.

(** * Checks before and after the loop *)

Definition validate_history_limits (task : GovernedTaskRun) : state_result unit :=
  require_rfc3339 (lit "governed task created_at") (run_created_at task) ;;
  require_rfc3339 (lit "governed task updated_at") (run_updated_at task) ;;
  bail_if (bool_decide (run_events task = [])
           || (MAX_GOVERNED_EVENTS <? zlen (run_events task)))
    (lit "governed task event history must contain between 1 and "
       ++ show_Z MAX_GOVERNED_EVENTS ++ lit " records") ;;
  for_each (λ entry : rstring * Z,
      bail_if (MAX_GOVERNED_RECORDS_PER_KIND <? entry.2)
        (entry.1 ++ lit " exceeds its limit of " ++ show_Z MAX_GOVERNED_RECORDS_PER_KIND))
    [(lit "worker claims", zlen (run_claims task));
     (lit "verification records", zlen (run_verifications task));
     (lit "supervisor verdicts", zlen (run_supervisor_verdicts task));
     (lit "operator decisions", zlen (run_operator_decisions task));
     (lit "governed promotions", zlen (run_promotions task))] ;;
  expected_events ← ok_or (u64_checked_add (run_revision task) 1)
    (Message (lit "governed task revision cannot fit in memory")) ;
  bail_if (negb (zlen (run_events task) =? expected_events))
    (lit "governed task revision " ++ show_Z (run_revision task) ++ lit " requires "
       ++ show_Z expected_events ++ lit " contiguous events, found "
       ++ show_Z (zlen (run_events task))).

Definition validate_first_event (task : GovernedTaskRun) (first : GovernedTaskEvent)
    : state_result unit :=
  bail_if (negb (event_revision first =? 0) || bool_decide (event_kind first ≠ EventRegistered))
    (lit "governed task event zero must be the registration event") ;;
  require_actor (event_actor first) System ;;
  require_text (lit "governed task event detail") (event_detail first) ;;
  require_rfc3339 (lit "governed task event timestamp") (event_created_at first) ;;
  bail_if (bool_decide (run_created_at task ≠ event_created_at first))
    (lit "governed task creation timestamp must match its registration event").

(** The projection the replay starts from. *)
Definition initial_projection (task : GovernedTaskRun) : GovernedTaskRun :=
  set_events [] (set_staged_worktree None (set_promotions []
    (set_operator_decisions [] (set_supervisor_verdicts [] (set_verifications []
      (set_claims [] (set_review_state AwaitingClaim (set_exit_kind Natural
        (set_execution_state Registered (set_revision 0 task)))))))))).

Definition initial_replay_state (task : GovernedTaskRun) (first : GovernedTaskEvent)
    : ReplayState :=
  {| rp_seen_ids := {[event_id first]}; rp_claim_index := 0; rp_verification_index := 0;
     rp_supervisor_index := 0; rp_operator_index := 0; rp_promotion_index := 0;
     rp_staged_events := 0; rp_fingerprints := ∅;
     rp_projection := initial_projection task |}.

Definition staged_worktrees_match (replayed stored : option StagedWorktree) : bool :=
  match replayed, stored with
  | None, None => true
  | Some replayed, Some stored =>
      bool_decide (staged_root replayed = staged_root stored)
      && bool_decide (staged_initial_subject_revision replayed
                      = staged_initial_subject_revision stored)
      && bool_decide (staged_shared_config_digest replayed = staged_shared_config_digest stored)
      && bool_decide (staged_status replayed = staged_status stored)
      && bool_decide (staged_materialized_at replayed = staged_materialized_at stored)
      && (staged_based_on_revision replayed =? staged_based_on_revision stored)
  | _, _ => false
  end.

Definition promotions_differ (replayed stored : GovernedPromotion) : bool :=
  bool_decide (promotion_accepted_revision replayed ≠ promotion_accepted_revision stored)
  || bool_decide (promotion_initial_subject_revision replayed
                  ≠ promotion_initial_subject_revision stored)
  || bool_decide (promotion_outcome replayed ≠ promotion_outcome stored).

Definition validate_replayed_state (task : GovernedTaskRun) (st : ReplayState)
    : state_result unit :=
  let projection := rp_projection st in
  bail_if
    (negb (Nat.eqb (rp_claim_index st) (length (run_claims task)))
     || negb (Nat.eqb (rp_verification_index st) (length (run_verifications task)))
     || negb (Nat.eqb (rp_supervisor_index st) (length (run_supervisor_verdicts task)))
     || negb (Nat.eqb (rp_operator_index st) (length (run_operator_decisions task)))
     || negb (Nat.eqb (rp_promotion_index st) (length (run_promotions task)))
     || (bool_decide (run_staged_worktree task ≠ None) && Nat.eqb (rp_staged_events st) 0))
    (lit "governed task contains records without matching lifecycle events") ;;
  bail_if
    (bool_decide (run_execution_state projection ≠ run_execution_state task)
     || bool_decide (run_exit_kind projection ≠ run_exit_kind task)
     || bool_decide (run_review_state projection ≠ run_review_state task))
    (lit "governed task materialized state does not match its replayed lifecycle history") ;;
  bail_if (negb (staged_worktrees_match (run_staged_worktree projection)
                   (run_staged_worktree task)))
    (lit "governed task staged worktree does not match its replayed lifecycle history") ;;
  bail_if
    (negb (Nat.eqb (length (run_promotions projection)) (length (run_promotions task)))
     || existsb (λ pair, promotions_differ pair.1 pair.2)
          (zip (run_promotions projection) (run_promotions task)))
    (lit "governed task promotions do not match their replayed lifecycle history").

Definition validate_task_history (task : GovernedTaskRun) (uuids : Z → FreshIds)
    : state_result (gmap Z rstring) :=
  validate_history_limits task ;;
  match run_events task with
  | [] => Err (Panicked (lit "index out of bounds"))
  | first :: events =>
      validate_first_event task first ;;
      st ← replay_events task uuids 1 events (initial_replay_state task first) ;
      validate_replayed_state task st ;;
      Ok (rp_fingerprints st)
  end.
End replay.
