(* ===== verification/Ledger.v ===== *)
(** The project ledger of governed tasks (src/state/governed_task.rs): schema
    stamping, load-time validation, registration and the idempotent, revisioned
    mutation entry point.

    [GOVERNED_TASKS.json] is the ledger value it holds; it is replaced atomically
    or not at all, so an operation takes the outcome of its write as an
    argument. The mutex serialises the operations. The file system a project
    root is canonicalised against is the [Storage] argument. *)
From S2P Require Export Replay.
Local Open Scope Z_scope.

Definition GOVERNED_TASKS_SCHEMA_VERSION : Z := 2.
Definition GOVERNED_TASKS_LEGACY_SCHEMA_VERSION : Z := 1.

Record GovernedMutationReceipt := {
  receipt_task_id : rstring;
  receipt_resulting_revision : Z;
  receipt_request_fingerprint : rstring
}.
#[export] Instance GovernedMutationReceipt_eq_dec : EqDecision GovernedMutationReceipt.
Proof. solve_decision. Defined.

Record GovernedTaskLedger := {
  ledger_schema_version : Z;
  ledger_tasks : gmap rstring GovernedTaskRun;
  ledger_processed_requests : gmap rstring GovernedMutationReceipt
}.

Definition ledger_default : GovernedTaskLedger :=
  {| ledger_schema_version := GOVERNED_TASKS_LEGACY_SCHEMA_VERSION;
     ledger_tasks := ∅; ledger_processed_requests := ∅ |}.

Definition ledger_values (l : GovernedTaskLedger) : list GovernedTaskRun :=
  (btree_items str_leb (ledger_tasks l)).*2.

Definition required_schema_version (l : GovernedTaskLedger) : Z :=
  if existsb (λ task, 0 <? lease_generation task) (ledger_values l)
  then GOVERNED_TASKS_SCHEMA_VERSION else GOVERNED_TASKS_LEGACY_SCHEMA_VERSION.

Definition stamp_schema_version (l : GovernedTaskLedger) : GovernedTaskLedger :=
  {| ledger_schema_version := Z.max (ledger_schema_version l) (required_schema_version l);
     ledger_tasks := ledger_tasks l;
     ledger_processed_requests := ledger_processed_requests l |}.

(** * The project a storage directory belongs to *)

Record Storage := {
  base_path : rstring;
  canonicalize : rstring → option rstring
}.

Definition render_component (c : Component) : rstring :=
  match c with
  | Normal name => name
  | CurDir => lit "."
  | ParentDir => lit ".."
  | RootDir | Prefix => []
  end.
Definition render_components (cs : list Component) : rstring :=
  match cs with
  | RootDir :: cs => lit "/" ++ join_with (lit "/") (render_component <$> cs)
  | cs => join_with (lit "/") (render_component <$> cs)
  end.

(** [Path::parent] and [Path::file_name]. *)
Definition path_parent (p : rstring) : option rstring :=
  match reverse (path_components p) with
  | (Normal _ | CurDir | ParentDir) :: rest => Some (render_components (reverse rest))
  | _ => None
  end.
Definition path_file_name (p : rstring) : option rstring :=
  match last (path_components p) with Some (Normal name) => Some name | _ => None end.

Definition governed_project_root (s : Storage) : rstring :=
  match path_parent (base_path s) with
  | Some parent => if is_empty parent then lit "." else parent
  | None => if path_is_absolute (base_path s) then base_path s else lit "."
  end.

Definition canonical_governed_project_root (s : Storage) : state_result rstring :=
  let root := governed_project_root s in
  ok_or (canonicalize s root)
    (Message (lit "Failed to canonicalize governed task ledger project root " ++ root)).

(** [impulse_ops::sanitize_id]. *)
Definition sanitize_char (c : Z) : Z :=
  if is_ascii_lower c || is_ascii_digit c then c
  else if is_ascii_upper c then c + 32 else 45.
Definition sanitize_id (input : rstring) : rstring :=
  let candidate := sanitize_char <$> trim input in
  let collapsed :=
    join_with (lit "-") (filter (λ segment, segment ≠ []) (split_on 45 [] candidate)) in
  if is_empty collapsed then lit "unknown" else collapsed.

Definition governed_project_id_for_storage (s : Storage) : rstring :=
  let root := default (governed_project_root s) (canonicalize s (governed_project_root s)) in
  sanitize_id (default (lit "impulse-project") (path_file_name root)).

(** * Small guards *)

Definition require_project (expected received : rstring) : state_result unit :=
  reject_if (bool_decide (expected ≠ received)) (StateError (ProjectMismatch expected received)).

Definition require_idempotent_fingerprint (request_id : rstring)
    (receipt : GovernedMutationReceipt) (request_fingerprint : rstring) : state_result unit :=
  reject_if (bool_decide (receipt_request_fingerprint receipt ≠ request_fingerprint))
    (StateError (IdempotencyPayloadConflict request_id)).

Definition require_receipt_revision (receipt : GovernedMutationReceipt)
    (task : GovernedTaskRun) : state_result unit :=
  bail_if (run_revision task <? receipt_resulting_revision receipt)
    (lit "governed task receipt revision " ++ show_Z (receipt_resulting_revision receipt)
       ++ lit " exceeds current task revision " ++ show_Z (run_revision task)).

Definition canonical_governed_workspace (s : Storage) (received : rstring)
    : state_result rstring :=
  expected ← canonical_governed_project_root s ;
  received_path ← ok_or (canonicalize s received)
    (Message (lit "Failed to canonicalize governed workspace " ++ received)) ;
  reject_if (negb (path_eqb expected received_path))
    (StateError (WorkspaceMismatch expected received_path)) ;;
  Ok received_path.

(** * Load-time validation *)

Definition stored_registration (task : GovernedTaskRun) (request_id : rstring)
    : GovernedTaskRegistration :=
  {| reg_request_id := request_id;
     reg_task_id := run_id task;
     reg_project_id := run_project_id task;
     reg_workspace_root := run_workspace_root task;
     reg_task := run_task task;
     reg_acceptance_criteria := run_acceptance_criteria task;
     reg_approval_policy := run_approval_policy task;
     reg_world_scope := run_world_scope task;
     reg_verification_profile := run_verification_profile task;
     reg_role_assignment := run_role_assignment task;
     reg_role_compatibility := run_role_compatibility task;
     reg_runtime_id := run_runtime_id task;
     reg_agent_id := run_agent_id task;
     reg_session_id := run_session_id task;
     reg_initial_subject_revision := run_initial_subject_revision task |}.

(** Receipts of one task by resulting revision: request id and fingerprint. *)
Abbreviation receipts := (gmap Z (rstring * rstring)).

Section ledger.
Context `{Host}.

Definition validate_keys (l : GovernedTaskLedger) : state_result unit :=
  for_each (λ entry : rstring * GovernedTaskRun,
      bail_if (bool_decide (entry.1 ≠ run_id entry.2))
        (lit "governed task ledger key `" ++ entry.1 ++ lit "` does not match record id `"
           ++ run_id entry.2 ++ lit "`"))
    (btree_items str_leb (ledger_tasks l)).

(** One step of the receipt loop. *)
Definition index_receipt (l : GovernedTaskLedger) (index : gmap rstring receipts)
    (entry : rstring * GovernedMutationReceipt) : state_result (gmap rstring receipts) :=
  let request_id := entry.1 in
  let receipt := entry.2 in
  task ← ok_or (ledger_tasks l !! receipt_task_id receipt)
    (Message (lit "governed task receipt `" ++ request_id ++ lit "` references missing task `"
                ++ receipt_task_id receipt ++ lit "`")) ;
  require_receipt_revision receipt task ;;
  with_context (lit "Invalid governed task receipt fingerprint for `" ++ request_id ++ lit "`")
    (require_request_fingerprint (receipt_request_fingerprint receipt)) ;;
  task_receipts ← ok_or (index !! receipt_task_id receipt)
    (Message (lit "governed task receipt `" ++ request_id
                ++ lit "` lost its validated task target")) ;
  bail_if (bool_decide (is_Some (task_receipts !! receipt_resulting_revision receipt)))
    (lit "governed task `" ++ receipt_task_id receipt
       ++ lit "` has multiple receipts for revision "
       ++ show_Z (receipt_resulting_revision receipt)) ;;
  Ok (<[receipt_task_id receipt :=
        <[receipt_resulting_revision receipt :=
           (request_id, receipt_request_fingerprint receipt)]> task_receipts]> index).

Fixpoint index_receipts (l : GovernedTaskLedger) (index : gmap rstring receipts)
    (entries : list (rstring * GovernedMutationReceipt))
    : state_result (gmap rstring receipts) :=
  match entries with
  | [] => Ok index
  | entry :: entries =>
      index ← index_receipt l index entry ;
      index_receipts l index entries
  end.

Definition validate_workspace (s : Storage) (expected_workspace task_id : rstring)
    (task : GovernedTaskRun) : state_result unit :=
  bail_if (negb (path_is_absolute (run_workspace_root task)))
    (lit "governed task `" ++ task_id
       ++ lit "` workspace is not an absolute canonical path") ;;
  canonical_workspace ← ok_or (canonicalize s (run_workspace_root task))
    (Message (lit "Failed to canonicalize governed task `" ++ task_id ++ lit "` workspace "
                ++ run_workspace_root task)) ;
  reject_if (negb (path_eqb canonical_workspace expected_workspace)
             || bool_decide (run_workspace_root task ≠ canonical_workspace))
    (StateError (WorkspaceMismatch expected_workspace (run_workspace_root task))).

(** [(0..=task.revision).all(|revision| receipts.contains_key(&revision))]. *)
Definition covers_revisions (task_receipts : receipts) (revision : Z) : bool :=
  forallb (λ r, bool_decide (is_Some (task_receipts !! Z.of_nat r)))
    (seq 0 (Z.to_nat (revision + 1))).

Definition validate_receipt_chain (task_id : rstring) (task : GovernedTaskRun)
    (task_receipts : receipts) : state_result unit :=
  expected_count ← ok_or (u64_checked_add (run_revision task) 1)
    (Message (lit "governed task `" ++ task_id ++ lit "` revision is too large")) ;
  bail_if (negb (Z.of_nat (size task_receipts) =? expected_count)
           || negb (covers_revisions task_receipts (run_revision task)))
    (lit "governed task `" ++ task_id
       ++ lit "` receipt chain does not cover every revision from 0 through "
       ++ show_Z (run_revision task)).

Definition validate_registration_receipt (task_id : rstring) (task : GovernedTaskRun)
    (task_receipts : receipts) : state_result unit :=
  registration_receipt ← ok_or (task_receipts !! 0)
    (Message (lit "governed task `" ++ task_id ++ lit "` has no registration receipt")) ;
  let registration := stored_registration task registration_receipt.1 in
  map_err ContractError (validate_registration registration) ;;
  bail_if (bool_decide (registration_receipt.2 ≠ fingerprint_registration registration))
    (lit "governed task `" ++ task_id
       ++ lit "` registration receipt fingerprint does not match its immutable task record").

Definition validate_mutation_receipts (task_id : rstring) (task_receipts : receipts)
    (fingerprints : gmap Z rstring) : state_result unit :=
  for_each (λ entry : Z * rstring,
      stored ← ok_or (task_receipts !! entry.1)
        (Message (lit "governed task `" ++ task_id
                    ++ lit "` has no receipt for mutation revision " ++ show_Z entry.1)) ;
      bail_if (bool_decide (stored.2 ≠ entry.2))
        (lit "governed task `" ++ task_id ++ lit "` receipt fingerprint at revision "
           ++ show_Z entry.1 ++ lit " does not match its lifecycle history"))
    (btree_items Z.leb fingerprints).

(** The per-task body of [validate]. *)
Definition validate_task (s : Storage) (expected_project expected_workspace : rstring)
    (index : gmap rstring receipts) (uuids : rstring → Z → FreshIds)
    (entry : rstring * GovernedTaskRun) : state_result unit :=
  let task_id := entry.1 in
  let task := entry.2 in
  require_project expected_project (run_project_id task) ;;
  validate_workspace s expected_workspace task_id task ;;
  task_receipts ← ok_or (index !! task_id)
    (Message (lit "governed task `" ++ task_id ++ lit "` has no receipt index")) ;
  validate_receipt_chain task_id task task_receipts ;;
  validate_registration_receipt task_id task task_receipts ;;
  fingerprints ← with_context
    (lit "Invalid governed task history for `" ++ task_id ++ lit "`")
    (validate_task_history task (uuids task_id)) ;
  validate_mutation_receipts task_id task_receipts fingerprints.

Definition validate_ledger (s : Storage) (uuids : rstring → Z → FreshIds)
    (l : GovernedTaskLedger) : state_result unit :=
  let expected_project := governed_project_id_for_storage s in
  validate_keys l ;;
  index ← index_receipts l ((λ _, ∅) <$> ledger_tasks l)
    (btree_items str_leb (ledger_processed_requests l)) ;
  if bool_decide (ledger_tasks l = ∅) then Ok tt
  else
    expected_workspace ← canonical_governed_project_root s ;
    for_each (validate_task s expected_project expected_workspace index uuids)
      (btree_items str_leb (ledger_tasks l)).

(** [GovernedTaskLedger::load] of a parsed file. *)
Definition load_ledger (s : Storage) (uuids : rstring → Z → FreshIds)
    (ledger : GovernedTaskLedger) : state_result GovernedTaskLedger :=
  bail_if (negb ((ledger_schema_version ledger =? GOVERNED_TASKS_LEGACY_SCHEMA_VERSION)
                 || (ledger_schema_version ledger =? GOVERNED_TASKS_SCHEMA_VERSION)))
    (lit "Unsupported governed task ledger schema version "
       ++ show_Z (ledger_schema_version ledger)) ;;
  bail_if (ledger_schema_version ledger <? required_schema_version ledger)
    (lit "governed task ledger declares schema version "
       ++ show_Z (ledger_schema_version ledger)
       ++ lit " but records worker-lease takeovers, which require version "
       ++ show_Z GOVERNED_TASKS_SCHEMA_VERSION) ;;
  validate_ledger s uuids ledger ;;
  Ok ledger.

(** * Registration *)

Definition registered_run (registration : GovernedTaskRegistration) (ids : FreshIds)
    (now : rstring) : GovernedTaskRun :=
  let system_actor := {| actor_kind := System; actor_id := lit "impulse-daemon" |} in
  {| run_id := reg_task_id registration;
     run_revision := 0;
     run_project_id := reg_project_id registration;
     run_workspace_root := reg_workspace_root registration;
     run_task := reg_task registration;
     run_acceptance_criteria := reg_acceptance_criteria registration;
     run_approval_policy := reg_approval_policy registration;
     run_world_scope := reg_world_scope registration;
     run_verification_profile := reg_verification_profile registration;
     run_role_assignment := reg_role_assignment registration;
     run_role_compatibility := reg_role_compatibility registration;
     run_runtime_id := reg_runtime_id registration;
     run_agent_id := reg_agent_id registration;
     run_session_id := reg_session_id registration;
     run_initial_subject_revision := reg_initial_subject_revision registration;
     run_staged_worktree := None;
     run_promotions := [];
     run_execution_state := Registered;
     run_exit_kind := Natural;
     run_review_state := AwaitingClaim;
     run_claims := [];
     run_verifications := [];
     run_supervisor_verdicts := [];
     run_operator_decisions := [];
     run_events :=
       [new_event ids 0 EventRegistered system_actor
          (lit "governed task registered before runtime launch") now];
     run_created_at := now;
     run_updated_at := now |}.

Definition set_workspace_root (root : rstring) (r : GovernedTaskRegistration)
    : GovernedTaskRegistration :=
  {| reg_request_id := reg_request_id r; reg_task_id := reg_task_id r;
     reg_project_id := reg_project_id r; reg_workspace_root := root;
     reg_task := reg_task r; reg_acceptance_criteria := reg_acceptance_criteria r;
     reg_approval_policy := reg_approval_policy r; reg_world_scope := reg_world_scope r;
     reg_verification_profile := reg_verification_profile r;
     reg_role_assignment := reg_role_assignment r;
     reg_role_compatibility := reg_role_compatibility r;
     reg_runtime_id := reg_runtime_id r; reg_agent_id := reg_agent_id r;
     reg_session_id := reg_session_id r;
     reg_initial_subject_revision := reg_initial_subject_revision r |}.

(** What an operation did to the ledger: answered from it, or asks for
    [candidate] to be written and swapped in. *)
Inductive LedgerOutcome : Type :=
  | Answered (task : GovernedTaskRun)
  | Replay (task : GovernedTaskRun)
  | Updated (task : GovernedTaskRun) (candidate : GovernedTaskLedger).

Definition outcome_task (o : LedgerOutcome) : GovernedTaskRun :=
  match o with Answered task | Replay task | Updated task _ => task end.
Definition outcome_ledger (o : LedgerOutcome) (before : GovernedTaskLedger)
    : GovernedTaskLedger :=
  match o with Answered _ | Replay _ => before | Updated _ candidate => candidate end.

(** Insert a run and the receipt of the request that produced it. *)
Definition record_run (request_id fingerprint : rstring) (task : GovernedTaskRun)
    (ledger : GovernedTaskLedger) : GovernedTaskLedger :=
  stamp_schema_version
    {| ledger_schema_version := ledger_schema_version ledger;
       ledger_tasks := <[run_id task := task]> (ledger_tasks ledger);
       ledger_processed_requests :=
         <[request_id := {| receipt_task_id := run_id task;
                            receipt_resulting_revision := run_revision task;
                            receipt_request_fingerprint := fingerprint |}]>
           (ledger_processed_requests ledger) |}.

Definition decide_registration (s : Storage) (ledger : GovernedTaskLedger)
    (registration : GovernedTaskRegistration) (ids : FreshIds) (now : rstring)
    : state_result LedgerOutcome :=
  map_err ContractError (validate_registration registration) ;;
  require_project (governed_project_id_for_storage s) (reg_project_id registration) ;;
  workspace_root ← canonical_governed_workspace s (reg_workspace_root registration) ;
  let registration := set_workspace_root workspace_root registration in
  let request_fingerprint := fingerprint_registration registration in
  match ledger_processed_requests ledger !! reg_request_id registration with
  | Some receipt =>
      require_idempotent_fingerprint (reg_request_id registration) receipt
        request_fingerprint ;;
      task ← ok_or (ledger_tasks ledger !! receipt_task_id receipt)
        (Message (lit "governed task receipt references missing task `"
                    ++ receipt_task_id receipt ++ lit "`")) ;
      require_receipt_revision receipt task ;;
      Ok (Answered task)
  | None =>
      reject_if (bool_decide (is_Some (ledger_tasks ledger !! reg_task_id registration)))
        (StateError (AlreadyExists (reg_task_id registration))) ;;
      let task := registered_run registration ids now in
      Ok (Updated task
            (record_run (reg_request_id registration) request_fingerprint task ledger))
  end.

(** * Mutation *)

Definition is_settled_execution (e : GovernedExecutionState) : bool :=
  match e with RuntimeExited | LaunchFailed => true | _ => false end.

(** The part of a live mutation that computes the updated run: next revision,
    [apply_mutation], revision and timestamp, and the revision of the last
    event. *)
Definition advance_run (mutation : GovernedTaskMutation) (authentication : OperatorAuthentication)
    (ids : FreshIds) (now : rstring) (current : GovernedTaskRun)
    : state_result GovernedTaskRun :=
  next_revision ← ok_or (u64_checked_add (run_revision current) 1)
    (invalid_transition_error (lit "governed task revision exhausted u64")) ;
  updated ← apply_mutation mutation next_revision (live_context now authentication) ids current ;
  let updated := set_updated_at now (set_revision next_revision updated) in
  Ok (set_events (map_last (set_event_revision (run_revision updated)) (run_events updated))
        updated).

(** The answered cancel of a run that already ended. *)
Definition answered_cancel (current : GovernedTaskRun) (mutation : GovernedTaskMutation)
    : option (state_result unit) :=
  match mutation with
  | MarkRuntimeExited actor reason OperatorCancelled =>
      if is_settled_execution (run_execution_state current) then
        Some (require_actor actor System ;;
              require_optional_text (lit "runtime exit reason") reason)
      else None
  | _ => None
  end.

Definition decide_mutation (s : Storage) (ledger : GovernedTaskLedger)
    (request : GovernedTaskMutationRequest) (authentication : OperatorAuthentication)
    (ids : FreshIds) (now : rstring) : state_result LedgerOutcome :=
  let request_fingerprint := fingerprint_mutation_operation request in
  let expected_project := governed_project_id_for_storage s in
  require_project expected_project (request_project_id request) ;;
  match ledger_processed_requests ledger !! request_request_id request with
  | Some receipt =>
      reject_if (bool_decide (receipt_task_id receipt ≠ request_task_id request))
        (StateError (IdempotencyConflict (request_request_id request)
                       (receipt_task_id receipt))) ;;
      require_idempotent_fingerprint (request_request_id request) receipt
        request_fingerprint ;;
      task ← ok_or (ledger_tasks ledger !! request_task_id request)
        (StateError (NotFound (request_task_id request))) ;
      require_receipt_revision receipt task ;;
      Ok (Replay task)
  | None =>
      current ← ok_or (ledger_tasks ledger !! request_task_id request)
        (StateError (NotFound (request_task_id request))) ;
      require_project expected_project (run_project_id current) ;;
      require_current_lease_generation current (request_mutation request)
        (request_fencing_generation request) ;;
      reject_if (negb (run_revision current =? request_expected_revision request))
        (StateError (RevisionConflict (request_expected_revision request)
                       (run_revision current))) ;;
      match answered_cancel current (request_mutation request) with
      | Some checks => checks ;; Ok (Answered current)
      | None =>
          updated ← advance_run (request_mutation request) authentication ids now current ;
          Ok (Updated updated
                (record_run (request_request_id request) request_fingerprint updated ledger))
      end
  end.

(** * The operations on the shared state *)

Record LedgerState := { st_memory : GovernedTaskLedger; st_disk : GovernedTaskLedger }.

(** Write the candidate, then swap it in; a failed write changes nothing. *)
Definition commit (context : rstring) (written : bool) (outcome : LedgerOutcome)
    (st : LedgerState) : state_result GovernedTaskRun * LedgerState :=
  match outcome with
  | Answered task | Replay task => (Ok task, st)
  | Updated task candidate =>
      if written then (Ok task, {| st_memory := candidate; st_disk := candidate |})
      else (Err (WithContext context (Message (lit "write failed"))), st)
  end.

Definition register_governed_task (s : Storage) (registration : GovernedTaskRegistration)
    (ids : FreshIds) (now : rstring) (written : bool) (st : LedgerState)
    : state_result GovernedTaskRun * LedgerState :=
  match decide_registration s (st_memory st) registration ids now with
  | Err e => (Err e, st)
  | Ok outcome =>
      commit (lit "Failed to persist governed task registration") written outcome st
  end.

(** What the memory-candidate component (src/state/memory_candidate.rs) offers
    the ledger: nothing happens for a run that is not accepted. *)
Class MemoryCandidates (C : Type) := {
  ensure_accepted_run_memory_candidate : GovernedTaskRun → C → state_result unit * C;
  ensure_not_accepted task c :
    is_accepted task = false → ensure_accepted_run_memory_candidate task c = (Ok tt, c)
}.

(** An answered cancel returns before the candidate step; a replayed and an
    applied mutation run it after the ledger is settled. *)
Definition mutate_governed_task_authenticated {C} `{MemoryCandidates C} (s : Storage)
    (request : GovernedTaskMutationRequest) (authentication : OperatorAuthentication)
    (ids : FreshIds) (now : rstring) (written : bool) (st : LedgerState) (c : C)
    : state_result GovernedTaskRun * LedgerState * C :=
  match decide_mutation s (st_memory st) request authentication ids now with
  | Err e => (Err e, st, c)
  | Ok outcome =>
      match commit (lit "Failed to persist governed task mutation") written outcome st,
            outcome with
      | (Ok task, st), (Replay _ | Updated _ _) =>
          let '(candidate, c) := ensure_accepted_run_memory_candidate task c in
          (candidate ;; Ok task, st, c)
      | (answer, st), _ => (answer, st, c)
      end
  end.

Definition mutate_governed_task {C} `{MemoryCandidates C} (s : Storage)
    (request : GovernedTaskMutationRequest) (ids : FreshIds) (now : rstring)
    (written : bool) (st : LedgerState) (c : C)
    : state_result GovernedTaskRun * LedgerState * C :=
  mutate_governed_task_authenticated s request Declared ids now written st c.

(** * Reads *)

Definition governed_producer_request_is_replay (ledger : GovernedTaskLedger)
    (request_id task_id : rstring) : state_result bool :=
  match ledger_processed_requests ledger !! request_id with
  | None => Ok false
  | Some receipt =>
      reject_if (bool_decide (receipt_task_id receipt ≠ task_id))
        (StateError (IdempotencyConflict request_id (receipt_task_id receipt))) ;;
      Ok true
  end.

Definition get_governed_task (s : Storage) (ledger : GovernedTaskLedger)
    (project_id task_id : rstring) : state_result (option GovernedTaskRun) :=
  require_project (governed_project_id_for_storage s) project_id ;;
  Ok (ledger_tasks ledger !! task_id).

Definition list_governed_tasks (s : Storage) (ledger : GovernedTaskLedger)
    (project_id : rstring) : state_result (list GovernedTaskRun) :=
  require_project (governed_project_id_for_storage s) project_id ;;
  Ok (stable_sort (λ left right, str_leb (run_created_at right) (run_created_at left))
        (ledger_values ledger)).
End ledger.
