(* ===== verification/LifecycleFacts.v ===== *)
(** Properties of the governed-task state machine. *)
From S2P Require Export Ledger.
Local Open Scope Z_scope.

(** * Automation *)

(** Open the arm of a successful mutation and turn its checks into facts. *)
Ltac arm_inv H :=
  unfold apply_materialize_staged_worktree, apply_discard_staged_worktree,
    apply_record_promotion, apply_take_over_worker, apply_mark_running,
    apply_mark_launch_failed, apply_mark_runtime_exited, apply_submit_claim,
    apply_record_verification, apply_record_supervisor_verdict,
    apply_record_operator_decision, apply_note_producer_reservation_interrupted in H;
  cbv zeta in H; result_inv.

Ltac mutation_inv H :=
  unfold apply_mutation in H; result_inv;
  match type of H with
  | apply_arm ?m _ _ _ _ = Ok _ =>
      tryif is_var m then destruct m else idtac; cbn [apply_arm] in H
  end;
  arm_inv H;
  try match type of H with
  | match ?x with Some _ => _ | None => _ end = Ok _ => destruct x eqn:?
  end; result_inv.

(** Compute the projections of an updated run. *)
Ltac run_simpl :=
  cbn [run_id run_revision run_project_id run_workspace_root run_task run_acceptance_criteria
       run_approval_policy run_world_scope run_verification_profile run_role_assignment
       run_role_compatibility run_runtime_id run_agent_id run_session_id
       run_initial_subject_revision run_staged_worktree run_promotions run_execution_state
       run_exit_kind run_review_state run_claims run_verifications run_supervisor_verdicts
       run_operator_decisions run_events run_created_at run_updated_at
       push_event set_revision set_staged_worktree set_promotions set_execution_state
       set_exit_kind set_review_state set_claims set_verifications set_supervisor_verdicts
       set_operator_decisions set_events set_updated_at
       claim_id claim_actor claim_subject_revision claim_loop_report_digest
       claim_loop_report_version claim_submitted_at claim_based_on_revision
       verification_id verification_actor verification_claim_id verification_outcome
       verification_subject_revision verification_commands verification_recorded_at
       verdict_id verdict_actor verdict_verification_id verdict_verdict verdict_decided_at
       decision_id decision_actor decision_supervisor_verdict_id decision_decision
       promotion_id promotion_actor promotion_accepted_revision promotion_outcome
       promotion_initial_subject_revision
       event_kind event_revision event_actor event_detail event_created_at event_id] in *.

Section effects.
Context `{Host}.
Implicit Types (t : GovernedTaskRun).

(** The kind of the event a mutation records. *)
Definition event_kind_of (m : GovernedTaskMutation) (tripped : bool)
    : GovernedTaskEventKind :=
  match m with
  | MarkRunning _ => EventRunning
  | MarkLaunchFailed _ _ => EventLaunchFailed
  | MarkRuntimeExited _ _ _ => EventRuntimeExited
  | MaterializeStagedWorktree _ => EventStagedWorktreeMaterialized
  | DiscardStagedWorktree _ _ => EventStagedWorktreeDiscarded
  | SubmitClaim _ => if tripped then EventLoopTripped else EventClaimSubmitted
  | RecordVerification _ => EventVerificationRecorded
  | RecordSupervisorVerdict _ => EventSupervisorVerdictRecorded
  | RecordOperatorDecision _ => EventOperatorDecisionRecorded
  | NoteProducerReservationInterrupted _ _ => EventProducerReservationInterrupted
  | RecordPromotion _ => EventPromotionRecorded
  | TakeOverWorker _ _ => EventWorkerTakenOver
  end.

Definition mutation_actor (m : GovernedTaskMutation) : GovernedActor :=
  match m with
  | MarkRunning a | MarkLaunchFailed a _ | MarkRuntimeExited a _ _
  | DiscardStagedWorktree a _ | NoteProducerReservationInterrupted a _
  | TakeOverWorker a _ => a
  | MaterializeStagedWorktree staged => staged_input_actor staged
  | SubmitClaim claim => claim_input_actor claim
  | RecordVerification v => verification_input_actor v
  | RecordSupervisorVerdict v => verdict_input_actor v
  | RecordOperatorDecision d => decision_input_actor d
  | RecordPromotion p => promotion_input_actor p
  end.

(** Every arm pushes exactly one event. *)
Lemma apply_mutation_event m rev ctx ids t t' :
  apply_mutation m rev ctx ids t = Ok t' →
  ∃ tripped detail,
    run_events t' = run_events t ++
      [new_event ids rev (event_kind_of m tripped) (mutation_actor m) detail (ctx_now ctx)].
Proof.
  intros H0. mutation_inv H0;
    first [exists false; eexists; reflexivity | exists true; eexists; reflexivity].
Qed.

(** What identifies a run never changes. *)
Record same_identity t t' : Prop := {
  same_id : run_id t' = run_id t;
  same_project : run_project_id t' = run_project_id t;
  same_workspace : run_workspace_root t' = run_workspace_root t;
  same_task : run_task t' = run_task t;
  same_criteria : run_acceptance_criteria t' = run_acceptance_criteria t;
  same_policy : run_approval_policy t' = run_approval_policy t;
  same_scope : run_world_scope t' = run_world_scope t;
  same_profile : run_verification_profile t' = run_verification_profile t;
  same_assignment : run_role_assignment t' = run_role_assignment t;
  same_compatibility : run_role_compatibility t' = run_role_compatibility t;
  same_runtime : run_runtime_id t' = run_runtime_id t;
  same_agent : run_agent_id t' = run_agent_id t;
  same_session : run_session_id t' = run_session_id t;
  same_initial : run_initial_subject_revision t' = run_initial_subject_revision t;
  same_created : run_created_at t' = run_created_at t
}.

(** The history only grows: nothing recorded is changed or removed. *)
Record history_extends t t' : Prop := {
  ext_events : run_events t `prefix_of` run_events t';
  ext_claims : run_claims t `prefix_of` run_claims t';
  ext_verifications : run_verifications t `prefix_of` run_verifications t';
  ext_verdicts : run_supervisor_verdicts t `prefix_of` run_supervisor_verdicts t';
  ext_decisions : run_operator_decisions t `prefix_of` run_operator_decisions t';
  ext_promotions : run_promotions t `prefix_of` run_promotions t'
}.

Lemma apply_mutation_identity m rev ctx ids t t' :
  apply_mutation m rev ctx ids t = Ok t' →
  same_identity t t' ∧ run_revision t' = run_revision t ∧ run_updated_at t' = run_updated_at t.
Proof. intros H0. mutation_inv H0; repeat split. Qed.

Lemma apply_mutation_history m rev ctx ids t t' :
  apply_mutation m rev ctx ids t = Ok t' → history_extends t t'.
Proof.
  intros H0. mutation_inv H0; split; run_simpl; try done; by eexists.
Qed.

Lemma apply_mutation_capacity m rev ctx ids t t' :
  apply_mutation m rev ctx ids t = Ok t' → zlen (run_events t) < MAX_GOVERNED_EVENTS.
Proof.
  unfold apply_mutation, require_capacity. intros H0. result_inv. bool_inv. lia.
Qed.
End effects.
