(* ===== verification/Evidence.v ===== *)
(** The evidence chain of a run: claim, verification, supervisor verdict and
    operator decision, and the invariant that every review state is backed by
    its part of the chain. *)
From S2P Require Export LifecycleFacts.
Local Open Scope Z_scope.

Section evidence.
Context `{Host}.
Implicit Types (t : GovernedTaskRun) (c : WorkerCompletionClaim) (v : GovernedVerification)
  (d : SupervisorVerdict) (o : OperatorDecision).

(** The claim was made by the assigned worker. *)
Definition claimed_by_worker t c : Prop :=
  actor_kind (claim_actor c) = Worker ∧ actor_id (claim_actor c) = run_agent_id t.

(** [v] is the verifier's latest verification, about the latest claim [c]. *)
Record verified t c v : Prop := {
  ver_claim : latest_claim t = Some c;
  ver_worker : claimed_by_worker t c;
  ver_latest : latest_verification t = Some v;
  ver_actor : actor_kind (verification_actor v) = Verifier;
  ver_claim_id : verification_claim_id v = claim_id c;
  ver_subject : verification_subject_revision v = claim_subject_revision c
}.

(** A passing verification has command evidence and every command succeeded. *)
Record passing v : Prop := {
  pass_outcome : verification_outcome v = Passed;
  pass_evidence : verification_commands v ≠ [];
  pass_commands : Forall (λ x, command_success x = true) (verification_commands v)
}.

(** [d] is the supervisor's latest verdict and recommends accepting [v]. *)
Record recommended t c v d : Prop := {
  rec_verified : verified t c v;
  rec_passing : passing v;
  rec_latest : latest_supervisor_verdict t = Some d;
  rec_actor : actor_kind (verdict_actor d) = Supervisor;
  rec_verification : verdict_verification_id d = verification_id v;
  rec_verdict : verdict_verdict d = RecommendAccept
}.

(** [o] is the single operator decision, on the recommendation [d]. *)
Record decided t c v d o (k : OperatorDecisionKind) : Prop := {
  dec_recommended : recommended t c v d;
  dec_only : run_operator_decisions t = [o];
  dec_actor : actor_kind (decision_actor o) = Operator;
  dec_verdict : decision_supervisor_verdict_id o = verdict_id d;
  dec_kind : decision_decision o = k
}.

Definition review_evidence t : Prop :=
  match run_review_state t with
  | AwaitingClaim =>
      run_claims t = [] ∧ run_verifications t = [] ∧ run_supervisor_verdicts t = []
  | AwaitingVerification | Escalated => ∃ c, latest_claim t = Some c
  | VerificationFailed => ∃ c v, verified t c v ∧ verification_outcome v ≠ Passed
  | AwaitingSupervisor => ∃ c v, verified t c v ∧ passing v
  | ChangesRequested => ∃ c v, verified t c v
  | AwaitingOperator => ∃ c v d, recommended t c v d
  | Accepted => ∃ c v d o, decided t c v d o Approve
  | Rejected => ∃ c v d o, decided t c v d o Reject
  end.

Definition is_decided (r : GovernedReviewState) : bool :=
  match r with Accepted | Rejected => true | _ => false end.

(** A promotion that landed is the last one and landed the accepted commit. *)
Definition promotions_wf t : Prop :=
  (run_promotions t ≠ [] → run_review_state t = Accepted
                           ∧ run_world_scope t = StagedAuthoritative) ∧
  (∀ i p, run_promotions t !! i = Some p → is_promoted (promotion_outcome p) = true →
     S i = length (run_promotions t)) ∧
  (∀ p c, p ∈ run_promotions t → latest_claim t = Some c →
     promotion_accepted_revision p = claim_subject_revision c ∧
     (∀ r, promotion_outcome p = Promoted r → r = claim_subject_revision c)).

Record run_wf t : Prop := {
  wf_workers : Forall (claimed_by_worker t) (run_claims t);
  wf_review : review_evidence t;
  wf_undecided :
    is_decided (run_review_state t) = false → run_operator_decisions t = [];
  wf_unlaunched :
    run_execution_state t = Registered ∨ run_execution_state t = LaunchFailed →
    run_review_state t = AwaitingClaim;
  wf_exit_kind : run_execution_state t ≠ RuntimeExited → run_exit_kind t = Natural;
  wf_staged : run_staged_worktree t ≠ None → run_world_scope t = StagedAuthoritative;
  wf_promotions : promotions_wf t
}.

Lemma registered_run_wf r ids now : run_wf (registered_run r ids now).
Proof. by split. Qed.

Lemma validated_passing input :
  validate_verification input = Ok tt → verification_input_outcome input = Passed →
  verification_input_commands input ≠ [] ∧
  Forall (λ x, command_success x = true) (verification_input_commands input).
Proof.
  unfold validate_verification. intros Hv Ho. cbv zeta in Hv. rewrite Ho in Hv. result_inv.
  match goal with
  | H1 : (_ || _)%bool && bool_decide ?P = false, H2 : _ && existsb _ _ = false |- _ =>
      change (bool_decide P = false) in H1; apply bool_decide_eq_false in H1;
      cbn in H2; apply existsb_false_Forall in H2;
      split; [exact H1|eapply Forall_impl; [exact H2|]]
  end.
  intros x ?%negb_false_iff. done.
Qed.

(** A link of the chain reads only the records up to it. *)
Lemma verified_frame t t' c v :
  run_agent_id t' = run_agent_id t → run_claims t' = run_claims t →
  run_verifications t' = run_verifications t → verified t c v → verified t' c v.
Proof.
  intros Ha Hc Hv []. split; unfold latest_claim, latest_verification, claimed_by_worker in *;
    rewrite ?Hc, ?Hv, ?Ha; done.
Qed.

Lemma recommended_frame t t' c v d :
  run_agent_id t' = run_agent_id t → run_claims t' = run_claims t →
  run_verifications t' = run_verifications t →
  run_supervisor_verdicts t' = run_supervisor_verdicts t →
  recommended t c v d → recommended t' c v d.
Proof.
  intros ??? Hd []. split; unfold latest_supervisor_verdict in *; rewrite ?Hd;
    eauto using verified_frame.
Qed.

Record same_review t t' : Prop := {
  sr_agent : run_agent_id t' = run_agent_id t;
  sr_state : run_review_state t' = run_review_state t;
  sr_claims : run_claims t' = run_claims t;
  sr_verifications : run_verifications t' = run_verifications t;
  sr_verdicts : run_supervisor_verdicts t' = run_supervisor_verdicts t;
  sr_decisions : run_operator_decisions t' = run_operator_decisions t
}.

Lemma review_evidence_frame t t' :
  same_review t t' → review_evidence t → review_evidence t'.
Proof.
  intros [Ha Hs Hc Hv Hd Ho]. unfold review_evidence, latest_claim. rewrite Hs.
  pose proof (λ c v, verified_frame t t' c v Ha Hc Hv) as Hver.
  pose proof (λ c v d, recommended_frame t t' c v d Ha Hc Hv Hd) as Hrec.
  assert (∀ c v d o k, decided t c v d o k → decided t' c v d o k) as Hdec.
  { intros c v d o k []. split; rewrite ?Ho; eauto. }
  destruct (run_review_state t); rewrite ?Hc, ?Hv, ?Hd; naive_solver.
Qed.

Lemma run_wf_frame t t' :
  same_review t t' →
  (run_execution_state t' = Registered ∨ run_execution_state t' = LaunchFailed →
   run_review_state t' = AwaitingClaim) →
  (run_execution_state t' ≠ RuntimeExited → run_exit_kind t' = Natural) →
  (run_staged_worktree t' ≠ None → run_world_scope t' = StagedAuthoritative) →
  promotions_wf t' → run_wf t → run_wf t'.
Proof.
  intros Hsame ???? []. pose proof (review_evidence_frame _ _ Hsame wf_review0).
  destruct Hsame as [Ha Hs Hc Hv Hd Ho]. split; try done.
  - rewrite Hc. eapply Forall_impl; [done|]. unfold claimed_by_worker. by rewrite Ha.
  - rewrite Hs, Ho. done.
Qed.
(** ** Every arm keeps the invariant *)

Lemma require_actor_kind a k u : require_actor a k = Ok u → actor_kind a = k.
Proof. unfold require_actor. intros. result_inv. by bool_inv. Qed.

Lemma promotions_wf_frame t t' :
  run_promotions t' = run_promotions t → run_world_scope t' = run_world_scope t →
  run_review_state t' = run_review_state t → run_claims t' = run_claims t →
  promotions_wf t → promotions_wf t'.
Proof. unfold promotions_wf, latest_claim. by intros -> -> -> ->. Qed.

Lemma promotions_wf_nil t : run_promotions t = [] → promotions_wf t.
Proof.
  unfold promotions_wf. intros ->.
  split_and!; [done|by intros ?? [=]|by intros ?? ?%elem_of_nil].
Qed.

(** Only an accepted run has promotions. *)
Lemma wf_no_promotions t : run_wf t → run_review_state t ≠ Accepted → run_promotions t = [].
Proof.
  intros [?????? [Hp _]] Hr. destruct (run_promotions t); [done|]. by destruct Hp.
Qed.

Ltac keep_promotions Hwf :=
  exact (promotions_wf_frame _ _ eq_refl eq_refl eq_refl eq_refl (wf_promotions _ Hwf)).

Lemma lifecycle_arm_wf m rev ctx ids t t' :
  match m with
  | MarkRunning _ | MarkLaunchFailed _ _ | MarkRuntimeExited _ _ _
  | MaterializeStagedWorktree _ | DiscardStagedWorktree _ _
  | NoteProducerReservationInterrupted _ _ | TakeOverWorker _ _ => True
  | _ => False
  end →
  apply_mutation m rev ctx ids t = Ok t' → run_wf t → run_wf t'.
Proof.
  intros Hkind Hm Hwf. mutation_inv Hm; bool_inv; try destruct Hkind;
    (apply (run_wf_frame t); [by split|..|keep_promotions Hwf|exact Hwf]);
    destruct Hwf; run_simpl; try done; try intuition congruence.
  intros Hd. apply wf_staged0. by destruct (run_staged_worktree t).
Qed.

Lemma claim_arm_wf claim rev ctx ids t t' :
  apply_mutation (SubmitClaim claim) rev ctx ids t = Ok t' → run_wf t → run_wf t'.
Proof.
  intros Hm Hwf. mutation_inv Hm.
  all: unfold admit_claim in *; result_inv; bool_inv.
  all: match goal with H : require_actor _ _ = Ok _ |- _ => apply require_actor_kind in H end.
  all: assert (run_promotions t = []) as Hp by
    (apply wf_no_promotions; [done|by destruct (run_review_state t)]).
  all: destruct Hwf as [Hworkers Hreview Hund Hunl Hexit Hstaged Hprom];
    split; run_simpl; try done; try (by apply promotions_wf_nil);
    try (apply Forall_app_2; [by eapply Forall_impl|by repeat constructor]);
    try (intros _; apply Hund; by destruct (run_review_state t));
    try (eexists; apply last_snoc);
    try (intros ?; intuition congruence).
Qed.

Lemma verification_arm_wf (v : GovernedVerificationInput) rev ctx ids t t' :
  apply_mutation (RecordVerification v) rev ctx ids t = Ok t' → run_wf t → run_wf t'.
Proof.
  intros Hm Hwf. mutation_inv Hm. bool_inv.
  match goal with H : require_actor _ _ = Ok _ |- _ => apply require_actor_kind in H end.
  match goal with H : latest_claim t = Some ?x |- _ => rename H into Hc; rename x into c end.
  assert (run_promotions t = []) as Hp by (apply wf_no_promotions; congruence).
  destruct Hwf as [Hworkers Hreview Hund Hunl Hexit Hstaged Hprom].
  split; run_simpl; try done; try (by apply promotions_wf_nil).
  - match goal with H : run_review_state t = _ |- _ => rename H into Hrs end.
    assert (claimed_by_worker t c) as Hw.
    { eapply Forall_forall in Hworkers; [done|]. by apply last_elem_of. }
    unfold review_evidence; run_simpl. case_bool_decide.
    + do 2 eexists. split; [by split; run_simpl; try apply last_snoc|].
      match goal with H : validate_verification v = _ |- _ =>
        apply validated_passing in H as [??]; [by split|done] end.
    + do 2 eexists. split; [by split; run_simpl; try apply last_snoc|done].
  - intros _. apply Hund. match goal with H : run_review_state t = _ |- _ => by rewrite H end.
  - intros Hx. specialize (Hunl Hx). congruence.
Qed.

Lemma verdict_arm_wf (v : SupervisorVerdictInput) rev ctx ids t t' :
  apply_mutation (RecordSupervisorVerdict v) rev ctx ids t = Ok t' → run_wf t → run_wf t'.
Proof.
  intros Hm Hwf. mutation_inv Hm. bool_inv.
  match goal with H : require_actor _ _ = Ok _ |- _ => apply require_actor_kind in H end.
  match goal with H : run_review_state t = _ ∨ _ |- _ => rename H into Hrs end.
  assert (run_promotions t = []) as Hp by (apply wf_no_promotions; [done|destruct Hrs; congruence]).
  destruct Hwf as [Hworkers Hreview Hund Hunl Hexit Hstaged Hprom].
  match goal with H : latest_verification t = Some ?x |- _ => rename x into w end.
  assert (∃ c, verified t c w ∧ (verification_outcome w = Passed → passing w)) as (c & Hver & Hpass).
  { unfold review_evidence in Hreview.
    destruct Hrs as [Hrs|Hrs]; rewrite Hrs in Hreview;
      destruct Hreview as (c & w' & Hver & Hout); exists c;
      assert (w' = w) as -> by (destruct Hver; congruence); naive_solver. }
  split; run_simpl; try done; try (by apply promotions_wf_nil).
  - unfold review_evidence; run_simpl.
    destruct (verdict_input_verdict v) eqn:Hk; cbn [review_state_of_verdict];
      [|exists c, w; by destruct Hver|exists c; by destruct Hver].
    do 3 eexists. split; run_simpl; try apply last_snoc; try done;
      [by destruct Hver|].
    apply Hpass. match goal with H : _ && bool_decide ?P = false |- _ =>
      change (bool_decide P = false) in H end.
    by bool_inv.
  - intros _. apply Hund. by destruct Hrs as [-> | ->].
  - intros Hx. specialize (Hunl Hx). destruct Hrs; congruence.
Qed.

Lemma decision_arm_wf (d : OperatorDecisionInput) rev ctx ids t t' :
  apply_mutation (RecordOperatorDecision d) rev ctx ids t = Ok t' → run_wf t → run_wf t'.
Proof.
  intros Hm Hwf. mutation_inv Hm. bool_inv.
  match goal with H : require_actor _ _ = Ok _ |- _ => apply require_actor_kind in H end.
  match goal with H : run_review_state t = _ |- _ => rename H into Hrs end.
  assert (run_promotions t = []) as Hp by (apply wf_no_promotions; congruence).
  destruct Hwf as [Hworkers Hreview Hund Hunl Hexit Hstaged Hprom].
  assert (run_operator_decisions t = []) as Ho by (apply Hund; by rewrite Hrs).
  unfold review_evidence in Hreview. rewrite Hrs in Hreview.
  destruct Hreview as (c & v & s & Hrec).
  assert (latest_supervisor_verdict t = Some s) as Hs by (by destruct Hrec).
  split; run_simpl; try done; try (by apply promotions_wf_nil).
  - unfold review_evidence; run_simpl.
    destruct (decision_input_decision d) eqn:Hk; exists c, v, s; eexists;
      (split; run_simpl;
       [by apply (recommended_frame t)|by rewrite Ho|done|cbn; congruence|done]).
  - by destruct (decision_input_decision d).
  - intros Hx. specialize (Hunl Hx). congruence.
Qed.

(** A run whose last promotion did not land has none that did. *)
Lemma none_promoted t :
  promotions_wf t →
  match latest_promotion t with
  | Some previous => is_promoted (promotion_outcome previous)
  | None => false
  end = false →
  ∀ i p, run_promotions t !! i = Some p → is_promoted (promotion_outcome p) = false.
Proof.
  intros (_ & Hlast & _) Hn i p Hi.
  destruct (is_promoted (promotion_outcome p)) eqn:Hp; [|done].
  pose proof (Hlast i p Hi Hp) as Hlen. unfold latest_promotion in Hn.
  rewrite last_lookup, <-Hlen in Hn. cbn in Hn. by rewrite Hi, Hp in Hn.
Qed.

Lemma promoted_revision_accepted p r :
  validate_promotion_outcome p = Ok tt → promotion_input_outcome p = Promoted r →
  r = promotion_input_accepted_revision p.
Proof. unfold validate_promotion_outcome. intros ? Ho. result_inv. rewrite Ho in *. result_inv. by bool_inv. Qed.

Lemma promotion_arm_wf p rev ctx ids t t' :
  apply_mutation (RecordPromotion p) rev ctx ids t = Ok t' → run_wf t → run_wf t'.
Proof.
  intros Hm Hwf. mutation_inv Hm. unfold record_promotion_preconditions_hold in *. result_inv.
  match goal with H : match latest_promotion t with _ => _ end = false |- _ =>
    pose proof (none_promoted t (wf_promotions _ Hwf) H) as Hnone end.
  bool_inv.
  apply (run_wf_frame t); [by split|..|exact Hwf];
    destruct Hwf as [Hworkers Hreview Hund Hunl Hexit Hstaged [Hp1 [Hp2 Hp3]]];
    run_simpl; try done.
  split_and!; run_simpl; [done|..].
  - intros i q Hi Hq. rewrite length_app. cbn.
    apply lookup_snoc_Some in Hi as [[Hlt Hi]|[-> _]]; [|lia].
    by rewrite (Hnone i q Hi) in Hq.
  - intros q c Hq Hc. apply elem_of_app in Hq as [Hq|Hq%list_elem_of_singleton]; [by eauto|].
    subst q. run_simpl. unfold latest_claim in *. run_simpl.
    assert (promotion_input_accepted_revision p = claim_subject_revision c) as Hrev by congruence.
    split; [done|]. intros r Hr. rewrite <-Hrev. by eapply promoted_revision_accepted.
Qed.

Lemma apply_mutation_wf m rev ctx ids t t' :
  apply_mutation m rev ctx ids t = Ok t' → run_wf t → run_wf t'.
Proof.
  destruct m; eauto using claim_arm_wf, verification_arm_wf, verdict_arm_wf, decision_arm_wf,
    promotion_arm_wf; by apply lifecycle_arm_wf.
Qed.

(** ** Runs the ledger can hold *)

(** A run obtained from registration by live mutations; the ledger replaces the
    workspace root of the validated registration by its canonical path. *)
Inductive run_reachable : GovernedTaskRun → Prop :=
  | reach_registered r root ids now :
      validate_registration r = Ok tt →
      run_reachable (registered_run (set_workspace_root root r) ids now)
  | reach_mutated t m authentication ids now t' :
      run_reachable t → advance_run m authentication ids now t = Ok t' → run_reachable t'.

Lemma advance_run_inv m authentication ids now t t' :
  advance_run m authentication ids now t = Ok t' →
  ∃ u, apply_mutation m (run_revision t + 1) (live_context now authentication) ids t = Ok u ∧
    run_revision t + 1 ≤ u64_max ∧
    t' = set_updated_at now (set_revision (run_revision t + 1) u).
Proof.
  unfold advance_run. intros Ha. result_inv.
  match goal with H : u64_checked_add _ _ = Some _ |- _ =>
    apply u64_checked_add_Some in H as [-> ?] end.
  eexists; split_and!; [done..|].
  match goal with H : apply_mutation _ _ _ _ _ = Ok _ |- _ =>
    apply apply_mutation_event in H as (? & ? & He) end.
  unfold set_events, set_updated_at, set_revision; run_simpl. rewrite He, map_last_snoc.
  reflexivity.
Qed.

Lemma run_wf_stamp n now t : run_wf t → run_wf (set_updated_at now (set_revision n t)).
Proof.
  intros Hwf.
  apply (run_wf_frame t); [by split|..|keep_promotions Hwf|exact Hwf]; by destruct Hwf.
Qed.

Lemma advance_run_wf m authentication ids now t t' :
  advance_run m authentication ids now t = Ok t' → run_wf t → run_wf t'.
Proof.
  intros (u & Hu & _ & ->)%advance_run_inv Hwf. by eapply run_wf_stamp, apply_mutation_wf.
Qed.

Lemma reachable_wf t : run_reachable t → run_wf t.
Proof. induction 1; eauto using registered_run_wf, advance_run_wf. Qed.

(** Event [i] carries revision [i], and the run's revision is its last. *)
Record history_wf t : Prop := {
  hist_first : ∃ e, head (run_events t) = Some e ∧ event_kind e = EventRegistered;
  hist_revisions : ∀ i e, run_events t !! i = Some e → event_revision e = Z.of_nat i;
  hist_length : zlen (run_events t) = run_revision t + 1;
  hist_bound : zlen (run_events t) ≤ MAX_GOVERNED_EVENTS
}.

Lemma registered_history_wf r ids now : history_wf (registered_run r ids now).
Proof.
  split; [by eexists|..|done|done].
  intros [|i] e He; cbn in He; [by injection He as <-|done].
Qed.

Lemma advance_history_wf m authentication ids now t t' :
  advance_run m authentication ids now t = Ok t' → history_wf t → history_wf t'.
Proof.
  intros (u & Hu & ? & ->)%advance_run_inv [(e0 & Hf & Hk) Hr Hl Hb].
  pose proof (apply_mutation_capacity _ _ _ _ _ _ Hu).
  apply apply_mutation_event in Hu as (x & d & He).
  split; run_simpl; rewrite He.
  - exists e0. split; [|done]. revert Hf. by destruct (run_events t).
  - intros i e [[? ?]|[-> <-]]%lookup_snoc_Some; [eauto|]. cbn [new_event event_revision]. unfold zlen in *. lia.
  - rewrite zlen_snoc. lia.
  - rewrite zlen_snoc. lia.
Qed.

Lemma reachable_history_wf t : run_reachable t → history_wf t.
Proof. induction 1; eauto using registered_history_wf, advance_history_wf. Qed.
End evidence.

#[export] Hint Resolve reachable_wf reachable_history_wf : impulse.
