(* ===== verification/Sample.v ===== *)
(** A concrete host and a concrete staged run, on which the theorems are
    instantiated. The host's functions are small stand-ins: a timestamp is a
    decimal number of nanoseconds, the digest a 64-digit checksum. *)
From S2P Require Export Evidence.
Local Open Scope Z_scope.

(** * The host *)

Definition hex_digit (n : Z) : Z := if n <? 10 then 48 + n else 87 + n.
Definition checksum (input : list Z) : Z :=
  foldl (λ h b, (h * 131 + b + 7) mod 2305843009213693951) 1 input.
Definition sample_digest (input : list Z) : rstring :=
  let h := checksum input in
  (λ i : nat, hex_digit ((h / 16 ^ Z.of_nat (i mod 15)) mod 16)) <$> seq 0 64.

Definition mutation_tag (m : GovernedTaskMutation) : Z :=
  match m with
  | MarkRunning _ => 1 | MarkLaunchFailed _ _ => 2 | MarkRuntimeExited _ _ _ => 3
  | MaterializeStagedWorktree _ => 4 | DiscardStagedWorktree _ _ => 5 | SubmitClaim _ => 6
  | RecordVerification _ => 7 | RecordSupervisorVerdict _ => 8 | RecordOperatorDecision _ => 9
  | NoteProducerReservationInterrupted _ _ => 10 | RecordPromotion _ => 11
  | TakeOverWorker _ _ => 12
  end.
Definition mutation_text (m : GovernedTaskMutation) : rstring :=
  match m with
  | SubmitClaim claim => claim_input_summary claim
  | TakeOverWorker _ reason | DiscardStagedWorktree _ reason => reason
  | _ => []
  end.

#[export] Instance sample_host : Host := {|
  host_unicode := λ _, false;
  host_json := λ s, [34] ++ s ++ [34];
  parse_from_rfc3339 := parse_u64;
  sha256_hex := sample_digest;
  registration_json r := reg_request_id r ++ [0] ++ reg_task_id r ++ [0] ++ reg_task r;
  semantic_mutation_json project task m :=
    [mutation_tag m] ++ project ++ [0] ++ task ++ [0] ++ mutation_text m
|}.

Lemma hex_digit_lower n : 0 ≤ n < 16 → is_lower_hex_byte (hex_digit n) = true.
Proof.
  intros Hn. unfold hex_digit, is_lower_hex_byte, is_ascii_digit, is_lower_hex_letter.
  destruct (Z.ltb_spec n 10); apply orb_true_iff; [left|right];
    apply andb_true_iff; split; apply Z.leb_le; lia.
Qed.

Lemma sample_digest_ascii input : bytes (sample_digest input) = sample_digest input.
Proof.
  apply ascii_bytes, Forall_fmap, Forall_forall. intros i _. cbn. unfold hex_digit.
  match goal with |- context [?n mod 16] =>
    pose proof (Z.mod_pos_bound n 16 ltac:(lia)); destruct (Z.ltb_spec (n mod 16) 10) end; lia.
Qed.

#[export] Instance sample_host_laws : HostLaws.
Proof.
  split; intros input; cbn [sha256_hex sample_host]; unfold len; rewrite sample_digest_ascii.
  - unfold zlen, sample_digest. by rewrite length_fmap, length_seq.
  - apply forallb_true_Forall, Forall_fmap, Forall_forall. intros i _.
    apply hex_digit_lower, Z.mod_pos_bound. lia.
Qed.

(** * The registration *)

Definition sample_oid : rstring := lit "0123456789abcdef0123456789abcdef01234567".
Definition sample_claim_oid : rstring := lit "89abcdef0123456789abcdef0123456789abcdef".
Definition sample_sha : rstring :=
  lit "sha256:0123456789abcdef0123456789abcdef0123456789abcdef0123456789abcdef".

Definition sample_compatibility : RoleCompatibility :=
  {| compat_platform := lit "codex"; compat_role := GOVERNED_BUILDER_ROLE_ID;
     compat_checks :=
       (λ r, {| check_capability := requirement_capability r;
                check_required := requirement_minimum_enforcement r;
                check_available := Mediated;
                check_mandatory := requirement_mandatory r |})
       <$> assignment_requirements canonical_governed_builder_assignment |}.

Definition sample_registration (scope : WorldScope) : GovernedTaskRegistration :=
  {| reg_request_id := lit "request-0";
     reg_task_id := lit "task-1";
     reg_project_id := lit "demo";
     reg_workspace_root := lit "/srv/demo";
     reg_task := lit "fix the parser";
     reg_acceptance_criteria := [lit "tests pass"];
     reg_approval_policy := OperatorRequired;
     reg_world_scope := scope;
     reg_verification_profile := Some RustWorkspaceV1;
     reg_role_assignment := Some canonical_governed_builder_assignment;
     reg_role_compatibility := Some sample_compatibility;
     reg_runtime_id := lit "codex";
     reg_agent_id := lit "builder-1";
     reg_session_id := None;
     reg_initial_subject_revision := Some sample_oid |}.

Definition sample_ids (n : Z) : FreshIds :=
  {| fresh_record := lit "r" ++ show_Z n; fresh_event := lit "e" ++ show_Z n |}.
Definition sample_time (n : Z) : rstring := show_Z (1000000000 * n).

Definition sample_run0 (scope : WorldScope) : GovernedTaskRun :=
  registered_run (sample_registration scope) (sample_ids 0) (sample_time 0).

(** * Mutations *)

Definition actor (kind : GovernedActorKind) (id : string) : GovernedActor :=
  {| actor_kind := kind; actor_id := lit id |}.
Definition daemon : GovernedActor := actor System "impulse-daemon".
Definition builder : GovernedActor := actor Worker "builder-1".
Definition verifier : GovernedActor := actor Verifier "verifier-1".
Definition supervisor : GovernedActor := actor Supervisor "supervisor-1".
Definition operator : GovernedActor := actor Operator "operator-1".

Definition sample_materialize : GovernedTaskMutation :=
  MaterializeStagedWorktree
    {| staged_input_actor := daemon;
       staged_input_root := lit "/srv/demo/.impulse/worktrees/task-1";
       staged_input_initial_subject_revision := sample_oid;
       staged_input_shared_config_digest := Recorded (digest_current sample_sha None None) |}.
Definition sample_claim : GovernedTaskMutation :=
  SubmitClaim
    {| claim_input_actor := builder; claim_input_summary := lit "done";
       claim_input_subject_revision := sample_claim_oid;
       claim_input_artifact_ids := []; claim_input_diff_ref := None |}.
Definition sample_command (success : bool) : GovernedCommandEvidence :=
  {| command_name := lit "test"; command_executable := lit "cargo";
     command_redacted_args := [lit "test"]; command_command_digest := sample_sha;
     command_exit_code := Some (if success then 0 else 101); command_success := success;
     command_output_digest := sample_sha; command_output_ref := None;
     command_output_bytes := 12; command_output_truncated := false |}.
Definition sample_verification (claim : Z) (success : bool) : GovernedTaskMutation :=
  RecordVerification
    {| verification_input_actor := verifier;
       verification_input_claim_id := lit "claim-r" ++ show_Z claim;
       verification_input_subject_revision := sample_claim_oid;
       verification_input_policy := lit "rust_workspace_v1";
       verification_input_outcome := if success then Passed else Failed;
       verification_input_commands := [sample_command success];
       verification_input_artifact_ids := []; verification_input_notes := None |}.
Definition sample_verdict (verification : Z) (kind : SupervisorVerdictKind)
    : GovernedTaskMutation :=
  RecordSupervisorVerdict
    {| verdict_input_actor := supervisor;
       verdict_input_verification_id := lit "verification-r" ++ show_Z verification;
       verdict_input_verdict := kind; verdict_input_rationale := lit "as asked" |}.
Definition sample_decision (verdict : Z) (kind : OperatorDecisionKind) : GovernedTaskMutation :=
  RecordOperatorDecision
    {| decision_input_actor := operator;
       decision_input_supervisor_verdict_id := lit "supervisor-verdict-r" ++ show_Z verdict;
       decision_input_decision := kind; decision_input_rationale := lit "agreed" |}.
Definition sample_promotion : GovernedTaskMutation :=
  RecordPromotion
    {| promotion_input_actor := daemon;
       promotion_input_accepted_revision := sample_claim_oid;
       promotion_input_initial_subject_revision := sample_oid;
       promotion_input_outcome := Promoted sample_claim_oid |}.
Definition sample_exit (kind : GovernedExitKind) : GovernedTaskMutation :=
  MarkRuntimeExited daemon None kind.
Definition sample_takeover : GovernedTaskMutation :=
  TakeOverWorker operator (lit "worker is stuck").

(** The run after some mutations, each at its revision's time and ids. *)
Definition sample_advance (t : state_result GovernedTaskRun) (m : GovernedTaskMutation)
    : state_result GovernedTaskRun :=
  t ← t ;
  let n := run_revision t + 1 in
  advance_run m Declared (sample_ids n) (sample_time n) t.
Definition sample_history (scope : WorldScope) (ms : list GovernedTaskMutation)
    : state_result GovernedTaskRun :=
  foldl sample_advance (Ok (sample_run0 scope)) ms.
(** The run itself; only histories that succeed are used. *)
Definition sample_run (scope : WorldScope) (ms : list GovernedTaskMutation) : GovernedTaskRun :=
  match sample_history scope ms with Ok t => t | Err _ => sample_run0 scope end.

Lemma sample_registration_valid scope :
  scope = StagedAuthoritative ∨ scope = Authoritative →
  validate_registration (sample_registration scope) = Ok tt.
Proof. by intros [-> | ->]; vm_compute. Qed.

Lemma sample_history_reachable scope ms t :
  scope = StagedAuthoritative ∨ scope = Authoritative →
  sample_history scope ms = Ok t → run_reachable t.
Proof.
  intros Hscope. unfold sample_history. revert t.
  induction ms as [|m ms IH] using rev_ind; intros t; cbn.
  - intros [= <-]. apply (reach_registered _ (lit "/srv/demo")).
    by apply sample_registration_valid.
  - rewrite foldl_snoc. unfold sample_advance at 1. intros Ht. result_inv.
    eapply reach_mutated; [by apply IH|done].
Qed.

(** A running staged run, up to acceptance and promotion. *)
Definition sample_launch : list GovernedTaskMutation := [sample_materialize; MarkRunning daemon].
Definition sample_to_acceptance : list GovernedTaskMutation :=
  sample_launch ++ [sample_claim; sample_verification 3 true; sample_verdict 4 RecommendAccept;
                    sample_decision 5 Approve].
Definition sample_accepted : GovernedTaskRun := sample_run StagedAuthoritative sample_to_acceptance.
Definition sample_promoted : GovernedTaskRun :=
  sample_run StagedAuthoritative (sample_to_acceptance ++ [sample_promotion]).
Definition sample_running : GovernedTaskRun := sample_run StagedAuthoritative sample_launch.
Definition sample_cancelled : GovernedTaskRun :=
  sample_run StagedAuthoritative (sample_launch ++ [sample_exit OperatorCancelled]).

(** [sample_reachable] decides that a sample history reaches its run. *)
Lemma sample_reachable scope ms :
  is_materializable scope && is_ok (sample_history scope ms) = true →
  run_reachable (sample_run scope ms).
Proof.
  intros [Hscope Hok]%andb_true_iff. apply is_ok_true in Hok as (t & Ht).
  unfold sample_run. rewrite Ht. apply (sample_history_reachable scope ms); [|done].
  by destruct scope; [..|left|right].
Qed.

Example sample_accepted_state : run_review_state sample_accepted = Accepted.
Proof. vm_compute. reflexivity. Qed.
Example sample_promoted_state : length (run_promotions sample_promoted) = 1%nat.
Proof. vm_compute. reflexivity. Qed.
