(* ===== verification/LifecycleProps.v ===== *)
(** What the governed-task state machine guarantees of the runs it produces:
    the evidence behind an acceptance, who may move a run where, what stays put
    and the bounds of its history. *)
From S2P Require Export Evidence Sample.
Local Open Scope Z_scope.

(** * Steps of a run *)

Section steps.
Context `{Host}.
Implicit Types (t : GovernedTaskRun).

Definition run_step t t' : Prop :=
  ∃ m authentication ids now, advance_run m authentication ids now t = Ok t'.

Lemma reachable_step t t' : run_reachable t → run_step t t' → run_reachable t'.
Proof. intros Ht (m & a & ids & now & Ha). by eapply reach_mutated. Qed.

Lemma reachable_steps t t' : run_reachable t → rtc run_step t t' → run_reachable t'.
Proof. intros Ht. induction 1; eauto using reachable_step. Qed.

(** An invariant of one step is an invariant of many. *)
Lemma steps_preserve (P : GovernedTaskRun → Prop) :
  (∀ t t', run_reachable t → run_step t t' → P t → P t') →
  ∀ t t', run_reachable t → rtc run_step t t' → P t → P t'.
Proof. intros HP t t' Ht. induction 1; eauto using reachable_step. Qed.

(** A relation every step respects is respected by many. *)
Lemma steps_relate (R : GovernedTaskRun → GovernedTaskRun → Prop) `{!PreOrder R} :
  (∀ t t', run_reachable t → run_step t t' → R t t') →
  ∀ t t', run_reachable t → rtc run_step t t' → R t t'.
Proof.
  intros HR t t' Ht. induction 1 as [|t u t' Hs _ IH]; [done|].
  transitivity u; eauto using reachable_step.
Qed.

#[export] Instance history_extends_preorder : PreOrder history_extends.
Proof.
  split; [by split|]. intros t1 t2 t3 [] []. split; by etransitivity.
Qed.

#[export] Instance same_identity_equivalence : Equivalence same_identity.
Proof.
  split; [by split|..].
  - by intros ?? []; split.
  - intros ??? [] []. split; congruence.
Qed.

Lemma step_history t t' : run_step t t' → history_extends t t'.
Proof.
  intros (m & a & ids & now & (u & Hu & _ & ->)%advance_run_inv).
  apply apply_mutation_history in Hu as []. by split.
Qed.

Lemma step_identity t t' : run_step t t' → same_identity t t'.
Proof.
  intros (m & a & ids & now & (u & Hu & _ & ->)%advance_run_inv).
  apply apply_mutation_identity in Hu as ([] & _). by split.
Qed.
End steps.

#[export] Hint Resolve reachable_step reachable_steps step_history step_identity : impulse.

(** Open a live mutation down to its checks and the run it produced. *)
Ltac advance_inv H :=
  apply advance_run_inv in H as (? & H & ? & ->); mutation_inv H; bool_inv; run_simpl.

(** * The abstract lifecycle *)

(** Who may move the review from where to where. *)
Inductive review_step : GovernedActorKind → GovernedReviewState → GovernedReviewState → Prop :=
  | review_claimed r :
      r = AwaitingClaim ∨ r = ChangesRequested ∨ r = VerificationFailed →
      review_step Worker r AwaitingVerification
  | review_tripped r :
      r = AwaitingClaim ∨ r = ChangesRequested ∨ r = VerificationFailed →
      review_step Worker r Escalated
  | review_passed : review_step Verifier AwaitingVerification AwaitingSupervisor
  | review_failed : review_step Verifier AwaitingVerification VerificationFailed
  | review_recommended : review_step Supervisor AwaitingSupervisor AwaitingOperator
  | review_sent_back r :
      r = AwaitingSupervisor ∨ r = VerificationFailed →
      review_step Supervisor r ChangesRequested
  | review_escalated r :
      r = AwaitingSupervisor ∨ r = VerificationFailed →
      review_step Supervisor r Escalated
  | review_accepted : review_step Operator AwaitingOperator Accepted
  | review_rejected : review_step Operator AwaitingOperator Rejected.

(** The daemon alone moves the execution. *)
Inductive execution_step :
    GovernedActorKind → GovernedExecutionState → GovernedExecutionState → Prop :=
  | execution_started : execution_step System Registered Running
  | execution_failed : execution_step System Registered LaunchFailed
  | execution_exited : execution_step System Running RuntimeExited.

(** A step moves the execution, the review or neither, never both; the review
    moves only once the runtime was launched. *)
Inductive lifecycle_step (k : GovernedActorKind) :
    GovernedExecutionState * GovernedReviewState →
    GovernedExecutionState * GovernedReviewState → Prop :=
  | lifecycle_executes e e' r : execution_step k e e' → lifecycle_step k (e, r) (e', r)
  | lifecycle_reviews e r r' :
      e = Running ∨ e = RuntimeExited → review_step k r r' → lifecycle_step k (e, r) (e, r')
  | lifecycle_records e r : k = System ∨ k = Operator → lifecycle_step k (e, r) (e, r).

#[export] Hint Constructors review_step execution_step lifecycle_step : impulse.

Definition phase (t : GovernedTaskRun) : GovernedExecutionState * GovernedReviewState :=
  (run_execution_state t, run_review_state t).

Section lifecycle.
Context `{Host}.
Implicit Types (t : GovernedTaskRun).

(** Past the launch, as every review state but the first witnesses. *)
Lemma wf_launched t :
  run_wf t → run_review_state t ≠ AwaitingClaim →
  run_execution_state t = Running ∨ run_execution_state t = RuntimeExited.
Proof.
  intros Hwf Hr. pose proof (wf_unlaunched t Hwf).
  destruct (run_execution_state t); naive_solver.
Qed.

(** A verdict that recommends acceptance is given on a passing verification. *)
Lemma wf_recommend_from t v :
  run_wf t → latest_verification t = Some v → verification_outcome v = Passed →
  run_review_state t ≠ VerificationFailed.
Proof.
  intros Hwf Hv Hp Hr. pose proof (wf_review t Hwf) as He. unfold review_evidence in He.
  rewrite Hr in He. destruct He as (c & w & [] & Hout). congruence.
Qed.

Lemma advance_lifecycle m authentication ids now t t' :
  run_wf t → advance_run m authentication ids now t = Ok t' →
  lifecycle_step (actor_kind (mutation_actor m)) (phase t) (phase t').
Proof.
  intros Hwf Ha. pose proof (wf_launched t Hwf) as Hl. pose proof (wf_recommend_from t) as Hrec.
  advance_inv Ha; unfold admit_claim in *; result_inv; bool_inv;
    repeat match goal with H : require_actor _ _ = Ok _ |- _ => apply require_actor_kind in H end;
    unfold phase; run_simpl; cbn [mutation_actor].
  all: repeat match goal with
         | H : actor_kind ?a = _ |- context [actor_kind ?a] => rewrite H
         | H : run_execution_state ?u = _ |- context [run_execution_state ?u] => rewrite H
         | H : run_review_state ?u = _ |- context [run_review_state ?u] => rewrite H
         end.
  all: try solve [eauto with impulse].
  - apply lifecycle_reviews; [naive_solver|].
    by destruct (run_review_state t); try done; auto with impulse.
  - apply lifecycle_reviews; [naive_solver|].
    by destruct (run_review_state t); try done; auto with impulse.
  - apply lifecycle_reviews; [apply Hl; congruence|]. case_bool_decide; auto with impulse.
  - apply lifecycle_reviews; [apply Hl; intuition congruence|].
    destruct (verdict_input_verdict verdict) eqn:Hk; cbn [review_state_of_verdict];
      [|auto with impulse..].
    match goal with H : _ && bool_decide ?P = false |- _ =>
      change (bool_decide P = false) in H end.
    bool_inv. assert (run_review_state t = AwaitingSupervisor) as -> by naive_solver.
    constructor.
  - apply lifecycle_reviews; [apply Hl; congruence|].
    destruct (decision_input_decision decision); constructor.
Qed.

(** Nothing but the promotion records and the staged worktree of a settled run
    changes. *)
Record same_verdict t t' : Prop := {
  sv_state : run_review_state t' = run_review_state t;
  sv_claims : run_claims t' = run_claims t;
  sv_verifications : run_verifications t' = run_verifications t;
  sv_verdicts : run_supervisor_verdicts t' = run_supervisor_verdicts t;
  sv_decisions : run_operator_decisions t' = run_operator_decisions t
}.

Definition is_settled_review (r : GovernedReviewState) : bool :=
  match r with Accepted | Rejected | Escalated => true | _ => false end.

Lemma advance_settled m authentication ids now t t' :
  advance_run m authentication ids now t = Ok t' →
  is_settled_review (run_review_state t) = true → same_verdict t t'.
Proof.
  intros Ha Hs. advance_inv Ha; unfold admit_claim in *; result_inv; bool_inv; try by split.
  all: exfalso; destruct (run_review_state _); naive_solver.
Qed.

(** Every kind of record keeps to its limit. *)
Record records_bounded t : Prop := {
  rb_claims : zlen (run_claims t) ≤ MAX_GOVERNED_RECORDS_PER_KIND;
  rb_verifications : zlen (run_verifications t) ≤ MAX_GOVERNED_RECORDS_PER_KIND;
  rb_verdicts : zlen (run_supervisor_verdicts t) ≤ MAX_GOVERNED_RECORDS_PER_KIND;
  rb_decisions : zlen (run_operator_decisions t) ≤ MAX_GOVERNED_RECORDS_PER_KIND;
  rb_promotions : zlen (run_promotions t) ≤ MAX_GOVERNED_RECORDS_PER_KIND
}.

Lemma advance_records_bounded m authentication ids now t t' :
  advance_run m authentication ids now t = Ok t' → records_bounded t → records_bounded t'.
Proof.
  intros Ha []. advance_inv Ha;
    unfold admit_claim, require_capacity, record_promotion_preconditions_hold in *;
    result_inv; bool_inv; split; run_simpl; rewrite ?zlen_snoc; lia.
Qed.

Lemma reachable_records_bounded t : run_reachable t → records_bounded t.
Proof. induction 1; [by split|eauto using advance_records_bounded]. Qed.

(** An exit is final, whatever its kind. *)
Lemma advance_exited m authentication ids now t t' :
  advance_run m authentication ids now t = Ok t' →
  run_execution_state t = RuntimeExited →
  run_execution_state t' = RuntimeExited ∧ run_exit_kind t' = run_exit_kind t.
Proof. intros Ha He. advance_inv Ha; try done; congruence. Qed.

Lemma advance_cancelled m authentication ids now t t' :
  advance_run m authentication ids now t = Ok t' →
  run_exit_kind t = OperatorCancelled → run_claims t' = run_claims t.
Proof.
  intros Ha He. advance_inv Ha; try done.
  all: unfold admit_claim in *; result_inv; bool_inv.
  all: match goal with H : _ && bool_decide (run_exit_kind ?u = ?k) = false |- _ =>
    change (bool_decide (run_exit_kind u = k) = false) in H end; bool_inv; congruence.
Qed.

(** The worker lease counts the takeovers. *)
Definition is_takeover (m : GovernedTaskMutation) : bool :=
  match m with TakeOverWorker _ _ => true | _ => false end.

Lemma advance_lease m authentication ids now t t' :
  advance_run m authentication ids now t = Ok t' →
  lease_generation t' = lease_generation t + (if is_takeover m then 1 else 0).
Proof.
  intros (u & Hu & _ & ->)%advance_run_inv. apply apply_mutation_event in Hu as (x & d & He).
  unfold lease_generation. run_simpl. rewrite He, filter_app, zlen_app. f_equal.
  destruct m; try reflexivity. by destruct x.
Qed.

Definition lease_le t t' : Prop := lease_generation t ≤ lease_generation t'.
#[export] Instance lease_le_preorder : PreOrder lease_le.
Proof. unfold lease_le. split; [by intros t|intros t u v; lia]. Qed.

Lemma step_lease t t' : run_step t t' → lease_le t t'.
Proof.
  unfold lease_le. intros (m & a & ids & now & ->%advance_lease). destruct (is_takeover m); lia.
Qed.

Lemma steps_lease t t' : run_reachable t → rtc run_step t t' → lease_le t t'.
Proof. apply steps_relate; [apply _|]. eauto using step_lease. Qed.

(** ** Errors that are not panics *)

Definition calm (e : AnyError) : Prop := match e with Panicked _ => False | _ => True end.

Lemma require_bounded_text_calm l v n e : require_bounded_text l v n = Err e → calm e.
Proof. unfold require_bounded_text. intros. by error_inv. Qed.
Lemma require_actor_calm a k e : require_actor a k = Err e → calm e.
Proof.
  unfold require_actor, require_text. intros. error_inv; [done|].
  by eapply require_bounded_text_calm.
Qed.
Lemma require_sha256_digest_calm l v e : require_sha256_digest l v = Err e → calm e.
Proof.
  unfold require_sha256_digest, invalid_transition. intros He.
  destruct (strip_prefix _ _); by error_inv.
Qed.
Lemma require_project_relative_ref_calm l v e : require_project_relative_ref l v = Err e → calm e.
Proof.
  unfold require_project_relative_ref. intros. error_inv; [|done].
  by eapply require_bounded_text_calm.
Qed.
Lemma validate_reference_ids_calm l v e : validate_reference_ids l v = Err e → calm e.
Proof.
  unfold validate_reference_ids. intros. error_inv; [done|].
  by eapply require_bounded_text_calm.
Qed.
Hint Resolve require_bounded_text_calm require_actor_calm require_sha256_digest_calm
  require_project_relative_ref_calm validate_reference_ids_calm : calm.

Ltac calm_by := error_inv; try done; eauto with calm.

Lemma validate_command_calm c e : validate_command c = Err e → calm e.
Proof.
  unfold validate_command. intros. calm_by.
  destruct (command_output_ref c); calm_by.
Qed.
Hint Resolve validate_command_calm : calm.

Lemma validate_verification_calm v e : validate_verification v = Err e → calm e.
Proof.
  unfold validate_verification, require_text. intros. calm_by.
  destruct (verification_input_notes v); calm_by.
Qed.
Lemma require_commit_oid_calm l v e : require_commit_oid l v = Err e → calm e.
Proof. unfold require_commit_oid. intros. calm_by. Qed.
Hint Resolve validate_verification_calm require_commit_oid_calm : calm.

Lemma validate_promotion_outcome_calm p e : validate_promotion_outcome p = Err e → calm e.
Proof.
  unfold validate_promotion_outcome. intros. calm_by.
  destruct (promotion_input_outcome p); calm_by.
Qed.
Lemma require_shared_config_digest_calm p e : require_shared_config_digest p = Err e → calm e.
Proof.
  unfold require_shared_config_digest, require_optional_digest. intros.
  destruct (pin_recorded p); calm_by; case_match; calm_by.
Qed.
Lemma require_expected_staged_root_calm t r e : require_expected_staged_root t r = Err e → calm e.
Proof. unfold require_expected_staged_root. intros. calm_by. Qed.
Lemma governed_builder_loop_state_calm t now r e :
  governed_builder_loop_state t now r = Err e → calm e.
Proof.
  unfold governed_builder_loop_state, recomputed_loop_state, elapsed_between, with_context.
  intros He. repeat case_match; try done.
  all: unfold fmap, result_fmap in He; repeat case_match; try done; calm_by.
Qed.
Hint Resolve validate_promotion_outcome_calm require_shared_config_digest_calm
  require_expected_staged_root_calm governed_builder_loop_state_calm : calm.

Lemma apply_record_promotion_calm p rev ctx ids t e :
  apply_record_promotion p rev ctx ids t = Err e → calm e.
Proof.
  unfold apply_record_promotion. cbv zeta. intros Hm.
  apply bind_Err in Hm as [Hm|([] & Hpre & Hm)]; [by error_inv|].
  unfold record_promotion_preconditions_hold in Hpre. result_inv.
  error_inv; eauto with calm; bool_inv; done.
Qed.

Lemma apply_arm_calm m rev ctx ids t e : apply_arm m rev ctx ids t = Err e → calm e.
Proof.
  destruct m; cbn [apply_arm]; try apply apply_record_promotion_calm;
    unfold apply_materialize_staged_worktree, apply_discard_staged_worktree,
      apply_take_over_worker, apply_mark_running, apply_mark_launch_failed,
      apply_mark_runtime_exited, apply_submit_claim, apply_record_verification,
      apply_record_supervisor_verdict, apply_record_operator_decision,
      apply_note_producer_reservation_interrupted, admit_claim, require_capacity,
      require_text, require_optional_text, invalid_transition; cbv zeta; intros Hm; calm_by.
  all: repeat case_match; try done; calm_by.
Qed.
End lifecycle.

(** * The properties *)

Section properties.
Context `{Host}.
Implicit Types (t : GovernedTaskRun).

(** C1: a run is accepted only with the whole chain of evidence behind it: a
    claim by the assigned worker; the verifier's latest verification, of that
    claim and of its subject revision, passed on command evidence in which
    every command succeeded; the supervisor's latest verdict, recommending
    acceptance of that verification; and exactly one operator decision,
    approving that verdict. *)
Theorem accepted_run_has_evidence t :
  run_reachable t → is_accepted t = true →
  ∃ c v d o,
    latest_claim t = Some c ∧
    actor_kind (claim_actor c) = Worker ∧ actor_id (claim_actor c) = run_agent_id t ∧
    latest_verification t = Some v ∧ actor_kind (verification_actor v) = Verifier ∧
    verification_claim_id v = claim_id c ∧
    verification_subject_revision v = claim_subject_revision c ∧
    verification_outcome v = Passed ∧ verification_commands v ≠ [] ∧
    Forall (λ x, command_success x = true) (verification_commands v) ∧
    latest_supervisor_verdict t = Some d ∧ actor_kind (verdict_actor d) = Supervisor ∧
    verdict_verification_id d = verification_id v ∧ verdict_verdict d = RecommendAccept ∧
    run_operator_decisions t = [o] ∧ actor_kind (decision_actor o) = Operator ∧
    decision_supervisor_verdict_id o = verdict_id d ∧ decision_decision o = Approve.
Proof.
  intros Ht Ha. unfold is_accepted in Ha. bool_inv.
  pose proof (wf_review t (reachable_wf t Ht)) as He.
  unfold review_evidence in He. rewrite Ha in He.
  destruct He as (c & v & d & o & [[[? [??]] [] ] ]). by exists c, v, d, o.
Qed.

(** C4: every mutation refines a step of the abstract lifecycle, taken by the
    kind of actor that step belongs to. *)
Theorem mutation_refines_lifecycle m authentication ids now t t' :
  run_reachable t → advance_run m authentication ids now t = Ok t' →
  lifecycle_step (actor_kind (mutation_actor m)) (phase t) (phase t').
Proof. eauto using advance_lifecycle, reachable_wf. Qed.

(** C10: a settled review (accepted, rejected or escalated) is final: no later
    mutation changes the review state or adds a claim, a verification, a
    verdict or a decision. *)
Theorem settled_review_is_final t t' :
  run_reachable t → is_settled_review (run_review_state t) = true →
  rtc run_step t t' → same_verdict t t'.
Proof.
  intros Ht Hs Hsteps. revert Ht Hs.
  induction Hsteps as [|t u t' (m & a & ids & now & Ha) _ IH]; intros Ht Hs; [by split|].
  destruct (advance_settled _ _ _ _ _ _ Ha Hs) as [].
  destruct IH as []; [by eapply reach_mutated|congruence|]. split; congruence.
Qed.

(** A mutation appends exactly one event, at the next revision and by the
    mutation's actor; nothing recorded before is changed or removed, and what
    identifies the run stays. *)
Theorem mutation_appends_history m authentication ids now t t' :
  run_reachable t → advance_run m authentication ids now t = Ok t' →
  run_revision t' = run_revision t + 1 ∧ history_extends t t' ∧ same_identity t t' ∧
  ∃ e, run_events t' = run_events t ++ [e] ∧ event_revision e = run_revision t' ∧
       event_actor e = mutation_actor m ∧ event_created_at e = now.
Proof.
  intros Ht Ha.
  assert (run_step t t') as Hs by (by repeat eexists).
  pose proof (step_history t t' Hs). pose proof (step_identity t t' Hs).
  apply advance_run_inv in Ha as (u & Hu & _ & ->).
  apply apply_mutation_event in Hu as (x & d & He).
  split_and!; [done..|]. eexists. split; [exact He|done].
Qed.

(** C11: a run's history is contiguous and bounded: it starts with the
    registration, event [i] is at revision [i], the last event is at the run's
    revision, and no list of it grows past its limit. *)
Theorem history_is_contiguous_and_bounded t :
  run_reachable t → history_wf t ∧ records_bounded t.
Proof. eauto using reachable_history_wf, reachable_records_bounded. Qed.

(** Once an operator's cancel ended a run, no worker claim is ever added
    to it and the run stays ended as cancelled. *)
Theorem cancelled_run_takes_no_claim t t' :
  run_reachable t → run_exit_kind t = OperatorCancelled → rtc run_step t t' →
  run_claims t' = run_claims t ∧ run_execution_state t' = RuntimeExited
  ∧ run_exit_kind t' = OperatorCancelled.
Proof.
  intros Ht Hk Hsteps.
  assert (run_execution_state t = RuntimeExited) as He.
  { pose proof (wf_exit_kind t (reachable_wf t Ht)) as Hx.
    destruct (decide (run_execution_state t = RuntimeExited)); [done|].
    rewrite Hx in Hk; done. }
  revert Ht Hk He. induction Hsteps as [|t u t' (m & a & ids & now & Ha) _ IH]; [done|].
  intros Ht Hk He. destruct (advance_exited _ _ _ _ _ _ Ha He) as [He' Hk'].
  rewrite <-(advance_cancelled _ _ _ _ _ _ Ha Hk).
  apply IH; [by eapply reach_mutated|congruence|done].
Qed.

(** In whatever state follows a takeover, a claim, verification or promotion
    presented with a generation from before it, or with none, is refused as
    fenced. *)
Lemma stale_generation_is_fenced t taken_by reason authentication ids now t1 t2 m presented :
  advance_run (TakeOverWorker taken_by reason) authentication ids now t = Ok t1 →
  run_reachable t1 → rtc run_step t1 t2 → is_fenced_mutation m = true →
  (∀ generation, presented = Some generation → generation ≤ lease_generation t) →
  ∃ p, require_current_lease_generation t2 m presented
       = Err (StateError (Fenced (run_id t2) p (lease_generation t2))).
Proof.
  intros Ha Ht1 Hsteps Hm Hp. apply advance_lease in Ha. cbn [is_takeover] in Ha.
  assert (lease_generation t1 ≤ lease_generation t2) as Hle by (by apply steps_lease).
  assert (0 ≤ lease_generation t) by (unfold lease_generation; apply zlen_nonneg).
  unfold require_current_lease_generation. rewrite Hm. cbn [negb].
  destruct presented as [generation|]; eexists.
  - specialize (Hp generation eq_refl).
    by destruct (Z.eqb_spec generation (lease_generation t2)); [lia|].
  - by destruct (Z.eqb_spec (lease_generation t2) 0); [lia|].
Qed.

(** No mutation of any run makes [apply_mutation] panic: its [expect]s
    are guarded by the preconditions it checked. *)
Theorem apply_mutation_never_panics m rev ctx ids t message :
  apply_mutation m rev ctx ids t ≠ Err (Panicked message).
Proof.
  unfold apply_mutation, require_capacity. intros Hm.
  apply bind_Err in Hm as [Hm|(? & _ & Hm)]; [by error_inv|]. by apply apply_arm_calm in Hm.
Qed.
End properties.

(** * The properties at a concrete run *)

(** Whether a history of the sample registration reaches its run. *)
Ltac sample_reached := apply sample_reachable; vm_compute; reflexivity.

Lemma accepted_run_has_evidence_witness :
  ∃ c v, latest_claim sample_accepted = Some c ∧ latest_verification sample_accepted = Some v ∧
         verification_claim_id v = claim_id c ∧ verification_outcome v = Passed.
Proof.
  destruct (accepted_run_has_evidence sample_accepted) as (c & v & d & o & Hc & _ & _ & Hv & _ & Hid & _ & Ho & _).
  - sample_reached.
  - vm_compute; reflexivity.
  - exists c, v. exact (conj Hc (conj Hv (conj Hid Ho))).
Defined.

Definition sample_running_next : GovernedTaskRun :=
  sample_run StagedAuthoritative (sample_launch ++ [sample_claim]).

Lemma sample_claim_step :
  advance_run sample_claim Declared (sample_ids 3) (sample_time 3) sample_running
  = Ok sample_running_next.
Proof. vm_compute. reflexivity. Qed.

Lemma mutation_refines_lifecycle_witness :
  lifecycle_step Worker (phase sample_running) (phase sample_running_next).
Proof.
  apply (mutation_refines_lifecycle sample_claim Declared (sample_ids 3) (sample_time 3)
           sample_running sample_running_next).
  - sample_reached.
  - apply sample_claim_step.
Defined.

Lemma settled_review_is_final_witness :
  rtc run_step sample_accepted sample_promoted ∧ same_verdict sample_accepted sample_promoted.
Proof.
  assert (rtc run_step sample_accepted sample_promoted) as Hs.
  { apply rtc_once. exists sample_promotion, Declared, (sample_ids 7), (sample_time 7).
    vm_compute. reflexivity. }
  split; [exact Hs|]. apply (settled_review_is_final sample_accepted sample_promoted).
  - sample_reached.
  - vm_compute; reflexivity.
  - exact Hs.
Defined.

Lemma mutation_appends_history_witness :
  run_revision sample_running_next = run_revision sample_running + 1.
Proof.
  apply (mutation_appends_history sample_claim Declared (sample_ids 3) (sample_time 3)
           sample_running sample_running_next).
  - sample_reached.
  - apply sample_claim_step.
Defined.

Lemma history_is_contiguous_and_bounded_witness :
  history_wf sample_promoted ∧ records_bounded sample_promoted.
Proof. apply (history_is_contiguous_and_bounded sample_promoted). sample_reached. Defined.

Definition sample_cancelled_note : GovernedTaskRun :=
  sample_run StagedAuthoritative
    (sample_launch ++ [sample_exit OperatorCancelled;
                       NoteProducerReservationInterrupted daemon (lit "interrupted")]).

Lemma cancelled_run_takes_no_claim_witness :
  rtc run_step sample_cancelled sample_cancelled_note ∧
  run_claims sample_cancelled_note = run_claims sample_cancelled.
Proof.
  assert (rtc run_step sample_cancelled sample_cancelled_note) as Hs.
  { apply rtc_once.
    exists (NoteProducerReservationInterrupted daemon (lit "interrupted")), Declared,
      (sample_ids 4), (sample_time 4). vm_compute. reflexivity. }
  split; [exact Hs|]. apply (cancelled_run_takes_no_claim sample_cancelled sample_cancelled_note).
  - sample_reached.
  - vm_compute; reflexivity.
  - exact Hs.
Defined.
