(* ===== verification/WorktreeProps.v ===== *)
(** Staged worktrees and promotion: a launched builder keeps its isolated
    worktree until its review settles, discarding follows its rule, and only the
    accepted commit is promoted, once. *)
From S2P Require Export LifecycleProps.
Local Open Scope Z_scope.

Section worktrees.
Context `{Host}.
Implicit Types (t : GovernedTaskRun) (s : StagedWorktree).

Definition is_launched (e : GovernedExecutionState) : bool :=
  match e with Running | RuntimeExited => true | _ => false end.

(** The review still needs the worktree: a claim may come, is under review, or
    was accepted and not yet promoted. *)
Definition worktree_needed t : bool :=
  match run_execution_state t, run_review_state t with
  | RuntimeExited, AwaitingClaim => false
  | _, (Rejected | Escalated) => false
  | _, Accepted => bool_decide (run_promotions t = [])
  | _, _ => true
  end.

Record staged_wf t : Prop := {
  sw_place s :
    run_staged_worktree t = Some s →
    path_is_absolute (staged_root s) = true ∧
    run_initial_subject_revision t = Some (staged_initial_subject_revision s) ∧
    ∃ root, expected_staged_worktree_root t = Ok root ∧ path_eqb (staged_root s) root = true;
  sw_launched :
    run_world_scope t = StagedAuthoritative → is_launched (run_execution_state t) = true →
    ∃ s, run_staged_worktree t = Some s
         ∧ pin_is_comparable (staged_shared_config_digest s) = true
         ∧ (worktree_needed t = true → staged_status s = Active)
}.

Lemma registered_staged_wf r ids now : staged_wf (registered_run r ids now).
Proof. by split. Qed.

Lemma active_staged_worktree_Some t s :
  active_staged_worktree t = Some s ↔
  run_staged_worktree t = Some s ∧ staged_status s = Active.
Proof.
  unfold active_staged_worktree. destruct (run_staged_worktree t) as [w|]; [|naive_solver].
  case_bool_decide; naive_solver.
Qed.

Lemma expected_root_placed t root u :
  require_expected_staged_root t root = Ok u →
  path_is_absolute root = true ∧
  ∃ expected, expected_staged_worktree_root t = Ok expected ∧ path_eqb root expected = true.
Proof. unfold require_expected_staged_root. intros. result_inv. bool_inv. eauto. Qed.

(** A worktree that the review needs is not discardable. *)
Lemma needed_not_discardable t s :
  run_staged_worktree t = Some s → is_launched (run_execution_state t) = true →
  pin_is_comparable (staged_shared_config_digest s) = true →
  worktree_needed t = true → staged_worktree_is_discardable t = false.
Proof.
  unfold worktree_needed, staged_worktree_is_discardable, latest_promotion.
  intros Hs Hl Hp Hn. rewrite Hs, Hp, andb_false_r.
  destruct (run_execution_state t), (run_review_state t); try done.
  all: cbn in Hn |- *; bool_inv; by rewrite Hn.
Qed.

Lemma expected_root_frame t t' :
  run_id t' = run_id t → run_workspace_root t' = run_workspace_root t →
  expected_staged_worktree_root t' = expected_staged_worktree_root t.
Proof. unfold expected_staged_worktree_root. by intros -> ->. Qed.

(** A mutation that leaves the worktree alone. *)
Lemma staged_frame t t' :
  same_identity t t' → run_staged_worktree t' = run_staged_worktree t →
  (run_world_scope t = StagedAuthoritative → is_launched (run_execution_state t') = true →
   is_launched (run_execution_state t) = true ∧
   (worktree_needed t' = true → worktree_needed t = true ∨ active_staged_worktree t ≠ None)) →
  staged_wf t → staged_wf t'.
Proof.
  intros Hid Hst Hframe [Hplace Hlaunched]. split.
  - intros s. rewrite Hst, (expected_root_frame t), (same_initial _ _ Hid);
      eauto using same_id, same_workspace.
  - rewrite (same_scope _ _ Hid), Hst. intros Hsc Hl. destruct (Hframe Hsc Hl) as [Hl' Hn].
    destruct (Hlaunched Hsc Hl') as (s & Hs & Hp & Hact). exists s. split_and!; [done..|].
    intros [?|Ha]%Hn; [eauto|]. apply not_eq_None_Some in Ha as [w Hw].
    apply active_staged_worktree_Some in Hw as [Hw ?]. congruence.
Qed.

Lemma started_staged_wf a rev authentication now ids t t' :
  apply_mutation (MarkRunning a) rev (live_context now authentication) ids t = Ok t' →
  staged_wf t → staged_wf t'.
Proof.
  intros Hm [Hplace _]. mutation_inv Hm. split; [exact Hplace|]. run_simpl.
  intros Hsc _. cbn [ctx_is_replay live_context negb andb] in *.
  rewrite bool_decide_eq_true_2 in * by done.
  destruct (active_staged_worktree t) as [s|] eqn:Hact; [|done]. result_inv. bool_inv.
  apply active_staged_worktree_Some in Hact as [??]. eauto.
Qed.

Lemma materialized_staged_wf staged rev ctx ids t t' :
  apply_mutation (MaterializeStagedWorktree staged) rev ctx ids t = Ok t' →
  staged_wf t → staged_wf t'.
Proof.
  intros Hm _. mutation_inv Hm. bool_inv.
  match goal with H : require_expected_staged_root _ _ = _ |- _ =>
    apply expected_root_placed in H as (? & expected & ? & ?) end.
  split; run_simpl; [intros s [= <-]; cbn|].
  - split_and!; [done|congruence|]. exists expected. by rewrite (expected_root_frame t).
  - intros _ Hl. match goal with H : run_execution_state t = _ |- _ => by rewrite H in Hl end.
Qed.

Lemma discarded_staged_wf a reason rev ctx ids t t' :
  apply_mutation (DiscardStagedWorktree a reason) rev ctx ids t = Ok t' →
  staged_wf t → staged_wf t'.
Proof.
  intros Hm [Hplace Hlaunched]. mutation_inv Hm. bool_inv. split; run_simpl.
  - intros s' Hs'. destruct (run_staged_worktree t) as [s|] eqn:Hs; [|done].
    injection Hs' as <-. rewrite (expected_root_frame t) by done. exact (Hplace s eq_refl).
  - intros Hsc Hl. destruct (Hlaunched Hsc Hl) as (s & Hs & Hp & Hact). rewrite Hs. cbn.
    eexists. split_and!; [done..|]. intros Hn.
    assert (worktree_needed t = true) as Hn' by exact Hn.
    rewrite (needed_not_discardable t s) in *; done.
Qed.

Lemma claimed_staged_wf claim rev authentication now ids t t' :
  apply_mutation (SubmitClaim claim) rev (live_context now authentication) ids t = Ok t' →
  staged_wf t → staged_wf t'.
Proof.
  intros Hm. apply (staged_frame t).
  - by apply apply_mutation_identity in Hm as [? _].
  - by mutation_inv Hm.
  - intros Hsc. mutation_inv Hm; unfold admit_claim in *; result_inv; run_simpl;
      intros Hl; (split; [done|]); intros _; right.
    all: match goal with H : _ && _ && bool_decide ?P = false |- _ =>
      rewrite Hsc in H; change (bool_decide P = false) in H end; by bool_inv.
Qed.

Lemma advance_staged_wf m authentication ids now t t' :
  advance_run m authentication ids now t = Ok t' → staged_wf t → staged_wf t'.
Proof.
  intros (u & Hu & _ & ->)%advance_run_inv Hwf.
  cut (staged_wf u); [intros []; by split|].
  destruct m; eauto using started_staged_wf, materialized_staged_wf, discarded_staged_wf,
    claimed_staged_wf.
  all: apply (staged_frame t); [by eapply apply_mutation_identity in Hu as [? _]|..|done].
  all: mutation_inv Hu; bool_inv; run_simpl; try done; unfold worktree_needed; run_simpl.
  all: intros Hsc Hl; repeat match goal with
    | H : run_execution_state ?u = _ |- context [run_execution_state ?u] => rewrite H
    | H : run_review_state ?u = _ |- context [run_review_state ?u] => rewrite H
    end; split; try done; intros Hn; left; revert Hn.
  all: try by repeat case_match.
  - match goal with H : _ ∨ _ |- _ => destruct H as [-> | ->] end; by repeat case_match.
  - rewrite bool_decide_eq_false_2 by (by intros [_ ?]%app_nil). by repeat case_match.
Qed.

Lemma reachable_staged_wf t : run_reachable t → staged_wf t.
Proof. induction 1; eauto using registered_staged_wf, advance_staged_wf. Qed.

(** ** The place of a worktree *)

Lemma path_segment_char_ordinary seg :
  validate_path_segment (lit "task_id") seg = Ok tt →
  seg ≠ [] ∧ seg ≠ lit "." ∧ seg ≠ lit ".." ∧ Forall (λ c, c ≠ slash) seg.
Proof.
  unfold validate_path_segment. intros Hv. result_inv. bool_inv.
  split_and!; [by intros ->|done|done|].
  match goal with H : existsb _ _ = false |- _ =>
    apply existsb_false_Forall in H; eapply Forall_impl; [exact H|] end.
  intros c Hc ->. done.
Qed.

Lemma expected_root_components t root :
  path_is_absolute (run_workspace_root t) = true →
  expected_staged_worktree_root t = Ok root →
  path_components root =
    path_components (run_workspace_root t)
      ++ [Normal (lit ".impulse"); Normal (lit "worktrees"); Normal (run_id t)].
Proof.
  unfold expected_staged_worktree_root. intros Habs Hr. result_inv.
  match goal with H : validate_path_segment _ _ = _ |- _ =>
    apply path_segment_char_ordinary in H as (? & ? & ? & ?) end.
  assert (∀ base seg, path_is_absolute base = true → path_is_absolute (path_join base seg) = true)
    by eauto using path_join_absolute.
  rewrite !path_components_join_segment by
    (eauto || by (repeat constructor) || by vm_compute || done).
  by rewrite <-!app_assoc.
Qed.

(** A discarded or missing worktree is never materialized again. *)
Lemma advance_keeps_staged m authentication ids now t t' :
  advance_run m authentication ids now t = Ok t' →
  run_staged_worktree t ≠ None → run_staged_worktree t' ≠ None.
Proof.
  intros Ha Hs. advance_inv Ha; try done. by destruct (run_staged_worktree t).
Qed.
End worktrees.

#[export] Hint Resolve reachable_staged_wf : impulse.

(** * The discard rule, as a specification *)

Inductive discard_allowed (t : GovernedTaskRun) : Prop :=
  | discard_never_launched : run_execution_state t = LaunchFailed → discard_allowed t
  | discard_never_claimed :
      run_execution_state t = RuntimeExited → run_review_state t = AwaitingClaim →
      discard_allowed t
  | discard_turned_down :
      run_review_state t = Rejected ∨ run_review_state t = Escalated → discard_allowed t
  | discard_after_promotion :
      run_review_state t = Accepted → run_promotions t ≠ [] → discard_allowed t
  | discard_unverifiable s :
      run_staged_worktree t = Some s →
      pin_is_comparable (staged_shared_config_digest s) = false →
      ¬ (run_execution_state t = Running ∧ is_settled_review (run_review_state t) = false) →
      discard_allowed t.

Section rule.
Context `{Host}.
Implicit Types (t : GovernedTaskRun).

Lemma latest_promotion_is_some t :
  match latest_promotion t with Some _ => true | None => false end
  = bool_decide (run_promotions t ≠ []).
Proof.
  unfold latest_promotion. destruct (last (run_promotions t)) eqn:Hl.
  - rewrite bool_decide_eq_true_2; [done|]. by intros Hn; rewrite Hn in Hl.
  - apply last_None in Hl as ->. done.
Qed.

Lemma discardable_iff t : staged_worktree_is_discardable t = true ↔ discard_allowed t.
Proof.
  unfold staged_worktree_is_discardable. rewrite latest_promotion_is_some. split.
  - intros Hd. destruct (run_execution_state t) eqn:He; [..|by constructor|];
      destruct (run_review_state t) eqn:Hr; cbn in Hd;
      try (by constructor; eauto); try (by apply discard_turned_down; eauto).
    all: destruct (run_staged_worktree t) as [s|] eqn:Hs; [|try done].
    all: try (destruct (pin_is_comparable (staged_shared_config_digest s)) eqn:Hp; cbn in Hd; [try done|]).
    all: try (by apply (discard_unverifiable t s); rewrite ?He, ?Hr; naive_solver).
    all: change (bool_decide (run_promotions t ≠ []) = true) in Hd; bool_inv;
      by apply discard_after_promotion.
  - intros [-> | -> -> |Hr|Hr Hp|s Hs Hp Hw].
    + done.
    + done.
    + destruct Hr as [-> | ->]; repeat case_match; done.
    + rewrite Hr, (bool_decide_eq_true_2 (run_promotions t ≠ [])) by done.
      by repeat case_match.
    + rewrite Hs, Hp. revert Hw.
      destruct (run_execution_state t), (run_review_state t); cbn; naive_solver.
Qed.

Lemma require_actor_Ok a k :
  require_actor a k = Ok tt ↔ actor_kind a = k ∧ require_text (lit "actor id") (actor_id a) = Ok tt.
Proof.
  unfold require_actor. rewrite bind_Ok. split.
  - intros ([] & Hk & Ht). apply reject_if_Ok in Hk. by bool_inv.
  - intros [Hk Ht]. exists tt. by rewrite reject_if_Ok, bool_decide_eq_false, Hk; auto.
Qed.
End rule.

(** * The properties *)

Section properties.
Context `{Host}.
Implicit Types (t : GovernedTaskRun).

(** A staged run that was launched keeps an active, comparable worktree at
    its daemon-derived place as long as its review needs it (until it is
    rejected, escalated or promoted, or exits before any claim), and the
    runtime is launched in that worktree. *)
Theorem launched_run_keeps_its_worktree t :
  run_reachable t → run_world_scope t = StagedAuthoritative →
  is_launched (run_execution_state t) = true → worktree_needed t = true →
  ∃ s root, active_staged_worktree t = Some s ∧
    pin_is_comparable (staged_shared_config_digest s) = true ∧
    run_initial_subject_revision t = Some (staged_initial_subject_revision s) ∧
    expected_staged_worktree_root t = Ok root ∧ path_eqb (staged_root s) root = true ∧
    launch_working_directory t = Ok (staged_root s).
Proof.
  intros Ht Hsc Hl Hn. destruct (reachable_staged_wf t Ht) as [Hplace Hlaunched].
  destruct (Hlaunched Hsc Hl) as (s & Hs & Hp & Hact).
  destruct (Hplace s Hs) as (_ & Hi & root & Hroot & Heq).
  assert (active_staged_worktree t = Some s) as Ha by (apply active_staged_worktree_Some; auto).
  exists s, root. split_and!; try done. unfold launch_working_directory. by rewrite Ha.
Qed.

(** The directory a staged run is launched in lies at
    [.impulse/worktrees/<task id>] below its workspace: never the workspace
    itself, and shared by no run with another id. *)
Theorem staged_launch_directory_is_isolated t dir :
  run_reachable t → path_is_absolute (run_workspace_root t) = true →
  run_world_scope t = StagedAuthoritative → launch_working_directory t = Ok dir →
  path_components dir =
    path_components (run_workspace_root t)
      ++ [Normal (lit ".impulse"); Normal (lit "worktrees"); Normal (run_id t)] ∧
  path_eqb dir (run_workspace_root t) = false.
Proof.
  intros Ht Habs Hsc Hd. destruct (reachable_staged_wf t Ht) as [Hplace _].
  unfold launch_working_directory in Hd. rewrite bool_decide_eq_true_2 in Hd by done.
  destruct (active_staged_worktree t) as [s|] eqn:Ha; [|done]. injection Hd as <-.
  apply active_staged_worktree_Some in Ha as [Hs _].
  destruct (Hplace s Hs) as (_ & _ & root & Hroot & Heq).
  unfold path_eqb in Heq. bool_inv.
  assert (path_components (staged_root s) = path_components (run_workspace_root t)
    ++ [Normal (lit ".impulse"); Normal (lit "worktrees"); Normal (run_id t)]) as Hc
    by (by rewrite Heq; apply expected_root_components).
  split; [exact Hc|]. unfold path_eqb. rewrite bool_decide_eq_false, Hc.
  intros Hx%(f_equal length). rewrite length_app in Hx. cbn in Hx. lia.
Qed.

(** A discard goes through exactly when the daemon asks, gives a reason,
    the worktree is active and one of the five cases of the rule holds. *)
Theorem discard_succeeds_iff a reason rev ctx ids t :
  is_ok (apply_mutation (DiscardStagedWorktree a reason) rev ctx ids t) = true ↔
  zlen (run_events t) < MAX_GOVERNED_EVENTS ∧ actor_kind a = System ∧
  require_text (lit "actor id") (actor_id a) = Ok tt ∧
  require_text (lit "staged worktree discard reason") reason = Ok tt ∧
  active_staged_worktree t ≠ None ∧ discard_allowed t.
Proof.
  rewrite <-discardable_iff, is_ok_true. split.
  - intros (t' & Hm). pose proof (apply_mutation_capacity _ _ _ _ _ _ Hm). mutation_inv Hm.
    match goal with H : require_actor _ _ = _ |- _ => apply require_actor_Ok in H as [??] end.
    split_and!; try done; [|by bool_inv].
    destruct (run_staged_worktree t) as [s|] eqn:Hs; [|done]. result_inv. bool_inv.
    rewrite (proj2 (active_staged_worktree_Some t s)); done.
  - intros (Hcap & Hk & Hid & Hreason & Hact & Hdis).
    apply not_eq_None_Some in Hact as [s [Hs Hst]%active_staged_worktree_Some].
    unfold apply_mutation, require_capacity, apply_arm, apply_discard_staged_worktree.
    assert (require_actor a System = Ok tt) as -> by (by apply require_actor_Ok).
    rewrite (proj2 (Z.leb_gt _ _)) by done. cbn [reject_if mbind result_bind].
    rewrite Hreason, Hs, Hdis. cbn [reject_if mbind result_bind negb].
    rewrite bool_decide_eq_false_2 by auto. cbn [reject_if mbind result_bind]. eauto.
Qed.

(** A run materializes at most one worktree in its life: once it had one,
    even a discarded one, every later materialization is refused. *)
Theorem worktree_is_never_rematerialized t t' staged rev ctx ids :
  run_reachable t → run_staged_worktree t ≠ None → rtc run_step t t' →
  is_ok (apply_mutation (MaterializeStagedWorktree staged) rev ctx ids t') = false.
Proof.
  intros Ht Hs Hsteps.
  assert (run_staged_worktree t' ≠ None) as Hs'.
  { revert Hs. apply (steps_preserve (λ t, run_staged_worktree t ≠ None)); [|done..].
    intros u u' _ (m & a & i & now & Ha). by eapply advance_keeps_staged. }
  destruct (is_ok _) eqn:Hok; [|done]. apply is_ok_true in Hok as (u & Hu).
  mutation_inv Hu. bool_inv. done.
Qed.

(** C13: only what was accepted is promoted: a promotion that landed belongs to
    an accepted staged run, landed exactly the commit the accepted claim and
    its passing verification name, and is the last promotion of the run. *)
Theorem promotion_lands_accepted_revision t i p r :
  run_reachable t → run_promotions t !! i = Some p → promotion_outcome p = Promoted r →
  is_accepted t = true ∧ run_world_scope t = StagedAuthoritative ∧
  S i = length (run_promotions t) ∧
  ∃ c v, latest_claim t = Some c ∧ latest_verification t = Some v ∧
         verification_outcome v = Passed ∧
         r = claim_subject_revision c ∧ r = verification_subject_revision v.
Proof.
  intros Ht Hi Hr. pose proof (reachable_wf t Ht) as Hwf.
  destruct (wf_promotions t Hwf) as (Hacc & Hlast & Hrev).
  assert (run_promotions t ≠ []) as Hne by (by intros Hn; rewrite Hn in Hi).
  destruct (Hacc Hne) as [Ha Hsc].
  pose proof (wf_review t Hwf) as He. unfold review_evidence in He. rewrite Ha in He.
  destruct He as (c & v & d & o & [[[Hc ? Hv ? ? Hsub] [Hpass ? ?] ? ? ? ?] ? ? ? ?]).
  destruct (Hrev p c) as [_ Hl]; [by eapply list_elem_of_lookup_2|done|].
  split_and!; [by apply bool_decide_eq_true|done|eapply Hlast; [done|by rewrite Hr]|].
  exists c, v. rewrite Hsub. eauto 10.
Qed.
End properties.

(** * The properties at a concrete run *)

Lemma launched_run_keeps_its_worktree_witness :
  ∃ s root, active_staged_worktree sample_running = Some s ∧
    expected_staged_worktree_root sample_running = Ok root ∧ path_eqb (staged_root s) root = true.
Proof.
  destruct (launched_run_keeps_its_worktree sample_running) as (s & root & Hs & _ & _ & Hr & He & _).
  - sample_reached.
  - vm_compute; reflexivity.
  - vm_compute; reflexivity.
  - vm_compute; reflexivity.
  - exists s, root. exact (conj Hs (conj Hr He)).
Defined.

Lemma staged_launch_directory_is_isolated_witness :
  path_eqb (lit "/srv/demo/.impulse/worktrees/task-1") (run_workspace_root sample_running) = false.
Proof.
  apply (staged_launch_directory_is_isolated sample_running
           (lit "/srv/demo/.impulse/worktrees/task-1")).
  - sample_reached.
  - vm_compute; reflexivity.
  - vm_compute; reflexivity.
  - vm_compute; reflexivity.
Defined.

Definition sample_discarded : GovernedTaskRun :=
  sample_run StagedAuthoritative
    (sample_launch ++ [sample_exit Natural; DiscardStagedWorktree daemon (lit "never claimed")]).

Lemma worktree_is_never_rematerialized_witness :
  staged_status <$> run_staged_worktree sample_discarded = Some Discarded ∧
  is_ok (apply_mutation sample_materialize 5 (live_context (sample_time 5) Declared)
           (sample_ids 5) sample_discarded) = false.
Proof.
  split; [vm_compute; reflexivity|].
  apply (worktree_is_never_rematerialized sample_discarded sample_discarded).
  - sample_reached.
  - vm_compute. discriminate.
  - apply rtc_refl.
Defined.

Lemma promotion_lands_accepted_revision_witness :
  is_accepted sample_promoted = true ∧ run_world_scope sample_promoted = StagedAuthoritative.
Proof.
  destruct (run_promotions sample_promoted) as [|p ps] eqn:Hp; [vm_compute in Hp; discriminate|].
  destruct (promotion_lands_accepted_revision sample_promoted 0 p sample_claim_oid)
    as (Ha & Hs & _).
  - sample_reached.
  - rewrite Hp. reflexivity.
  - vm_compute in Hp. injection Hp as <- _. vm_compute. reflexivity.
  - exact (conj Ha Hs).
Defined.
