(* ===== verification/BuilderLoopProps.v ===== *)
(** The governed Builder loop: when a staged run's claim escalates, that claims
    are bounded, and what the failure streak counts. *)
From S2P Require Export LifecycleProps.
Local Open Scope Z_scope.

(** * The failure streak, as a specification *)

(** How many leading elements equal [x]. *)
Fixpoint leading_run {A} `{EqDecision A} (x : A) (l : list A) : nat :=
  match l with
  | [] => 0
  | y :: l => if decide (y = x) then S (leading_run x l) else 0
  end.

(** The signatures of the verifications, newest first: the streak is the run of
    equal failures they start with. *)
Definition failure_streak_spec (newest_first : list GovernedVerification)
    : option (rstring * Z) :=
  match verification_failure_signature <$> newest_first with
  | Some s :: rest => Some (s, Z.of_nat (leading_run (Some s) (Some s :: rest)))
  | _ => None
  end.

Lemma failure_streak_loop_run s n l :
  failure_streak_loop (Some s) n l
  = Some (s, n + Z.of_nat (leading_run (Some s) (verification_failure_signature <$> l))).
Proof.
  revert n. induction l as [|v l IH]; intros n; cbn [failure_streak_loop fmap list_fmap leading_run].
  - cbn. do 2 f_equal. lia.
  - destruct (verification_failure_signature v) as [s'|]; cbn.
    + destruct (decide (s = s')) as [<-|Hne].
      * rewrite bool_decide_eq_true_2, decide_True, IH by done. do 2 f_equal. lia.
      * rewrite bool_decide_eq_false_2, decide_False by congruence. cbn. do 2 f_equal. lia.
    + rewrite decide_False by done. do 2 f_equal. lia.
Qed.

Lemma trailing_streak_spec t :
  trailing_verification_failure_streak t = failure_streak_spec (reverse (run_verifications t)).
Proof.
  unfold trailing_verification_failure_streak, failure_streak_spec.
  destruct (reverse (run_verifications t)) as [|v l]; [done|]. cbn.
  destruct (verification_failure_signature v) as [s|]; [|done].
  rewrite decide_True, failure_streak_loop_run by done. do 2 f_equal. lia.
Qed.

(** * When a claim trips the loop *)

Section loop.
Context `{Host}.
Implicit Types (t : GovernedTaskRun).

(** The three limits of the Builder contract. *)
Definition builder_limit_reached t (elapsed : Z) : Prop :=
GOVERNED_BUILDER_MAX_CLAIM_CYCLES ≤ zlen (run_claims t) ∨
GOVERNED_BUILDER_WALL_CLOCK ≤ elapsed ∨
∃ s n, trailing_verification_failure_streak t = Some (s, n)
       ∧ GOVERNED_BUILDER_SAME_FAILURE_STREAK ≤ n.

Lemma builder_trip_iff t elapsed :
is_Some (evaluate_observed (contract_budget governed_builder) (observe_task t elapsed)) ↔
builder_limit_reached t elapsed.
Proof.
unfold evaluate_observed, builder_limit_reached, observe_task.
cbn [contract_budget governed_builder governed_builder_budget budget_max_rounds
     budget_wall_clock budget_max_same_error_streak observed_rounds_used observed_elapsed
     observed_same_error].
destruct (Z.leb_spec GOVERNED_BUILDER_MAX_CLAIM_CYCLES (zlen (run_claims t))); [naive_solver|].
destruct (Z.leb_spec GOVERNED_BUILDER_WALL_CLOCK elapsed); [naive_solver|].
destruct (trailing_verification_failure_streak t) as [[s n]|]; cbn.
- destruct (Z.leb_spec GOVERNED_BUILDER_SAME_FAILURE_STREAK n).
  + split; [|done]. intros _. right; right. eauto.
  + split; [by intros [? [=]]|]. intros [?|[?|(? & ? & [= <- <-] & ?)]]; lia.
- split; [by intros [? [=]]|]. intros [?|[?|(? & ? & [=] & ?)]]; lia.
Qed.

(** The nanoseconds between two timestamps, cut to milliseconds. *)
Lemma elapsed_between_Ok start finish e :
elapsed_between start finish = Ok e →
∃ s f, parse_from_rfc3339 start = Some s ∧ parse_from_rfc3339 finish = Some f ∧
       (GOVERNED_BUILDER_WALL_CLOCK ≤ e ↔ GOVERNED_BUILDER_WALL_CLOCK ≤ f - s).
Proof.
unfold elapsed_between. intros Hel. result_inv.
do 2 eexists. split_and!; [done..|].
unfold from_millis, GOVERNED_BUILDER_WALL_CLOCK, secs.
match goal with |- context [Z.quot ?d 1000000] => set (n := d) end.
destruct (Z.le_gt_cases 0 n).
- rewrite Z.quot_div_nonneg by lia. pose proof (Z.div_pos n 1000000). 
  pose proof (Z.mod_pos_bound n 1000000). pose proof (Z.div_mod n 1000000). lia.
- assert (Z.quot n 1000000 ≤ 0).
  { rewrite <-(Z.opp_involutive n), Z.quot_opp_l by lia.
    assert (0 ≤ Z.quot (- n) 1000000) by (apply Z.quot_pos; lia). lia. }
  lia.
Qed.

Lemma governed_builder_valid : validate_loop_contract governed_builder = Ok tt.
Proof. done. Qed.

(** A live claim on a staged run recomputes the loop. *)
Lemma live_loop_state t now ls :
run_world_scope t = StagedAuthoritative →
governed_builder_loop_state t now None = Ok ls →
∃ st elapsed, ls = Some st ∧ elapsed_between (run_created_at t) now = Ok elapsed ∧
  loop_trip st = evaluate_observed (contract_budget governed_builder) (observe_task t elapsed) ∧
  loop_report_version st = current_governed_loop_version ∧
  loop_report_digest st =
    governed_loop_report_digest (governed_loop_report t (loop_trip st) elapsed)
      current_governed_loop_version.
Proof.
unfold governed_builder_loop_state, recomputed_loop_state. intros Hsc.
rewrite bool_decide_eq_false_2 by (by intros []). intros Hls.
destruct (_ ≫= _) as [st|] eqn:Hst in Hls; [|done]. injection Hls as <-.
result_inv. do 2 eexists. split_and!; done.
Qed.

Lemma claim_inv claim rev authentication now ids t t' :
apply_mutation (SubmitClaim claim) rev (live_context now authentication) ids t = Ok t' →
∃ ls r, governed_builder_loop_state t now None = Ok ls ∧
  run_review_state t' =
    (match ls ≫= loop_trip with Some _ => Escalated | None => AwaitingVerification end) ∧
  run_claims t' = run_claims t ++ [r] ∧
  claim_loop_report_digest r = loop_report_digest <$> ls ∧
  claim_loop_report_version r = loop_report_version <$> ls ∧
  run_world_scope t' = run_world_scope t.
Proof.
intros Hm. mutation_inv Hm; do 2 eexists; (split; [done|]); run_simpl;
  match goal with H : _ ≫= loop_trip = _ |- _ => rewrite H end; done.
Qed.

(** The bound on the claims of a staged run. *)
Definition claims_bounded t : Prop :=
run_world_scope t = StagedAuthoritative →
zlen (run_claims t) ≤ GOVERNED_BUILDER_MAX_CLAIM_CYCLES ∨
(zlen (run_claims t) = GOVERNED_BUILDER_MAX_CLAIM_CYCLES + 1 ∧
 run_review_state t = Escalated).

Lemma advance_claims_bounded m authentication ids now t t' :
advance_run m authentication ids now t = Ok t' → claims_bounded t → claims_bounded t'.
Proof.
intros Ha Hb. pose proof Ha as (u & Hu & _ & ->)%advance_run_inv.
cut (claims_bounded u); [done|].
assert ((∃ claim, m = SubmitClaim claim) ∨ run_claims u = run_claims t) as [[claim ->]|Hcl]
  by (mutation_inv Hu; eauto).
- pose proof Hu as Hc. apply claim_inv in Hc as (ls & r & Hls & Hr & Hcl & _ & _ & Hsc').
  intros Hsc. rewrite Hsc' in Hsc. destruct (live_loop_state _ _ _ Hsc Hls)
    as (st & el & -> & _ & Htrip & _). rewrite Hcl, zlen_snoc, Hr. cbn. rewrite Htrip.
  assert (zlen (run_claims t) ≤ GOVERNED_BUILDER_MAX_CLAIM_CYCLES) as Hle.
  { destruct (Hb Hsc) as [?|[_ He]]; [done|]. mutation_inv Hu; unfold admit_claim in *;
      result_inv; bool_inv; by rewrite He in *. }
  destruct (evaluate_observed _ _) as [trip|] eqn:Hev.
  + destruct (decide (zlen (run_claims t) = GOVERNED_BUILDER_MAX_CLAIM_CYCLES)); [right|left];
      unfold GOVERNED_BUILDER_MAX_CLAIM_CYCLES in *; [split; [lia|done]|lia].
  + left. destruct (decide (zlen (run_claims t) < GOVERNED_BUILDER_MAX_CLAIM_CYCLES)); [lia|].
    assert (is_Some (evaluate_observed (contract_budget governed_builder) (observe_task t el)))
      as [? ?] by (apply builder_trip_iff; left; lia). congruence.
- intros Hsc. rewrite Hcl.
  assert (run_world_scope t = StagedAuthoritative) as Hsc'
    by (apply apply_mutation_identity in Hu as [[] _]; congruence).
  destruct (Hb Hsc') as [?|[? He]]; [by left|right]. split; [done|].
  rewrite <-He. refine (sv_state _ _ (advance_settled _ _ _ _ _ _ Ha _)). by rewrite He.
Qed.

Lemma reachable_claims_bounded t : run_reachable t → claims_bounded t.
Proof. induction 1; [by left|eauto using advance_claims_bounded]. Qed.
End loop.

(** * The properties *)

Section properties.
Context `{Host}.
Implicit Types (t : GovernedTaskRun).

(** C14: a live claim on a staged run escalates the review exactly when a limit
  of the Builder contract is reached (five earlier claims, four hours since
  registration, or three verifications in a row that failed alike), and
  awaits verification otherwise; the claim carries the digest of the report the
  Builder loop gives at that time, and the current report version. *)
Theorem claim_escalates_iff_limit_reached claim authentication ids now t t' created claimed :
run_world_scope t = StagedAuthoritative →
parse_from_rfc3339 (run_created_at t) = Some created →
parse_from_rfc3339 now = Some claimed →
advance_run (SubmitClaim claim) authentication ids now t = Ok t' →
(run_review_state t' = Escalated ↔ builder_limit_reached t (claimed - created)) ∧
(run_review_state t' = Escalated ∨ run_review_state t' = AwaitingVerification) ∧
∃ report r, governed_builder_loop_state t now None = Ok (Some report) ∧
  latest_claim t' = Some r ∧
  claim_loop_report_digest r = Some (loop_report_digest report) ∧
  claim_loop_report_version r = Some GOVERNED_BUILDER_LOOP_VERSION.
Proof.
intros Hsc Hcr Hcl (u & Hu & _ & ->)%advance_run_inv.
apply claim_inv in Hu as (ls & r & Hls & Hr & Hclaims & Hd & Hv & _).
destruct (live_loop_state _ _ _ Hsc Hls) as (st & el & -> & Hel & Htrip & Hver & _).
apply elapsed_between_Ok in Hel as (s & f & Hs & Hf & Hel).
assert (s = created ∧ f = claimed) as [-> ->] by (split; congruence).
run_simpl. unfold latest_claim. run_simpl. rewrite Hr, Hclaims, last_snoc. cbn.
assert (builder_limit_reached t (claimed - created) ↔ builder_limit_reached t el) as ->.
{ unfold builder_limit_reached. by rewrite Hel. }
rewrite <-builder_trip_iff, Htrip. split_and!.
- destruct (evaluate_observed _ _); [by split; eauto|]. by split; [|intros [? ?]].
- destruct (evaluate_observed _ _); eauto.
- do 2 eexists. split_and!; [exact Hls|done|exact Hd|]. rewrite Hv. cbn. by rewrite Hver.
Qed.

(** A staged run has at most six claims, and the sixth escalated it. *)
Theorem staged_claims_are_bounded t :
run_reachable t → run_world_scope t = StagedAuthoritative →
zlen (run_claims t) ≤ GOVERNED_BUILDER_MAX_CLAIM_CYCLES + 1 ∧
(zlen (run_claims t) = GOVERNED_BUILDER_MAX_CLAIM_CYCLES + 1 → run_review_state t = Escalated).
Proof.
intros Ht Hsc. destruct (reachable_claims_bounded t Ht Hsc) as [?|[? ?]];
  split; try done; lia.
Qed.

(** The failure streak of a run is the length of the longest run of
  verifications, counted from the newest, that failed with one signature. *)
Theorem failure_streak_is_longest_suffix t :
trailing_verification_failure_streak t
= failure_streak_spec (reverse (run_verifications t)).
Proof. apply trailing_streak_spec. Qed.
End properties.

(** * The properties at a concrete run *)

Lemma claim_escalates_iff_limit_reached_witness :
  run_review_state sample_running_next = Escalated ∨
  run_review_state sample_running_next = AwaitingVerification.
Proof.
  apply (claim_escalates_iff_limit_reached
           {| claim_input_actor := builder; claim_input_summary := lit "done";
              claim_input_subject_revision := sample_claim_oid;
              claim_input_artifact_ids := []; claim_input_diff_ref := None |}
           Declared (sample_ids 3) (sample_time 3) sample_running sample_running_next
           0 3000000000).
  - vm_compute; reflexivity.
  - vm_compute; reflexivity.
  - vm_compute; reflexivity.
  - apply sample_claim_step.
Defined.

(** A run whose first three claims failed alike: the fourth trips the loop. *)
Definition sample_cycle (n : Z) : list GovernedTaskMutation :=
  [sample_claim; sample_verification n false].
Definition sample_failing : GovernedTaskRun :=
  sample_run StagedAuthoritative
    (sample_launch ++ sample_cycle 3 ++ sample_cycle 5 ++ sample_cycle 7 ++ [sample_claim]).

Example sample_failing_escalated : run_review_state sample_failing = Escalated.
Proof. vm_compute. reflexivity. Qed.

Lemma staged_claims_are_bounded_witness :
  zlen (run_claims sample_failing) ≤ GOVERNED_BUILDER_MAX_CLAIM_CYCLES + 1.
Proof.
  apply (staged_claims_are_bounded sample_failing).
  - sample_reached.
  - vm_compute; reflexivity.
Defined.
