(* ===== verification/BreakerProps.v ===== *)
(** The loop breaker: its budgets are never exceeded, its streaks are the runs
    the history ends with, and the canonical text of a JSON value does not
    depend on the order of object keys. *)
From S2P Require Export BuilderLoopProps.
From stdpp Require Import sets.
Local Open Scope Z_scope.

(** * Operations on a breaker, as a sequence *)

Inductive breaker_op : Type :=
  | OpBeginRound
  | OpAdmitCall
  | OpObserveCall (tool : rstring) (input : json) (outcome : CallOutcome)
  | OpEndRound
  | OpCompaction.

Section breaker.
Context `{SerdeJson, UnicodeTables}.
Implicit Types (b : LoopBreaker).

(** One operation; a refused one leaves the breaker as it is. *)
Definition breaker_apply (b : LoopBreaker) (op : breaker_op) : LoopBreaker :=
  match op with
  | OpBeginRound => match begin_round b with Ok (_, b') => b' | Err _ => b end
  | OpAdmitCall => match admit_call b with Ok b' => b' | Err _ => b end
  | OpObserveCall tool input outcome => (observe_call tool input outcome b).2
  | OpEndRound => (end_round b).2
  | OpCompaction => observe_compaction b
  end.
Definition breaker_run (contract : LoopContract) (now : Z) (ops : list breaker_op)
    : LoopBreaker :=
  foldl breaker_apply (breaker_new contract now) ops.

(** The calls it observed, and what each of them is keyed by. *)
Definition observed_calls (ops : list breaker_op) : list (rstring * json * CallOutcome) :=
  omap (λ op, match op with OpObserveCall t i o => Some (t, i, o) | _ => None end) ops.
Definition key_of (c : rstring * json * CallOutcome) : rstring := call_key c.1.1 c.1.2.
Definition error_of (c : rstring * json * CallOutcome) : option (rstring * rstring) :=
  if outcome_is_error c.2 then Some (c.1.1, error_signature (outcome_content c.2)) else None.

(** The run of equal elements a list starts with. *)
Definition run_length {A} `{EqDecision A} (l : list A) : Z :=
  match l with [] => 0 | x :: l => Z.of_nat (leading_run x (x :: l)) end.
Definition error_run_length (l : list (option (rstring * rstring))) : Z :=
  match l with Some e :: l => Z.of_nat (leading_run (Some e) (Some e :: l)) | _ => 0 end.

(** What the counters of a breaker mean. *)
Record breaker_wf (contract : LoopContract) (ops : list breaker_op) b : Prop := {
  bw_contract : brk_contract b = contract;
  bw_rounds :
    0 ≤ budget_max_rounds (contract_budget contract) →
    0 ≤ brk_rounds_used b ≤ budget_max_rounds (contract_budget contract);
  bw_dispatched limit :
    budget_max_tool_calls (contract_budget contract) = Some limit → 0 ≤ limit →
    brk_dispatched b ≤ limit;
  bw_calls : brk_tool_calls b = zlen (observed_calls ops);
  bw_errors : brk_tool_errors b = zlen (filter (λ c, error_of c ≠ None) (observed_calls ops));
  bw_by_tool tool :
    default 0 (brk_calls_by_tool b !! tool)
    = zlen (filter (λ c, c.1.1 = tool) (observed_calls ops));
  bw_last_call : brk_last_call_key b = key_of <$> last (observed_calls ops);
  bw_call_streak :
    brk_repeated_call_streak b = run_length (key_of <$> reverse (observed_calls ops));
  bw_last_error : brk_last_error_key b = last (observed_calls ops) ≫= error_of;
  bw_error_streak :
    brk_same_error_streak b = error_run_length (error_of <$> reverse (observed_calls ops))
}.

Lemma breaker_new_wf contract now : breaker_wf contract [] (breaker_new contract now).
Proof. split; try done; cbn; intros; lia. Qed.

Lemma run_length_cons {A} `{EqDecision A} (x : A) l :
  run_length (x :: l) = if decide (head l = Some x) then run_length l + 1 else 1.
Proof.
  unfold run_length. cbn. rewrite decide_True by done.
  destruct l as [|y l]; cbn; [done|]. destruct (decide (y = x)) as [->|Hne].
  - rewrite !decide_True by done. lia.
  - rewrite decide_False by congruence. done.
Qed.

Lemma error_run_length_cons e l :
  error_run_length (e :: l) =
    match e with
    | None => 0
    | Some _ => if decide (head l = Some e) then error_run_length l + 1 else 1
    end.
Proof.
  destruct e as [e|]; [|done].
  transitivity (run_length (Some e :: l)); [done|].
  rewrite run_length_cons. destruct (decide _) as [Hh|]; [|done].
  destruct l as [|[x|] l]; cbn in Hh; try done.
Qed.

Lemma observed_calls_snoc ops op :
  observed_calls (ops ++ [op]) = observed_calls ops ++ observed_calls [op].
Proof. unfold observed_calls. by rewrite omap_app. Qed.

Ltac brk_simpl :=
  cbn [brk_contract brk_started brk_rounds_used brk_dispatched brk_tool_calls brk_tool_errors
       brk_last_call_key brk_repeated_call_streak brk_last_error_key brk_same_error_streak
       brk_round_keys brk_last_round_keys brk_repeated_round_streak brk_compactions
       brk_calls_by_tool observe_call observe_call_state snd fst].

Lemma observed_calls_observe ops tool input outcome :
  observed_calls (ops ++ [OpObserveCall tool input outcome])
  = observed_calls ops ++ [(tool, input, outcome)].
Proof. by rewrite observed_calls_snoc. Qed.

(** The newest call comes first, and the last call before it is the head of
    what follows. *)
Lemma fmap_reverse_snoc {A B} (f : A → B) l x :
  f <$> reverse (l ++ [x]) = f x :: (f <$> reverse l).
Proof. by rewrite reverse_snoc. Qed.
Lemma head_fmap_reverse {A B} (f : A → B) l : head (f <$> reverse l) = f <$> last l.
Proof. rewrite <-head_reverse. by destruct (reverse l). Qed.

Lemma observe_call_wf contract ops tool input outcome b :
  breaker_wf contract ops b →
  breaker_wf contract (ops ++ [OpObserveCall tool input outcome])
    (observe_call tool input outcome b).2.
Proof.
  intros [Hc Hr Hd Hn He Ht Hl Hs Hle Hes].
  split; rewrite ?observed_calls_observe; brk_simpl; try done.
  - rewrite zlen_snoc. lia.
  - rewrite filter_app, zlen_app, filter_cons, He.
    assert (error_of (tool, input, outcome) ≠ None ↔ outcome_is_error outcome = true) as Herr
      by (unfold error_of; brk_simpl; destruct (outcome_is_error outcome); naive_solver).
    destruct (outcome_is_error outcome);
      [rewrite decide_True by (by apply Herr)|rewrite decide_False by (by rewrite Herr)];
      rewrite filter_nil; unfold zlen; cbn [length]; lia.
  - intros tool'. rewrite filter_app, zlen_app, <-Ht. rewrite filter_cons. brk_simpl.
    destruct (decide (tool = tool')) as [<-|Hne].
    + rewrite lookup_insert_eq. done.
    + rewrite lookup_insert_ne by done. rewrite filter_nil; unfold zlen; cbn [length]. lia.
  - rewrite last_snoc. case_bool_decide; [done|]. done.
  - rewrite fmap_reverse_snoc, run_length_cons, head_fmap_reverse, <-Hl, Hs.
    unfold key_of at 2. brk_simpl. case_bool_decide; case_decide; done.
  - rewrite last_snoc. cbn [mbind option_bind]. unfold error_of. brk_simpl.
    destruct (outcome_is_error outcome); [|done]. by case_bool_decide.
  - rewrite fmap_reverse_snoc, error_run_length_cons, head_fmap_reverse.
    assert (brk_last_error_key b = Some (tool, error_signature (outcome_content outcome)) ↔
      error_of <$> last (observed_calls ops)
      = Some (Some (tool, error_signature (outcome_content outcome)))) as Hiff.
    { rewrite Hle. destruct (last (observed_calls ops)); cbn;
        [split; [by intros ->|by intros [=]]|by split]. }
    assert (error_of (tool, input, outcome)
      = if outcome_is_error outcome
        then Some (tool, error_signature (outcome_content outcome)) else None) as -> by done.
    destruct (outcome_is_error outcome); [|done].
    rewrite Hes. case_bool_decide; case_decide; try done; exfalso; tauto.
Qed.

(** An operation that observes no call keeps what the calls determine. *)
Lemma breaker_wf_frame contract ops op b b' :
  observed_calls [op] = [] →
  brk_contract b' = brk_contract b → brk_tool_calls b' = brk_tool_calls b →
  brk_tool_errors b' = brk_tool_errors b → brk_calls_by_tool b' = brk_calls_by_tool b →
  brk_last_call_key b' = brk_last_call_key b →
  brk_repeated_call_streak b' = brk_repeated_call_streak b →
  brk_last_error_key b' = brk_last_error_key b →
  brk_same_error_streak b' = brk_same_error_streak b →
  (brk_rounds_used b' = brk_rounds_used b ∨
   (brk_rounds_used b' = brk_rounds_used b + 1 ∧
    brk_rounds_used b < budget_max_rounds (contract_budget (brk_contract b)))) →
  (brk_dispatched b' = brk_dispatched b ∨
   (brk_dispatched b' = brk_dispatched b + 1 ∧
    ∀ limit, budget_max_tool_calls (contract_budget (brk_contract b)) = Some limit →
             brk_dispatched b < limit)) →
  breaker_wf contract ops b → breaker_wf contract (ops ++ [op]) b'.
Proof.
  intros Ho E1 E2 E3 E4 E5 E6 E7 E8 Hr' Hd' [Hc Hr Hd Hn He Ht Hl Hs Hle Hes].
  split; rewrite ?observed_calls_snoc, ?Ho, ?app_nil_r, ?E1, ?E2, ?E3, ?E4, ?E5, ?E6, ?E7, ?E8;
    try done.
  - intros Hpos. specialize (Hr Hpos). rewrite Hc in Hr'. lia.
  - intros limit Hlim Hpos. specialize (Hd limit Hlim Hpos). rewrite Hc in Hd'.
    destruct Hd' as [?|[? Hx]]; [lia|specialize (Hx limit Hlim); lia].
Qed.

Lemma breaker_apply_wf contract ops op b :
  breaker_wf contract ops b → breaker_wf contract (ops ++ [op]) (breaker_apply b op).
Proof.
  intros Hwf. destruct op; cbn [breaker_apply]; [..|by apply observe_call_wf| |].
  - unfold begin_round. destruct (Z.leb_spec (budget_max_rounds (contract_budget (brk_contract b)))
      (brk_rounds_used b)); cbn; apply (breaker_wf_frame contract ops _ b); try done;
      first [by left|by right].
  - unfold admit_call.
    destruct (budget_max_tool_calls (contract_budget (brk_contract b))) as [limit|] eqn:Hl; cbn;
      [destruct (Z.leb_spec limit (brk_dispatched b)); cbn|];
      apply (breaker_wf_frame contract ops _ b); try done; try (by left);
      right; (split; [done|]); intros ? Hx; rewrite Hl in Hx; by simplify_eq.
  - unfold end_round. destruct (brk_round_keys b); apply (breaker_wf_frame contract ops _ b);
      try done; by left.
  - apply (breaker_wf_frame contract ops _ b); try done; by left.
Qed.

Lemma breaker_run_wf contract now ops : breaker_wf contract ops (breaker_run contract now ops).
Proof.
  unfold breaker_run. induction ops as [|op ops IH] using rev_ind; [apply breaker_new_wf|].
  rewrite foldl_snoc. by apply breaker_apply_wf.
Qed.
End breaker.

(** * Canonical JSON text *)

(** Two values that differ only in the order of their objects' entries. Keys of
    an object are distinct, as in a map. *)
Inductive json_equiv : json → json → Prop :=
  | equiv_same j : json_equiv j j
  | equiv_array l k : Forall2 json_equiv l k → json_equiv (JArray l) (JArray k)
  | equiv_object m n p :
      NoDup m.*1 → Forall2 (λ a b, a.1 = b.1 ∧ json_equiv a.2 b.2) m p → p ≡ₚ n →
      json_equiv (JObject m) (JObject n).

(** Induction over a value, its items and its entries. *)
Section json_induction.
Context (P : json → Prop).
Context (Hscalar : ∀ j, match j with JArray _ | JObject _ => True | _ => P j end).
Context (Harray : ∀ l, Forall P l → P (JArray l)).
Context (Hobject : ∀ m, Forall (λ e, P e.2) m → P (JObject m)).

Fixpoint json_nested_ind (j : json) : P j :=
  match j as j return P j with
  | JArray l =>
      Harray l ((fix go l : Forall P l :=
        match l with
        | [] => List.Forall_nil _
        | x :: l => List.Forall_cons _ x l (json_nested_ind x) (go l)
        end) l)
  | JObject m =>
      Hobject m ((fix go m : Forall (λ e, P e.2) m :=
        match m with
        | [] => List.Forall_nil _
        | e :: m => List.Forall_cons _ e m (json_nested_ind e.2) (go m)
        end) m)
  | JNull => Hscalar JNull
  | JBool b => Hscalar (JBool b)
  | JNumber n => Hscalar (JNumber n)
  | JString s => Hscalar (JString s)
  end.
End json_induction.

Lemma sort_keys_perm l k : l ≡ₚ k → sort_keys l = sort_keys k.
Proof.
  apply stable_sort_unique; [apply str_leb_total|apply str_leb_trans|apply str_leb_antisym].
Qed.

Lemma assoc_get_lookup {A} key (d v : A) m :
  NoDup m.*1 → (key, v) ∈ m → assoc_get key d m = v.
Proof.
  unfold assoc_get. induction m as [|[k w] m IH]; [by intros _ ?%elem_of_nil|].
  cbn. rewrite NoDup_cons, elem_of_cons. intros [Hnk Hm] [[= -> ->]|Hin].
  - by rewrite bool_decide_eq_true_2.
  - rewrite bool_decide_eq_false_2; [by apply IH|].
    intros ->. apply Hnk. by apply (list_elem_of_fmap_2 fst _ (key, v)).
Qed.

Lemma assoc_get_perm {A} key (d : A) m n :
  NoDup m.*1 → m ≡ₚ n → key ∈ m.*1 → assoc_get key d m = assoc_get key d n.
Proof.
  intros Hnd Hp ([k v] & -> & Hin)%list_elem_of_fmap_1. cbn.
  rewrite (assoc_get_lookup k d v m) by done. symmetry.
  apply assoc_get_lookup; [by rewrite <-Hp|by rewrite <-Hp].
Qed.

Section canonical.
Context `{SerdeJson}.

Lemma write_object_perm m n : NoDup m.*1 → m ≡ₚ n → write_object m = write_object n.
Proof.
  intros Hnd Hp. unfold write_object.
  rewrite <-(sort_keys_perm m.*1 n.*1) by (by rewrite Hp). do 3 f_equal.
  apply list_fmap_ext. intros i key Hi. do 2 f_equal. apply assoc_get_perm; [done..|].
  apply list_elem_of_lookup_2 in Hi. unfold sort_keys in Hi. by rewrite stable_sort_perm in Hi.
Qed.

Lemma canonical_json_object m :
  canonical_json (JObject m) = write_object ((λ e, (e.1, canonical_json e.2)) <$> m).
Proof.
  cbn [canonical_json]. f_equal. induction m as [|[k v] m IH]; [done|]. by rewrite IH.
Qed.

Lemma canonical_json_array l :
  canonical_json (JArray l) = lit "[" ++ join_with (lit ",") (canonical_json <$> l) ++ lit "]".
Proof. done. Qed.

Lemma canonical_json_equiv j k : json_equiv j k → canonical_json j = canonical_json k.
Proof.
  revert k. revert j.
  apply (json_nested_ind (λ j, ∀ k, json_equiv j k → canonical_json j = canonical_json k)).
  - intros []; try done; intros k Hk; inversion Hk; by subst.
  - intros l IH k Hk. inversion Hk as [|? k' Hall|]; subst; [done|].
    rewrite !canonical_json_array. do 3 f_equal.
    clear Hk. induction Hall as [|x y l k' Hxy _ IHl]; [done|].
    apply Forall_cons in IH as [Hx IH]. cbn. by rewrite (Hx y Hxy), IHl.
  - intros m IH k Hk. inversion Hk as [| |? n p Hnd Hall Hp]; subst; [done|].
    rewrite !canonical_json_object. clear Hk.
    assert (((λ e, (e.1, canonical_json e.2)) <$> m)
            = ((λ e, (e.1, canonical_json e.2)) <$> p)) as ->.
    { clear Hnd Hp. induction Hall as [|x y m p [Hk Hxy] _ IHm]; [done|].
      apply Forall_cons in IH as [Hx IH]. cbn. rewrite Hk, (Hx _ Hxy). by rewrite IHm. }
    apply write_object_perm; [|by rewrite Hp].
    assert (m.*1 = p.*1) as Hkeys
      by (clear -Hall; induction Hall as [|???? [Hk _] _ IHm]; [done|]; cbn; by rewrite Hk, IHm).
    rewrite <-list_fmap_compose. by rewrite Hkeys in Hnd.
Qed.

#[export] Instance canonical_json_proper : Proper (json_equiv ==> eq) canonical_json.
Proof. intros j k. apply canonical_json_equiv. Qed.
End canonical.

(** * The properties *)

Section properties.
Context `{SerdeJson, UnicodeTables}.

(** Whatever the sequence of operations, a breaker never counts more rounds
    than its contract allows and never admits more calls than its call budget;
    at the bound the next round and the next call are refused. *)
Theorem breaker_stays_within_budget contract now ops limit :
  0 ≤ budget_max_rounds (contract_budget contract) → 0 ≤ limit →
  budget_max_tool_calls (contract_budget contract) = Some limit →
  let b := breaker_run contract now ops in
  brk_rounds_used b ≤ budget_max_rounds (contract_budget contract) ∧
  brk_dispatched b ≤ limit ∧
  (is_ok (begin_round b) = true ↔
    brk_rounds_used b < budget_max_rounds (contract_budget contract)) ∧
  (is_ok (admit_call b) = true ↔ brk_dispatched b < limit).
Proof.
  intros Hr Hl Hlim b. pose proof (breaker_run_wf contract now ops : breaker_wf _ _ b) as Hwf.
  split_and!; [by apply (bw_rounds _ _ _ Hwf)|by apply (bw_dispatched _ _ _ Hwf)|..].
  - unfold begin_round. rewrite (bw_contract _ _ _ Hwf).
    destruct (Z.leb_spec (budget_max_rounds (contract_budget contract)) (brk_rounds_used b));
      cbn; split; try done; lia.
  - unfold admit_call. rewrite (bw_contract _ _ _ Hwf), Hlim.
    destruct (Z.leb_spec limit (brk_dispatched b)); cbn; split; try done; lia.
Qed.

(** The counters of a breaker are functions of the calls it observed: calls
    and errors are counted in total and by tool, and the two streaks are the
    runs of equal calls and of equal errors the history ends with. *)
Theorem breaker_counts_its_history contract now ops :
  let b := breaker_run contract now ops in
  let newest_first := reverse (observed_calls ops) in
  brk_tool_calls b = zlen newest_first ∧
  brk_tool_errors b = zlen (filter (λ c, error_of c ≠ None) newest_first) ∧
  (∀ tool, default 0 (brk_calls_by_tool b !! tool)
           = zlen (filter (λ c, c.1.1 = tool) newest_first)) ∧
  brk_repeated_call_streak b = run_length (key_of <$> newest_first) ∧
  brk_same_error_streak b = error_run_length (error_of <$> newest_first).
Proof.
  intros b newest_first. pose proof (breaker_run_wf contract now ops : breaker_wf _ _ b) as [].
  assert (∀ A (l : list A), zlen (reverse l) = zlen l) as Hz
    by (intros; unfold zlen; by rewrite length_reverse).
  assert (newest_first ≡ₚ observed_calls ops) as Hp by apply reverse_Permutation.
  split_and!; try done.
  - unfold newest_first. by rewrite bw_calls0, Hz.
  - rewrite bw_errors0. unfold zlen. by rewrite Hp.
  - intros tool. rewrite bw_by_tool0. unfold zlen. by rewrite Hp.
Qed.

(** Observing a call trips exactly when the run of equal calls, or else of
    equal errors, that now ends the history has reached its limit, and the trip
    names that run's length. *)
Theorem call_trips_iff_run_reaches_limit contract now ops tool input outcome limit errors :
  budget_max_repeated_call_streak (contract_budget contract) = Some limit →
  budget_max_same_error_streak (contract_budget contract) = Some errors →
  0 < errors →
  let calls := (tool, input, outcome) :: reverse (observed_calls ops) in
  let repeated := run_length (key_of <$> calls) in
  let failed := error_run_length (error_of <$> calls) in
  (observe_call tool input outcome (breaker_run contract now ops)).1 =
    if limit <=? repeated then Some (RepeatedCall tool repeated)
    else if errors <=? failed
         then Some (SameError tool failed (error_signature (outcome_content outcome)))
         else None.
Proof.
  intros Hlim Herr Hpos calls repeated failed.
  pose proof (breaker_run_wf contract now ops) as Hwf.
  apply (observe_call_wf _ _ tool input outcome) in Hwf.
  destruct Hwf as [Hc _ _ _ _ _ _ Hs Hle Hes].
  unfold observe_call in *. cbn [fst snd] in *. unfold observe_call_trip.
  rewrite Hc, Hlim, Herr, Hs, Hes, Hle.
  rewrite observed_calls_observe, last_snoc, !fmap_reverse_snoc. cbn [mbind option_bind].
  fold (calls). destruct (limit <=? _); [done|].
  unfold failed, calls. rewrite fmap_cons.
  assert (error_of (tool, input, outcome)
    = if outcome_is_error outcome
      then Some (tool, error_signature (outcome_content outcome)) else None) as -> by done.
  destruct (outcome_is_error outcome); [done|]. cbn [error_run_length].
  by rewrite (proj2 (Z.leb_gt errors 0)).
Qed.

(** The canonical text of a JSON value, which calls are compared by, does
    not depend on the order of the entries of its objects, at any depth. *)
Theorem canonical_json_ignores_key_order j k :
  json_equiv j k → canonical_json j = canonical_json k.
Proof. by intros ->. Qed.
End properties.

(** * The properties at concrete inputs *)

Definition sample_call (content : string) : breaker_op :=
  OpObserveCall (lit "read_file") (JObject [(lit "path", JString (lit "a.rs"))])
    {| outcome_is_error := true; outcome_content := lit content |}.
Definition sample_ops : list breaker_op :=
  [OpBeginRound; OpAdmitCall; sample_call "not found"; OpAdmitCall; sample_call "not found";
   OpEndRound].

Lemma breaker_stays_within_budget_witness :
  brk_dispatched (breaker_run ion_tool_loop 0 sample_ops) ≤ ION_DEFAULT_MAX_TOOL_CALLS.
Proof.
  apply (breaker_stays_within_budget ion_tool_loop 0 sample_ops ION_DEFAULT_MAX_TOOL_CALLS).
  - vm_compute. discriminate.
  - vm_compute. discriminate.
  - reflexivity.
Defined.

Lemma call_trips_iff_run_reaches_limit_witness :
  (observe_call (lit "read_file") (JObject [(lit "path", JString (lit "a.rs"))])
     {| outcome_is_error := true; outcome_content := lit "not found" |}
     (breaker_run ion_tool_loop 0 sample_ops)).1 = Some (RepeatedCall (lit "read_file") 3).
Proof.
  rewrite (call_trips_iff_run_reaches_limit ion_tool_loop 0 sample_ops (lit "read_file")
    (JObject [(lit "path", JString (lit "a.rs"))])
    {| outcome_is_error := true; outcome_content := lit "not found" |} 3 3).
  - vm_compute. reflexivity.
  - reflexivity.
  - reflexivity.
  - reflexivity.
Defined.

Lemma canonical_json_ignores_key_order_witness :
  canonical_json (JObject [(lit "a", JNull); (lit "b", JArray [JBool true])])
  = canonical_json (JObject [(lit "b", JArray [JBool true]); (lit "a", JNull)]).
Proof.
  apply canonical_json_ignores_key_order.
  apply (equiv_object _ _ [(lit "a", JNull); (lit "b", JArray [JBool true])]).
  - apply (bool_decide_unpack _). vm_compute. exact I.
  - repeat constructor.
  - apply Permutation_swap.
Defined.
