(* ===== verification/LedgerProps.v ===== *)
(** The project ledger: its invariant, exactly-once mutations, optimistic
    concurrency, and what a failed operation leaves behind. *)
From S2P Require Export WorktreeProps BuilderLoopProps.
Local Open Scope Z_scope.

(** * Steps of a ledger *)

Section steps.
Context `{Host} (s : Storage).
Implicit Types (l : GovernedTaskLedger) (t : GovernedTaskRun)
  (request : GovernedTaskMutationRequest).

(** A successful operation, replacing the ledger by what it decided. *)
Inductive ledger_step l : GovernedTaskLedger → Prop :=
  | step_register registration ids now o :
      decide_registration s l registration ids now = Ok o →
      ledger_step l (outcome_ledger o l)
  | step_mutate request authentication ids now o :
      decide_mutation s l request authentication ids now = Ok o →
      ledger_step l (outcome_ledger o l).

Definition ledger_reachable l : Prop := rtc ledger_step ledger_default l.

(** ** Inversion of the two decisions *)

Lemma decide_mutation_new l request authentication ids now o :
  ledger_processed_requests l !! request_request_id request = None →
  decide_mutation s l request authentication ids now = Ok o →
  ∃ t, ledger_tasks l !! request_task_id request = Some t ∧
    run_project_id t = governed_project_id_for_storage s ∧
    require_current_lease_generation t (request_mutation request)
      (request_fencing_generation request) = Ok tt ∧
    run_revision t = request_expected_revision request ∧
    ((o = Answered t ∧ is_Some (answered_cancel t (request_mutation request))) ∨
     ∃ t', answered_cancel t (request_mutation request) = None ∧
           advance_run (request_mutation request) authentication ids now t = Ok t' ∧
           o = Updated t' (record_run (request_request_id request)
                             (fingerprint_mutation_operation request) t' l)).
Proof.
  intros Hnew. unfold decide_mutation. rewrite Hnew. intros Hd. result_inv.
  match goal with H : ledger_tasks l !! _ = Some ?t |- _ => rename t into u; exists u end.
  unfold require_project in *. result_inv. bool_inv.
  split_and!; [done|congruence|done|done|].
  destruct (answered_cancel u (request_mutation request)) as [checks|] eqn:Hc; result_inv.
  - left. eauto.
  - right. eauto.
Qed.

Lemma decide_mutation_known l request authentication ids now o receipt :
  ledger_processed_requests l !! request_request_id request = Some receipt →
  decide_mutation s l request authentication ids now = Ok o →
  ∃ t, o = Replay t ∧ ledger_tasks l !! request_task_id request = Some t ∧
       receipt_task_id receipt = request_task_id request ∧
       receipt_request_fingerprint receipt = fingerprint_mutation_operation request.
Proof.
  intros Hk. unfold decide_mutation. rewrite Hk. intros Hd. result_inv.
  unfold require_idempotent_fingerprint in *. result_inv. bool_inv. eauto.
Qed.

Lemma decide_registration_inv l registration ids now o :
  decide_registration s l registration ids now = Ok o →
  (∃ t, o = Answered t) ∨
  ∃ root t, validate_registration registration = Ok tt ∧
    reg_project_id registration = governed_project_id_for_storage s ∧
    canonical_governed_workspace s (reg_workspace_root registration) = Ok root ∧
    t = registered_run (set_workspace_root root registration) ids now ∧
    ledger_processed_requests l !! reg_request_id registration = None ∧
    ledger_tasks l !! reg_task_id registration = None ∧
    o = Updated t (record_run (reg_request_id registration)
          (fingerprint_registration (set_workspace_root root registration)) t l).
Proof.
  unfold decide_registration, require_project. intros Hd. result_inv. bool_inv.
  cbn [reg_request_id reg_task_id set_workspace_root] in *.
  destruct (ledger_processed_requests l !! reg_request_id registration) as [receipt|] eqn:Hp;
    result_inv; [left; eauto|right]. bool_inv.
  do 2 eexists. split_and!; [done..|by apply eq_None_not_Some|done].
Qed.

(** The request has no receipt yet. *)
Definition request_fresh l request : Prop :=
  ledger_processed_requests l !! request_request_id request = None.

(** ** The invariant *)

(** Request [r] of task [k] produced revision [n]. *)
Definition receipt_at l (r k : rstring) (n : Z) : Prop :=
  ∃ fp, ledger_processed_requests l !! r
        = Some {| receipt_task_id := k; receipt_resulting_revision := n;
                  receipt_request_fingerprint := fp |}.

Record ledger_wf l : Prop := {
  lw_key k t : ledger_tasks l !! k = Some t → run_id t = k;
  lw_run k t : ledger_tasks l !! k = Some t → run_reachable t;
  lw_project k t :
    ledger_tasks l !! k = Some t → run_project_id t = governed_project_id_for_storage s;
  lw_receipt r receipt :
    ledger_processed_requests l !! r = Some receipt →
    ∃ t, ledger_tasks l !! receipt_task_id receipt = Some t ∧
         0 ≤ receipt_resulting_revision receipt ≤ run_revision t;
  lw_covered k t n :
    ledger_tasks l !! k = Some t → 0 ≤ n ≤ run_revision t →
    ∃ r, receipt_at l r k n ∧ ∀ r', receipt_at l r' k n → r' = r;
  lw_version :
    ledger_schema_version l = GOVERNED_TASKS_LEGACY_SCHEMA_VERSION ∨
    ledger_schema_version l = GOVERNED_TASKS_SCHEMA_VERSION;
  lw_stamped : required_schema_version l ≤ ledger_schema_version l
}.

Lemma stamp_tasks l : ledger_tasks (stamp_schema_version l) = ledger_tasks l.
Proof. done. Qed.

Lemma stamp_version l :
  ledger_schema_version l = GOVERNED_TASKS_LEGACY_SCHEMA_VERSION ∨
  ledger_schema_version l = GOVERNED_TASKS_SCHEMA_VERSION →
  let l' := stamp_schema_version l in
  (ledger_schema_version l' = GOVERNED_TASKS_LEGACY_SCHEMA_VERSION ∨
   ledger_schema_version l' = GOVERNED_TASKS_SCHEMA_VERSION) ∧
  required_schema_version l' ≤ ledger_schema_version l'.
Proof.
  cbn. unfold required_schema_version, ledger_values. cbn [ledger_tasks stamp_schema_version].
  unfold GOVERNED_TASKS_LEGACY_SCHEMA_VERSION, GOVERNED_TASKS_SCHEMA_VERSION.
  intros [-> | ->]; destruct (existsb _ _); cbn; lia.
Qed.

Lemma record_run_tasks request_id fingerprint t l :
  ledger_tasks (record_run request_id fingerprint t l) = <[run_id t := t]> (ledger_tasks l).
Proof. done. Qed.

Lemma record_run_processed request_id fingerprint t l r :
  ledger_processed_requests (record_run request_id fingerprint t l) !! r =
    if decide (request_id = r)
    then Some {| receipt_task_id := run_id t; receipt_resulting_revision := run_revision t;
                 receipt_request_fingerprint := fingerprint |}
    else ledger_processed_requests l !! r.
Proof. cbn [record_run stamp_schema_version ledger_processed_requests]. apply lookup_insert. Qed.

Lemma receipt_at_record request_id fingerprint t l r k n :
  receipt_at (record_run request_id fingerprint t l) r k n ↔
  (r = request_id ∧ k = run_id t ∧ n = run_revision t) ∨
  (r ≠ request_id ∧ receipt_at l r k n).
Proof.
  unfold receipt_at. setoid_rewrite record_run_processed. case_decide; naive_solver.
Qed.

Lemma reachable_revision_nonneg t : run_reachable t → 0 ≤ run_revision t.
Proof.
  intros [Hf _ Hl _]%reachable_history_wf. destruct Hf as (e & He & _).
  destruct (run_events t) as [|e' es]; [done|]. rewrite zlen_cons in Hl.
  pose proof (zlen_nonneg es). lia.
Qed.

Lemma receipt_at_bounded l r k n :
  ledger_wf l → receipt_at l r k n →
  ∃ t, ledger_tasks l !! k = Some t ∧ 0 ≤ n ≤ run_revision t.
Proof. intros Hwf (fp & Hr). by apply (lw_receipt l Hwf) in Hr. Qed.

(** Recording the next state of a run, or a new run, under a new request. *)
Definition extends_ledger l t : Prop :=
  run_reachable t ∧ run_project_id t = governed_project_id_for_storage s ∧
  match ledger_tasks l !! run_id t with
  | Some u => run_revision t = run_revision u + 1
  | None => run_revision t = 0
  end.

Lemma record_run_covered l request_id fingerprint t k u n :
  ledger_wf l → ledger_processed_requests l !! request_id = None → extends_ledger l t →
  <[run_id t := t]> (ledger_tasks l) !! k = Some u → 0 ≤ n ≤ run_revision u →
  ∃ r, receipt_at (record_run request_id fingerprint t l) r k n ∧
       ∀ r', receipt_at (record_run request_id fingerprint t l) r' k n → r' = r.
Proof.
  intros Hwf Hnew (Ht & Hp & Hrev) Hk Hn. setoid_rewrite receipt_at_record.
  assert (∀ r k n, receipt_at l r k n → r ≠ request_id) as Hold
    by (intros ??? [? ?] ->; congruence).
  rewrite lookup_insert_Some in Hk.
  destruct (decide (k = run_id t ∧ n = run_revision t)) as [[-> ->]|Hne].
  - exists request_id. split; [by left|]. intros r' [(-> & _)|[_ Hr']]; [done|].
    destruct (receipt_at_bounded l _ _ _ Hwf Hr') as (v & Hv & ?). rewrite Hv in Hrev. lia.
  - assert (∃ v, ledger_tasks l !! k = Some v ∧ 0 ≤ n ≤ run_revision v) as (v & Hv & Hnv).
    { destruct Hk as [[<- <-]|[? Hk]]; [|by exists u].
      assert (n ≠ run_revision t) by (by intros ->; apply Hne).
      destruct (ledger_tasks l !! run_id t) as [v|]; [exists v; split; [done|]|]; lia. }
    destruct (lw_covered l Hwf k v n Hv Hnv) as (r & Hr & Huniq).
    exists r. split; [right; eauto|]. intros r' [(_ & -> & ->)|[_ ?]]; [by destruct Hne|auto].
Qed.

Lemma record_run_wf l request_id fingerprint t :
  ledger_wf l → ledger_processed_requests l !! request_id = None → extends_ledger l t →
  ledger_wf (record_run request_id fingerprint t l).
Proof.
  intros Hwf Hnew Hext. pose proof Hext as (Ht & Hp & Hrev).
  split; rewrite ?record_run_tasks.
  - intros k u [[<- <-]|[_ ?]]%lookup_insert_Some; [done|by apply (lw_key l Hwf)].
  - intros k u [[<- <-]|[_ ?]]%lookup_insert_Some; [done|by eapply (lw_run l Hwf)].
  - intros k u [[<- <-]|[_ ?]]%lookup_insert_Some; [done|by eapply (lw_project l Hwf)].
  - intros r receipt. rewrite record_run_processed. case_decide.
    + intros [= <-]. cbn. exists t. rewrite lookup_insert_eq.
      pose proof (reachable_revision_nonneg t Ht). split; [done|lia].
    + intros (u & Hu & Hn)%(lw_receipt l Hwf).
      destruct (decide (receipt_task_id receipt = run_id t)) as [Heq|Hne].
      * rewrite Heq in Hu |- *. rewrite lookup_insert_eq, Hu in *. exists t. split; [done|lia].
      * rewrite lookup_insert_ne by done. eauto.
  - intros k u n. by apply record_run_covered.
  - apply stamp_version, (lw_version l Hwf).
  - apply stamp_version, (lw_version l Hwf).
Qed.

Lemma ledger_default_wf : ledger_wf ledger_default.
Proof. split; try done. by left. Qed.

Lemma advance_extends l request_id t authentication ids now m t' :
  ledger_wf l → ledger_tasks l !! request_id = Some t →
  advance_run m authentication ids now t = Ok t' → extends_ledger l t'.
Proof.
  intros Hwf Ht Ha. pose proof (lw_run l Hwf _ _ Ht) as Hr.
  assert (run_step t t') as Hs by (by repeat eexists).
  pose proof (step_identity t t' Hs) as Hid.
  split_and!; [by eapply reachable_step| |].
  - rewrite (same_project _ _ Hid). by eapply (lw_project l Hwf).
  - rewrite (same_id _ _ Hid), (lw_key l Hwf _ _ Ht), Ht.
    apply advance_run_inv in Ha as (u & _ & _ & ->). done.
Qed.

Lemma ledger_step_wf l l' : ledger_wf l → ledger_step l l' → ledger_wf l'.
Proof.
  intros Hwf [registration ids now o Hd|request authentication ids now o Hd].
  - apply decide_registration_inv in Hd as [[t ->]|(root & t & Hv & Hp & _ & -> & Hn & Hk & ->)];
      [done|]. apply record_run_wf; [done..|]. split_and!; [by constructor|done|].
    cbn [run_id registered_run reg_task_id set_workspace_root]. by rewrite Hk.
  - destruct (ledger_processed_requests l !! request_request_id request) as [receipt|] eqn:Hk.
    + by destruct (decide_mutation_known _ _ _ _ _ _ _ Hk Hd) as (t & -> & _).
    + destruct (decide_mutation_new _ _ _ _ _ _ Hk Hd)
        as (t & Ht & _ & _ & _ & [[-> _]|(t' & _ & Ha & ->)]); [done|].
      apply record_run_wf; [done..|]. by eapply advance_extends.
Qed.

Lemma ledger_steps_wf l l' : ledger_wf l → rtc ledger_step l l' → ledger_wf l'.
Proof. intros Hwf. induction 1; eauto using ledger_step_wf. Qed.

Lemma ledger_reachable_wf l : ledger_reachable l → ledger_wf l.
Proof. apply ledger_steps_wf, ledger_default_wf. Qed.

(** ** Later ledgers *)

(** What was there stays: every run is a later state of itself, every receipt
    is kept. *)
Record ledger_extends l l' : Prop := {
  le_run k t : ledger_tasks l !! k = Some t →
    ∃ t', ledger_tasks l' !! k = Some t' ∧ rtc run_step t t';
  le_receipt r receipt : ledger_processed_requests l !! r = Some receipt →
    ledger_processed_requests l' !! r = Some receipt
}.

#[export] Instance ledger_extends_preorder : PreOrder ledger_extends.
Proof.
  split.
  - intros l. split; [|done]. intros k t Ht. by exists t.
  - intros l1 l2 l3 [Hr1 Hp1] [Hr2 Hp2]. split; [|eauto].
    intros k t (t' & Ht' & Hs)%Hr1. destruct (Hr2 k t' Ht') as (t'' & ? & ?).
    exists t''. split; [done|by etransitivity].
Qed.

Lemma record_run_extends l request_id fingerprint t :
  ledger_processed_requests l !! request_id = None →
  (∀ u, ledger_tasks l !! run_id t = Some u → run_step u t) →
  ledger_extends l (record_run request_id fingerprint t l).
Proof.
  intros Hnew Hstep. split.
  - intros k u Hu. rewrite record_run_tasks. destruct (decide (k = run_id t)) as [->|Hne].
    + rewrite lookup_insert_eq. exists t. split; [done|]. by apply rtc_once, Hstep.
    + rewrite lookup_insert_ne by done. by exists u.
  - intros r receipt Hr. rewrite record_run_processed, decide_False; congruence.
Qed.

(** Every run is under its own key, which is all loading has to check for the
    steps of a ledger to follow its runs. *)
Definition keyed l : Prop := ∀ k t, ledger_tasks l !! k = Some t → run_id t = k.

Lemma ledger_wf_keyed l : ledger_wf l → keyed l.
Proof. intros Hwf k t. by apply (lw_key l Hwf). Qed.

Lemma outcome_cases l request authentication ids now o :
  keyed l → decide_mutation s l request authentication ids now = Ok o →
  outcome_ledger o l = l ∨
  ∃ t t', ledger_tasks l !! request_task_id request = Some t ∧
    advance_run (request_mutation request) authentication ids now t = Ok t' ∧
    run_id t' = request_task_id request ∧ request_fresh l request ∧
    outcome_ledger o l
    = record_run (request_request_id request) (fingerprint_mutation_operation request) t' l.
Proof.
  intros Hkeyed Hd. unfold request_fresh.
  destruct (ledger_processed_requests l !! request_request_id request) as [receipt|] eqn:Hk.
  { destruct (decide_mutation_known _ _ _ _ _ _ _ Hk Hd) as (t & -> & _). by left. }
  destruct (decide_mutation_new _ _ _ _ _ _ Hk Hd)
    as (t & Ht & _ & _ & _ & [[-> _]|(t' & _ & Ha & ->)]); [by left|right].
  exists t, t'. split_and!; try done.
  assert (run_step t t') as Hs by (by repeat eexists).
  by rewrite (same_id _ _ (step_identity _ _ Hs)), (Hkeyed _ _ Ht).
Qed.

Lemma ledger_step_keyed l l' : keyed l → ledger_step l l' → keyed l'.
Proof.
  intros Hkeyed [registration ids now o Hd|request authentication ids now o Hd].
  - apply decide_registration_inv in Hd as [[t ->]|(root & t & _ & _ & _ & _ & _ & _ & ->)]; [done|].
    intros k u. cbn [outcome_ledger]. rewrite record_run_tasks.
    intros [[<- <-]|[_ ?]]%lookup_insert_Some; [done|by apply Hkeyed].
  - destruct (outcome_cases _ _ _ _ _ _ Hkeyed Hd) as [->|(t & t' & _ & _ & _ & _ & ->)]; [done|].
    intros k u. rewrite record_run_tasks. intros [[<- <-]|[_ ?]]%lookup_insert_Some; [done|by apply Hkeyed].
Qed.

Lemma ledger_steps_keyed l l' : keyed l → rtc ledger_step l l' → keyed l'.
Proof. intros Hkeyed. induction 1; eauto using ledger_step_keyed. Qed.

Lemma ledger_step_extends l l' : keyed l → ledger_step l l' → ledger_extends l l'.
Proof.
  intros Hkeyed [registration ids now o Hd|request authentication ids now o Hd].
  - apply decide_registration_inv in Hd as [[t ->]|(root & t & Hv & Hp & _ & -> & Hn & Hk & ->)];
      [done|]. apply record_run_extends; [done|].
    cbn [run_id registered_run reg_task_id set_workspace_root]. by rewrite Hk.
  - destruct (outcome_cases _ _ _ _ _ _ Hkeyed Hd) as [->|(t & t' & Ht & Ha & Hid & Hnew & ->)]; [done|].
    apply record_run_extends; [exact Hnew|]. intros u Hu. rewrite Hid, Ht in Hu.
    injection Hu as <-. by repeat eexists.
Qed.

Lemma ledger_steps_extend l l' : keyed l → rtc ledger_step l l' → ledger_extends l l'.
Proof.
  intros Hkeyed Hs. revert Hkeyed. induction Hs as [|l u l' Hs _ IH]; [done|]. intros Hkeyed.
  transitivity u; eauto using ledger_step_extends, ledger_step_keyed.
Qed.

(** What is loaded is keyed. *)
Lemma loaded_keyed uuids file l : load_ledger s uuids file = Ok l → keyed l.
Proof.
  unfold load_ledger, validate_ledger, validate_keys, bail_if. intros Hl. result_inv.
  match goal with Hall : Forall _ _ |- _ => rename Hall into Hkeys end.
  intros k t Ht. rewrite Forall_forall in Hkeys.
  specialize (Hkeys (k, t) (proj2 (elem_of_btree_items _ _ _ _) Ht)). cbn in Hkeys.
  result_inv. by bool_inv.
Qed.

(** ** The schema version *)

Lemma required_schema_version_spec l :
  required_schema_version l = GOVERNED_TASKS_SCHEMA_VERSION ↔
  ∃ k t, ledger_tasks l !! k = Some t ∧ 0 < lease_generation t.
Proof.
  unfold required_schema_version, ledger_values.
  destruct (existsb _ _) eqn:Hex.
  - split; [intros _|done]. apply existsb_exists in Hex as (t & Hin & Hpos).
    apply list_elem_of_In, list_elem_of_fmap_1 in Hin as ([k u] & -> & Hin).
    apply elem_of_btree_items in Hin. exists k, u. bool_inv. done.
  - split; [done|]. intros (k & t & Ht & Hpos).
    apply existsb_false_Forall in Hex. rewrite Forall_forall in Hex.
    assert ((0 <? lease_generation t) = false) as Hn; [|by bool_inv; lia].
    apply (Hex t), (list_elem_of_fmap_2 snd _ (k, t)). by apply elem_of_btree_items.
Qed.

Lemma required_schema_version_cases l :
  required_schema_version l = GOVERNED_TASKS_LEGACY_SCHEMA_VERSION ∨
  required_schema_version l = GOVERNED_TASKS_SCHEMA_VERSION.
Proof. unfold required_schema_version. destruct (existsb _ _); auto. Qed.

Lemma required_schema_version_mono l l' :
  ledger_wf l → ledger_extends l l' → required_schema_version l ≤ required_schema_version l'.
Proof.
  intros Hwf [Hr _].
  destruct (required_schema_version_cases l) as [-> |H2],
    (required_schema_version_cases l') as [H1'|H2'];
    unfold GOVERNED_TASKS_LEGACY_SCHEMA_VERSION, GOVERNED_TASKS_SCHEMA_VERSION in *; try lia.
  apply required_schema_version_spec in H2 as (k & t & Ht & Hpos).
  destruct (Hr k t Ht) as (t' & Ht' & Hs).
  pose proof (steps_lease t t' (lw_run l Hwf _ _ Ht) Hs). unfold lease_le in *.
  rewrite (proj2 (required_schema_version_spec l')) in H1'; [done|].
  exists k, t'. split; [done|lia].
Qed.

Lemma ledger_step_version l l' :
  ledger_wf l → ledger_schema_version l = required_schema_version l → ledger_step l l' →
  ledger_schema_version l' = required_schema_version l'.
Proof.
  intros Hwf Hv Hs.
  pose proof (required_schema_version_mono l l' Hwf (ledger_step_extends l l' (ledger_wf_keyed l Hwf) Hs)) as Hle.
  assert (l' = l ∨ ∃ u, l' = stamp_schema_version u ∧ ledger_schema_version u = ledger_schema_version l)
    as [-> |(u & -> & Hu)].
  { destruct Hs as [r ids now o Hd|r a ids now o Hd].
    - apply decide_registration_inv in Hd as [[t ->]|(? & ? & _ & _ & _ & _ & _ & _ & ->)];
        [by left|right]. by eexists.
    - destruct (ledger_processed_requests l !! request_request_id r) as [receipt|] eqn:Hk.
      + destruct (decide_mutation_known _ _ _ _ _ _ _ Hk Hd) as (t & -> & _). by left.
      + destruct (decide_mutation_new _ _ _ _ _ _ Hk Hd)
          as (t & _ & _ & _ & _ & [[-> _]|(t' & _ & _ & ->)]); [by left|right]. by eexists. }
  - done.
  - cbn [ledger_schema_version stamp_schema_version] in *.
    assert (required_schema_version (stamp_schema_version u) = required_schema_version u) as He
      by done.
    rewrite He in *. lia.
Qed.

Lemma ledger_reachable_version l :
  ledger_reachable l → ledger_schema_version l = required_schema_version l.
Proof.
  intros Hl.
  cut (∀ l0, rtc ledger_step l0 l → ledger_wf l0 →
       ledger_schema_version l0 = required_schema_version l0 →
       ledger_schema_version l = required_schema_version l);
    [intros Hx; apply (Hx _ Hl); [apply ledger_default_wf|done]|].
  induction 1; eauto using ledger_step_wf, ledger_step_version.
Qed.

(** A processed request, asked again about the same task. *)
Lemma known_request_replays l request authentication ids now receipt t :
  ledger_wf l → ledger_tasks l !! request_task_id request = Some t →
  request_project_id request = governed_project_id_for_storage s →
  ledger_processed_requests l !! request_request_id request = Some receipt →
  receipt_task_id receipt = request_task_id request →
  decide_mutation s l request authentication ids now =
    if decide (receipt_request_fingerprint receipt = fingerprint_mutation_operation request)
    then Ok (Replay t)
    else Err (StateError (IdempotencyPayloadConflict (request_request_id request))).
Proof.
  intros Hwf Ht Hproj Hk Htask. unfold decide_mutation, require_project.
  rewrite bool_decide_eq_false_2 by (by rewrite Hproj; intros []).
  cbn [reject_if mbind result_bind]. rewrite Hk.
  rewrite bool_decide_eq_false_2 by (by rewrite Htask; intros []).
  cbn [reject_if mbind result_bind]. unfold require_idempotent_fingerprint.
  destruct (decide _) as [Heq|Hne].
  - rewrite bool_decide_eq_false_2 by (by rewrite Heq; intros []).
    rewrite Ht. cbn [reject_if ok_or mbind result_bind].
    unfold require_receipt_revision, bail_if.
    destruct (lw_receipt l Hwf _ _ Hk) as (u & Hu & Hn). rewrite Htask, Ht in Hu.
    injection Hu as <-. by rewrite (proj2 (Z.ltb_ge _ _)) by lia.
  - by rewrite bool_decide_eq_true_2.
Qed.
End steps.

(** * The properties *)

Section properties.
Context `{Host} (s : Storage).
Implicit Types (l : GovernedTaskLedger) (t : GovernedTaskRun)
  (request : GovernedTaskMutationRequest).

(** C5: the ledger refines its runs: whatever sequence of operations it
    serves, every run it holds is a reachable run under its own key and in its
    project, every later state of it follows by run steps, and no receipt is
    ever lost or changed. *)
Theorem ledger_refines_runs l l' :
  ledger_reachable s l → rtc (ledger_step s) l l' →
  (∀ k t, ledger_tasks l' !! k = Some t → run_reachable t ∧ run_id t = k) ∧
  (∀ k t, ledger_tasks l !! k = Some t →
          ∃ t', ledger_tasks l' !! k = Some t' ∧ rtc run_step t t') ∧
  (∀ r receipt, ledger_processed_requests l !! r = Some receipt →
                ledger_processed_requests l' !! r = Some receipt).
Proof.
  intros Hl%ledger_reachable_wf Hs.
  pose proof (ledger_steps_wf s l l' Hl Hs) as Hl'.
  destruct (ledger_steps_extend s l l' (ledger_wf_keyed s l Hl) Hs) as [Hr Hp].
  split_and!; [|done..]. intros k t Hk. split; [by eapply lw_run|by eapply lw_key].
Qed.

(** Each revision of a run, from its registration to the present one, was
    produced by exactly one request, whose receipt the ledger keeps. *)
Theorem each_revision_has_one_receipt l k t n :
  ledger_reachable s l → ledger_tasks l !! k = Some t → 0 ≤ n ≤ run_revision t →
  exists! r, receipt_at l r k n.
Proof.
  intros Hl%ledger_reachable_wf Hk Hn.
  destruct (lw_covered s l Hl k t n Hk Hn) as (r & Hr & Huniq).
  exists r. split; [done|]. intros r' Hr'. symmetry. by apply Huniq.
Qed.

(** C8: a mutation is applied exactly once. Once a request committed, asking it
    again, in any later ledger and with any expected revision, lease
    generation or provenance, answers with the run as it is then, changes
    nothing and consults neither the fence nor the revision; the same id with
    another payload is refused. *)
Theorem mutation_is_applied_once l request authentication ids now t' committed l' again
    authentication' ids' now' :
  ledger_reachable s l →
  decide_mutation s l request authentication ids now = Ok (Updated t' committed) →
  rtc (ledger_step s) committed l' →
  request_request_id again = request_request_id request →
  request_task_id again = request_task_id request →
  request_project_id again = request_project_id request →
  ∃ t, ledger_tasks l' !! request_task_id request = Some t ∧ rtc run_step t' t ∧
    decide_mutation s l' again authentication' ids' now' =
      if decide (fingerprint_mutation_operation request = fingerprint_mutation_operation again)
      then Ok (Replay t)
      else Err (StateError (IdempotencyPayloadConflict (request_request_id request))).
Proof.
  intros Hl%ledger_reachable_wf Hd Hs Hid Htask Hproj.
  pose proof (step_mutate s _ _ _ _ _ _ Hd) as Hstep. cbn [outcome_ledger] in Hstep.
  pose proof (ledger_step_wf s _ _ Hl Hstep) as Hc.
  assert (request_project_id request = governed_project_id_for_storage s) as Hpr.
  { unfold decide_mutation, require_project in Hd. result_inv. by bool_inv. }
  destruct (ledger_processed_requests l !! request_request_id request) as [receipt|] eqn:Hk.
  { by destruct (decide_mutation_known _ _ _ _ _ _ _ _ Hk Hd) as (? & ? & _). }
  destruct (decide_mutation_new _ _ _ _ _ _ _ Hk Hd)
    as (t & Ht & _ & _ & _ & [[? _]|(u & _ & Ha & Heq)]); [done|]. simplify_eq.
  assert (run_id u = request_task_id request) as Hidu.
  { assert (run_step t u) as Hst by (by repeat eexists).
    by rewrite (same_id _ _ (step_identity _ _ Hst)), (lw_key s l Hl _ _ Ht). }
  destruct (ledger_steps_extend s _ l' (ledger_wf_keyed s _ Hc) Hs) as [Hr Hp].
  destruct (Hr (request_task_id request) u) as (v & Hv & Hrtc);
    [by rewrite record_run_tasks, <-Hidu, lookup_insert_eq|].
  exists v. split_and!; [done..|].
  rewrite (known_request_replays s l' again authentication' ids' now'
    {| receipt_task_id := run_id u; receipt_resulting_revision := run_revision u;
       receipt_request_fingerprint := fingerprint_mutation_operation request |} v).
  - by rewrite Hid.
  - by eapply ledger_steps_wf.
  - by rewrite Htask.
  - by rewrite Hproj.
  - apply Hp. by rewrite Hid, record_run_processed, decide_True.
  - by rewrite Htask.
Qed.

(** Of two requests that expect the same revision of a run, at most one
    goes through: after the first committed, the second is refused, whatever
    it asks, and so no update is lost. *)
Theorem concurrent_mutations_conflict l first second authentication ids now t' committed
    authentication' ids' now' :
  ledger_reachable s l →
  decide_mutation s l first authentication ids now = Ok (Updated t' committed) →
  request_task_id second = request_task_id first →
  request_expected_revision second = request_expected_revision first →
  ledger_processed_requests committed !! request_request_id second = None →
  is_ok (decide_mutation s committed second authentication' ids' now') = false.
Proof.
  intros Hl%ledger_reachable_wf Hd Htask Hrev Hnew.
  destruct (is_ok _) eqn:Hok; [|done]. apply is_ok_true in Hok as (o & Ho).
  destruct (ledger_processed_requests l !! request_request_id first) as [receipt|] eqn:Hk.
  { by destruct (decide_mutation_known _ _ _ _ _ _ _ _ Hk Hd) as (? & ? & _). }
  destruct (decide_mutation_new _ _ _ _ _ _ _ Hk Hd)
    as (t & Ht & _ & _ & Hexp & [[? _]|(u & _ & Ha & Heq)]); [done|]. simplify_eq.
  assert (run_step t u) as Hst by (by repeat eexists).
  destruct (decide_mutation_new _ _ _ _ _ _ _ Hnew Ho) as (v & Hv & _ & _ & Hexp' & _).
  rewrite record_run_tasks, Htask, <-(lw_key s l Hl _ _ Ht), <-(same_id _ _ (step_identity _ _ Hst)),
    lookup_insert_eq in Hv. injection Hv as <-.
  apply advance_run_inv in Ha as (w & _ & _ & ->). cbn [run_revision set_updated_at set_revision] in *.
  lia.
Qed.

(** The file declares the takeover schema exactly when it holds a run whose
    worker lease was taken over, so an older build never opens one. *)
Theorem schema_version_marks_takeovers l :
  ledger_reachable s l →
  (ledger_schema_version l = GOVERNED_TASKS_SCHEMA_VERSION ↔
    ∃ k t, ledger_tasks l !! k = Some t ∧ 0 < lease_generation t) ∧
  (ledger_schema_version l = GOVERNED_TASKS_LEGACY_SCHEMA_VERSION ∨
   ledger_schema_version l = GOVERNED_TASKS_SCHEMA_VERSION).
Proof.
  intros Hl. rewrite (ledger_reachable_version s l Hl).
  split; [apply required_schema_version_spec|apply required_schema_version_cases].
Qed.

(** Cancelling a run that already ended, at its present revision, is
    answered with the run: no event, no revision, no receipt. *)
Theorem late_cancel_is_answered l request by_actor reason authentication ids now t :
  ledger_reachable s l →
  ledger_tasks l !! request_task_id request = Some t →
  is_settled_execution (run_execution_state t) = true →
  request_mutation request = MarkRuntimeExited by_actor reason OperatorCancelled →
  request_project_id request = governed_project_id_for_storage s →
  request_expected_revision request = run_revision t →
  ledger_processed_requests l !! request_request_id request = None →
  require_actor by_actor System = Ok tt →
  require_optional_text (lit "runtime exit reason") reason = Ok tt →
  decide_mutation s l request authentication ids now = Ok (Answered t).
Proof.
  intros Hl%ledger_reachable_wf Ht He Hm Hp Hr Hn Ha Htext.
  unfold decide_mutation, require_project. rewrite Hn, Ht, Hm, Hr, Hp.
  rewrite bool_decide_eq_false_2 by (by intros []).
  cbn [reject_if ok_or mbind result_bind]. rewrite (lw_project s l Hl _ _ Ht).
  rewrite bool_decide_eq_false_2 by (by intros []).
  unfold require_current_lease_generation.
  cbn [is_fenced_mutation negb reject_if mbind result_bind].
  rewrite Z.eqb_refl. cbn [negb reject_if mbind result_bind answered_cancel].
  rewrite He, Ha, Htext. done.
Qed.

(** C9: the mutation entry point keeps memory and file equal. A refused request and an
    update whose write failed leave memory, file and the memory component as they
    were. Any other request leaves the ledger as decided, in memory and on disk,
    whatever its answer is: the decided run, or else the error of recording the
    memory candidate, which only an accepted run has. *)
Theorem mutation_commits_or_changes_nothing {C} `{MemoryCandidates C} request authentication
    ids now written st (c : C) answer st' c' :
  let decision := decide_mutation s (st_memory st) request authentication ids now in
  mutate_governed_task_authenticated s request authentication ids now written st c
    = (answer, st', c') →
  st_memory st = st_disk st →
  st_memory st' = st_disk st' ∧
  match decision with
  | Err e => answer = Err e ∧ st' = st ∧ c' = c
  | Ok (Updated t l) =>
      if written then
        st' = {| st_memory := l; st_disk := l |} ∧
        (answer = Ok t ∨ ∃ e, answer = Err e ∧ is_accepted t = true ∧
           ensure_accepted_run_memory_candidate t c = (Err e, c'))
      else is_ok answer = false ∧ st' = st ∧ c' = c
  | Ok (Replay t) =>
      st' = st ∧
      (answer = Ok t ∨ ∃ e, answer = Err e ∧ is_accepted t = true ∧
         ensure_accepted_run_memory_candidate t c = (Err e, c'))
  | Ok (Answered t) => answer = Ok t ∧ st' = st ∧ c' = c
  end.
Proof.
  assert (Hensure : ∀ t r c1, ensure_accepted_run_memory_candidate t c = (r, c1) →
    (r ;; Ok t) = answer → c1 = c' →
    answer = Ok t ∨ ∃ e, answer = Err e ∧ is_accepted t = true ∧
      ensure_accepted_run_memory_candidate t c = (Err e, c')).
  { intros t [[]|e] c1 Hens <- <-; [by left|right]. exists e. split_and!; [done| |done].
    destruct (is_accepted t) eqn:Ha; [done|]. by rewrite ensure_not_accepted in Hens. }
  intros decision Hm Hsync. unfold mutate_governed_task_authenticated in Hm. fold decision in Hm.
  destruct decision as [[t|t|t l]|e]; cbn [commit] in *.
  - by simplify_eq.
  - destruct (ensure_accepted_run_memory_candidate t c) as [r c1] eqn:Hens. simplify_eq.
    split_and!; [done..|]. rewrite <- Hens. by eapply Hensure.
  - destruct written; [|by simplify_eq].
    destruct (ensure_accepted_run_memory_candidate t c) as [r c1] eqn:Hens. simplify_eq.
    split_and!; [done..|]. rewrite <- Hens. by eapply Hensure.
  - by simplify_eq.
Qed.


(** The list of a project is every run of it, newest first. *)
Theorem list_is_every_run_newest_first l ts :
  list_governed_tasks s l (governed_project_id_for_storage s) = Ok ts →
  ts ≡ₚ (map_to_list (ledger_tasks l)).*2 ∧
  StronglySorted (λ a b, str_leb (run_created_at b) (run_created_at a) = true) ts.
Proof.
  unfold list_governed_tasks, require_project. intros Hl. result_inv. split.
  - rewrite stable_sort_perm. unfold ledger_values. by rewrite btree_items_perm.
  - apply stable_sort_sorted.
    + intros a b. apply str_leb_total.
    + intros a b c Hab Hbc. by eapply str_leb_trans.
Qed.
End properties.

(** * A concrete ledger *)

Definition sample_storage : Storage :=
  {| base_path := lit "/srv/demo/.impulse";
     canonicalize p :=
       if path_is_absolute p && negb (contains_nul p) && (len p <=? 4096) then Some p else None |}.

Definition sample_request (n : Z) (m : GovernedTaskMutation) : GovernedTaskMutationRequest :=
  {| request_request_id := lit "request-" ++ show_Z n; request_project_id := lit "demo";
     request_task_id := lit "task-1"; request_expected_revision := n - 1;
     request_mutation := m; request_fencing_generation := None |}.

Definition ledger_after (l : GovernedTaskLedger) (r : state_result LedgerOutcome)
    : GovernedTaskLedger :=
  match r with Ok o => outcome_ledger o l | Err _ => l end.

Definition is_update (r : state_result LedgerOutcome) : bool :=
  match r with Ok (Updated _ _) => true | _ => false end.
Definition updated_run (r : state_result LedgerOutcome) : GovernedTaskRun :=
  match r with Ok o => outcome_task o | Err _ => sample_run0 StagedAuthoritative end.

Lemma is_update_Ok l r : is_update r = true → r = Ok (Updated (updated_run r) (ledger_after l r)).
Proof. by destruct r as [[]|]. Qed.

Definition sample_decide (l : GovernedTaskLedger) (n : Z) (m : GovernedTaskMutation)
    : state_result LedgerOutcome :=
  decide_mutation sample_storage l (sample_request n m) Declared (sample_ids n) (sample_time n).

Definition sample_registered : GovernedTaskLedger :=
  ledger_after ledger_default
    (decide_registration sample_storage ledger_default (sample_registration StagedAuthoritative)
       (sample_ids 0) (sample_time 0)).

(** The ledger after mutations 1, 2, ... of the registered run. *)
Definition sample_ledger (ms : list GovernedTaskMutation) : GovernedTaskLedger :=
  (foldl (λ p m, (p.1 + 1, ledger_after p.2 (sample_decide p.2 (p.1 + 1) m)))
     (0, sample_registered) ms).2.

Lemma ledger_after_step s l (r : state_result LedgerOutcome) :
  (∀ o, r = Ok o → ledger_step s l (outcome_ledger o l)) → rtc (ledger_step s) l (ledger_after l r).
Proof. destruct r as [o|]; [|done]. intros Hs. by apply rtc_once, Hs. Qed.

Lemma sample_decide_step l n m :
  rtc (ledger_step sample_storage) l (ledger_after l (sample_decide l n m)).
Proof. apply ledger_after_step. intros o Ho. by eapply step_mutate. Qed.

Lemma sample_ledger_step ms m :
  rtc (ledger_step sample_storage) (sample_ledger ms) (sample_ledger (ms ++ [m])).
Proof. unfold sample_ledger. rewrite foldl_snoc. apply sample_decide_step. Qed.

Lemma sample_ledger_reachable ms : ledger_reachable sample_storage (sample_ledger ms).
Proof.
  induction ms as [|m ms IH] using rev_ind.
  - apply ledger_after_step. intros o Ho. by eapply step_register.
  - unfold ledger_reachable. transitivity (sample_ledger ms); [exact IH|apply sample_ledger_step].
Qed.

(** The run of the sample ledger. *)
Definition sample_task (l : GovernedTaskLedger) : GovernedTaskRun :=
  default (sample_run0 StagedAuthoritative) (ledger_tasks l !! lit "task-1").
Lemma sample_task_lookup l :
  bool_decide (is_Some (ledger_tasks l !! lit "task-1")) = true →
  ledger_tasks l !! lit "task-1" = Some (sample_task l).
Proof. intros [t Ht]%bool_decide_eq_true. unfold sample_task. by rewrite Ht. Qed.

Example sample_ledger_accepts :
  run_revision (sample_task (sample_ledger sample_to_acceptance)) = 6 ∧
  run_review_state (sample_task (sample_ledger sample_to_acceptance)) = Accepted.
Proof. by vm_compute. Qed.

#[export] Instance sample_candidates : MemoryCandidates unit.
Proof. by refine {| ensure_accepted_run_memory_candidate _ c := (Ok tt, c) |}. Defined.

(** * The theorems on it *)

(** [ledger_refines_runs] from the launched ledger to the accepting one. *)
Lemma ledger_refines_runs_witness :
  ∃ t', ledger_tasks (sample_ledger (sample_launch ++ [sample_claim])) !! lit "task-1" = Some t' ∧
        rtc run_step (sample_task (sample_ledger sample_launch)) t'.
Proof.
  apply (ledger_refines_runs sample_storage (sample_ledger sample_launch)
           (sample_ledger (sample_launch ++ [sample_claim]))).
  - apply sample_ledger_reachable.
  - apply sample_ledger_step.
  - by apply sample_task_lookup; vm_compute.
Defined.

Lemma each_revision_has_one_receipt_witness :
  exists! r, receipt_at (sample_ledger sample_to_acceptance) r (lit "task-1") 4.
Proof.
  apply (each_revision_has_one_receipt sample_storage _ _
           (sample_task (sample_ledger sample_to_acceptance))).
  - apply sample_ledger_reachable.
  - by apply sample_task_lookup; vm_compute.
  - by vm_compute.
Defined.

(** The claim, asked again after its verification was recorded. *)
Definition sample_claimed : list GovernedTaskMutation := sample_launch ++ [sample_claim].
Definition sample_verified : list GovernedTaskMutation :=
  sample_claimed ++ [sample_verification 3 true].

Lemma mutation_is_applied_once_witness :
  ∃ t, ledger_tasks (sample_ledger sample_verified) !! lit "task-1" = Some t ∧
    rtc run_step (updated_run (sample_decide (sample_ledger sample_launch) 3 sample_claim)) t ∧
    decide_mutation sample_storage (sample_ledger sample_verified) (sample_request 3 sample_claim)
      Declared (sample_ids 3) (sample_time 3) = Ok (Replay t).
Proof.
  destruct (mutation_is_applied_once sample_storage (sample_ledger sample_launch)
    (sample_request 3 sample_claim) Declared (sample_ids 3) (sample_time 3)
    (updated_run (sample_decide (sample_ledger sample_launch) 3 sample_claim))
    (sample_ledger sample_claimed) (sample_ledger sample_verified)
    (sample_request 3 sample_claim) Declared (sample_ids 3) (sample_time 3)) as (t & Ht & Hs & Ha).
  - apply sample_ledger_reachable.
  - apply (is_update_Ok (sample_ledger sample_launch)). by vm_compute.
  - apply sample_ledger_step.
  - reflexivity.
  - reflexivity.
  - reflexivity.
  - exists t. rewrite decide_True in Ha by reflexivity. exact (conj Ht (conj Hs Ha)).
Defined.

(** Two claims at the same revision. *)
Lemma concurrent_mutations_conflict_witness :
  is_ok (decide_mutation sample_storage (sample_ledger (sample_launch ++ [sample_claim]))
    {| request_request_id := lit "other"; request_project_id := lit "demo";
       request_task_id := lit "task-1"; request_expected_revision := 2;
       request_mutation := sample_claim; request_fencing_generation := None |}
    Declared (sample_ids 9) (sample_time 9)) = false.
Proof.
  apply (concurrent_mutations_conflict sample_storage (sample_ledger sample_launch)
    (sample_request 3 sample_claim) _ Declared (sample_ids 3) (sample_time 3)
    (updated_run (sample_decide (sample_ledger sample_launch) 3 sample_claim))).
  - apply sample_ledger_reachable.
  - apply (is_update_Ok (sample_ledger sample_launch)). by vm_compute.
  - done.
  - done.
  - by vm_compute.
Defined.

(** A takeover makes the ledger a version-2 one. *)
Lemma schema_version_marks_takeovers_witness :
  ledger_schema_version (sample_ledger (sample_launch ++ [sample_takeover])) = 2 ∧
  ∃ k t, ledger_tasks (sample_ledger (sample_launch ++ [sample_takeover])) !! k = Some t ∧
         0 < lease_generation t.
Proof.
  assert (ledger_schema_version (sample_ledger (sample_launch ++ [sample_takeover])) = 2) as Hv
    by (by vm_compute).
  split; [done|]. apply (schema_version_marks_takeovers sample_storage); [|done].
  apply sample_ledger_reachable.
Defined.

(** A cancelled run, cancelled again by another request. *)
Lemma late_cancel_is_answered_witness :
  sample_decide (sample_ledger (sample_launch ++ [sample_exit OperatorCancelled])) 4
    (sample_exit OperatorCancelled)
  = Ok (Answered (sample_task (sample_ledger (sample_launch ++ [sample_exit OperatorCancelled])))).
Proof.
  apply (late_cancel_is_answered _ _ _ daemon None).
  - apply sample_ledger_reachable.
  - by apply sample_task_lookup; vm_compute.
  - by vm_compute.
  - done.
  - by vm_compute.
  - by vm_compute.
  - by vm_compute.
  - by vm_compute.
  - done.
Defined.

(** A claim whose write fails. *)
Lemma mutation_commits_or_changes_nothing_witness :
  (mutate_governed_task_authenticated sample_storage (sample_request 3 sample_claim) Declared
     (sample_ids 3) (sample_time 3) false
     {| st_memory := sample_ledger sample_launch; st_disk := sample_ledger sample_launch |} tt).1.2
  = {| st_memory := sample_ledger sample_launch; st_disk := sample_ledger sample_launch |}.
Proof.
  destruct (mutate_governed_task_authenticated _ _ _ _ _ _ _ _) as [[answer st'] c'] eqn:Hm.
  destruct (mutation_commits_or_changes_nothing sample_storage _ _ _ _ _ _ _ _ _ _ Hm eq_refl)
    as [_ Hst].
  cbn [fst snd]. destruct (decide_mutation _ _ _ _ _ _) as [[t|t|t l]|e].
  - exact (proj1 (proj2 Hst)).
  - exact (proj1 Hst).
  - exact (proj1 (proj2 Hst)).
  - exact (proj1 (proj2 Hst)).
Defined.



Lemma list_is_every_run_newest_first_witness :
  ∃ ts, ts ≡ₚ (map_to_list (ledger_tasks (sample_ledger sample_launch))).*2 ∧ length ts = 1%nat.
Proof.
  exists (ledger_values (sample_ledger sample_launch)). split; [|by vm_compute].
  eapply (list_is_every_run_newest_first sample_storage). by vm_compute.
Defined.
