(* ===== verification/RoleProps.v ===== *)
(** Role compatibility: what a world scope adds to a runtime's declarations, and
    that an evaluated compatibility is what registration asks for. *)
From S2P Require Export Contract Sample.
Local Open Scope Z_scope.

(** * The strength order *)

Lemma strength_rank_inj a b : strength_rank a = strength_rank b → a = b.
Proof. by destruct a, b. Qed.

Lemma strength_rank_max a b :
  strength_rank (strength_max a b) = Z.max (strength_rank a) (strength_rank b).
Proof. by destruct a, b. Qed.

Lemma strength_max_comm a b : strength_max a b = strength_max b a.
Proof. by destruct a, b. Qed.
Lemma strength_max_assoc a b c :
  strength_max a (strength_max b c) = strength_max (strength_max a b) c.
Proof. by destruct a, b, c. Qed.
Lemma strength_max_unsupported a : strength_max a Unsupported = a.
Proof. by destruct a. Qed.

(** * Merging a contribution into the declarations *)

Implicit Types (declared : list RuntimeCapabilitySupport) (x : RuntimeCapabilitySupport).

Lemma available_enforcement_cons x declared cap :
  available_enforcement (x :: declared) cap =
    if decide (support_capability x = cap)
    then strength_max (support_enforcement x) (available_enforcement declared cap)
    else available_enforcement declared cap.
Proof. unfold available_enforcement. rewrite filter_cons. by destruct (decide _). Qed.

Lemma available_merge x declared cap :
  available_enforcement (merge_support x declared) cap =
    if decide (cap = support_capability x)
    then strength_max (available_enforcement declared cap) (support_enforcement x)
    else available_enforcement declared cap.
Proof.
  induction declared as [|y declared IH]; cbn [merge_support].
  - rewrite available_enforcement_cons. destruct (decide (cap = _)) as [->|Hne].
    + rewrite decide_True by done. apply strength_max_comm.
    + by rewrite decide_False by congruence.
  - rewrite available_enforcement_cons. case_bool_decide as Heq.
    + rewrite available_enforcement_cons. cbn [support_capability support_enforcement].
      destruct (decide (support_capability y = cap)), (decide (cap = support_capability x));
        try congruence.
      by rewrite <-!strength_max_assoc, (strength_max_comm (support_enforcement x)).
    + rewrite available_enforcement_cons, IH.
      destruct (decide (support_capability y = cap)), (decide (cap = support_capability x));
        congruence.
Qed.

(** The duplicate scan reads the capability names alone. *)
Lemma reject_duplicates_app seen declared x :
  reject_duplicate_support seen (declared ++ [x]) =
    (reject_duplicate_support seen declared ;;
     reject_if (bool_decide (support_capability x ∈ support_capability <$> seen ++ declared))
       (DuplicateRuntimeCapability (support_capability x))).
Proof.
  assert (∀ l, existsb (λ p, bool_decide (support_capability p = support_capability x)) l
    = bool_decide (support_capability x ∈ support_capability <$> l)) as Hex.
  { intros l. apply eq_true_iff_eq. rewrite existsb_exists, bool_decide_eq_true, list_elem_of_fmap.
    setoid_rewrite <-list_elem_of_In. split; intros (y & ? & Hy); exists y; bool_inv; eauto.
    split; [done|]. by apply bool_decide_eq_true. }
  revert seen. induction declared as [|y declared IH]; intros seen;
    cbn [reject_duplicate_support app].
  - rewrite app_nil_r, Hex. cbn. by destruct (reject_if _ _) as [[]|].
  - rewrite bind_assoc. destruct (reject_if _ _) as [[]|]; [|done]. cbn [mbind result_bind].
    rewrite IH. by rewrite <-(app_assoc seen [y] declared).
Qed.

Lemma reject_duplicates_names seen seen' declared declared' :
  support_capability <$> seen = support_capability <$> seen' →
  support_capability <$> declared = support_capability <$> declared' →
  reject_duplicate_support seen declared = reject_duplicate_support seen' declared'.
Proof.
  revert seen seen' declared'. induction declared as [|x declared IH];
    intros seen seen' [|x' declared'] Hs Hd; try done.
  cbn in Hd. injection Hd as Hx Hd. cbn [reject_duplicate_support]. rewrite Hx.
  assert (existsb (λ p, bool_decide (support_capability p = support_capability x')) seen
    = existsb (λ p, bool_decide (support_capability p = support_capability x')) seen') as ->.
  { clear -Hs. revert seen' Hs. induction seen as [|p seen IH]; intros [|p' seen'] Hs; try done.
    cbn in Hs |- *. injection Hs as -> Hs. by rewrite (IH seen'). }
  destruct (reject_if _ _); [|done]. cbn [mbind result_bind]. apply IH; [|done].
  rewrite !fmap_app, Hs. cbn [fmap list_fmap]. by rewrite Hx.
Qed.

Lemma merge_names x declared :
  support_capability <$> merge_support x declared =
    if decide (support_capability x ∈ support_capability <$> declared)
    then support_capability <$> declared
    else (support_capability <$> declared) ++ [support_capability x].
Proof.
  induction declared as [|y declared IH]; cbn [merge_support fmap list_fmap]; [done|].
  case_bool_decide as Heq; cbn [support_capability].
  - rewrite decide_True; [done|]. rewrite Heq. by left.
  - rewrite fmap_cons, IH. destruct (decide _) as [Hin|Hnin].
    + rewrite decide_True; [done|]. by right.
    + rewrite decide_False; [done|]. rewrite elem_of_cons. naive_solver.
Qed.

Lemma reject_duplicates_merge x declared :
  reject_duplicate_support [] (merge_support x declared)
  = reject_duplicate_support [] declared.
Proof.
  pose proof (merge_names x declared) as Hn. destruct (decide _) as [Hin|Hnin].
  - by apply reject_duplicates_names.
  - rewrite (reject_duplicates_names [] [] _ (declared ++ [x])) by (by rewrite ?fmap_app).
    rewrite reject_duplicates_app. cbn [app]. rewrite bool_decide_eq_false_2 by done.
    by destruct (reject_duplicate_support [] declared) as [[]|].
Qed.

(** * The specification of the evaluation in a world *)

(** What a scope adds: mediated file-system scoping, in a staged world only. *)
Definition raise_check (scope : WorldScope) (c : CapabilityCompatibility)
    : CapabilityCompatibility :=
  if decide (check_capability c = FILESYSTEM_SCOPED_CAPABILITY ∧ scope = StagedAuthoritative)
  then {| check_capability := check_capability c; check_required := check_required c;
          check_available := strength_max (check_available c) Mediated;
          check_mandatory := check_mandatory c |}
  else c.
Definition raise_compatibility (scope : WorldScope) (r : RoleCompatibility) : RoleCompatibility :=
  {| compat_platform := compat_platform r; compat_role := compat_role r;
     compat_checks := raise_check scope <$> compat_checks r |}.

Lemma raise_check_other scope c : scope ≠ StagedAuthoritative → raise_check scope c = c.
Proof. intros Hs. unfold raise_check. rewrite decide_False; naive_solver. Qed.

Lemma raise_compatibility_other scope r :
  scope ≠ StagedAuthoritative → raise_compatibility scope r = r.
Proof.
  intros Hs. destruct r as [p role checks]. unfold raise_compatibility. cbn. f_equal.
  induction checks as [|c checks IH]; cbn; [done|]. by rewrite raise_check_other, IH.
Qed.

(** * The properties *)

(** A world scope changes the evaluation of a role in one way: in a staged
    world the availability of [filesystem.scoped] is at least mediated; every
    other check, the outcome and the errors are those of the declarations. *)
Theorem world_scope_raises_only_filesystem platform declared assignment scope :
  evaluate_role_compatibility_in_world platform declared assignment scope =
    raise_compatibility scope <$> evaluate_role_compatibility platform declared assignment.
Proof.
  unfold evaluate_role_compatibility_in_world.
  destruct (decide (scope = StagedAuthoritative)) as [->|Hs].
  - change (world_scope_capability_support StagedAuthoritative) with
      [ {| support_capability := FILESYSTEM_SCOPED_CAPABILITY;
           support_enforcement := Mediated |} ].
    cbn [foldl].
    unfold evaluate_role_compatibility. rewrite reject_duplicates_merge.
    destruct (reject_duplicate_support [] declared) as [[]|]; [|done]. cbn [mbind result_bind].
    unfold fmap at 2, result_fmap. f_equal. unfold raise_compatibility.
    cbn [compat_platform compat_role compat_checks]. f_equal.
    rewrite <-list_fmap_compose. apply list_fmap_ext. intros _ c _. cbn.
    unfold raise_check. cbn [check_capability check_available check_required check_mandatory].
    rewrite available_merge. cbn [support_capability support_enforcement].
    destruct (decide (requirement_capability c = FILESYSTEM_SCOPED_CAPABILITY)) as [->|Hne].
    + by rewrite !decide_True.
    + rewrite decide_False by done. rewrite decide_False by (by intros [? _]). done.
  - assert (world_scope_capability_support scope = []) as -> by (by destruct scope).
    destruct (evaluate_role_compatibility _ _ _) as [r|e]; [|done]. cbn.
    by rewrite raise_compatibility_other.
Qed.

Lemma existsb_true_intro {A} (p : A → bool) (l : list A) (x : A) : x ∈ l → p x = true → existsb p l = true.
Proof. intros Hx Hp. apply existsb_exists. exists x. by rewrite <-list_elem_of_In. Qed.

(** Checks made one by one from requirements cover them. *)
Lemma mapped_checks_cover (f : RoleCapabilityRequirement → CapabilityCompatibility) reqs :
  (∀ r, check_capability (f r) = requirement_capability r ∧
        check_required (f r) = requirement_minimum_enforcement r ∧
        check_mandatory (f r) = requirement_mandatory r) →
  NoDup (requirement_capability <$> reqs) →
  checks_exactly_cover reqs (f <$> reqs) = true.
Proof.
  intros Hf Hnd. unfold checks_exactly_cover. rewrite !andb_true_iff, !negb_true_iff. split_and!.
  - apply Z.eqb_eq. unfold zlen. by rewrite length_fmap.
  - apply existsb_false_Forall, Forall_forall. intros r Hr.
    apply negb_false_iff, Z.eqb_eq. unfold zlen.
    cut (length (filter (λ c, check_capability c = requirement_capability r) (f <$> reqs)) = 1%nat);
      [lia|].
    clear -Hf Hnd Hr. induction reqs as [|q reqs IH]; [by apply elem_of_nil in Hr|].
    cbn [fmap list_fmap] in Hnd |- *. apply NoDup_cons in Hnd as [Hq Hnd].
    destruct (Hf q) as (Hc & _). rewrite filter_cons, Hc.
    apply elem_of_cons in Hr as [->|Hr].
    + rewrite decide_True by done. cbn [length]. f_equal.
      rewrite filter_none; [done|]. apply Forall_fmap, Forall_forall.
      intros p Hp. cbn. destruct (Hf p) as (-> & _). intros Heq. apply Hq. rewrite <-Heq.
      by apply list_elem_of_fmap_2.
    + rewrite decide_False; [by apply IH|]. intros Heq. apply Hq. rewrite Heq.
      by apply list_elem_of_fmap_2.
  - apply existsb_false_Forall, Forall_fmap, Forall_forall. intros r Hr. cbn.
    apply negb_false_iff, (existsb_true_intro _ _ r); [done|].
    destruct (Hf r) as (-> & -> & ->). by rewrite !bool_decide_eq_true_2.
Qed.

(** What [evaluate_role_compatibility_in_world] returns for the canonical
    Builder on the run's runtime is what registration asks for: it is accepted
    exactly when the launch is allowed, that is when every mandatory capability
    is available at its required strength. *)
Theorem evaluated_compatibility_is_registrable registration declared scope compatibility :
  evaluate_role_compatibility_in_world (reg_runtime_id registration) declared
    canonical_governed_builder_assignment scope = Ok compatibility →
  reg_role_assignment registration = Some canonical_governed_builder_assignment →
  reg_role_compatibility registration = Some compatibility →
  is_ok (validate_registration_compatibility registration) = launch_allowed compatibility.
Proof.
  intros He Ha Hc. unfold validate_registration_compatibility. rewrite Ha, Hc.
  unfold is_blocked. destruct (launch_allowed compatibility); [|done].
  cbn [negb reject_if mbind result_bind].
  assert (∃ d, evaluate_role_compatibility (reg_runtime_id registration) d
            canonical_governed_builder_assignment = Ok compatibility) as (d & Hd)
    by (unfold evaluate_role_compatibility_in_world in He; case_match; eauto).
  unfold evaluate_role_compatibility in Hd. result_inv. cbn [compat_role compat_platform compat_checks].
  rewrite bool_decide_eq_false_2 by (by intros []). cbn [reject_if mbind result_bind].
  rewrite bool_decide_eq_false_2 by (by intros []). cbn [reject_if mbind result_bind].
  rewrite mapped_checks_cover; [done|done|].
  apply (bool_decide_unpack _). by vm_compute.
Qed.

(** * On the sample registration *)

(** A runtime that mediates everything the Builder asks for. *)
Definition sample_support : list RuntimeCapabilitySupport :=
  (λ r, {| support_capability := requirement_capability r; support_enforcement := Mediated |})
  <$> assignment_requirements canonical_governed_builder_assignment.

Lemma evaluated_compatibility_is_registrable_witness :
  is_ok (validate_registration_compatibility (sample_registration StagedAuthoritative)) = true.
Proof.
  rewrite (evaluated_compatibility_is_registrable (sample_registration StagedAuthoritative)
    sample_support StagedAuthoritative sample_compatibility); by vm_compute.
Defined.
