(* ===== verification/RunProps.v ===== *)
(** Projections and registration of a run: project names, promises against
    evidence, and that what registration admits can be launched. *)
From S2P Require Export WorktreeProps.
Local Open Scope Z_scope.

(** * Project names *)

(** The characters of a sanitized name. *)
Definition is_name_char (c : Z) : bool := is_ascii_lower c || is_ascii_digit c.

Definition name_segment (segment : rstring) : Prop :=
  segment ≠ [] ∧ Forall (λ c, is_name_char c = true) segment.

Lemma split_on_join segments cur :
  segments ≠ [] → Forall name_segment segments →
  split_on 45 cur (join_with (lit "-") segments) =
    match segments with
    | [] => []
    | first :: rest => (reverse cur ++ first) :: rest
    end.
Proof.
  intros Hne Hall. destruct segments as [|first rest]; [done|]. clear Hne.
  revert cur first Hall. induction rest as [|second rest IH]; intros cur first Hall.
  - cbn [join_with]. apply Forall_cons in Hall as [[_ Hf] _].
    apply split_on_none. eapply Forall_impl; [exact Hf|]. intros c Hc ->. done.
  - change (join_with (lit "-") (first :: second :: rest))
      with (first ++ 45 :: join_with (lit "-") (second :: rest)).
    apply Forall_cons in Hall as [[_ Hf] Hall].
    rewrite split_on_app, (IH [] second Hall), split_on_none; [done|].
    eapply Forall_impl; [exact Hf|]. intros c Hc ->. done.
Qed.

Lemma sanitize_char_name c :
  is_name_char (sanitize_char c) = true ∨ sanitize_char c = 45.
Proof.
  unfold sanitize_char, is_name_char.
  destruct (is_ascii_lower c || is_ascii_digit c) eqn:E; [by left|].
  destruct (is_ascii_upper c) eqn:U; [left|by right].
  unfold is_ascii_upper, is_ascii_lower, is_ascii_digit in *. bool_inv.
  apply orb_true_iff. left. apply andb_true_iff. split; apply Z.leb_le; lia.
Qed.

Lemma split_on_name_chars cur s :
  Forall (λ c, is_name_char c = true) cur →
  Forall (λ c, is_name_char c = true ∨ c = 45) s →
  Forall (Forall (λ c, is_name_char c = true)) (split_on 45 cur s).
Proof.
  intros Hcur Hs. revert cur Hcur. induction Hs as [|c s Hc _ IH]; intros cur Hcur; cbn.
  - constructor; [by apply Forall_reverse|done].
  - destruct (Z.eqb_spec c 45) as [->|Hne].
    + constructor; [by apply Forall_reverse|by apply IH].
    + apply IH. constructor; [by destruct Hc|done].
Qed.

(** A name is one or more nonempty segments of lowercase letters and digits. *)
Lemma sanitize_id_segments s :
  ∃ segments, segments ≠ [] ∧ Forall name_segment segments ∧
    sanitize_id s = join_with (lit "-") segments.
Proof.
  unfold sanitize_id. cbv zeta.
  set (kept := filter (λ segment, segment ≠ []) (split_on 45 [] (sanitize_char <$> trim s))).
  assert (Forall name_segment kept) as Hk.
  { apply Forall_forall. intros seg [Hne Hin]%list_elem_of_filter. split; [done|].
    eapply Forall_forall in Hin; [exact Hin|]. apply split_on_name_chars; [done|].
    apply Forall_fmap, Forall_forall. intros c _. apply sanitize_char_name. }
  destruct kept as [|first rest] eqn:E.
  - exists [lit "unknown"]. split_and!; [done| |done].
    constructor; [|done]. split; [done|]. by repeat constructor.
  - exists (first :: rest). split_and!; [done..|].
    assert (join_with (lit "-") (first :: rest) ≠ []) as Hj.
    { apply Forall_cons in Hk as [[Hf _] _]. destruct first as [|c first]; [done|].
      by destruct rest. }
    destruct (is_empty _) eqn:He; [|done]. by apply is_empty_true in He.
Qed.

Lemma name_char_fixed c : is_name_char c = true ∨ c = 45 → sanitize_char c = c.
Proof. unfold sanitize_char, is_name_char. intros [-> | ->]; done. Qed.

Lemma name_char_not_white c :
  is_name_char c = true ∨ c = 45 → char_is_whitespace c = false.
Proof.
  intros Hc. unfold is_name_char, is_ascii_lower, is_ascii_digit in Hc.
  assert (45 ≤ c ≤ 122) by (destruct Hc as [Hc| ->]; [apply orb_true_iff in Hc as [Hc|Hc]; bool_inv|]; lia).
  unfold char_is_whitespace.
  repeat match goal with |- _ || _ = false => apply orb_false_iff; split end;
    repeat first [apply andb_false_iff; first [left; apply Z.leb_gt; lia|right; apply Z.leb_gt; lia]
                 |apply Z.eqb_neq; lia].
Qed.

Lemma join_name_chars segments :
  Forall name_segment segments →
  Forall (λ c, is_name_char c = true ∨ c = 45) (join_with (lit "-") segments).
Proof.
  induction 1 as [|seg segments [_ Hs] Hall IH]; [done|].
  assert (Forall (λ c, is_name_char c = true ∨ c = 45) seg) as Hseg
    by (eapply Forall_impl; [exact Hs|auto]).
  destruct segments; [done|].
  change (join_with (lit "-") (seg :: l :: segments))
    with (seg ++ 45 :: join_with (lit "-") (l :: segments)).
  apply Forall_app_2; [done|]. constructor; [by right|done].
Qed.

Lemma trim_not_white s : Forall (λ c, char_is_whitespace c = false) s → trim s = s.
Proof.
  assert (∀ l, Forall (λ c, char_is_whitespace c = false) l →
               drop_while char_is_whitespace l = l) as Hd
    by (intros l; destruct 1 as [|c l Hc _]; cbn; [done|by rewrite Hc]).
  intros Hs. unfold trim. rewrite (Hd s) by done.
  rewrite (Hd (reverse s)) by (by apply Forall_reverse). apply reverse_involutive.
Qed.

Lemma sanitize_join segments :
  segments ≠ [] → Forall name_segment segments →
  sanitize_id (join_with (lit "-") segments) = join_with (lit "-") segments.
Proof.
  intros Hne Hall. pose proof (join_name_chars segments Hall) as Hchars.
  unfold sanitize_id. cbv zeta.
  rewrite trim_not_white by (eapply Forall_impl; [exact Hchars|apply name_char_not_white]).
  assert (sanitize_char <$> join_with (lit "-") segments = join_with (lit "-") segments) as ->.
  { clear -Hchars. induction Hchars as [|c s Hc _ IH]; [done|]. cbn.
    by rewrite name_char_fixed, IH. }
  rewrite split_on_join by done.
  assert (filter (λ segment, segment ≠ []) segments = segments) as Hf.
  { clear -Hall. induction Hall as [|seg segments [Hn _] _ IH]; [done|].
    by rewrite filter_cons, decide_True, IH. }
  destruct segments as [|first rest]; [done|]. cbn [reverse app rev_append].
  change (reverse [] ++ first) with first. rewrite Hf.
  destruct (is_empty (join_with (lit "-") (first :: rest))) eqn:He; [|done].
  apply is_empty_true in He. apply Forall_cons in Hall as [[Hn _] _].
  by destruct first; [done|]; destruct rest.
Qed.

(** * Promises against evidence *)

Section promises.
Context `{Host}.
Implicit Types (t : GovernedTaskRun) (c : WorkerCompletionClaim) (v : GovernedVerification).

Lemma find_app {A} (p : A → bool) (l k : list A) :
  List.find p (l ++ k) = match List.find p l with Some x => Some x | None => List.find p k end.
Proof. induction l as [|x l IH]; cbn; [done|]. by destruct (p x). Qed.

Lemma find_none {A} (p : A → bool) (l : list A) :
  Forall (λ a : A, p a = false) l → List.find p l = None.
Proof. induction 1 as [|x l Hx _ IH]; cbn; [done|]. by rewrite Hx. Qed.

(** Only the latest claim can diverge. *)
Lemma divergence_of_latest t claims c :
  run_claims t = claims ++ [c] →
  claim_evidence_divergence t =
    (let p := promise_of t (length claims) c in if diverges p then Some p else None).
Proof.
  intros Hc. unfold claim_evidence_divergence, promises. rewrite Hc, imap_app, find_app.
  rewrite find_none.
  - cbn. rewrite Nat.add_0_r. by destruct (diverges _).
  - apply Forall_lookup. intros i p Hp. apply list_lookup_imap_Some in Hp as (d & Hd & ->).
    unfold diverges, promise_of. cbn [promise_superseded].
    apply lookup_lt_Some in Hd. rewrite Hc, zlen_snoc.
    assert ((Z.of_nat i =? zlen claims + 1 - 1) = false) as ->; [|done].
    apply Z.eqb_neq. unfold zlen. lia.
Qed.

Lemma last_filter {A} (P : A → Prop) `{∀ a : A, Decision (P a)} (l : list A) (a : A) :
  last l = Some a → P a → last (filter P l) = Some a.
Proof.
  intros [k ->]%last_Some Ha. rewrite filter_app, filter_cons, decide_True, filter_nil by done.
  apply last_snoc.
Qed.

(** A verified claim's promise is judged by that verification. *)
Lemma verified_divergence t c v :
  verified t c v →
  ∃ p, promise_claim_id p = claim_id c ∧ promise_latest_evidence_outcome p = Some (verification_outcome v) ∧
    claim_evidence_divergence t =
      if decide (verification_outcome v = Passed) then None else Some p.
Proof.
  intros [Hc _ Hv Hk Hid Hsub]. apply last_Some in Hc as [claims Hc].
  exists (promise_of t (length claims) c).
  assert (last (bearing_verifications t c) = Some v) as Hb by (by apply last_filter).
  rewrite (divergence_of_latest t claims c Hc). unfold promise_of at 1 2. rewrite Hb. cbn.
  split_and!; [done..|]. unfold diverges, promise_of. rewrite Hb, Hc. cbn -[zlen].
  rewrite zlen_snoc. assert ((Z.of_nat (length claims) =? zlen claims + 1 - 1) = true) as ->
    by (apply Z.eqb_eq; unfold zlen; lia).
  cbn [negb andb]. by destruct (verification_outcome v).
Qed.
End promises.

(** * Launching what was registered *)

Section launch.
Context `{Host}.

Lemma validated_staged r :
  validate_registration r = Ok tt → reg_world_scope r = StagedAuthoritative →
  validate_path_segment (lit "task_id") (reg_task_id r) = Ok tt ∧
  ∃ oid, reg_initial_subject_revision r = Some oid ∧ is_git_commit_oid oid = true.
Proof.
  unfold validate_registration. intros Hv Hsc. result_inv.
  unfold validate_registration_scope, validate_registration_profile in *.
  rewrite Hsc in *. cbn [requires_staged_worktree] in *. result_inv. bool_inv.
  split; [done|]. destruct (reg_verification_profile r); [|done]. result_inv.
  eexists. split; [done|]. unfold validate_git_commit_oid in *. result_inv. by bool_inv.
Qed.

Definition daemon_actor : GovernedActor :=
  {| actor_kind := System; actor_id := lit "impulse-daemon" |}.
Definition materialize_at (root oid : rstring) (digest : SharedRepositoryConfigDigest)
    : GovernedTaskMutation :=
  MaterializeStagedWorktree
    {| staged_input_actor := daemon_actor; staged_input_root := root;
       staged_input_initial_subject_revision := oid;
       staged_input_shared_config_digest := Recorded digest |}.

Lemma daemon_actor_ok : require_actor daemon_actor System = Ok tt.
Proof. by vm_compute. Qed.

Lemma advance_run_intro m authentication ids now t u :
  apply_mutation m (run_revision t + 1) (live_context now authentication) ids t = Ok u →
  run_revision t + 1 ≤ u64_max →
  advance_run m authentication ids now t
  = Ok (set_updated_at now (set_revision (run_revision t + 1) u)).
Proof.
  intros Hu Hmax. destruct (advance_run m authentication ids now t) as [t'|e] eqn:Ha.
  - apply advance_run_inv in Ha as (u' & Hu' & _ & ->). rewrite Hu in Hu'. by simplify_eq.
  - exfalso. unfold advance_run in Ha.
    rewrite (proj2 (u64_checked_add_Some (run_revision t) 1 _) (conj eq_refl Hmax)) in Ha.
    cbn [ok_or mbind result_bind] in Ha. by rewrite Hu in Ha.
Qed.

Lemma materialize_succeeds t place oid digest rev ctx ids :
  zlen (run_events t) < MAX_GOVERNED_EVENTS →
  run_world_scope t = StagedAuthoritative → run_staged_worktree t = None →
  run_execution_state t = Registered → run_initial_subject_revision t = Some oid →
  expected_staged_worktree_root t = Ok place → path_is_absolute place = true →
  require_shared_config_digest (Recorded digest) = Ok tt →
  ∃ u s, apply_mutation (materialize_at place oid digest) rev ctx ids t = Ok u ∧
    run_world_scope u = StagedAuthoritative ∧ run_execution_state u = Registered ∧
    zlen (run_events u) = zlen (run_events t) + 1 ∧
    active_staged_worktree u = Some s ∧ staged_root s = place ∧
    staged_shared_config_digest s = Recorded digest.
Proof.
  intros Hcap Hsc Hst Hex Hoid Hplace Habs Hdig.
  unfold apply_mutation, require_capacity. rewrite (proj2 (Z.leb_gt _ _)) by done.
  cbn [reject_if mbind result_bind apply_arm materialize_at].
  unfold apply_materialize_staged_worktree, require_expected_staged_root.
  cbn [staged_input_actor staged_input_root staged_input_initial_subject_revision
       staged_input_shared_config_digest].
  rewrite daemon_actor_ok, Hsc, Hst, Hex, Hoid, Hplace.
  cbn [ok_or map_err mbind result_bind]. rewrite !bool_decide_eq_false_2 by (by intros []).
  rewrite Habs, path_eqb_refl, Hdig. cbn [negb orb reject_if mbind result_bind].
  do 2 eexists. split_and!; [reflexivity|done|done|apply zlen_snoc|done..].
Qed.

Lemma start_succeeds t s rev now authentication ids :
  zlen (run_events t) < MAX_GOVERNED_EVENTS → run_execution_state t = Registered →
  active_staged_worktree t = Some s → pin_is_comparable (staged_shared_config_digest s) = true →
  ∃ u, apply_mutation (MarkRunning daemon_actor) rev (live_context now authentication) ids t = Ok u ∧
    active_staged_worktree u = Some s.
Proof.
  intros Hcap Hex Hact Hpin.
  unfold apply_mutation, require_capacity. rewrite (proj2 (Z.leb_gt _ _)) by done.
  cbn [reject_if mbind result_bind apply_arm]. unfold apply_mark_running.
  rewrite daemon_actor_ok, Hex, Hact, Hpin. cbn [mbind result_bind].
  rewrite (bool_decide_eq_false_2 (Registered ≠ Registered)) by (by intros []).
  cbn [reject_if negb mbind result_bind].
  destruct (_ && _); eexists; (split; [reflexivity|exact Hact]).
Qed.
End launch.

(** * The properties *)

Section properties.
Context `{Host}.
Implicit Types (t : GovernedTaskRun).

(** A project id is one or more nonempty runs of lowercase letters and
    digits joined by single hyphens, and sanitizing one again changes
    nothing. *)
Theorem sanitize_id_is_canonical input :
  (∃ segments, segments ≠ [] ∧ Forall name_segment segments ∧
               sanitize_id input = join_with (lit "-") segments) ∧
  sanitize_id (sanitize_id input) = sanitize_id input.
Proof.
  destruct (sanitize_id_segments input) as (segments & Hne & Hall & Heq).
  split; [by exists segments|]. rewrite Heq. by apply sanitize_join.
Qed.

(** A run's divergence between claim and evidence follows its review: none
    once the latest claim passed verification (waiting for the supervisor or
    the operator, accepted or rejected), and the latest claim's when that
    verification did not pass. *)
Theorem divergence_follows_review t :
  run_reachable t →
  match run_review_state t with
  | AwaitingSupervisor | AwaitingOperator | Accepted | Rejected =>
      claim_evidence_divergence t = None
  | VerificationFailed =>
      ∃ c p, latest_claim t = Some c ∧ claim_evidence_divergence t = Some p ∧
             promise_claim_id p = claim_id c ∧ promise_latest_evidence_outcome p ≠ Some Passed
  | _ => True
  end.
Proof.
  intros Ht. pose proof (wf_review t (reachable_wf t Ht)) as He. unfold review_evidence in He.
  destruct (run_review_state t); try done.
  - destruct He as (c & v & Hver & Hout).
    destruct (verified_divergence t c v Hver) as (p & Hid & Hlat & ->).
    exists c, p. rewrite decide_False by done. split_and!; [by destruct Hver|done..|].
    rewrite Hlat. congruence.
  - destruct He as (c & v & Hver & []).
    destruct (verified_divergence t c v Hver) as (p & _ & _ & ->). by rewrite decide_True.
  - destruct He as (c & v & d & [Hver [] ]).
    destruct (verified_divergence t c v Hver) as (p & _ & _ & ->). by rewrite decide_True.
  - destruct He as (c & v & d & o & [[Hver [] ] ]).
    destruct (verified_divergence t c v Hver) as (p & _ & _ & ->). by rewrite decide_True.
  - destruct He as (c & v & d & o & [[Hver [] ] ]).
    destruct (verified_divergence t c v Hver) as (p & _ & _ & ->). by rewrite decide_True.
Qed.

(** Every staged registration that validates can be launched: the daemon
    can materialize its worktree at the registered commit with a current pin,
    then mark it running, and the runtime's directory is that worktree. *)
Theorem staged_registration_can_launch r root digest ids now authentication :
  validate_registration r = Ok tt → reg_world_scope r = StagedAuthoritative →
  path_is_absolute root = true →
  require_shared_config_digest (Recorded digest) = Ok tt → is_current_scheme digest = true →
  ∃ oid place t1 t2,
    let t0 := registered_run (set_workspace_root root r) ids now in
    reg_initial_subject_revision r = Some oid ∧ expected_staged_worktree_root t0 = Ok place ∧
    advance_run (materialize_at place oid digest) authentication ids now t0 = Ok t1 ∧
    advance_run (MarkRunning daemon_actor) authentication ids now t1 = Ok t2 ∧
    launch_working_directory t2 = Ok place.
Proof.
  intros Hv Hsc Habs Hdig Hcur. destruct (validated_staged r Hv Hsc) as (Hseg & oid & Hoid & _).
  set (t0 := registered_run (set_workspace_root root r) ids now).
  assert (expected_staged_worktree_root t0 = Ok (path_join (path_join (path_join root
    (lit ".impulse")) (lit "worktrees")) (reg_task_id r))) as Hplace
    by (unfold expected_staged_worktree_root; cbn [run_id t0 registered_run reg_task_id
          set_workspace_root]; by rewrite Hseg).
  set (place := path_join _ (reg_task_id r)) in Hplace.
  assert (path_is_absolute place = true) as Hpabs by (by repeat apply path_join_absolute).
  destruct (materialize_succeeds t0 place oid digest 1 (live_context now authentication) ids)
    as (u1 & w & Hu1 & Hsc1 & Hex1 & Hev1 & Hact1 & Hroot & Hpin); try done.
  destruct (start_succeeds (set_updated_at now (set_revision 1 u1)) w 2 now authentication ids)
    as (u2 & Hu2 & Hact2); try done.
  { cbn [run_events set_updated_at set_revision]. by rewrite Hev1. }
  { unfold pin_is_comparable, pin_comparable. by rewrite Hpin; cbn; rewrite Hcur. }
  exists oid, place, (set_updated_at now (set_revision 1 u1)),
    (set_updated_at now (set_revision 2 u2)).
  split_and!; [done|done|by apply advance_run_intro|by apply advance_run_intro|].
  unfold launch_working_directory.
  change (active_staged_worktree (set_updated_at now (set_revision 2 u2)))
    with (active_staged_worktree u2). by rewrite Hact2, Hroot.
Qed.
End properties.

(** * On the sample runs *)

Definition sample_refuted : GovernedTaskRun :=
  sample_run StagedAuthoritative (sample_launch ++ [sample_claim; sample_verification 3 false]).

Lemma divergence_follows_review_witness :
  claim_evidence_divergence sample_accepted = None ∧
  ∃ p, claim_evidence_divergence sample_refuted = Some p.
Proof.
  assert (run_reachable sample_accepted) as Ha by sample_reached.
  assert (run_reachable sample_refuted) as Hr by sample_reached.
  assert (run_review_state sample_accepted = Accepted) as Hsa by (vm_compute; reflexivity).
  assert (run_review_state sample_refuted = VerificationFailed) as Hsr
    by (vm_compute; reflexivity).
  apply divergence_follows_review in Ha. apply divergence_follows_review in Hr.
  rewrite Hsa in Ha. rewrite Hsr in Hr. destruct Hr as (c & p & _ & Hp & _).
  split; [exact Ha|by exists p].
Defined.

Lemma staged_registration_can_launch_witness :
  ∃ place t, launch_working_directory t = Ok place ∧
    expected_staged_worktree_root (sample_run0 StagedAuthoritative) = Ok place.
Proof.
  destruct (staged_registration_can_launch (sample_registration StagedAuthoritative)
    (lit "/srv/demo") (digest_current sample_sha None None) (sample_ids 0) (sample_time 0) Declared)
    as (oid & place & t1 & t2 & _ & Hp & _ & _ & Hl).
  - by vm_compute.
  - reflexivity.
  - by vm_compute.
  - by vm_compute.
  - by vm_compute.
  - exists place, t2. split; [exact Hl|exact Hp].
Defined.
