(* ===== verification/ReplayProps.v ===== *)
(** What loading a stored run establishes: the reload validation replays the
    recorded events, so a run it accepts has the evidence its review state
    claims, in its stored records. *)
From S2P Require Export LedgerProps.
Local Open Scope Z_scope.

Section replay.
Context `{Host}.
Implicit Types (task t p : GovernedTaskRun) (st : ReplayState) (e : GovernedTaskEvent).

(** ** Records up to their ids *)

Record claim_like (c d : WorkerCompletionClaim) : Prop := {
  cl_actor : claim_actor c = claim_actor d;
  cl_subject : claim_subject_revision c = claim_subject_revision d
}.
Record verification_like (v w : GovernedVerification) : Prop := {
  vl_actor : verification_actor v = verification_actor w;
  vl_subject : verification_subject_revision v = verification_subject_revision w;
  vl_outcome : verification_outcome v = verification_outcome w;
  vl_commands : verification_commands v = verification_commands w
}.
Record verdict_like (v w : SupervisorVerdict) : Prop := {
  dl_actor : verdict_actor v = verdict_actor w;
  dl_verdict : verdict_verdict v = verdict_verdict w
}.
Record decision_like (o u : OperatorDecision) : Prop := {
  ol_actor : decision_actor o = decision_actor u;
  ol_decision : decision_decision o = decision_decision u
}.

(** ** Links between the stored records *)

Definition verification_linked (cs : list WorkerCompletionClaim)
    (vs : list GovernedVerification) : Prop :=
  ∀ c v, last cs = Some c → last vs = Some v → verification_claim_id v = claim_id c.
Definition verdict_linked (vs : list GovernedVerification) (ds : list SupervisorVerdict) : Prop :=
  ∀ v d, last vs = Some v → last ds = Some d → verdict_verification_id d = verification_id v.
Definition decision_linked (ds : list SupervisorVerdict) (os : list OperatorDecision) : Prop :=
  ∀ d o, last ds = Some d → last os = Some o → decision_supervisor_verdict_id o = verdict_id d.

(** The links each review state relies on. *)
Definition records_linked (r : GovernedReviewState) cs vs ds os : Prop :=
  match r with
  | AwaitingSupervisor | VerificationFailed => verification_linked cs vs
  | AwaitingOperator => verification_linked cs vs ∧ verdict_linked vs ds
  | Accepted | Rejected =>
      verification_linked cs vs ∧ verdict_linked vs ds ∧ decision_linked ds os
  | _ => True
  end.

(** The replay so far: the projection is a well-formed run whose records are
    the stored ones up to ids, and the stored ones are linked. *)
Record replayed task st : Prop := {
  re_wf : run_wf (rp_projection st);
  re_agent : run_agent_id (rp_projection st) = run_agent_id task;
  re_claims :
    Forall2 claim_like (run_claims (rp_projection st)) (take (rp_claim_index st) (run_claims task));
  re_verifications :
    Forall2 verification_like (run_verifications (rp_projection st))
      (take (rp_verification_index st) (run_verifications task));
  re_verdicts :
    Forall2 verdict_like (run_supervisor_verdicts (rp_projection st))
      (take (rp_supervisor_index st) (run_supervisor_verdicts task));
  re_decisions :
    Forall2 decision_like (run_operator_decisions (rp_projection st))
      (take (rp_operator_index st) (run_operator_decisions task));
  re_linked :
    records_linked (run_review_state (rp_projection st))
      (take (rp_claim_index st) (run_claims task))
      (take (rp_verification_index st) (run_verifications task))
      (take (rp_supervisor_index st) (run_supervisor_verdicts task))
      (take (rp_operator_index st) (run_operator_decisions task))
}.

Lemma take_snoc {A} (l : list A) i x : l !! i = Some x → take (i + 1) l = take i l ++ [x].
Proof. rewrite Nat.add_1_r. apply take_S_r. Qed.

Lemma last_take {A} (l : list A) i x :
  l !! Nat.pred i = Some x → take i l ≠ [] → last (take i l) = Some x.
Proof.
  intros Hx Hne. destruct i as [|i]; [done|]. cbn in Hx. by rewrite (take_S_r _ _ _ Hx), last_snoc.
Qed.

(** ** What replaying a record yields *)

Lemma validate_record_link_seen id a n ts e st st' :
  validate_record_link id a n ts e st = Ok st' → ∃ seen, st' = rp_set_seen seen st.
Proof.
  unfold validate_record_link, insert_seen, bail_if. intros. result_inv. eauto.
Qed.

(** A run nothing was recorded of yet. *)
Record blank t : Prop := {
  bl_execution : run_execution_state t = Registered;
  bl_exit : run_exit_kind t = Natural;
  bl_review : run_review_state t = AwaitingClaim;
  bl_staged : run_staged_worktree t = None;
  bl_promotions : run_promotions t = [];
  bl_claims : run_claims t = [];
  bl_verifications : run_verifications t = [];
  bl_verdicts : run_supervisor_verdicts t = [];
  bl_decisions : run_operator_decisions t = []
}.

Lemma blank_wf t : blank t → run_wf t.
Proof.
  intros [He Hx Hr Hst Hp Hc Hv Hd Ho]. split.
  - rewrite Hc. constructor.
  - unfold review_evidence. by rewrite Hr.
  - done.
  - done.
  - done.
  - by rewrite Hst.
  - by apply promotions_wf_nil.
Qed.

Lemma initial_projection_blank task : blank (initial_projection task).
Proof. split; reflexivity. Qed.

Lemma initial_projection_agent task : run_agent_id (initial_projection task) = run_agent_id task.
Proof. reflexivity. Qed.

Lemma initial_replayed task first : replayed task (initial_replay_state task first).
Proof.
  pose proof (initial_projection_blank task) as Hbl. pose proof (initial_projection_agent task) as Ha.
  unfold initial_replay_state. generalize dependent (initial_projection task). intros q Hbl Ha.
  pose proof (blank_wf q Hbl). destruct Hbl as [_ _ Hr _ _ Hc Hv Hd Ho].
  split; cbn [rp_projection rp_claim_index rp_verification_index
    rp_supervisor_index rp_operator_index take]; rewrite ?Hc, ?Hv, ?Hd, ?Ho, ?Hr; done.
Qed.

Definition same_indices st st' : Prop :=
  rp_claim_index st' = rp_claim_index st ∧
  rp_verification_index st' = rp_verification_index st ∧
  rp_supervisor_index st' = rp_supervisor_index st ∧
  rp_operator_index st' = rp_operator_index st.

(** A mutation that records nothing for review. *)
Lemma replayed_frame task st st' :
  same_review (rp_projection st) (rp_projection st') → run_wf (rp_projection st') →
  same_indices st st' → replayed task st → replayed task st'.
Proof.
  intros [Ha Hs Hc Hv Hd Ho] Hwf (E1 & E2 & E3 & E4) [].
  split; rewrite ?Ha, ?Hs, ?Hc, ?Hv, ?Hd, ?Ho, ?E1, ?E2, ?E3, ?E4; done.
Qed.

Lemma lifecycle_arm_same_review m rev ctx ids t t' :
  match m with
  | SubmitClaim _ | RecordVerification _ | RecordSupervisorVerdict _
  | RecordOperatorDecision _ => False
  | _ => True
  end →
  apply_mutation m rev ctx ids t = Ok t' → same_review t t'.
Proof. intros Hk Hm. mutation_inv Hm; try done; by split. Qed.

(** The review part of the four recording arms. *)
Lemma claim_arm_effect claim rev ctx ids t t' :
  apply_mutation (SubmitClaim claim) rev ctx ids t = Ok t' →
  (run_review_state t' = AwaitingVerification ∨ run_review_state t' = Escalated) ∧
  run_agent_id t' = run_agent_id t ∧
  (∃ r, run_claims t' = run_claims t ++ [r] ∧ claim_actor r = claim_input_actor claim ∧
        claim_subject_revision r = claim_input_subject_revision claim) ∧
  run_verifications t' = run_verifications t ∧
  run_supervisor_verdicts t' = run_supervisor_verdicts t ∧
  run_operator_decisions t' = run_operator_decisions t.
Proof. intros Hm. mutation_inv Hm; run_simpl; split_and!; eauto. Qed.

Lemma verification_arm_effect (v : GovernedVerificationInput) rev ctx ids t t' :
  apply_mutation (RecordVerification v) rev ctx ids t = Ok t' →
  (run_review_state t' = AwaitingSupervisor ∨ run_review_state t' = VerificationFailed) ∧
  run_agent_id t' = run_agent_id t ∧ run_claims t' = run_claims t ∧
  (∃ r, run_verifications t' = run_verifications t ++ [r] ∧
        verification_actor r = verification_input_actor v ∧
        verification_subject_revision r = verification_input_subject_revision v ∧
        verification_outcome r = verification_input_outcome v ∧
        verification_commands r = verification_input_commands v) ∧
  run_supervisor_verdicts t' = run_supervisor_verdicts t ∧
  run_operator_decisions t' = run_operator_decisions t.
Proof.
  intros Hm. mutation_inv Hm; run_simpl; split_and!; try done.
  - destruct (verification_input_outcome v); [by left|by right..].
  - eexists. by split_and!.
Qed.

Lemma verdict_arm_effect (v : SupervisorVerdictInput) rev ctx ids t t' :
  apply_mutation (RecordSupervisorVerdict v) rev ctx ids t = Ok t' →
  run_review_state t' = review_state_of_verdict (verdict_input_verdict v) ∧
  (run_review_state t = AwaitingSupervisor ∨ run_review_state t = VerificationFailed) ∧
  run_agent_id t' = run_agent_id t ∧ run_claims t' = run_claims t ∧
  run_verifications t' = run_verifications t ∧
  (∃ r, run_supervisor_verdicts t' = run_supervisor_verdicts t ++ [r] ∧
        verdict_actor r = verdict_input_actor v ∧ verdict_verdict r = verdict_input_verdict v) ∧
  run_operator_decisions t' = run_operator_decisions t.
Proof. intros Hm. mutation_inv Hm; bool_inv; run_simpl; split_and!; try done; eexists; by split_and!. Qed.

Lemma decision_arm_effect (d : OperatorDecisionInput) rev ctx ids t t' :
  apply_mutation (RecordOperatorDecision d) rev ctx ids t = Ok t' →
  run_review_state t' = match decision_input_decision d with
                        | Approve => Accepted | Reject => Rejected end ∧
  run_review_state t = AwaitingOperator ∧
  run_agent_id t' = run_agent_id t ∧ run_claims t' = run_claims t ∧
  run_verifications t' = run_verifications t ∧
  run_supervisor_verdicts t' = run_supervisor_verdicts t ∧
  (∃ r, run_operator_decisions t' = run_operator_decisions t ++ [r] ∧
        decision_actor r = decision_input_actor d ∧
        decision_decision r = decision_input_decision d).
Proof. intros Hm. mutation_inv Hm; bool_inv; run_simpl; split_and!; try done; eexists; by split_and!. Qed.

(** ** Replaying one record *)

(** Open the replay of a record: its stored record is [Hi : _ !! _ = Some r]. *)
Ltac replay_open Hr Hm :=
  unfold replay_claim, replay_verification, replay_verdict, replay_decision, bail_if in Hr;
  result_inv; bool_inv;
  match goal with H : validate_record_link _ _ _ _ _ _ = Ok _ |- _ =>
    apply validate_record_link_seen in H as (? & ->) end;
  match goal with H : (_, _) = (_, _) |- _ => injection H as <- <- end;
  cbn [replayed_mutation replay_same rp_bump rp_set_seen rp_projection rp_claim_index
    rp_verification_index rp_supervisor_index rp_operator_index] in *.
Ltac replay_split :=
  split; cbn [rp_set_projection rp_bump rp_set_seen rp_projection rp_claim_index
    rp_verification_index rp_supervisor_index rp_operator_index]; rewrite ?Nat.add_0_r;
    try done; try congruence.

Lemma replay_claim_replayed task e st rep st1 rev ctx ids p :
  replayed task st → replay_claim task e st = Ok (rep, st1) →
  apply_mutation (replayed_mutation rep) rev ctx ids (rp_projection st1) = Ok p →
  replayed task (rp_set_projection p st1).
Proof.
  intros Hre Hr Hm. replay_open Hr Hm.
  match goal with H : run_claims task !! _ = Some ?x |- _ => rename H into Hi end.
  pose proof (apply_mutation_wf _ _ _ _ _ _ Hm (re_wf _ _ Hre)) as Hwf.
  apply claim_arm_effect in Hm as (Hst & Ha & (r & Hc & Hra & Hrs) & Hv & Hd & Ho).
  destruct Hre as [_ Hagent Hcs Hvs Hds Hos Hlink]. replay_split.
  - rewrite Hc, (take_snoc _ _ _ Hi). apply Forall2_app; [done|]. by repeat constructor.
  - by destruct Hst as [-> | ->].
Qed.

Lemma replay_verification_replayed task e st rep st1 rev ctx ids p :
  replayed task st → replay_verification task e st = Ok (rep, st1) →
  apply_mutation (replayed_mutation rep) rev ctx ids (rp_projection st1) = Ok p →
  replayed task (rp_set_projection p st1).
Proof.
  intros Hre Hr Hm. replay_open Hr Hm.
  match goal with H : run_verifications task !! _ = Some ?x |- _ => rename H into Hi end.
  match goal with H : run_claims task !! _ = Some ?x |- _ => rename H into Hci end.
  pose proof (apply_mutation_wf _ _ _ _ _ _ Hm (re_wf _ _ Hre)) as Hwf.
  apply verification_arm_effect in Hm as (Hst & Ha & Hc & (r & Hv & ? & ? & ? & ?) & Hd & Ho).
  destruct Hre as [_ Hagent Hcs Hvs Hds Hos Hlink]. replay_split.
  - rewrite Hv, (take_snoc _ _ _ Hi). apply Forall2_app; [done|]. by repeat constructor.
  - cut (verification_linked (take (rp_claim_index st) (run_claims task))
           (take (rp_verification_index st + 1) (run_verifications task)));
      [by destruct Hst as [-> | ->]|].
    intros c v Hlc. rewrite (take_snoc _ _ _ Hi), last_snoc. intros [= <-].
    rewrite (last_take _ _ _ Hci) in Hlc by (by intros Hn; rewrite Hn in Hlc).
    by injection Hlc as <-.
Qed.

Lemma replay_verdict_replayed task e st rep st1 rev ctx ids p :
  replayed task st → replay_verdict task e st = Ok (rep, st1) →
  apply_mutation (replayed_mutation rep) rev ctx ids (rp_projection st1) = Ok p →
  replayed task (rp_set_projection p st1).
Proof.
  intros Hre Hr Hm. replay_open Hr Hm.
  match goal with H : run_supervisor_verdicts task !! _ = Some ?x |- _ => rename H into Hi end.
  match goal with H : run_verifications task !! _ = Some ?x |- _ => rename H into Hvi end.
  pose proof (apply_mutation_wf _ _ _ _ _ _ Hm (re_wf _ _ Hre)) as Hwf.
  apply verdict_arm_effect in Hm as (Hst & Hfrom & Ha & Hc & Hv & (r & Hd & ? & ?) & Ho).
  destruct Hre as [_ Hagent Hcs Hvs Hds Hos Hlink]. replay_split.
  - rewrite Hd, (take_snoc _ _ _ Hi). apply Forall2_app; [done|]. by repeat constructor.
  - assert (verification_linked (take (rp_claim_index st) (run_claims task))
           (take (rp_verification_index st) (run_verifications task))) as Hver
      by (by destruct Hfrom as [Hf|Hf]; rewrite Hf in Hlink).
    rewrite Hst. destruct (verdict_input_verdict _); [|done..]. split; [done|].
    intros v d Hlv. rewrite (take_snoc _ _ _ Hi), last_snoc. intros [= <-].
    rewrite (last_take _ _ _ Hvi) in Hlv by (by intros Hn; rewrite Hn in Hlv).
    by injection Hlv as <-.
Qed.

Lemma replay_decision_replayed task e st rep st1 rev ctx ids p :
  replayed task st → replay_decision task e st = Ok (rep, st1) →
  apply_mutation (replayed_mutation rep) rev ctx ids (rp_projection st1) = Ok p →
  replayed task (rp_set_projection p st1).
Proof.
  intros Hre Hr Hm. replay_open Hr Hm.
  match goal with H : run_operator_decisions task !! _ = Some ?x |- _ => rename H into Hi end.
  match goal with H : run_supervisor_verdicts task !! _ = Some ?x |- _ => rename H into Hdi end.
  pose proof (apply_mutation_wf _ _ _ _ _ _ Hm (re_wf _ _ Hre)) as Hwf.
  apply decision_arm_effect in Hm as (Hst & Hfrom & Ha & Hc & Hv & Hd & (r & Ho & ? & ?)).
  destruct Hre as [_ Hagent Hcs Hvs Hds Hos Hlink]. rewrite Hfrom in Hlink. replay_split.
  - rewrite Ho, (take_snoc _ _ _ Hi). apply Forall2_app; [done|]. by repeat constructor.
  - destruct Hlink as [Hver Hvd].
    cut (decision_linked (take (rp_supervisor_index st) (run_supervisor_verdicts task))
           (take (rp_operator_index st + 1) (run_operator_decisions task)));
      [by rewrite Hst; destruct (decision_input_decision _)|].
    intros d o Hld. rewrite (take_snoc _ _ _ Hi), last_snoc. intros [= <-].
    rewrite (last_take _ _ _ Hdi) in Hld by (by intros Hn; rewrite Hn in Hld).
    by injection Hld as <-.
Qed.

(** ** The loop *)

Lemma replayed_set_fingerprints task fps st :
  replayed task st → replayed task (rp_set_fingerprints fps st).
Proof. intros []. by split. Qed.
Lemma replayed_set_seen task seen st : replayed task st → replayed task (rp_set_seen seen st).
Proof. intros []. by split. Qed.

Lemma replayed_set_revision task n st :
  replayed task st → replayed task (rp_set_projection (set_revision n (rp_projection st)) st).
Proof.
  intros Hre. apply (replayed_frame task st); [by split| |done|done].
  apply (run_wf_stamp n (run_updated_at (rp_projection st))). by apply re_wf in Hre.
Qed.

Lemma replay_check_event_replayed task i e st st' :
  replay_check_event i e st = Ok st' → replayed task st → replayed task st'.
Proof.
  unfold replay_check_event, insert_seen, bail_if. intros Hc Hre. result_inv.
  by apply replayed_set_revision, replayed_set_seen.
Qed.

(** An event without a review record: the mutation is one of the eight that
    record none, and no review index moves. *)
Lemma replay_other_replayed task st st1 m rev ctx ids p :
  match m with
  | SubmitClaim _ | RecordVerification _ | RecordSupervisorVerdict _
  | RecordOperatorDecision _ => False
  | _ => True
  end →
  same_indices st st1 → rp_projection st1 = rp_projection st → replayed task st →
  apply_mutation m rev ctx ids (rp_projection st1) = Ok p →
  replayed task (rp_set_projection p st1).
Proof.
  intros Hk Hix Hp Hre Hm. rewrite Hp in Hm. apply (replayed_frame task st); [| |done|done].
  - by eapply lifecycle_arm_same_review.
  - eapply apply_mutation_wf; [done|by apply re_wf in Hre].
Qed.

Lemma replay_event_mutation_replayed task e st rep st1 rev ctx ids p :
  replayed task st → replay_event_mutation task e st = Ok (rep, st1) →
  apply_mutation (replayed_mutation rep) rev ctx ids (rp_projection st1) = Ok p →
  replayed task (rp_set_projection p st1).
Proof.
  intros Hre Hr Hm. unfold replay_event_mutation in Hr.
  destruct (event_kind e); try (unfold bail in Hr; discriminate Hr);
    eauto using replay_claim_replayed, replay_verification_replayed, replay_verdict_replayed,
      replay_decision_replayed;
    unfold replay_staged_materialized, replay_staged_discarded, replay_promotion, bail_if in Hr;
    result_inv; simplify_eq;
    try match goal with H : validate_record_link _ _ _ _ _ _ = Ok _ |- _ =>
      apply validate_record_link_seen in H as (? & ->) end;
    (eapply replay_other_replayed; [| | |exact Hre|exact Hm]);
    try exact I; try reflexivity; unfold same_indices; cbn; lia.
Qed.

Lemma replay_event_replayed task uuids i e st st' :
  replayed task st → replay_event task uuids i e st = Ok st' → replayed task st'.
Proof.
  unfold replay_event, with_context, bail_if. intros Hre Hr. result_inv.
  match goal with H : replay_check_event _ _ _ = Ok ?x |- _ =>
    apply (replay_check_event_replayed task) in H; [rename H into Hc|done] end.
  match goal with H : replay_event_mutation _ _ _ = Ok ?x |- _ =>
    destruct x as [rep st1]; rename H into Hrep end.
  match goal with H : apply_mutation _ _ _ _ _ = Ok ?x |- _ => rename H into Hm end.
  cbn [fst snd rp_set_fingerprints rp_projection] in *.
  pose proof (replay_event_mutation_replayed _ _ _ _ _ _ _ _ _ Hc Hrep Hm) as Hp.
  apply (replayed_set_revision task (event_revision e)) in Hp.
  exact (replayed_set_fingerprints task _ _ Hp).
Qed.

Lemma replay_events_replayed task uuids i es st st' :
  replayed task st → replay_events task uuids i es st = Ok st' → replayed task st'.
Proof.
  revert i st. induction es as [|e es IH]; intros i st Hre Hr; cbn [replay_events] in Hr;
    [by simplify_eq|].
  result_inv. eapply IH; [|done]. by eapply replay_event_replayed.
Qed.

(** What validation leaves: a replayed state that covers every record and ends
    in the stored review state. *)
Lemma validated_history_replayed task uuids fps :
  validate_task_history task uuids = Ok fps →
  ∃ st, replayed task st ∧ run_review_state (rp_projection st) = run_review_state task ∧
    rp_claim_index st = length (run_claims task) ∧
    rp_verification_index st = length (run_verifications task) ∧
    rp_supervisor_index st = length (run_supervisor_verdicts task) ∧
    rp_operator_index st = length (run_operator_decisions task).
Proof.
  unfold validate_task_history. intros Hv. result_inv.
  destruct (run_events task) as [|first es]; [done|]. result_inv.
  match goal with H : replay_events _ _ _ _ _ = Ok ?x |- _ =>
    exists x; apply (replay_events_replayed task) in H; [|apply initial_replayed] end.
  unfold validate_replayed_state, bail_if in *. result_inv. bool_inv.
  repeat match goal with H : Nat.eqb _ _ = true |- _ => apply Nat.eqb_eq in H end.
  repeat match goal with H : (_ || _) = false |- _ => apply orb_false_iff in H as [? ?] end.
  bool_inv. repeat match goal with H : Nat.eqb _ _ = true |- _ => apply Nat.eqb_eq in H end.
  done.
Qed.

Lemma Forall2_last {A B} (R : A → B → Prop) l k x :
  Forall2 R l k → last l = Some x → ∃ y, last k = Some y ∧ R x y.
Proof.
  intros Hall [l' ->]%last_Some. apply Forall2_app_inv_l in Hall as (k1 & k2 & _ & H2 & ->).
  apply Forall2_cons_inv_l in H2 as (y & k3 & Hxy & ->%Forall2_nil_inv_l & ->).
  exists y. split; [apply last_snoc|done].
Qed.
End replay.

(** * The properties *)

Section properties.
Context `{Host}.

(** C3: a stored run that passes reload validation with an accepted review has
    the chain of evidence in its stored records, linked by their stored ids,
    whoever wrote the file: a run marked accepted without a worker's claim, a
    passing verification with command evidence, a supervisor's recommendation
    and one operator approval is rejected. *)
Theorem validated_acceptance_has_evidence task uuids fps :
  validate_task_history task uuids = Ok fps → is_accepted task = true →
  ∃ c v d o,
    latest_claim task = Some c ∧ actor_kind (claim_actor c) = Worker ∧
    actor_id (claim_actor c) = run_agent_id task ∧
    latest_verification task = Some v ∧ actor_kind (verification_actor v) = Verifier ∧
    verification_claim_id v = claim_id c ∧
    verification_subject_revision v = claim_subject_revision c ∧
    verification_outcome v = Passed ∧ verification_commands v ≠ [] ∧
    Forall (λ x, command_success x = true) (verification_commands v) ∧
    latest_supervisor_verdict task = Some d ∧ actor_kind (verdict_actor d) = Supervisor ∧
    verdict_verification_id d = verification_id v ∧ verdict_verdict d = RecommendAccept ∧
    run_operator_decisions task = [o] ∧ actor_kind (decision_actor o) = Operator ∧
    decision_supervisor_verdict_id o = verdict_id d ∧ decision_decision o = Approve.
Proof.
  intros Hv Ha. unfold is_accepted in Ha. bool_inv.
  apply validated_history_replayed in Hv as (st & Hre & Hst & Hci & Hvi & Hsi & Hoi).
  destruct Hre as [Hwf Hagent Hcs Hvs Hds Hos Hlink].
  rewrite Hci, Hvi, Hsi, Hoi, !firstn_all in *. rewrite Ha in Hst.
  rewrite Hst in Hlink. destruct Hlink as (Hlv & Hld & Hlo).
  pose proof (wf_review _ Hwf) as He. unfold review_evidence in He. rewrite Hst in He.
  destruct He as (c & v & d & o & [[[Hc [Hck Hcid] Hvl Hvk Hvid Hvs'] [Hp1 Hp2 Hp3] Hdl Hdk Hdid Hdv] Ho Hok Hoid Hod]).
  destruct (Forall2_last _ _ _ _ Hcs Hc) as (c' & Hc' & [Hca Hcsub]).
  destruct (Forall2_last _ _ _ _ Hvs Hvl) as (v' & Hv' & [Hva Hvsub Hvout Hvcmd]).
  destruct (Forall2_last _ _ _ _ Hds Hdl) as (d' & Hd' & [Hda Hdver]).
  rewrite Ho in Hos. apply Forall2_cons_inv_l in Hos as (o' & os & [Hoa Hodec] & Hos & Ho').
  apply Forall2_nil_inv_l in Hos as ->.
  exists c', v', d', o'. unfold latest_claim, latest_verification, latest_supervisor_verdict.
  split_and!; try done; try congruence.
  - by apply (Hlv c' v').
  - by apply (Hld v' d').
  - apply (Hlo d' o'); [done|]. by rewrite Ho'.
Qed.
End properties.

(** * On the sample run *)

Definition sample_replay_ids (n : Z) : FreshIds := sample_ids (100 + n).

Lemma validated_acceptance_has_evidence_witness :
  ∃ c v, latest_claim sample_accepted = Some c ∧ latest_verification sample_accepted = Some v ∧
         verification_claim_id v = claim_id c ∧ verification_outcome v = Passed.
Proof.
  assert (∃ fps, validate_task_history sample_accepted sample_replay_ids = Ok fps) as [fps Hv]
    by (apply is_ok_true; vm_compute; reflexivity).
  destruct (validated_acceptance_has_evidence sample_accepted sample_replay_ids fps Hv)
    as (c & v & d & o & Hc & _ & _ & Hvl & _ & Hid & _ & Ho & _); [by vm_compute|].
  exists c, v. exact (conj Hc (conj Hvl (conj Hid Ho))).
Defined.
