(* ===== verification/EventText.v ===== *)
(** The texts the ledger writes into event details: each is admissible to the
    checks a reload makes of it, whatever the mutation. *)
From S2P Require Export BuilderLoopProps.
Local Open Scope Z_scope.

(** * Bounded texts *)

(** At most [n] bytes, without NUL. *)
Record printable (n : Z) (s : rstring) : Prop := {
  pr_nul : contains_nul s = false;
  pr_len : len s ≤ n
}.

Lemma printable_app a b s u : printable a s → printable b u → printable (a + b) (s ++ u).
Proof.
  intros [Hs Hls] [Hu Hlu]. split; [by rewrite contains_nul_app, Hs, Hu|]. rewrite len_app. lia.
Qed.

Lemma printable_mono a b s : printable a s → a ≤ b → printable b s.
Proof. intros [Hn Hl] Hab. split; [done|lia]. Qed.

(** A text is printable in its length. *)
Lemma printable_self s : contains_nul s = false → printable (len s) s.
Proof. done. Qed.

Lemma nonblank_app s u : is_empty (trim s) = false → is_empty (trim (s ++ u)) = false.
Proof.
  intros Hs. destruct (is_empty (trim (s ++ u))) eqn:He; [|done].
  apply is_empty_true, trim_nil, Forall_app in He as [He _].
  apply trim_nil in He. by rewrite He in Hs.
Qed.

Lemma require_text_Ok label s :
  require_text label s = Ok tt ↔ is_empty (trim s) = false ∧ printable MAX_REASON_BYTES s.
Proof.
  unfold require_text, require_bounded_text. rewrite reject_if_Ok, !orb_false_iff, Z.ltb_ge.
  split; [intros [[? ?] ?]; by repeat split|intros [? [? ?]]; by repeat split].
Qed.

Lemma require_text_relabel label label' s :
  require_text label s = Ok tt → require_text label' s = Ok tt.
Proof. by rewrite !require_text_Ok. Qed.

(** ** Numbers *)

Lemma pretty_N_go_app x s :
  ∃ ds, String.list_ascii_of_string (pretty_N_go x s) = ds ++ String.list_ascii_of_string s ∧
    Forall (λ c, Ascii.nat_of_ascii c ≠ 0%nat ∧ (Ascii.nat_of_ascii c < 128)%nat) ds ∧
    (x ≠ 0%N → Z.of_nat (length ds) ≤ Z.of_N (N.log2 x) + 1) ∧ (x = 0%N → ds = []).
Proof.
  revert s. induction (N.lt_wf_0 x) as [x _ IH]; intros s.
  destruct (decide (x = 0%N)) as [->|Hx]; [by exists []|].
  rewrite pretty_N_go_step by (destruct x; [done|lia]).
  assert (0 < x)%N as Hpos by (destruct x; [done|lia]).
  assert (x `div` 10 < x)%N as Hlt by (by apply N.div_lt).
  destruct (IH (x `div` 10)%N Hlt
    (String.String (pretty_N_char (x `mod` 10)) s)) as (ds & Heq & Hall & Hlen & Hz).
  exists (ds ++ [pretty_N_char (x `mod` 10)]). split_and!.
  - by rewrite Heq, <-app_assoc.
  - apply Forall_app. split; [done|]. constructor; [|done].
    unfold pretty_N_char. repeat case_match; (split; [discriminate|vm_compute; lia]).
  - intros _. rewrite length_app. cbn [length].
    destruct (decide (x `div` 10 = 0)%N) as [H0|Hne].
    + rewrite (Hz H0). cbn. lia.
    + specialize (Hlen Hne).
      assert (N.log2 (x `div` 10) + 1 ≤ N.log2 x)%N; [|lia].
      rewrite N.add_1_r, <-N.log2_double by (destruct (x `div` 10)%N; [done|reflexivity]).
      apply N.log2_le_mono.
      pose proof (N.Div0.mul_div_le x 10). lia.
  - done.
Qed.

Lemma printable_ascii ds :
  Forall (λ c, Ascii.nat_of_ascii c ≠ 0%nat ∧ (Ascii.nat_of_ascii c < 128)%nat) ds →
  printable (Z.of_nat (length ds)) ((λ c, Z.of_nat (Ascii.nat_of_ascii c)) <$> ds).
Proof.
  intros Hall. split.
  - apply contains_nul_false, Forall_fmap. eapply Forall_impl; [exact Hall|]. cbn. lia.
  - assert (bytes ((λ c, Z.of_nat (Ascii.nat_of_ascii c)) <$> ds)
            = (λ c, Z.of_nat (Ascii.nat_of_ascii c)) <$> ds) as Hb.
    { induction Hall as [|c ds Hc _ IH]; [done|]. unfold bytes in *. cbn. rewrite IH.
      unfold utf8_encode. by rewrite (proj2 (Z.ltb_lt _ _)) by lia. }
    unfold len, zlen. rewrite Hb, length_fmap. lia.
Qed.

(** A [u64] has at most 64 digits. *)
Lemma printable_show_Z z : 0 ≤ z ≤ u64_max → printable 64 (show_Z z).
Proof.
  intros Hz. unfold show_Z, lit. destruct z as [|p|p]; [by split|..|lia].
  change (pretty (Z.pos p)) with (pretty_N (N.pos p)). unfold pretty_N. rewrite decide_False by done.
  destruct (pretty_N_go_app (N.pos p) "") as (ds & -> & Hall & Hlen & _).
  rewrite app_nil_r. eapply printable_mono; [by apply printable_ascii|].
  specialize (Hlen ltac:(done)).
  assert (N.log2 (N.pos p) < 64)%N; [|lia].
  apply N.log2_lt_pow2; [lia|]. unfold u64_max in Hz. lia.
Qed.

(** ** Signatures *)

Lemma elem_of_trim s c : c ∈ trim s → c ∈ s.
Proof.
  unfold trim. rewrite elem_of_reverse. intros Hc%drop_while_In. rewrite elem_of_reverse in Hc.
  by apply drop_while_In in Hc.
Qed.

Lemma elem_of_strip_trailing_cr s c : c ∈ strip_trailing_cr s → c ∈ s.
Proof.
  unfold strip_trailing_cr. destruct (reverse s) as [|x r] eqn:Hr; [done|].
  assert (c ∈ reverse r → c ∈ s) as Hin.
  { intros Hc. rewrite <-(reverse_involutive s), Hr, reverse_cons. by apply elem_of_app; left. }
  repeat case_match; auto.
Qed.

Lemma elem_of_str_lines s line c : line ∈ str_lines s → c ∈ line → c ∈ s.
Proof.
  unfold str_lines. destruct (reverse (split_on 10 [] s)) as [|final before] eqn:Hr;
    [by intros ?%elem_of_nil|].
  assert (∀ piece, piece ∈ final :: before → c ∈ piece → c ∈ s) as Hpiece.
  { intros piece Hp Hc. rewrite <-Hr, elem_of_reverse in Hp.
    by destruct (elem_of_split_on _ _ _ _ _ Hp Hc) as [?%elem_of_nil|]. }
  intros [Hin|Hin]%elem_of_app.
  - apply list_elem_of_fmap in Hin as (piece & -> & Hin). rewrite elem_of_reverse in Hin.
    intros Hc%elem_of_strip_trailing_cr. apply (Hpiece piece); [by right|done].
  - destruct final as [|x final]; [by apply elem_of_nil in Hin|].
    apply list_elem_of_singleton in Hin as ->. apply Hpiece. by left.
Qed.

Lemma printable_error_signature `{UnicodeTables} s :
  contains_nul s = false →
  printable (4 * Z.of_nat ERROR_SIGNATURE_MAX_CHARS) (error_signature s).
Proof.
  intros Hs. unfold error_signature. set (line := match _ with Some _ => _ | None => _ end).
  assert (∀ c, c ∈ line → c ∈ s) as Hline.
  { intros c. unfold line. destruct (List.find _ _) as [l|] eqn:Hf; [|apply elem_of_trim].
    apply find_some in Hf as [Hin _]. apply list_elem_of_In, list_elem_of_fmap in Hin as (l' & -> & Hin).
    intros Hc%elem_of_trim. by eapply elem_of_str_lines. }
  apply contains_nul_false in Hs. rewrite Forall_forall in Hs. split.
  - apply contains_nul_false, Forall_forall. intros c Hc.
    apply Hs, Hline. by apply (elem_of_take _ ERROR_SIGNATURE_MAX_CHARS) in Hc as (? & ?%list_elem_of_lookup_2 & _).
  - pose proof (len_bounds (take ERROR_SIGNATURE_MAX_CHARS line)) as [_ Hb].
    assert (zlen (take ERROR_SIGNATURE_MAX_CHARS line) ≤ Z.of_nat ERROR_SIGNATURE_MAX_CHARS); [|lia].
    unfold zlen. rewrite length_take. lia.
Qed.

(** * Event details *)

Section details.
Context `{Host}.
Implicit Types (t : GovernedTaskRun).

Definition signature_clean (v : GovernedVerification) : Prop :=
  ∀ s, verification_failure_signature v = Some s → contains_nul s = false.

Lemma bounded_text_clean label s n : require_bounded_text label s n = Ok tt → contains_nul s = false.
Proof. unfold require_bounded_text. rewrite reject_if_Ok, !orb_false_iff. tauto. Qed.

Lemma validated_signature_clean (input : GovernedVerificationInput) v :
  validate_verification input = Ok tt →
  verification_commands v = verification_input_commands input →
  verification_notes v = verification_input_notes input →
  verification_policy v = verification_input_policy input → signature_clean v.
Proof.
  intros Hv Hc Hn Hp s. unfold verification_failure_signature. rewrite Hc, Hn, Hp.
  unfold validate_verification in Hv. result_inv.
  destruct (bool_decide (verification_outcome v ≠ Failed)); [intros [=]|].
  destruct (List.find _ _) as [command|] eqn:Hf.
  - intros [= <-]. apply find_some in Hf as [Hin%list_elem_of_In _].
    match goal with H : Forall _ (verification_input_commands input) |- _ =>
      rewrite Forall_forall in H; specialize (H command Hin); unfold validate_command in H end.
    result_inv. by eapply bounded_text_clean.
  - destruct (verification_input_notes input) as [notes|];
      intros [= <-]; by eapply bounded_text_clean.
Qed.

Lemma reachable_signatures t : run_reachable t → Forall signature_clean (run_verifications t).
Proof.
  induction 1 as [|t m authentication ids now t' _ IH Ha]; [constructor|].
  apply advance_run_inv in Ha as (u & Hu & _ & ->). run_simpl.
  mutation_inv Hu; run_simpl; try done. apply Forall_app. split; [done|]. constructor; [|done].
  by eapply validated_signature_clean.
Qed.

Lemma leading_run_length {A} `{EqDecision A} (o : A) (l : list A) : (leading_run o l ≤ length l)%nat.
Proof. induction l as [|x l IH]; cbn; [done|]. destruct (decide _); lia. Qed.

Lemma streak_bounds t s n :
  trailing_verification_failure_streak t = Some (s, n) → 0 ≤ n ≤ zlen (run_verifications t).
Proof.
  rewrite trailing_streak_spec. unfold failure_streak_spec, zlen.
  rewrite <-(length_reverse (run_verifications t)).
  destruct (reverse (run_verifications t)) as [|v l]; [done|]. cbn [fmap list_fmap].
  destruct (verification_failure_signature v) as [s'|]; [|done]. intros [= <- <-].
  pose proof (leading_run_length (Some s') (verification_failure_signature <$> l)) as Hl.
  rewrite length_fmap in Hl. cbn [leading_run length]. rewrite decide_True by done. lia.
Qed.

Lemma streak_signature t s n :
  trailing_verification_failure_streak t = Some (s, n) →
  ∃ v, v ∈ run_verifications t ∧ verification_failure_signature v = Some s.
Proof.
  rewrite trailing_streak_spec. unfold failure_streak_spec.
  destruct (reverse (run_verifications t)) as [|v l] eqn:Hr; [done|]. cbn [fmap list_fmap].
  destruct (verification_failure_signature v) as [s'|] eqn:Hv; [|done]. intros [= <- _].
  exists v. split; [|done]. rewrite <-elem_of_reverse, Hr. by left.
Qed.

(** The trips of the Builder contract print in a bounded text. *)
Lemma printable_trip t elapsed trip :
  Forall signature_clean (run_verifications t) → zlen (run_verifications t) ≤ u64_max →
  0 ≤ elapsed → evaluate_observed (contract_budget governed_builder) (observe_task t elapsed) = Some trip →
  printable 2048 (show_trip trip).
Proof.
  intros Hsig Hlen Hel. unfold evaluate_observed, observe_task.
  cbn [contract_budget governed_builder governed_builder_budget budget_max_rounds
       budget_wall_clock budget_max_same_error_streak observed_rounds_used observed_elapsed
       observed_same_error].
  destruct (_ <=? _); [intros [= <-]; by vm_compute|].
  destruct (_ <=? _).
  - intros [= <-]. cbn [show_trip].
    eapply printable_mono; [apply printable_app; [by apply printable_self|apply printable_app;
      [apply printable_show_Z|by apply printable_self]]|by vm_compute].
    unfold millis_u64, as_millis. pose proof (Z.div_pos elapsed 1000000 Hel ltac:(lia)).
    unfold u64_max. lia.
  - destruct (trailing_verification_failure_streak t) as [[s n]|] eqn:Hst; [|done]. cbn.
    destruct (_ <=? _); [|done]. intros [= <-]. cbn [show_trip].
    apply streak_bounds in Hst as Hn.
    apply streak_signature in Hst as (v & Hv & Hs). rewrite Forall_forall in Hsig.
    eapply printable_mono; [apply printable_app; [by apply printable_self|apply printable_app;
      [by apply printable_self|apply printable_app; [by apply printable_self|apply printable_app;
      [apply printable_show_Z; lia|apply printable_app; [by apply printable_self|
       apply printable_error_signature; by eapply Hsig]]]]]|by vm_compute].
Qed.

(** ** Details of the events *)

Lemma framed_text label a n x m y :
  is_empty (trim a) = false → contains_nul a = false → printable n x → printable m y →
  len a + (n + m) ≤ MAX_REASON_BYTES → require_text label (a ++ x ++ y) = Ok tt.
Proof.
  intros Hb Ha Hx Hy Hle. apply require_text_Ok. split; [by apply nonblank_app|].
  eapply printable_mono; [|exact Hle].
  apply printable_app; [by apply printable_self|by apply printable_app].
Qed.

Lemma fixed_text label s :
  is_empty (trim s) = false → contains_nul s = false → len s ≤ MAX_REASON_BYTES →
  require_text label s = Ok tt.
Proof. intros Hb Hn Hl. by apply require_text_Ok. Qed.

(** The end of a detail: a literal and a bounded text. *)
Lemma fixed_tail a n y :
  contains_nul a = false → len a ≤ 256 → printable n y → printable (256 + n) (a ++ y).
Proof.
  intros Ha Hl Hy. apply printable_app; [|done]. by split.
Qed.

Definition uuid_shaped (uuid : rstring) : Prop := printable 64 uuid.

Lemma printable_record_id prefix uuid :
  contains_nul prefix = false → len prefix ≤ 64 → uuid_shaped uuid →
  printable 256 (new_record_id prefix uuid).
Proof.
  intros Hp Hl Hu. unfold new_record_id. eapply printable_mono.
  - apply printable_app; [by apply printable_self|].
    apply printable_app; [by apply printable_self|exact Hu].
  - change (len (lit "-")) with 1. lia.
Qed.

Lemma printable_commit_oid label oid : require_commit_oid label oid = Ok tt → printable 64 oid.
Proof.
  unfold require_commit_oid. intros Hr. result_inv. bool_inv. split.
  - apply contains_nul_false, Forall_forall. intros c Hc ->.
    match goal with H : forallb _ _ = true |- _ => apply forallb_true_Forall in H;
      rewrite Forall_forall in H; rename H into Hhex end.
    assert (0 ∈ bytes oid) as Hin; [|discriminate (Hhex 0 Hin)].
    unfold bytes. apply list_elem_of_bind. exists 0. by split; [left|].
  - match goal with H : _ || _ = true |- _ => apply orb_true_iff in H as [?|?] end; bool_inv; lia.
Qed.

Lemma printable_promotion_summary p :
  validate_promotion_outcome p = Ok tt →
  printable 256 (promotion_summary (promotion_input_outcome p)).
Proof.
  unfold validate_promotion_outcome. intros Hv. result_inv.
  destruct (promotion_input_outcome p) as [r|head reason]; result_inv; cbn [promotion_summary].
  - eapply printable_mono; [apply printable_app; [by apply printable_self|
      by eapply printable_commit_oid]|by vm_compute].
  - eapply printable_mono; [apply printable_app; [by apply printable_self|apply printable_app;
      [apply (printable_mono (len (show_blocked_reason reason)) 128)|apply printable_app;
        [by apply printable_self|by eapply printable_commit_oid]]]|by vm_compute].
    + apply printable_self. destruct reason as [| | |[]|]; vm_compute; reflexivity.
    + destruct reason as [| | |[]|]; vm_compute; discriminate.
Qed.

(** A detail that names a new record between two texts. *)
Ltac framed n :=
  apply (framed_text _ _ 256 _ n);
  [reflexivity|reflexivity
  |match goal with Hid : ∀ prefix, _ → _ → printable 256 _ |- _ =>
     apply Hid; [reflexivity|vm_compute; discriminate] end
  | |vm_compute; discriminate].

(** What a mutation appends can be read back. *)
Lemma event_detail_admissible m rev authentication ids now t t' label :
  Forall signature_clean (run_verifications t) → zlen (run_verifications t) ≤ u64_max →
  uuid_shaped (fresh_record ids) →
  apply_mutation m rev (live_context now authentication) ids t = Ok t' →
  ∃ e, last (run_events t') = Some e ∧ require_text label (event_detail e) = Ok tt.
Proof.
  intros Hsig Hlen Huuid Hm.
  assert (∀ prefix, contains_nul prefix = false → len prefix ≤ 64 →
    printable 256 (new_record_id prefix (fresh_record ids))) as Hid
    by (intros; by apply printable_record_id).
  destruct m; mutation_inv Hm; run_simpl; rewrite last_snoc;
    (eexists; split; [reflexivity|]); cbn [new_event event_detail].
  1: by apply fixed_text.
  all: try (eapply require_text_relabel; eassumption).
  2: framed 256; by split.
  1: destruct reason; cbn [default require_optional_text] in *;
       [eapply require_text_relabel; eassumption|by apply fixed_text].
  2: framed 256; by split.
  2: framed 512; apply (fixed_tail _ 256); [done|done|by destruct (verification_input_outcome _)].
  2: framed 512; apply (fixed_tail _ 256); [done|done|by destruct (verdict_input_verdict _)].
  2: framed 512; apply (fixed_tail _ 256); [done|done|by destruct (decision_input_decision _)].
  2: framed 512; apply (fixed_tail _ 256); [done|done|by apply printable_promotion_summary].
  framed 2304. apply (fixed_tail _ 2048); [done|done|].
  match goal with H : governed_builder_loop_state _ _ _ = Ok ?ls |- _ =>
    destruct (decide (run_world_scope t = StagedAuthoritative)) as [Hsc|Hsc];
    [apply live_loop_state in H as (st & elapsed & -> & Hel & Htrip & _); [|done]
    |unfold governed_builder_loop_state in H; rewrite bool_decide_eq_true_2 in H by done;
     by simplify_eq] end.
  simplify_option_eq. rewrite Htrip in *. eapply printable_trip; [done|done| |eassumption].
  unfold elapsed_between in Hel. result_inv. unfold from_millis. lia.
Qed.
End details.
