(* ===== verification/RecordedRun.v ===== *)
(** Runs together with the fingerprints of the requests that made them, and the
    relation between a live run and the projection a reload rebuilds: equal up to
    the ids drawn for its records and events. *)
From S2P Require Export EventText ReplayProps.
Local Open Scope Z_scope.

Section recorded.
Context `{Host}.
Implicit Types (t u p q : GovernedTaskRun).

(** * Recorded runs *)

(** Every id a run uses. *)
Definition run_ids t : list rstring :=
  (event_id <$> run_events t) ++ (claim_id <$> run_claims t)
  ++ (verification_id <$> run_verifications t) ++ (verdict_id <$> run_supervisor_verdicts t)
  ++ (decision_id <$> run_operator_decisions t) ++ (promotion_id <$> run_promotions t)
  ++ (staged_id <$> option_list (run_staged_worktree t)).

(** The two UUIDs of a mutation are in no id of the run. *)
Definition fresh_for t (ids : FreshIds) : Prop :=
  (∀ prefix, new_record_id prefix (fresh_record ids) ∉ run_ids t) ∧
  new_record_id (lit "event") (fresh_event ids) ∉ run_ids t.

(** A run made by mutations whose draws are what the host gives: readable
    timestamps and fresh UUIDs; with the fingerprint of the mutation that made
    each revision. *)
Inductive recorded : GovernedTaskRun → gmap Z rstring → Prop :=
  | recorded_registered r ids now :
      validate_registration r = Ok tt → is_Some (parse_from_rfc3339 now) →
      recorded (registered_run r ids now) ∅
  | recorded_mutated t fps m authentication ids now t' :
      recorded t fps → advance_run m authentication ids now t = Ok t' →
      is_Some (parse_from_rfc3339 now) → uuid_shaped (fresh_record ids) → fresh_for t ids →
      recorded t'
        (<[run_revision t' := fingerprint_mutation (run_project_id t) (run_id t) m]> fps).

Lemma set_own_root r : set_workspace_root (reg_workspace_root r) r = r.
Proof. by destruct r. Qed.

Lemma recorded_reachable t fps : recorded t fps → run_reachable t.
Proof.
  induction 1 as [r ids now Hv _|]; [|by eapply reach_mutated].
  rewrite <-(set_own_root r). by constructor.
Qed.

Lemma recorded_fingerprints t fps n :
  recorded t fps → is_Some (fps !! n) ↔ 1 ≤ n ≤ run_revision t.
Proof.
  intros Hr. revert n. induction Hr as [r ids now _ _|t fps m a ids now t' Hr IH Ha _ _ _]; intros n.
  - cbn. rewrite lookup_empty. split; [by intros []|lia].
  - apply advance_run_inv in Ha as (u & _ & _ & ->). run_simpl.
    pose proof (reachable_revision_nonneg t (recorded_reachable _ _ Hr)).
    rewrite lookup_insert_is_Some', IH. lia.
Qed.

(** * Later states *)

(** The same checkout, whatever its status. *)
Record same_checkout (s s' : StagedWorktree) : Prop := {
  sc_id : staged_id s' = staged_id s;
  sc_actor : staged_actor s' = staged_actor s;
  sc_root : staged_root s' = staged_root s;
  sc_initial : staged_initial_subject_revision s' = staged_initial_subject_revision s;
  sc_digest : staged_shared_config_digest s' = staged_shared_config_digest s;
  sc_at : staged_materialized_at s' = staged_materialized_at s;
  sc_based : staged_based_on_revision s' = staged_based_on_revision s
}.

(** What a later state of a run shares with it. *)
Record future t u : Prop := {
  fu_identity : same_identity t u;
  fu_history : history_extends t u;
  fu_staged s : run_staged_worktree t = Some s →
    ∃ s', run_staged_worktree u = Some s' ∧ same_checkout s s';
  fu_exit : run_execution_state t = RuntimeExited →
    run_execution_state u = RuntimeExited ∧ run_exit_kind u = run_exit_kind t
}.

#[export] Instance same_checkout_preorder : PreOrder same_checkout.
Proof. split; [by split|]. intros a b c [] []. split; congruence. Qed.

#[export] Instance same_identity_preorder : PreOrder same_identity.
Proof. split; [by split|]. intros a b c [] []. split; congruence. Qed.

#[export] Instance history_extends_preorder : PreOrder history_extends.
Proof. split; [by split|]. intros a b c [] []. split; by etransitivity. Qed.

#[export] Instance future_preorder : PreOrder future.
Proof.
  split.
  - intros t. split; [done|done| |done]. intros s Hs. by exists s.
  - intros a b c [Hi Hh Hs He] [Hi' Hh' Hs' He']. split; [by etransitivity|by etransitivity| |].
    + intros s (s' & Hb & ?)%Hs. destruct (Hs' s' Hb) as (s'' & ? & ?).
      exists s''. split; [done|by etransitivity].
    + intros [Hb Heq]%He. destruct (He' Hb) as [? ->]. done.
Qed.

Lemma apply_mutation_future m rev ctx ids t u :
  apply_mutation m rev ctx ids t = Ok u → future t u.
Proof.
  intros Hm. split.
  - by apply apply_mutation_identity in Hm as [? _].
  - by eapply apply_mutation_history.
  - intros s Hs. mutation_inv Hm; run_simpl; bool_inv; try (by exists s); try congruence.
    rewrite Hs. by exists (discard_staged s).
  - intros He. mutation_inv Hm; run_simpl; bool_inv; try done; congruence.
Qed.

Lemma stamp_future n now t : future t (set_updated_at now (set_revision n t)).
Proof. split; [by split|by split| |done]. intros s Hs. by exists s. Qed.

Lemma advance_future m authentication ids now t t' :
  advance_run m authentication ids now t = Ok t' → future t t'.
Proof.
  intros (u & Hu & _ & ->)%advance_run_inv. etransitivity; [by eapply apply_mutation_future|].
  apply stamp_future.
Qed.
End recorded.
