(* ===== verification/Mirror.v ===== *)
(** The projection a reload rebuilds mirrors the live run: a mutation the run took
    goes through on its mirror, in the replay context, and leaves a mirror. *)
From S2P Require Export RecordedRun.
Local Open Scope Z_scope.

Section mirrors.
Context `{Host}.
Implicit Types (t u p q : GovernedTaskRun).

(** * The relation *)

Record same_tree (s q : StagedWorktree) : Prop := {
  st_root : staged_root q = staged_root s;
  st_initial : staged_initial_subject_revision q = staged_initial_subject_revision s;
  st_digest : staged_shared_config_digest q = staged_shared_config_digest s;
  st_status : staged_status q = staged_status s;
  st_at : staged_materialized_at q = staged_materialized_at s;
  st_based : staged_based_on_revision q = staged_based_on_revision s
}.
Record same_claim (c d : WorkerCompletionClaim) : Prop := {
  sl_subject : claim_subject_revision d = claim_subject_revision c;
  sl_digest : claim_loop_report_digest d = claim_loop_report_digest c;
  sl_version : claim_loop_report_version d = claim_loop_report_version c
}.
Record same_verification (v w : GovernedVerification) : Prop := {
  sv_outcome : verification_outcome w = verification_outcome v;
  sv_commands : verification_commands w = verification_commands v;
  sv_notes : verification_notes w = verification_notes v;
  sv_policy : verification_policy w = verification_policy v
}.
Definition same_verdict_kind (v w : SupervisorVerdict) : Prop :=
  verdict_verdict w = verdict_verdict v.
Record same_promotion (a b : GovernedPromotion) : Prop := {
  sp_accepted : promotion_accepted_revision b = promotion_accepted_revision a;
  sp_initial : promotion_initial_subject_revision b = promotion_initial_subject_revision a;
  sp_outcome : promotion_outcome b = promotion_outcome a
}.

(** [p] mirrors [t]: all but ids, and the events are no more. *)
Record mirrors t p : Prop := {
  mi_identity : same_identity t p;
  mi_revision : run_revision p = run_revision t;
  mi_execution : run_execution_state p = run_execution_state t;
  mi_exit : run_exit_kind p = run_exit_kind t;
  mi_review : run_review_state p = run_review_state t;
  mi_staged : option_Forall2 same_tree (run_staged_worktree t) (run_staged_worktree p);
  mi_claims : Forall2 same_claim (run_claims t) (run_claims p);
  mi_verifications : Forall2 same_verification (run_verifications t) (run_verifications p);
  mi_verdicts :
    Forall2 same_verdict_kind (run_supervisor_verdicts t) (run_supervisor_verdicts p);
  mi_decisions : length (run_operator_decisions p) = length (run_operator_decisions t);
  mi_promotions : Forall2 same_promotion (run_promotions t) (run_promotions p);
  mi_events : zlen (run_events p) ≤ zlen (run_events t)
}.

(** ** What a mirror agrees on *)

Lemma Forall2_zlen {A B} (R : A → B → Prop) l k : Forall2 R l k → zlen k = zlen l.
Proof. intros Hl%Forall2_length. unfold zlen. by rewrite Hl. Qed.

Lemma Forall2_last_option {A B} (R : A → B → Prop) l k :
  Forall2 R l k → option_Forall2 R (last l) (last k).
Proof.
  intros Hl. destruct (last l) as [x|] eqn:Hx.
  - destruct (Forall2_last R l k x Hl Hx) as (y & -> & Hxy). by constructor.
  - apply last_None in Hx as ->. apply Forall2_nil_inv_l in Hl as ->. constructor.
Qed.

Lemma option_Forall2_Some {A B} (R : A → B → Prop) x y a :
  option_Forall2 R x y → x = Some a → ∃ b, y = Some b ∧ R a b.
Proof. intros [a' b Hab|] [= <-]. by exists b. Qed.

Lemma option_Forall2_None {A B} (R : A → B → Prop) x y :
  option_Forall2 R x y → x = None → y = None.
Proof. by intros []. Qed.

Lemma Forall2_snoc {A B} (R : A → B → Prop) l k x y :
  Forall2 R l k → R x y → Forall2 R (l ++ [x]) (k ++ [y]).
Proof. intros Hl Hxy. apply Forall2_app; [done|by constructor]. Qed.

Lemma mirrors_active t p :
  mirrors t p → option_Forall2 same_tree (active_staged_worktree t) (active_staged_worktree p).
Proof.
  intros Hm. unfold active_staged_worktree.
  destruct (mi_staged t p Hm) as [s q Hsq|]; [|constructor].
  rewrite (st_status s q Hsq). case_bool_decide; by constructor.
Qed.

Lemma mirrors_no_active t p :
  mirrors t p →
  bool_decide (active_staged_worktree p = None) = bool_decide (active_staged_worktree t = None).
Proof. intros Hm. by destruct (mirrors_active t p Hm). Qed.

Lemma mirrors_promoted t p :
  mirrors t p →
  match latest_promotion p with Some a => is_promoted (promotion_outcome a) | None => false end =
  match latest_promotion t with Some a => is_promoted (promotion_outcome a) | None => false end.
Proof.
  intros Hm. unfold latest_promotion.
  destruct (Forall2_last_option _ _ _ (mi_promotions t p Hm)) as [a b Hab|]; [|done].
  by rewrite (sp_outcome a b Hab).
Qed.

Lemma mirrors_no_claim t p :
  mirrors t p → bool_decide (latest_claim p = None) = bool_decide (latest_claim t = None).
Proof. intros Hm. unfold latest_claim. by destruct (Forall2_last_option _ _ _ (mi_claims t p Hm)). Qed.

Lemma mirrors_discardable t p :
  mirrors t p → staged_worktree_is_discardable p = staged_worktree_is_discardable t.
Proof.
  intros Hm. unfold staged_worktree_is_discardable.
  rewrite (mi_execution t p Hm), (mi_review t p Hm).
  assert (match run_staged_worktree p with
          | Some staged => negb (pin_is_comparable (staged_shared_config_digest staged))
          | None => false end =
          match run_staged_worktree t with
          | Some staged => negb (pin_is_comparable (staged_shared_config_digest staged))
          | None => false end) as ->.
  { destruct (mi_staged t p Hm) as [s q Hsq|]; [|done]. by rewrite (st_digest s q Hsq). }
  assert (match latest_promotion p with Some _ => true | None => false end =
          match latest_promotion t with Some _ => true | None => false end) as ->; [|done].
  unfold latest_promotion. by destruct (Forall2_last_option _ _ _ (mi_promotions t p Hm)).
Qed.

Lemma mirrors_promotable t p :
  mirrors t p → record_promotion_preconditions_hold p = record_promotion_preconditions_hold t.
Proof.
  intros Hm. unfold record_promotion_preconditions_hold.
  rewrite (mirrors_promoted t p Hm), (mirrors_no_claim t p Hm), (mirrors_no_active t p Hm),
    (mi_review t p Hm), (same_scope t p (mi_identity t p Hm)),
    (Forall2_zlen _ _ _ (mi_promotions t p Hm)). done.
Qed.

Lemma mirrors_root t p root :
  mirrors t p → require_expected_staged_root p root = require_expected_staged_root t root.
Proof.
  intros Hm. unfold require_expected_staged_root, expected_staged_worktree_root.
  by rewrite (same_id t p (mi_identity t p Hm)), (same_workspace t p (mi_identity t p Hm)).
Qed.

Lemma same_signature v w :
  same_verification v w → verification_failure_signature w = verification_failure_signature v.
Proof. intros [Ho Hc Hn Hp]. unfold verification_failure_signature. by rewrite Ho, Hc, Hn, Hp. Qed.

Lemma mirrors_streak t p :
  mirrors t p → trailing_verification_failure_streak p = trailing_verification_failure_streak t.
Proof.
  intros Hm. rewrite !trailing_streak_spec. unfold failure_streak_spec.
  assert (verification_failure_signature <$> reverse (run_verifications p) =
          verification_failure_signature <$> reverse (run_verifications t)) as ->; [|done].
  rewrite !fmap_reverse. f_equal.
  induction (mi_verifications t p Hm) as [|v w vs ws Hvw _ IH]; [done|]. cbn.
  by rewrite (same_signature v w Hvw), IH.
Qed.

Lemma mirrors_recomputed t p now :
  mirrors t p → recomputed_loop_state p now = recomputed_loop_state t now.
Proof.
  intros Hm. unfold recomputed_loop_state.
  assert (∀ elapsed, observe_task p elapsed = observe_task t elapsed) as Ho.
  { intros elapsed. unfold observe_task.
    by rewrite (mirrors_streak t p Hm), (Forall2_zlen _ _ _ (mi_claims t p Hm)). }
  assert (∀ trip elapsed, governed_loop_report p trip elapsed = governed_loop_report t trip elapsed)
    as Hrep.
  { intros trip elapsed. unfold governed_loop_report.
    rewrite (Forall2_zlen _ _ _ (mi_claims t p Hm)),
      (Forall2_zlen _ _ _ (mi_verifications t p Hm)).
    assert (zlen (filter (λ v, verification_outcome v ≠ Passed) (run_verifications p)) =
            zlen (filter (λ v, verification_outcome v ≠ Passed) (run_verifications t))) as ->; [|done].
    induction (mi_verifications t p Hm) as [|v w vs ws Hvw _ IH]; [done|].
    rewrite !filter_cons, (sv_outcome v w Hvw). destruct (decide _); [|done].
    rewrite !zlen_cons, IH. reflexivity. }
  rewrite (same_created t p (mi_identity t p Hm)).
  destruct (with_context _ _) as [[]|]; [|done]. cbn [mbind result_bind].
  destruct (elapsed_between _ _) as [elapsed|]; [|done]. cbn [mbind result_bind].
  by rewrite Ho, Hrep.
Qed.

(** The replay recomputes the live verdict when the stored claim carries the
    current version. *)
Lemma mirrors_loop_state t p now ls ev :
  mirrors t p → governed_builder_loop_state t now None = Ok ls →
  (∀ s, ls = Some s → ∃ r, ev = Some r ∧ replayed_version r = Some current_governed_loop_version) →
  governed_builder_loop_state p now ev = Ok ls.
Proof.
  intros Hm Hls Hev. unfold governed_builder_loop_state in *.
  rewrite (same_scope t p (mi_identity t p Hm)).
  destruct (bool_decide (run_world_scope t ≠ StagedAuthoritative)); [done|].
  destruct ls as [s|]; [|revert Hls; destruct (recomputed_loop_state t now); intros [=]].
  destruct (Hev s eq_refl) as (r & -> & Hr). rewrite bool_decide_eq_false_2 by (intros Hn; by apply Hn).
  by rewrite (mirrors_recomputed t p now Hm).
Qed.

(** ** Updates keep mirrors *)

Lemma same_identity_of t u p q :
  same_identity t u → same_identity p q → same_identity t p → same_identity u q.
Proof. intros [] [] []. split; congruence. Qed.

Lemma mirrors_push e e' t p : mirrors t p → mirrors (push_event e t) (push_event e' p).
Proof.
  intros []. split; run_simpl; try done; [by apply (same_identity_of t _ p _)|].
  rewrite !zlen_snoc. lia.
Qed.

Lemma mirrors_set_execution x t p :
  mirrors t p → mirrors (set_execution_state x t) (set_execution_state x p).
Proof. intros []. split; run_simpl; try done. by apply (same_identity_of t _ p _). Qed.

Lemma mirrors_set_exit x t p : mirrors t p → mirrors (set_exit_kind x t) (set_exit_kind x p).
Proof. intros []. split; run_simpl; try done. by apply (same_identity_of t _ p _). Qed.

Lemma mirrors_set_review x t p : mirrors t p → mirrors (set_review_state x t) (set_review_state x p).
Proof. intros []. split; run_simpl; try done. by apply (same_identity_of t _ p _). Qed.

Lemma mirrors_set_staged x y t p :
  option_Forall2 same_tree x y → mirrors t p →
  mirrors (set_staged_worktree x t) (set_staged_worktree y p).
Proof. intros ? []. split; run_simpl; try done. by apply (same_identity_of t _ p _). Qed.

Lemma mirrors_add_claim x y t p :
  same_claim x y → mirrors t p →
  mirrors (set_claims (run_claims t ++ [x]) t) (set_claims (run_claims p ++ [y]) p).
Proof.
  intros ? []. split; run_simpl; try done; [by apply (same_identity_of t _ p _)|].
  by apply Forall2_snoc.
Qed.

Lemma mirrors_add_verification x y t p :
  same_verification x y → mirrors t p →
  mirrors (set_verifications (run_verifications t ++ [x]) t)
    (set_verifications (run_verifications p ++ [y]) p).
Proof.
  intros ? []. split; run_simpl; try done; [by apply (same_identity_of t _ p _)|].
  by apply Forall2_snoc.
Qed.

Lemma mirrors_add_verdict x y t p :
  same_verdict_kind x y → mirrors t p →
  mirrors (set_supervisor_verdicts (run_supervisor_verdicts t ++ [x]) t)
    (set_supervisor_verdicts (run_supervisor_verdicts p ++ [y]) p).
Proof.
  intros ? []. split; run_simpl; try done; [by apply (same_identity_of t _ p _)|].
  by apply Forall2_snoc.
Qed.

Lemma mirrors_add_decision x y t p :
  mirrors t p →
  mirrors (set_operator_decisions (run_operator_decisions t ++ [x]) t)
    (set_operator_decisions (run_operator_decisions p ++ [y]) p).
Proof.
  intros []. split; run_simpl; try done; [by apply (same_identity_of t _ p _)|].
  rewrite !length_app. cbn. lia.
Qed.

Lemma mirrors_add_promotion x y t p :
  same_promotion x y → mirrors t p →
  mirrors (set_promotions (run_promotions t ++ [x]) t) (set_promotions (run_promotions p ++ [y]) p).
Proof.
  intros ? []. split; run_simpl; try done; [by apply (same_identity_of t _ p _)|].
  by apply Forall2_snoc.
Qed.

Lemma mirrors_stamp n now t p :
  mirrors t p → mirrors (set_updated_at now (set_revision n t)) (set_revision n p).
Proof. intros []. split; run_simpl; try done. by apply (same_identity_of t _ p _). Qed.

(** * A mutation on the mirror *)

(** The mutation as the replay asks for it: the ids are the mirror's. *)
Definition rebase p (m : GovernedTaskMutation) : GovernedTaskMutation :=
  match m with
  | MarkRuntimeExited a reason kind =>
      MarkRuntimeExited a (Some (default (lit "runtime exited") reason)) kind
  | RecordVerification v =>
      RecordVerification
        {| verification_input_actor := verification_input_actor v;
           verification_input_claim_id := default [] (claim_id <$> latest_claim p);
           verification_input_subject_revision := verification_input_subject_revision v;
           verification_input_policy := verification_input_policy v;
           verification_input_outcome := verification_input_outcome v;
           verification_input_commands := verification_input_commands v;
           verification_input_artifact_ids := verification_input_artifact_ids v;
           verification_input_notes := verification_input_notes v |}
  | RecordSupervisorVerdict v =>
      RecordSupervisorVerdict
        {| verdict_input_actor := verdict_input_actor v;
           verdict_input_verification_id :=
             default [] (verification_id <$> latest_verification p);
           verdict_input_verdict := verdict_input_verdict v;
           verdict_input_rationale := verdict_input_rationale v |}
  | RecordOperatorDecision d =>
      RecordOperatorDecision
        {| decision_input_actor := decision_input_actor d;
           decision_input_supervisor_verdict_id :=
             default [] (verdict_id <$> latest_supervisor_verdict p);
           decision_input_decision := decision_input_decision d;
           decision_input_rationale := decision_input_rationale d |}
  | m => m
  end.

(** The replay context has the evidence of the claim under replay. *)
Definition replays_claim (ctx : MutationContext) u : Prop :=
  ∀ c, latest_claim u = Some c → claim_loop_report_version c = Some current_governed_loop_version →
    ∃ r, ctx_replay_claim ctx = Some r ∧ replayed_version r = claim_loop_report_version c.

(** What replaying a mutation comes to. *)
Definition mirrored p m rev ctx ids u : Prop :=
  ∃ q, apply_mutation (rebase p m) rev ctx ids p = Ok q ∧ mirrors u q ∧
       event_kind <$> last (run_events q) = event_kind <$> last (run_events u).

Lemma mirrors_capacity t p :
  mirrors t p →
  require_capacity (lit "governed task events") (zlen (run_events t)) MAX_GOVERNED_EVENTS = Ok tt →
  require_capacity (lit "governed task events") (zlen (run_events p)) MAX_GOVERNED_EVENTS = Ok tt.
Proof.
  intros Hm. pose proof (mi_events t p Hm). unfold require_capacity.
  rewrite !reject_if_Ok, !Z.leb_gt. lia.
Qed.

Lemma mirrors_decisions t p :
  mirrors t p → zlen (run_operator_decisions p) = zlen (run_operator_decisions t).
Proof. intros Hm. unfold zlen. by rewrite (mi_decisions t p Hm). Qed.

(** Run the guards the live mutation passed. *)
Ltac replay_guards Hm :=
  rewrite ?(mi_execution _ _ Hm), ?(mi_exit _ _ Hm), ?(mi_review _ _ Hm),
    ?(same_scope _ _ (mi_identity _ _ Hm)), ?(same_agent _ _ (mi_identity _ _ Hm)),
    ?(same_initial _ _ (mi_identity _ _ Hm)), ?(mirrors_discardable _ _ Hm),
    ?(mirrors_promotable _ _ Hm), ?(mirrors_no_active _ _ Hm), ?(mirrors_root _ _ _ Hm),
    ?(Forall2_zlen _ _ _ (mi_claims _ _ Hm)), ?(Forall2_zlen _ _ _ (mi_verifications _ _ Hm)),
    ?(Forall2_zlen _ _ _ (mi_verdicts _ _ Hm)), ?(Forall2_zlen _ _ _ (mi_promotions _ _ Hm)), ?(mirrors_decisions _ _ Hm);
  repeat (match goal with
    | E : ?m = Ok _ |- context [?m] => rewrite E
    | E : ?m = Some _ |- context [ok_or ?m _] => rewrite E
    | E : ?b = false |- context [reject_if ?b _] => rewrite E
    end; cbn [ok_or reject_if map_err mbind result_bind negb andb orb]).

Ltac mirror_open Hm Hu Hr :=
  mutation_inv Hu; unfold mirrored, apply_mutation;
  match goal with E : require_capacity (lit "governed task events") _ _ = Ok tt |- _ =>
    rewrite (mirrors_capacity _ _ Hm E) end;
  cbn [mbind result_bind rebase apply_arm].

(** Close a replayed arm. *)
Ltac mirror_close Hm :=
  eexists; split_and!;
  [reflexivity
  |repeat first [exact Hm | apply mirrors_push | apply mirrors_set_execution
     | apply mirrors_set_exit | apply mirrors_set_review | apply mirrors_set_staged
     | apply mirrors_add_claim | apply mirrors_add_verification | apply mirrors_add_verdict
     | apply mirrors_add_decision | apply mirrors_add_promotion]
  |run_simpl; by rewrite !last_snoc].

Lemma mirror_lifecycle m rev authentication now ids t u p ctx ids' :
  match m with
  | MarkLaunchFailed _ _ | NoteProducerReservationInterrupted _ _ | MarkRunning _
  | MarkRuntimeExited _ _ _ | TakeOverWorker _ _ => True
  | _ => False
  end →
  mirrors t p → apply_mutation m rev (live_context now authentication) ids t = Ok u →
  ctx_is_replay ctx = true → mirrored p m rev ctx ids' u.
Proof.
  intros Hk Hm Hu Hr. destruct m; try done; clear Hk; mirror_open Hm Hu Hr.
  - unfold apply_mark_running. rewrite Hr. replay_guards Hm. mirror_close Hm.
  - unfold apply_mark_launch_failed. replay_guards Hm. mirror_close Hm.
  - unfold apply_mark_runtime_exited.
    assert (require_optional_text (lit "runtime exit reason")
              (Some (default (lit "runtime exited") reason)) = Ok tt) as Htext
      by (destruct reason; [done|by vm_compute]).
    replay_guards Hm. mirror_close Hm.
  - unfold apply_note_producer_reservation_interrupted. replay_guards Hm. mirror_close Hm.
  - unfold apply_take_over_worker. rewrite Hr. replay_guards Hm. mirror_close Hm.
Qed.

Lemma mirror_staged m rev authentication now ids t u p ctx ids' :
  match m with MaterializeStagedWorktree _ | DiscardStagedWorktree _ _ => True | _ => False end →
  mirrors t p → apply_mutation m rev (live_context now authentication) ids t = Ok u →
  ctx_now ctx = now → mirrored p m rev ctx ids' u.
Proof.
  intros Hk Hm Hu Hnow. destruct m; try done; clear Hk; mirror_open Hm Hu Hnow.
  - unfold apply_materialize_staged_worktree.
    assert (bool_decide (run_staged_worktree p ≠ None) = false) as Hnone.
    { bool_inv. rewrite (option_Forall2_None _ _ _ (mi_staged t p Hm)) by done.
      by apply bool_decide_eq_false_2; intros []. }
    replay_guards Hm. mirror_close Hm. constructor. rewrite (mi_revision t p Hm).
    by split; cbn; rewrite ?Hnow.
  - unfold apply_discard_staged_worktree.
    pose proof (mi_staged t p Hm) as Hst.
    destruct (run_staged_worktree t) as [s|] eqn:E; [|done].
    destruct (option_Forall2_Some _ _ _ s Hst eq_refl) as (q & Hq & Hsq).
    result_inv. rewrite Hq, (st_status _ q Hsq). replay_guards Hm. mirror_close Hm. cbn. constructor.
    by destruct Hsq.
Qed.

(** The latest claim of the mirror. *)
Lemma mirrors_latest_claim t p c :
  mirrors t p → latest_claim t = Some c → ∃ d, latest_claim p = Some d ∧ same_claim c d.
Proof. intros Hm. apply option_Forall2_Some, Forall2_last_option, (mi_claims t p Hm). Qed.
Lemma mirrors_latest_verification t p v :
  mirrors t p → latest_verification t = Some v →
  ∃ w, latest_verification p = Some w ∧ same_verification v w.
Proof. intros Hm. apply option_Forall2_Some, Forall2_last_option, (mi_verifications t p Hm). Qed.
Lemma mirrors_latest_verdict t p v :
  mirrors t p → latest_supervisor_verdict t = Some v →
  ∃ w, latest_supervisor_verdict p = Some w ∧ same_verdict_kind v w.
Proof. intros Hm. apply option_Forall2_Some, Forall2_last_option, (mi_verdicts t p Hm). Qed.

Lemma mirror_promotion promotion rev authentication now ids t u p ctx ids' :
  mirrors t p →
  apply_mutation (RecordPromotion promotion) rev (live_context now authentication) ids t = Ok u →
  mirrored p (RecordPromotion promotion) rev ctx ids' u.
Proof.
  intros Hm Hu. mirror_open Hm Hu Hu. unfold apply_record_promotion.
  match goal with E : active_staged_worktree t = Some ?s |- _ =>
    destruct (option_Forall2_Some _ _ _ s (mirrors_active t p Hm) E) as (q & Hq & Hsq) end.
  match goal with E : latest_claim t = Some ?c |- _ =>
    destruct (mirrors_latest_claim t p c Hm E) as (d & Hd & Hcd) end.
  replay_guards Hm. rewrite (st_initial _ q Hsq). replay_guards Hm.
  rewrite (sl_subject _ d Hcd). replay_guards Hm. mirror_close Hm. by split.
Qed.

Lemma mirror_verification v rev authentication now ids t u p ctx ids' :
  mirrors t p →
  apply_mutation (RecordVerification v) rev (live_context now authentication) ids t = Ok u →
  mirrored p (RecordVerification v) rev ctx ids' u.
Proof.
  intros Hm Hu. mirror_open Hm Hu Hu. unfold apply_record_verification.
  match goal with E : latest_claim t = Some ?c |- _ =>
    destruct (mirrors_latest_claim t p c Hm E) as (d & Hd & Hcd) end.
  rewrite Hd. cbn [fmap option_fmap option_map default from_option verification_input_actor
    verification_input_claim_id verification_input_subject_revision verification_input_outcome].
  replay_guards Hm.
  rewrite (bool_decide_eq_false_2 (id (claim_id d) ≠ claim_id d)) by (intros Hn; by apply Hn).
  replay_guards Hm. rewrite (sl_subject _ d Hcd). replay_guards Hm.
  match goal with |- context [validate_verification ?w] =>
    assert (validate_verification w = Ok tt) as -> by assumption end.
  cbn [mbind result_bind]. mirror_close Hm. by split.
Qed.

Lemma mirror_verdict v rev authentication now ids t u p ctx ids' :
  mirrors t p →
  apply_mutation (RecordSupervisorVerdict v) rev (live_context now authentication) ids t = Ok u →
  mirrored p (RecordSupervisorVerdict v) rev ctx ids' u.
Proof.
  intros Hm Hu. mirror_open Hm Hu Hu. unfold apply_record_supervisor_verdict.
  match goal with E : latest_verification t = Some ?c |- _ =>
    destruct (mirrors_latest_verification t p c Hm E) as (d & Hd & Hcd) end.
  rewrite Hd. cbn [fmap option_fmap option_map default from_option verdict_input_actor
    verdict_input_verification_id verdict_input_rationale verdict_input_verdict].
  replay_guards Hm.
  rewrite (bool_decide_eq_false_2 (id (verification_id d) ≠ verification_id d))
    by (intros Hn; by apply Hn).
  replay_guards Hm. rewrite (sv_outcome _ d Hcd). replay_guards Hm.
  mirror_close Hm. done.
Qed.

Lemma mirror_decision v rev authentication now ids t u p ctx ids' :
  mirrors t p →
  apply_mutation (RecordOperatorDecision v) rev (live_context now authentication) ids t = Ok u →
  mirrored p (RecordOperatorDecision v) rev ctx ids' u.
Proof.
  intros Hm Hu. mirror_open Hm Hu Hu. unfold apply_record_operator_decision.
  match goal with E : latest_supervisor_verdict t = Some ?c |- _ =>
    destruct (mirrors_latest_verdict t p c Hm E) as (d & Hd & Hcd) end.
  rewrite Hd. cbn [fmap option_fmap option_map default from_option decision_input_actor
    decision_input_supervisor_verdict_id decision_input_rationale decision_input_decision].
  replay_guards Hm.
  rewrite (bool_decide_eq_false_2 (id (verdict_id d) ≠ verdict_id d)) by (intros Hn; by apply Hn).
  bool_inv. rewrite (bool_decide_eq_false_2 (verdict_verdict d ≠ RecommendAccept))
    by (rewrite Hcd; intros Hn; by apply Hn).
  replay_guards Hm. mirror_close Hm.
Qed.

Lemma mirrors_admit claim ctx ctx' t p :
  mirrors t p → ctx_is_replay ctx = true →
  admit_claim claim ctx' t = Ok tt → admit_claim claim ctx p = Ok tt.
Proof.
  intros Hm Hr Hok. unfold admit_claim in *. rewrite Hr. result_inv.
  replay_guards Hm. done.
Qed.

Lemma live_loop_state_version t now s :
  governed_builder_loop_state t now None = Ok (Some s) →
  loop_report_version s = current_governed_loop_version.
Proof.
  unfold governed_builder_loop_state, recomputed_loop_state. intros Hs.
  destruct (bool_decide _); [done|].
  destruct (with_context _ _) as [[]|]; [|done]. cbn [mbind result_bind] in Hs.
  destruct (elapsed_between _ _) as [elapsed|]; [|done]. cbn in Hs.
  by injection Hs as <-.
Qed.

Lemma mirror_claim claim rev authentication now ids t u p ctx ids' :
  mirrors t p →
  apply_mutation (SubmitClaim claim) rev (live_context now authentication) ids t = Ok u →
  ctx_now ctx = now → ctx_is_replay ctx = true → replays_claim ctx u →
  mirrored p (SubmitClaim claim) rev ctx ids' u.
Proof.
  intros Hm Hu Hnow Hr Hev.
  mirror_open Hm Hu Hu; subst; cbn [live_context ctx_now ctx_replay_claim] in *.
  all: specialize (Hev _ (last_snoc _ _)); cbn [claim_loop_report_version] in Hev.
  all: match goal with
    | Hm : mirrors ?t ?p, Hr : ctx_is_replay ?ctx = true, Hev : _ → ∃ r, _,
      Ha : admit_claim ?c _ ?t = Ok tt, Hs : governed_builder_loop_state ?t _ None = Ok ?ls |- _ =>
        assert (governed_builder_loop_state p (ctx_now ctx) (ctx_replay_claim ctx) = Ok ls) as Hls
          by (apply (mirrors_loop_state t); [done..|]; intros s ->; cbn in Hev;
              rewrite (live_loop_state_version t _ s Hs) in Hev;
              destruct (Hev eq_refl) as (r & ? & ?); exists r; done);
        unfold apply_submit_claim; rewrite (mirrors_admit c ctx _ t p Hm Hr Ha);
        cbn [mbind result_bind]; rewrite Hls; cbn [mbind result_bind]
    end.
  all: match goal with E : _ ≫= loop_trip = _ |- _ => rewrite E end.
  all: mirror_close Hm; by split.
Qed.

(** * Any mutation *)

Lemma mirror_mutation m rev authentication now ids t u p ctx ids' :
  mirrors t p → apply_mutation m rev (live_context now authentication) ids t = Ok u →
  ctx_now ctx = now → ctx_is_replay ctx = true →
  (∀ c, m = SubmitClaim c → replays_claim ctx u) → mirrored p m rev ctx ids' u.
Proof.
  intros Hm Hu Hnow Hr Hev. destruct m.
  all: first [by eapply mirror_lifecycle|by eapply mirror_staged|by eapply mirror_promotion
    |by eapply mirror_claim; eauto|by eapply mirror_verification|by eapply mirror_verdict
    |by eapply mirror_decision].
Qed.
End mirrors.
