(* ===== verification/ReloadRun.v ===== *)
(** Reload of a run its mutations made: every recorded event replays, on the
    mirror of the run as it was, and what is rebuilt is what is stored; the
    fingerprints are those of the requests. *)
From S2P Require Export Mirror.
Local Open Scope Z_scope.

(** ** Lookups in a longer list *)

Lemma prefix_snoc_lookup {A} (l k : list A) x : (l ++ [x]) `prefix_of` k → k !! length l = Some x.
Proof.
  intros [s ->]. rewrite <-app_assoc. by apply list_lookup_middle.
Qed.

Lemma prefix_last_lookup {A} (l k : list A) x :
  l `prefix_of` k → last l = Some x → k !! Nat.pred (length l) = Some x.
Proof. intros Hk Hl. rewrite last_lookup in Hl. by eapply prefix_lookup_Some. Qed.

(** Not the prefix of event ids. *)
Definition record_prefix (prefix : rstring) : bool :=
  match prefix with [] => false | c :: _ => negb (c =? 101) end.

Section reload.
Context `{Host}.
Implicit Types (t u p q T : GovernedTaskRun) (st : ReplayState) (e : GovernedTaskEvent).

(** * The state of the loop against the live run *)

(** The indices count what the run has. *)
Record tallies t st : Prop := {
  ta_claims : rp_claim_index st = length (run_claims t);
  ta_verifications : rp_verification_index st = length (run_verifications t);
  ta_supervisors : rp_supervisor_index st = length (run_supervisor_verdicts t);
  ta_operators : rp_operator_index st = length (run_operator_decisions t);
  ta_promotions : rp_promotion_index st = length (run_promotions t);
  ta_staged : run_staged_worktree t ≠ None → rp_staged_events st ≠ 0%nat
}.

(** The loop state reached on the events of [t]. *)
Record tracks t (fps : gmap Z rstring) st : Prop := {
  tr_mirror : mirrors t (rp_projection st);
  tr_tallies : tallies t st;
  tr_seen x : x ∈ rp_seen_ids st → x ∈ run_ids t;
  tr_fingerprints : rp_fingerprints st = fps
}.

Lemma insert_seen_fresh x st :
  x ∉ rp_seen_ids st → insert_seen x st = Ok (rp_set_seen ({[x]} ∪ rp_seen_ids st) st).
Proof. intros Hx. unfold insert_seen, bail_if. by rewrite bool_decide_eq_false_2. Qed.

Lemma record_link_fresh id a n ts e st :
  event_revision e = n + 1 → n + 1 ≤ u64_max → a = event_actor e →
  is_Some (parse_from_rfc3339 ts) → id ∉ rp_seen_ids st →
  validate_record_link id a n ts e st = Ok (rp_set_seen ({[id]} ∪ rp_seen_ids st) st).
Proof.
  intros Hrev Hmax -> [x Hts] Hid. unfold validate_record_link, require_rfc3339, bail_if.
  rewrite Hts, Hrev. unfold u64_checked_add.
  destruct (Z.leb_spec (n + 1) u64_max) as [_|]; [|lia].
  rewrite (bool_decide_eq_false_2 (Some (n + 1) ≠ Some (n + 1))) by (intros Hn; by apply Hn).
  rewrite bool_decide_eq_false_2 by (intros Hn; by apply Hn). cbn [reject_if mbind result_bind].
  by apply insert_seen_fresh.
Qed.

(** ** Finding the record of an event *)

(** What looking up the record of the event [e] of the mutation [m] comes to. *)
Definition found T m e st u : Prop :=
  ∃ rpl st',
    replay_event_mutation T e st = Ok (rpl, st') ∧
    replayed_mutation rpl = rebase (rp_projection st) m ∧
    canonical_mutation (fingerprint_input rpl) = canonical_mutation m ∧
    rp_projection st' = rp_projection st ∧ rp_fingerprints st' = rp_fingerprints st ∧
    tallies u st' ∧ (∀ x, x ∈ rp_seen_ids st' → x ∈ rp_seen_ids st ∨ x ∈ run_ids u).

Section step.
#[local] Set Default Proof Using "All".
Context (T t u : GovernedTaskRun) (authentication : OperatorAuthentication) (now : rstring)
  (ids : FreshIds) (e : GovernedTaskEvent) (st : ReplayState).
Context (Hfuture : future u T) (Hevents : run_events u = run_events t ++ [e])
  (Hnow : is_Some (parse_from_rfc3339 now)) (Hmax : run_revision t + 1 ≤ u64_max)
  (Hmirror : mirrors t (rp_projection st)) (Htallies : tallies t st)
  (Hfresh : ∀ prefix, record_prefix prefix = true → new_record_id prefix (fresh_record ids) ∉ rp_seen_ids st).

Notation made m :=
  (apply_mutation m (run_revision t + 1) (live_context now authentication) ids t = Ok u).

Ltac step_open Hu :=
  mutation_inv Hu; run_simpl; apply app_inv_head in Hevents; injection Hevents as <-;
  unfold found, replay_event_mutation; cbn [event_kind new_event].
Ltac step_tallies :=
  solve [destruct Htallies; split; cbn [rp_bump rp_set_seen rp_claim_index rp_verification_index
  rp_supervisor_index rp_operator_index rp_promotion_index rp_staged_events];
  run_simpl; rewrite ?length_app, ?Nat.add_0_r; cbn [length]; try lia; auto].
Ltac step_seen :=
  cbn [rp_bump rp_set_seen rp_seen_ids];
  intros x [->%elem_of_singleton|Hx]%elem_of_union; [right|by left];
  unfold run_ids; run_simpl; rewrite ?fmap_app, ?elem_of_app; cbn [fmap list_fmap];
  set_solver.
Ltac step_close := eexists _, _; split_and!; [reflexivity..|step_tallies|step_seen].

Lemma found_lifecycle m :
  match m with
  | MarkLaunchFailed _ _ | NoteProducerReservationInterrupted _ _ | MarkRunning _
  | MarkRuntimeExited _ _ _ | TakeOverWorker _ _ => True
  | _ => False
  end → made m → found T m e st u.
Proof.
  intros Hk Hu. destruct m; try done; clear Hk; step_open Hu.
  3: destruct (fu_exit _ _ Hfuture eq_refl) as [_ Hx]; run_simpl; rewrite Hx; destruct reason.
  all: eexists _, _; split_and!; [reflexivity..| |by intros ?; left].
  all: step_tallies.
Qed.

Lemma found_discard actor reason :
  made (DiscardStagedWorktree actor reason) →
  found T (DiscardStagedWorktree actor reason) e st u.
Proof.
  intros Hu. step_open Hu. unfold replay_staged_discarded.
  destruct (run_staged_worktree t) as [s|] eqn:Hs; [|done].
  destruct (fu_staged _ _ Hfuture (discard_staged s)) as (s' & -> & _); [done|].
  eexists _, _; split_and!; [reflexivity..| |by intros ?; left]. step_tallies.
Qed.

Lemma found_materialized staged :
  made (MaterializeStagedWorktree staged) → found T (MaterializeStagedWorktree staged) e st u.
Proof.
  intros Hu. step_open Hu. unfold replay_staged_materialized.
  destruct (fu_staged _ _ Hfuture _ eq_refl) as (s' & -> & [Hi Ha Hr Ho Hd Hat Hb]).
  cbn [ok_or mbind result_bind]. cbn [staged_id staged_actor staged_root
  staged_initial_subject_revision staged_shared_config_digest staged_materialized_at
  staged_based_on_revision live_context ctx_now] in *.
  rewrite Hi, Ha, Hb, Hat, record_link_fresh; [|done..|by apply Hfresh].
  cbn [mbind result_bind]. unfold staged_mutation. rewrite Ha, Hr, Ho, Hd.
  destruct staged. step_close.
Qed.

Lemma found_promotion promotion :
  made (RecordPromotion promotion) → found T (RecordPromotion promotion) e st u.
Proof.
  intros Hu. step_open Hu. unfold replay_promotion.
  rewrite (ta_promotions _ _ Htallies),
  (prefix_snoc_lookup _ _ _ (ext_promotions _ _ (fu_history _ _ Hfuture))).
  cbn [ok_or mbind result_bind].
  rewrite record_link_fresh; [|done..|by apply Hfresh].
  destruct promotion. step_close.
Qed.

Lemma found_claim claim : made (SubmitClaim claim) → found T (SubmitClaim claim) e st u.
Proof.
  intros Hu. step_open Hu; unfold replay_claim.
  all: rewrite (ta_claims _ _ Htallies),
  (prefix_snoc_lookup _ _ _ (ext_claims _ _ (fu_history _ _ Hfuture))).
  all: cbn [ok_or mbind result_bind].
  all: rewrite record_link_fresh; [|done..|by apply Hfresh].
  all: destruct claim; step_close.
Qed.

(** The stored latest record of a kind, and the one the replay has. *)
Ltac latest_found Ha :=
  rewrite Ha; cbn [ok_or mbind result_bind]; unfold bail_if;
  rewrite bool_decide_eq_false_2 by auto; cbn [reject_if mbind result_bind rp_set_seen rp_projection].

Lemma found_verification v : made (RecordVerification v) → found T (RecordVerification v) e st u.
Proof.
  intros Hu. step_open Hu. unfold replay_verification.
  rewrite (ta_verifications _ _ Htallies),
  (prefix_snoc_lookup _ _ _ (ext_verifications _ _ (fu_history _ _ Hfuture))).
  cbn [ok_or mbind result_bind].
  rewrite record_link_fresh; [|done..|by apply Hfresh].
  match goal with E : latest_claim t = Some ?c |- _ =>
  destruct (mirrors_latest_claim _ _ c Hmirror E) as (d & Hd & _);
  pose proof (prefix_last_lookup _ _ _ (ext_claims _ _ (fu_history _ _ Hfuture)) E) as Hc;
  run_simpl end.
  bool_inv. cbn [mbind result_bind rp_set_seen rp_claim_index].
  rewrite (ta_claims _ _ Htallies). latest_found Hc. rewrite Hd. cbn [ok_or mbind result_bind].
  eexists _, _; split_and!; [reflexivity|cbn [rebase replayed_mutation]; by rewrite Hd|
  |reflexivity..|step_tallies|step_seen].
  match goal with E : verification_input_claim_id v = _ |- _ =>
  cbn [fingerprint_input]; unfold verification_mutation; run_simpl; rewrite <-E end.
  by destruct v.
Qed.

Lemma found_verdict v :
  made (RecordSupervisorVerdict v) → found T (RecordSupervisorVerdict v) e st u.
Proof.
  intros Hu. step_open Hu. unfold replay_verdict.
  rewrite (ta_supervisors _ _ Htallies),
  (prefix_snoc_lookup _ _ _ (ext_verdicts _ _ (fu_history _ _ Hfuture))).
  cbn [ok_or mbind result_bind].
  rewrite record_link_fresh; [|done..|by apply Hfresh].
  match goal with E : latest_verification t = Some ?c |- _ =>
  destruct (mirrors_latest_verification _ _ c Hmirror E) as (d & Hd & _);
  pose proof (prefix_last_lookup _ _ _ (ext_verifications _ _ (fu_history _ _ Hfuture)) E) as Hc;
  run_simpl end.
  bool_inv. cbn [mbind result_bind rp_set_seen rp_verification_index].
  rewrite (ta_verifications _ _ Htallies). latest_found Hc. rewrite Hd.
  cbn [ok_or mbind result_bind].
  eexists _, _; split_and!; [reflexivity|cbn [rebase replayed_mutation]; by rewrite Hd|
  |reflexivity..|step_tallies|step_seen].
  match goal with E : verdict_input_verification_id v = _ |- _ =>
  cbn [fingerprint_input]; unfold verdict_mutation; run_simpl; rewrite <-E end.
  by destruct v.
Qed.

Lemma found_decision d :
  made (RecordOperatorDecision d) → found T (RecordOperatorDecision d) e st u.
Proof.
  intros Hu. step_open Hu. unfold replay_decision.
  rewrite (ta_operators _ _ Htallies),
  (prefix_snoc_lookup _ _ _ (ext_decisions _ _ (fu_history _ _ Hfuture))).
  cbn [ok_or mbind result_bind].
  rewrite record_link_fresh; [|done..|by apply Hfresh].
  match goal with E : latest_supervisor_verdict t = Some ?c |- _ =>
  destruct (mirrors_latest_verdict _ _ c Hmirror E) as (w & Hd & _);
  pose proof (prefix_last_lookup _ _ _ (ext_verdicts _ _ (fu_history _ _ Hfuture)) E) as Hc;
  run_simpl end.
  bool_inv. cbn [mbind result_bind rp_set_seen rp_supervisor_index].
  rewrite (ta_supervisors _ _ Htallies). latest_found Hc. rewrite Hd.
  cbn [ok_or mbind result_bind].
  eexists _, _; split_and!; [reflexivity|cbn [rebase replayed_mutation]; by rewrite Hd|
  |reflexivity..|step_tallies|step_seen].
  match goal with E : decision_input_supervisor_verdict_id d = _ |- _ =>
  cbn [fingerprint_input]; unfold decision_mutation; run_simpl; rewrite <-E end.
  by destruct d.
Qed.

Lemma found_mutation m : made m → found T m e st u.
Proof.
  intros Hu. destruct m; eauto using found_discard, found_materialized, found_promotion,
  found_claim, found_verification, found_verdict, found_decision.
  all: by apply found_lifecycle.
Qed.
End step.

(** ** The checks around the replay *)

Lemma record_id_not_event prefix uuid uuid' :
  record_prefix prefix = true → new_record_id prefix uuid ≠ new_record_id (lit "event") uuid'.
Proof.
  intros Hp Heq. destruct prefix as [|c prefix]; [done|].
  assert (c = 101) as -> by (injection Heq as -> _; reflexivity). done.
Qed.

Lemma digest_well_formed `{!HostLaws} label report version :
  require_sha256_digest label (governed_loop_report_digest report version) = Ok tt.
Proof.
  unfold require_sha256_digest, governed_loop_report_digest.
  rewrite strip_prefix_app, sha256_hex_len.
  match goal with |- context [sha256_hex ?x] => pose proof (sha256_hex_digits x) as Hd end.
  apply forallb_true_Forall in Hd.
  replace (forallb is_ascii_hexdigit _) with true; [done|].
  symmetry. apply forallb_true_Forall. eapply Forall_impl; [exact Hd|].
  unfold is_lower_hex_byte, is_ascii_hexdigit. intros b ->. done.
Qed.

(** The loop evidence of a new claim. *)
Lemma claim_loop_evidence claim rev authentication now ids t u :
  apply_mutation (SubmitClaim claim) rev (live_context now authentication) ids t = Ok u →
  ∃ c, run_claims u = run_claims t ++ [c] ∧
    ((claim_loop_report_digest c = None ∧ claim_loop_report_version c = None) ∨
     ∃ report, claim_loop_report_digest c =
         Some (governed_loop_report_digest report current_governed_loop_version) ∧
       claim_loop_report_version c = Some current_governed_loop_version).
Proof.
  intros Hu. mutation_inv Hu; run_simpl; eexists; (split; [reflexivity|]); run_simpl.
  all: match goal with Hs : governed_builder_loop_state _ _ _ = Ok ?ls |- _ =>
    destruct ls as [s|]; [right|by left]; cbn [fmap option_fmap option_map];
    rewrite (live_loop_state_version _ _ s Hs);
    unfold governed_builder_loop_state, recomputed_loop_state in Hs;
    destruct (bool_decide _); [done|]; cbn [live_context ctx_replay_claim] in Hs;
    destruct (with_context _ _) as [[]|]; [|done]; cbn [mbind result_bind] in Hs;
    destruct (elapsed_between _ _) as [elapsed|]; [|done]; cbn [mbind result_bind] in Hs;
    injection Hs as <-; cbn [loop_report_digest]; by eexists end.
Qed.

Lemma loop_evidence_replays `{!HostLaws} n c d :
  same_claim c d →
  ((claim_loop_report_digest c = None ∧ claim_loop_report_version c = None) ∨
   ∃ report, claim_loop_report_digest c =
       Some (governed_loop_report_digest report current_governed_loop_version) ∧
     claim_loop_report_version c = Some current_governed_loop_version) →
  require_replayed_loop_evidence n c d = Ok tt.
Proof.
  intros [_ Hd Hv] Hc. unfold require_replayed_loop_evidence. rewrite Hd, Hv.
  destruct Hc as [[-> ->]|(report & -> & ->)]; [done|].
  rewrite digest_well_formed. cbn [mbind result_bind].
  destruct (bool_decide (_ ≠ current_governed_loop_version)); [done|].
  unfold bail_if.
  by rewrite !bool_decide_eq_false_2 by (intros Hn; by apply Hn).
Qed.

Lemma check_event_passes n e st :
  event_revision e = n → 1 ≤ n →
  require_text (lit "governed task event detail") (event_detail e) = Ok tt →
  is_Some (parse_from_rfc3339 (event_created_at e)) → event_id e ∉ rp_seen_ids st →
  replay_check_event n e st =
    Ok (rp_set_projection (set_revision (n - 1) (rp_projection st))
          (rp_set_seen ({[event_id e]} ∪ rp_seen_ids st) st)).
Proof.
  intros Hn Hpos Htext [x Hts] Hid. unfold replay_check_event, require_rfc3339, bail_if.
  rewrite Hn, Htext, Hts, bool_decide_eq_false_2 by (intros Hne; by apply Hne).
  cbn [reject_if mbind result_bind]. rewrite insert_seen_fresh by done. cbn [mbind result_bind].
  unfold u64_checked_sub. destruct (Z.leb_spec 1 n); [done|lia].
Qed.

Lemma mirrors_own_revision t p : mirrors t p → mirrors t (set_revision (run_revision t) p).
Proof. intros []. split; run_simpl; try done. by apply (same_identity_of t t p _). Qed.

(** What the loop knows after the event was looked up. *)
Lemma mutation_replays `{!HostLaws} T m authentication ids now t u e p st uuids rauth :
  apply_mutation m (run_revision t + 1) (live_context now authentication) ids t = Ok u →
  future u T → run_events u = run_events t ++ [e] → mirrors t p → tallies u st →
  ∃ q, apply_mutation (rebase p m) (run_revision t + 1)
         {| ctx_now := event_created_at e; ctx_operator_authentication := rauth;
            ctx_replay_claim := replay_claim_evidence T e st; ctx_is_replay := true |}
         uuids p = Ok q ∧
       mirrors u q ∧ replay_check_result T e q st = Ok tt.
Proof.
  intros Hu Hf He Hm Hta.
  destruct (apply_mutation_event _ _ _ _ _ _ Hu) as (tripped & detail & He').
  assert (e = new_event ids (run_revision t + 1) (event_kind_of m tripped) (mutation_actor m)
                detail now) as Hkind.
  { rewrite He in He'. apply app_inv_head in He'. by injection He'. }
  assert (∀ claim, m = SubmitClaim claim → ∃ c,
    run_claims T !! Nat.pred (rp_claim_index st) = Some c ∧ last (run_claims u) = Some c ∧
    is_claim_event (event_kind e) = true ∧
    ((claim_loop_report_digest c = None ∧ claim_loop_report_version c = None) ∨
     ∃ report, claim_loop_report_digest c =
         Some (governed_loop_report_digest report current_governed_loop_version) ∧
       claim_loop_report_version c = Some current_governed_loop_version)) as Hclaim.
  { intros claim ->. destruct (claim_loop_evidence _ _ _ _ _ _ _ Hu) as (c & Hc & Hev).
    exists c. rewrite Hc, last_snoc, (ta_claims _ _ Hta), Hc, length_app, Nat.add_1_r.
    split_and!; [|done|by rewrite Hkind; destruct tripped|done].
    apply prefix_snoc_lookup. rewrite <-Hc. apply (ext_claims _ _ (fu_history _ _ Hf)). }
  destruct (mirror_mutation m (run_revision t + 1) authentication now ids t u p
    {| ctx_now := event_created_at e; ctx_operator_authentication := rauth;
       ctx_replay_claim := replay_claim_evidence T e st; ctx_is_replay := true |} uuids)
    as (q & Hq & Hmq & Hk); [done..|by rewrite Hkind|done| |].
  { intros claim Hmc c Hc _. destruct (Hclaim claim Hmc) as (c' & Hl & Hlast & Hce & _).
    unfold latest_claim in Hc. simplify_eq. cbn [ctx_replay_claim]. unfold replay_claim_evidence.
    rewrite Hce, Hl. by eexists. }
  exists q. split_and!; [done|done|].
  unfold replay_check_result, bail_if. rewrite He, last_snoc in Hk.
  destruct (last (run_events q)) as [e'|] eqn:Hlq; [|done].
  cbn [fmap option_fmap option_map] in Hk. injection Hk as Hk.
  cbn [ok_or mbind result_bind]. rewrite Hk, bool_decide_eq_false_2 by (intros Hn; by apply Hn).
  cbn [reject_if mbind result_bind].
  destruct (is_claim_event (event_kind e)) eqn:Hce; [|done].
  assert (∃ claim, m = SubmitClaim claim) as [claim Hmc].
  { rewrite Hkind in Hce. destruct m; try done. by eexists. }
  destruct (Hclaim claim Hmc) as (c & Hl & Hlast & _ & Hev). rewrite Hl.
  destruct (mirrors_latest_claim u q c Hmq Hlast) as (d & Hd & Hcd). rewrite Hd.
  cbn [ok_or mbind result_bind]. by apply loop_evidence_replays.
Qed.

Lemma prefix_elem {A} (l k : list A) x : l `prefix_of` k → x ∈ l → x ∈ k.
Proof. intros [s ->] Hx. apply elem_of_app. by left. Qed.

Lemma future_run_ids t u x : future t u → x ∈ run_ids t → x ∈ run_ids u.
Proof.
  intros [_ [] Hs _]. unfold run_ids. rewrite !elem_of_app.
  assert (∀ (A : Type) (f : A → rstring) (l k : list A),
    l `prefix_of` k → x ∈ f <$> l → x ∈ f <$> k) as Hmono
    by (intros A f l k [s ->]; rewrite fmap_app, elem_of_app; by left).
  intros [Hx|[Hx|[Hx|[Hx|[Hx|[Hx|Hx]]]]]];
    [left|right;left|do 2 right;left|do 3 right;left|do 4 right;left|do 5 right;left|do 6 right];
    [by eapply Hmono..|].
  destruct (run_staged_worktree t) as [s|]; [|by inversion Hx].
  destruct (Hs s eq_refl) as (s' & -> & [Hid _]).
  change (x ∈ [staged_id s]) in Hx. change (x ∈ [staged_id s']). by rewrite Hid.
Qed.

Lemma step_tracked `{!HostLaws} T uuids t fps st m authentication ids now t' e :
  recorded t fps → advance_run m authentication ids now t = Ok t' →
  is_Some (parse_from_rfc3339 now) → uuid_shaped (fresh_record ids) → fresh_for t ids →
  future t' T → run_events t' = run_events t ++ [e] → tracks t fps st →
  ∃ st', replay_event T uuids (run_revision t') e st = Ok st' ∧
    tracks t' (<[run_revision t' := fingerprint_mutation (run_project_id t) (run_id t) m]> fps) st'.
Proof.
  intros Hrec Ha Hnow Huuid [Hfr Hfe] Hf He [Hm Hta Hseen Hfp].
  pose proof (recorded_reachable _ _ Hrec) as Hreach.
  pose proof (reachable_revision_nonneg t Hreach) as Hpos.
  apply advance_run_inv in Ha as (u & Hu & Hmax & ->). run_simpl.
  assert (future u T) as Hfu by (etransitivity; [apply stamp_future|exact Hf]).
  destruct (apply_mutation_event _ _ _ _ _ _ Hu) as (tripped & detail & He').
  assert (e = new_event ids (run_revision t + 1) (event_kind_of m tripped) (mutation_actor m)
                detail now) as Hkind.
  { rewrite He in He'. apply app_inv_head in He'. by injection He'. }
  destruct (event_detail_admissible m (run_revision t + 1) authentication ids now t u
    (lit "governed task event detail")) as (e' & He1 & Htext); [by apply reachable_signatures| |done..|].
  { pose proof (rb_verifications _ (reachable_records_bounded t Hreach)).
    unfold MAX_GOVERNED_RECORDS_PER_KIND, u64_max in *. lia. }
  rewrite He, last_snoc in He1. injection He1 as <-.
  set (st1 := rp_set_projection (set_revision (run_revision t + 1 - 1) (rp_projection st))
                (rp_set_seen ({[event_id e]} ∪ rp_seen_ids st) st)).
  assert (replay_check_event (run_revision t + 1) e st = Ok st1) as Hcheck.
  { apply check_event_passes; [by rewrite Hkind|lia|done|by rewrite Hkind|].
    rewrite Hkind. cbn [new_event event_id]. auto. }
  assert (event_id e ∈ run_ids u) as Heid.
  { unfold run_ids. rewrite He, fmap_app, !elem_of_app. left; right. by left. }
  destruct (found_mutation T t u authentication now ids e st1) with (m := m)
    as (rpl & st2 & Hfound & Hrm & Hcan & Hp2 & Hf2 & Hta2 & Hseen2); [done..| | | |done|].
  { unfold st1. cbn [rp_set_projection rp_projection].
    rewrite Z.add_simpl_r. by apply mirrors_own_revision. }
  { by destruct Hta. }
  { intros prefix Hpre. unfold st1. cbn [rp_set_projection rp_set_seen rp_seen_ids].
    rewrite not_elem_of_union, not_elem_of_singleton. rewrite Hkind. cbn [new_event event_id].
    split; [by apply record_id_not_event|]. intros Hx. by eapply Hfr, Hseen. }
  set (st3 := rp_set_fingerprints
    (<[run_revision t + 1 := fingerprint_mutation (run_project_id t) (run_id t) m]> fps) st2).
  assert (mirrors t (rp_projection st1)) as Hm1.
  { unfold st1. cbn [rp_set_projection rp_projection].
    rewrite Z.add_simpl_r. by apply mirrors_own_revision. }
  destruct (mutation_replays T m authentication ids now t u e (rp_projection st1) st3
    (uuids (run_revision t + 1)) (replayed_authentication rpl)) as (q & Hq & Hmq & Hres);
    [done..|by destruct Hta2|].
  assert (event_revision e = run_revision t + 1) as Her by by rewrite Hkind.
  exists (rp_set_projection (set_revision (run_revision t + 1) q) st3). split.
  - unfold replay_event. rewrite Hcheck. cbn [mbind result_bind]. rewrite Hfound.
    cbn [mbind result_bind fst snd]. rewrite Her.
    assert (rp_fingerprints st2 = fps) as Hfps by (by rewrite Hf2).
    assert (bool_decide (is_Some (rp_fingerprints st2 !! (run_revision t + 1))) = false) as ->.
    { apply bool_decide_eq_false_2. rewrite Hfps, (recorded_fingerprints _ _ _ Hrec). lia. }
    unfold bail_if. cbn [reject_if mbind result_bind].
    pose proof (fu_identity _ _ Hfu) as HidT. destruct (apply_mutation_identity _ _ _ _ _ _ Hu) as [Hidu _].
    rewrite (same_project _ _ HidT), (same_project _ _ Hidu), (same_id _ _ HidT), (same_id _ _ Hidu).
    assert (fingerprint_mutation (run_project_id t) (run_id t) (fingerprint_input rpl) =
            fingerprint_mutation (run_project_id t) (run_id t) m) as ->
      by (unfold fingerprint_mutation; by rewrite Hcan).
    rewrite Hfps. fold st3.
    change (rp_projection st3) with (rp_projection st2). rewrite Hrm, Hp2, Hq.
    cbn [with_context map_err mbind result_bind]. by rewrite Hres.
  - split.
    + cbn [rp_set_projection rp_projection]. by apply mirrors_stamp.
    + by destruct Hta2.
    + intros x Hx. cbn [rp_set_projection rp_seen_ids st3 rp_set_fingerprints] in Hx.
      apply (future_run_ids u); [apply stamp_future|].
      destruct (Hseen2 x Hx) as [Hx1|?]; [|done].
      unfold st1 in Hx1. cbn [rp_set_projection rp_set_seen rp_seen_ids] in Hx1.
      apply elem_of_union in Hx1 as [->%elem_of_singleton|Hx1]; [done|].
      eapply future_run_ids; [by eapply apply_mutation_future|auto].
    + done.
Qed.

(** * A whole run *)

Lemma replay_events_snoc T uuids e es : ∀ i st,
  replay_events T uuids i (es ++ [e]) st =
  (st' ← replay_events T uuids i es st ; replay_event T uuids (i + zlen es) e st').
Proof.
  induction es as [|e' es IH]; intros i st; cbn [app replay_events].
  - cbn [mbind result_bind]. change (zlen []) with 0. rewrite Z.add_0_r.
    by destruct (replay_event T uuids i e st).
  - destruct (replay_event T uuids i e' st) as [st1|]; [|done]. cbn [mbind result_bind].
    rewrite IH, zlen_cons. replace (i + 1 + zlen es) with (i + (1 + zlen es)) by lia.
    by replace (1 + zlen es) with (zlen es + 1) by lia.
Qed.

(** The first event, whatever was recorded since. *)
Record registered_by t first : Prop := {
  rg_head : ∃ rest, run_events t = first :: rest;
  rg_revision : event_revision first = 0;
  rg_kind : event_kind first = EventRegistered;
  rg_actor : event_actor first = {| actor_kind := System; actor_id := lit "impulse-daemon" |};
  rg_detail : event_detail first = lit "governed task registered before runtime launch";
  rg_created : event_created_at first = run_created_at t
}.

Lemma recorded_first t fps :
  recorded t fps → ∃ first, registered_by t first ∧ is_Some (parse_from_rfc3339 (run_created_at t)).
Proof.
  induction 1 as [r ids now _ Hnow|t fps m a ids now t' Hr (first & [(rest & He) ?????] & ?) Ha _ _ _].
  - eexists. split; [|exact Hnow]. split; [by eexists|done..].
  - destruct (advance_future _ _ _ _ _ _ Ha) as [Hid [[s Hs] _ _ _ _ _] _ _].
    exists first. rewrite (same_created _ _ Hid). split; [|done]. split; try done.
    + exists (rest ++ s). by rewrite Hs, He.
    + by rewrite (same_created _ _ Hid).
Qed.

Lemma recorded_updated t fps : recorded t fps → is_Some (parse_from_rfc3339 (run_updated_at t)).
Proof.
  induction 1 as [r ids now _ Hnow|t fps m a ids now t' Hr _ Ha Hnow _ _]; [done|].
  by apply advance_run_inv in Ha as (u & _ & _ & ->).
Qed.

Lemma initial_tracked T r ids now first :
  future (registered_run r ids now) T → registered_by T first →
  tracks (registered_run r ids now) ∅ (initial_replay_state T first).
Proof.
  intros Hf Hfirst. pose proof (initial_projection_blank T) as Hbl.
  assert (same_identity T (initial_projection T)) as Hid by by split.
  assert (run_revision (initial_projection T) = 0) as Hrev by reflexivity.
  assert (run_events (initial_projection T) = []) as Hev by reflexivity.
  unfold initial_replay_state. revert Hbl Hid Hrev Hev. generalize (initial_projection T).
  intros q [Hex Hk Hr Hst Hp Hc Hv Hd Ho] Hid Hrev Hev.
  split; cbn [rp_projection rp_seen_ids rp_fingerprints]; [|split; done| |done].
  - assert (same_identity (registered_run r ids now) q)
      by (etransitivity; [apply (fu_identity _ _ Hf)|done]).
    split; rewrite ?Hrev, ?Hex, ?Hk, ?Hr, ?Hst, ?Hp, ?Hc, ?Hv, ?Hd, ?Ho, ?Hev; try done; constructor.
  - intros x ->%elem_of_singleton. destruct Hf as [_ [[s Hs] _ _ _ _ _] _ _].
    destruct (rg_head _ _ Hfirst) as (rest & He). rewrite He in Hs. cbn in Hs. injection Hs as -> _.
    by left.
Qed.

Lemma recorded_replays `{!HostLaws} T uuids first t fps :
  recorded t fps → future t T → registered_by T first →
  ∃ st, replay_events T uuids 1 (tail (run_events t)) (initial_replay_state T first) = Ok st ∧
    tracks t fps st.
Proof.
  induction 1 as [r ids now Hv Hnow|t fps m a ids now t' Hr IH Ha Hnow Hu Hfr]; intros Hf Hfirst.
  - eexists. split; [reflexivity|by apply initial_tracked].
  - destruct IH as (st & Hst & Htr); [etransitivity; [by eapply advance_future|done]|done|].
    pose proof (advance_run_inv _ _ _ _ _ _ Ha) as (u & Hu' & _ & Ht').
    destruct (apply_mutation_event _ _ _ _ _ _ Hu') as (x & d & He).
    assert (∃ e, run_events t' = run_events t ++ [e]) as (e & He') by (subst; eauto).
    destruct (step_tracked T uuids t fps st m a ids now t' e) as (st' & Hstep & Htr'); try done.
    exists st'. split; [|done].
    pose proof (reachable_history_wf t (recorded_reachable _ _ Hr)) as [(e0 & Hh & _) _ Hl _].
    destruct (run_events t) as [|e1 es] eqn:Hes; [done|].
    rewrite He'. cbn [app tail]. cbn [tail] in Hst. rewrite replay_events_snoc, Hst. cbn [mbind result_bind].
    assert (1 + zlen es = run_revision t') as ->; [|done].
    rewrite Ht'. run_simpl. rewrite zlen_cons in Hl. lia.
Qed.

Lemma recorded_limits t fps : recorded t fps → validate_history_limits t = Ok tt.
Proof.
  intros Hr. pose proof (recorded_reachable _ _ Hr) as Hreach.
  destruct (recorded_first _ _ Hr) as (first & [(rest & He) _ _ _ _ _] & [x Hx]).
  destruct (recorded_updated _ _ Hr) as [y Hy].
  destruct (reachable_history_wf t Hreach) as [_ _ Hl Hb].
  destruct (reachable_records_bounded t Hreach).
  pose proof (reachable_revision_nonneg t Hreach).
  unfold validate_history_limits, require_rfc3339. rewrite Hx, Hy. cbn [mbind result_bind].
  rewrite bool_decide_eq_false_2 by (by rewrite He). cbn [orb].
  assert (∀ a : Z, a ≤ MAX_GOVERNED_RECORDS_PER_KIND → (MAX_GOVERNED_RECORDS_PER_KIND <? a) = false)
    as Hlt by (intros; by apply Z.ltb_ge).
  assert ((MAX_GOVERNED_EVENTS <? zlen (run_events t)) = false) as -> by by apply Z.ltb_ge.
  unfold bail_if. cbn [reject_if mbind result_bind for_each snd].
  rewrite !Hlt by done. cbn [reject_if mbind result_bind].
  assert (u64_checked_add (run_revision t) 1 = Some (run_revision t + 1)) as ->.
  { apply u64_checked_add_Some. unfold MAX_GOVERNED_EVENTS, u64_max in *. lia. }
  cbn [ok_or mbind result_bind]. rewrite Hl, Z.eqb_refl. done.
Qed.

Lemma recorded_state_matches t fps st : tracks t fps st → validate_replayed_state t st = Ok tt.
Proof.
  intros [Hm [Hc Hv Hs Ho Hp Hst] _ _]. unfold validate_replayed_state, bail_if.
  rewrite Hc, Hv, Hs, Ho, Hp, !Nat.eqb_refl. cbn [negb orb].
  assert (bool_decide (run_staged_worktree t ≠ None) && Nat.eqb (rp_staged_events st) 0 = false) as ->.
  { destruct (bool_decide (run_staged_worktree t ≠ None)) eqn:E; [|done]. bool_inv.
    by apply Nat.eqb_neq, Hst. }
  rewrite (mi_execution _ _ Hm), (mi_exit _ _ Hm), (mi_review _ _ Hm).
  rewrite !bool_decide_eq_false_2 by (intros Hn; by apply Hn). cbn [orb reject_if mbind result_bind].
  assert (staged_worktrees_match (run_staged_worktree (rp_projection st)) (run_staged_worktree t) = true)
    as ->.
  { destruct (mi_staged _ _ Hm) as [s q [Hr Hi Hd Hs' Ha Hb]|]; [|done].
    cbn [staged_worktrees_match]. rewrite Hb, !bool_decide_eq_true_2 by done. apply Z.eqb_refl. }
  rewrite (Forall2_length _ _ _ (mi_promotions _ _ Hm)), Nat.eqb_refl. cbn [negb orb reject_if mbind result_bind].
  assert (existsb (λ pair, promotions_differ pair.1 pair.2)
    (zip (run_promotions (rp_projection st)) (run_promotions t)) = false) as ->; [|done].
  clear Hp. induction (mi_promotions _ _ Hm) as [|a b l k [] _ IH]; [done|]. cbn [zip zip_with existsb].
  unfold promotions_differ at 1. cbn [fst snd].
  rewrite !bool_decide_eq_false_2 by (intros Hn; by apply Hn). done.
Qed.

(** A run its mutations made passes the reload validation, whatever UUIDs the
    replay draws, and what it yields is the fingerprint of the request behind
    each revision. *)
Lemma recorded_validates `{!HostLaws} t fps uuids :
  recorded t fps → validate_task_history t uuids = Ok fps.
Proof.
  intros Hr. destruct (recorded_first _ _ Hr) as (first & Hfirst & _).
  destruct (recorded_replays t uuids first t fps Hr) as (st & Hst & Htr); [done|done|].
  pose proof Hfirst as [(rest & He) Hrev Hkind Hact Hdet Hcr].
  unfold validate_task_history. rewrite (recorded_limits t fps Hr). cbn [mbind result_bind].
  rewrite He in Hst |- *. cbn [tail] in Hst.
  assert (validate_first_event t first = Ok tt) as ->.
  { unfold validate_first_event, require_actor, require_rfc3339, bail_if.
    destruct (recorded_first _ _ Hr) as (_ & _ & [x Hx]).
    rewrite Hrev, Hkind, Hact, Hdet, Hcr, Hx.
    rewrite fixed_text by done.
    rewrite (bool_decide_eq_false_2 (run_created_at t ≠ run_created_at t))
      by (intros Hn; by apply Hn). by vm_compute. }
  cbn [mbind result_bind]. rewrite Hst. cbn [mbind result_bind].
  rewrite (recorded_state_matches t fps st Htr). cbn [mbind result_bind].
  by rewrite (tr_fingerprints _ _ _ Htr).
Qed.
End reload.
