(* ===== verification/ReloadProps.v ===== *)
(** Whatever the operations made of a ledger, loading it back succeeds: every
    check of the load-time validation holds of it, run by run and receipt by
    receipt. *)
From S2P Require Export ReloadRun.
Local Open Scope Z_scope.

(** * What the host provides *)

(** [std::fs::canonicalize]: a canonical path is absolute, free of NUL, within
    [PATH_MAX], and its own canonical path. *)
Class CanonicalPaths (s : Storage) : Prop := {
  canonical_absolute p root : canonicalize s p = Some root → path_is_absolute root = true;
  canonical_nul p root : canonicalize s p = Some root → contains_nul root = false;
  canonical_length p root : canonicalize s p = Some root → len root ≤ 4096;
  canonical_fixed p root : canonicalize s p = Some root → canonicalize s root = Some root
}.

Lemma path_eqb_sym a b : path_eqb a b = path_eqb b a.
Proof. unfold path_eqb. by apply bool_decide_ext. Qed.

Lemma canonical_nonblank `{CanonicalPaths s} p root field :
  canonicalize s p = Some root → validate_nonblank field root (16 * 1024) = Ok tt.
Proof.
  intros Hp. pose proof (canonical_absolute _ _ Hp) as Habs. pose proof (canonical_length _ _ Hp).
  unfold validate_nonblank. rewrite (canonical_nul _ _ Hp).
  assert (is_empty (trim root) = false) as ->.
  { destruct root as [|c root]; [done|]. cbn in Habs. apply Z.eqb_eq in Habs as ->.
    by apply (nonblank_app (lit "/") root). }
  by replace (16 * 1024 <? len root) with false by (symmetry; apply Z.ltb_ge; lia).
Qed.

Section reload.
Context `{Host, !HostLaws} (s : Storage) `{!CanonicalPaths s}.
Implicit Types (l : GovernedTaskLedger) (t : GovernedTaskRun).
#[local] Set Default Proof Using "Type*".

(** A successful operation with what the host gives: a readable time, and UUIDs
    no id of the run has. *)
Inductive host_step l : GovernedTaskLedger → Prop :=
  | host_register registration ids now o :
      decide_registration s l registration ids now = Ok o →
      is_Some (parse_from_rfc3339 now) →
      host_step l (outcome_ledger o l)
  | host_mutate request authentication ids now o :
      decide_mutation s l request authentication ids now = Ok o →
      is_Some (parse_from_rfc3339 now) → uuid_shaped (fresh_record ids) →
      (∀ t, ledger_tasks l !! request_task_id request = Some t → fresh_for t ids) →
      host_step l (outcome_ledger o l).

Definition host_reachable l : Prop := rtc host_step ledger_default l.

Lemma host_step_ledger l l' : host_step l l' → ledger_step s l l'.
Proof. intros []; [by eapply step_register|by eapply step_mutate]. Qed.

Lemma host_reachable_wf l : host_reachable l → ledger_wf s l.
Proof.
  intros Hr. apply (ledger_reachable_wf s). unfold ledger_reachable.
  eapply (rtc_subrel host_step); [apply host_step_ledger|exact Hr].
Qed.

(** * The invariant *)

(** The receipts of a run agree with the fingerprints of its mutations. *)
Record receipted l t (fps : gmap Z rstring) : Prop := {
  rc_registration r receipt :
    ledger_processed_requests l !! r = Some receipt → receipt_task_id receipt = run_id t →
    receipt_resulting_revision receipt = 0 →
    validate_registration (stored_registration t r) = Ok tt ∧
    receipt_request_fingerprint receipt = fingerprint_registration (stored_registration t r);
  rc_mutation r receipt fp :
    ledger_processed_requests l !! r = Some receipt → receipt_task_id receipt = run_id t →
    fps !! receipt_resulting_revision receipt = Some fp → receipt_request_fingerprint receipt = fp
}.

Record reloadable l : Prop := {
  rl_recorded k t :
    ledger_tasks l !! k = Some t → ∃ fps, recorded t fps ∧ receipted l t fps;
  rl_root k t :
    ledger_tasks l !! k = Some t →
    ∃ p expected, canonicalize s p = Some (run_workspace_root t) ∧
      canonical_governed_project_root s = Ok expected ∧
      path_eqb (run_workspace_root t) expected = true;
  rl_fingerprint r receipt :
    ledger_processed_requests l !! r = Some receipt →
    require_request_fingerprint (receipt_request_fingerprint receipt) = Ok tt
}.

Lemma fingerprint_well_formed payload : require_request_fingerprint (fingerprint_bytes payload) = Ok tt.
Proof.
  unfold require_request_fingerprint, fingerprint_bytes, bail_if.
  rewrite strip_prefix_app, sha256_hex_len, sha256_hex_digits. done.
Qed.

Lemma stored_registration_later t u r :
  same_identity t u → stored_registration u r = stored_registration t r.
Proof.
  intros Hid. unfold stored_registration.
  by rewrite (same_id _ _ Hid), (same_project _ _ Hid), (same_workspace _ _ Hid), (same_task _ _ Hid),
    (same_criteria _ _ Hid), (same_policy _ _ Hid), (same_scope _ _ Hid), (same_profile _ _ Hid),
    (same_assignment _ _ Hid), (same_compatibility _ _ Hid), (same_runtime _ _ Hid),
    (same_agent _ _ Hid), (same_session _ _ Hid), (same_initial _ _ Hid).
Qed.

Lemma validate_registration_root registration p root :
  canonicalize s p = Some root → validate_registration registration = Ok tt →
  validate_registration (set_workspace_root root registration) = Ok tt.
Proof.
  intros Hp Hv. unfold validate_registration in *. result_inv.
  assert (validate_registration_fields (set_workspace_root root registration) = Ok tt) as ->.
  { unfold validate_registration_fields in *. result_inv.
    cbn [set_workspace_root reg_project_id reg_workspace_root reg_task reg_runtime_id reg_agent_id
      reg_acceptance_criteria reg_session_id reg_task_id reg_initial_subject_revision].
    rewrite (canonical_nonblank _ _ _ Hp).
    match goal with Hc : Forall _ (reg_acceptance_criteria registration) |- _ =>
      apply (proj2 (for_each_Ok _ _ tt)) in Hc end.
    repeat match goal with
      | E : ?m = Ok _ |- context [?m] => rewrite E
      | E : ?b = false |- context [reject_if ?b _] => rewrite E
      end; cbn [reject_if mbind result_bind]. done. }
  cbn [mbind result_bind].
  repeat match goal with
    | E : ?v registration = Ok tt |- context [?v (set_workspace_root root registration)] =>
      change (v (set_workspace_root root registration)) with (v registration); rewrite E;
      cbn [mbind result_bind] end.
  done.
Qed.

Lemma registered_stored registration ids now :
  stored_registration (registered_run registration ids now) (reg_request_id registration) = registration.
Proof. by destruct registration. Qed.

(** ** Every operation keeps it *)

Lemma receipted_other l t fps request_id fingerprint u :
  ledger_processed_requests l !! request_id = None → run_id u ≠ run_id t →
  receipted l t fps → receipted (record_run request_id fingerprint u l) t fps.
Proof.
  intros Hnew Hne [Hr Hm].
  split; [intros r receipt|intros r receipt fp]; rewrite record_run_processed;
    case_decide; [|eauto| |eauto]; intros [= <-] Heq; by destruct Hne.
Qed.

Lemma reloadable_record l request_id payload t fps :
  reloadable l → ledger_processed_requests l !! request_id = None → recorded t fps →
  (∃ p expected, canonicalize s p = Some (run_workspace_root t) ∧
     canonical_governed_project_root s = Ok expected ∧
     path_eqb (run_workspace_root t) expected = true) →
  receipted (record_run request_id (fingerprint_bytes payload) t l) t fps →
  (∀ k u, ledger_tasks l !! k = Some u → k ≠ run_id t → run_id t ≠ run_id u) →
  reloadable (record_run request_id (fingerprint_bytes payload) t l).
Proof.
  intros [Hrec Hroot Hfp] Hnew Ht Hrt Hreceipts Hkeys. split.
  - intros k u. rewrite record_run_tasks. intros [[_ <-]|[Hne Hu]]%lookup_insert_Some; [by exists fps|].
    destruct (Hrec k u Hu) as (fps' & ? & ?). exists fps'. split; [done|].
    apply receipted_other; [done| |done]. by eapply Hkeys.
  - intros k u. rewrite record_run_tasks. intros [[_ <-]|[_ Hu]]%lookup_insert_Some; eauto.
  - intros r receipt. rewrite record_run_processed. case_decide; [|by apply Hfp].
    intros [= <-]. apply fingerprint_well_formed.
Qed.

Lemma reloadable_register l registration ids now o :
  ledger_wf s l → reloadable l → decide_registration s l registration ids now = Ok o →
  is_Some (parse_from_rfc3339 now) → reloadable (outcome_ledger o l).
Proof.
  intros Hwf Hrl Hd Hnow.
  apply decide_registration_inv in Hd as [[t ->]|(root & t & Hv & Hp & Hroot & -> & Hn & Hk & ->)];
    [done|].
  unfold canonical_governed_workspace in Hroot. result_inv.
  assert (validate_registration (set_workspace_root root registration) = Ok tt) as Hv'
    by (by eapply validate_registration_root).
  eapply reloadable_record; [done|done|by apply recorded_registered| | |].
  - eexists _, _. split_and!; [done|done|]. rewrite path_eqb_sym. by apply negb_false_iff.
  - split; [intros r receipt; rewrite record_run_processed; case_decide|done].
    + intros [= <-] _ _. subst r. cbn [receipt_request_fingerprint].
      by rewrite (registered_stored (set_workspace_root root registration)).
    + intros Hr Htask _. exfalso.
      destruct (lw_receipt _ _ Hwf _ _ Hr) as (u & Hu & _). rewrite Htask in Hu.
      cbn [run_id registered_run set_workspace_root reg_task_id] in Hu. congruence.
  - intros k u Hu Hne. cbn [run_id registered_run set_workspace_root reg_task_id] in *.
    by rewrite (lw_key _ _ Hwf _ _ Hu).
Qed.

Lemma reloadable_mutate l request authentication ids now o :
  ledger_wf s l → reloadable l → decide_mutation s l request authentication ids now = Ok o →
  is_Some (parse_from_rfc3339 now) → uuid_shaped (fresh_record ids) →
  (∀ t, ledger_tasks l !! request_task_id request = Some t → fresh_for t ids) →
  reloadable (outcome_ledger o l).
Proof.
  intros Hwf Hrl Hd Hnow Huuid Hfresh.
  destruct (ledger_processed_requests l !! request_request_id request) as [receipt|] eqn:Hk.
  { by destruct (decide_mutation_known _ _ _ _ _ _ _ _ Hk Hd) as (t & -> & _). }
  assert (request_project_id request = governed_project_id_for_storage s) as Hproject.
  { unfold decide_mutation, require_project in Hd. result_inv. by bool_inv. }
  destruct (decide_mutation_new _ _ _ _ _ _ _ Hk Hd)
    as (t & Ht & Hp & _ & _ & [[-> _]|(t' & _ & Ha & ->)]); [done|].
  destruct (rl_recorded _ Hrl _ _ Ht) as (fps & Hrec & Hreceipts).
  pose proof (advance_future _ _ _ _ _ _ Ha) as [Hid _ _ _].
  assert (run_revision t' = run_revision t + 1) as Hrev
    by (by apply advance_run_inv in Ha as (u & _ & _ & ->)).
  pose proof (lw_key _ _ Hwf _ _ Ht) as Hkey.
  eapply reloadable_record; [done|done|eapply recorded_mutated; eauto| | |].
  - rewrite (same_workspace _ _ Hid). by eapply (rl_root _ Hrl).
  - pose proof (reachable_revision_nonneg t (recorded_reachable _ _ Hrec)).
    split; [intros r receipt|intros r receipt fp]; rewrite record_run_processed, (same_id _ _ Hid);
      case_decide.
    + intros [= <-] _. cbn [receipt_resulting_revision]. lia.
    + rewrite (stored_registration_later t t') by done. apply (rc_registration _ _ _ Hreceipts).
    + intros [= <-] _. cbn [receipt_resulting_revision receipt_request_fingerprint].
      rewrite lookup_insert_eq. intros [= <-]. unfold fingerprint_mutation.
      by rewrite Hproject, Hp, Hkey.
    + intros Hr Htask. destruct (lw_receipt _ _ Hwf _ _ Hr) as (u & Hu & ?).
      rewrite Htask, Hkey in Hu. simplify_eq. rewrite lookup_insert_ne by lia.
      by eapply (rc_mutation _ _ _ Hreceipts).
  - intros k u Hu Hne. rewrite (same_id _ _ Hid), (lw_key _ _ Hwf _ _ Hu) in *. done.
Qed.

Lemma host_steps_reloadable l l' :
  rtc host_step l l' → ledger_wf s l → reloadable l → reloadable l'.
Proof.
  induction 1 as [|l u l' Hs _ IH]; [done|]. intros Hwf Hrl. apply IH.
  - by eapply ledger_step_wf, host_step_ledger.
  - destruct Hs; [by eapply reloadable_register|by eapply reloadable_mutate].
Qed.

Lemma host_reachable_reloadable l : host_reachable l → reloadable l.
Proof. intros Hr. eapply host_steps_reloadable; [exact Hr|apply ledger_default_wf|by split]. Qed.

(** * The receipt index *)

Definition receipt_entry (r : rstring) (receipt : GovernedMutationReceipt) : rstring * rstring :=
  (r, receipt_request_fingerprint receipt).

(** [index] has the receipts of [entries], by task and revision. *)
Definition indexes l (entries : list (rstring * GovernedMutationReceipt))
    (index : gmap rstring receipts) : Prop :=
  ∀ k, (is_Some (ledger_tasks l !! k) → is_Some (index !! k)) ∧
    ∀ m n x, index !! k = Some m →
      m !! n = Some x ↔ ∃ receipt, (x.1, receipt) ∈ entries ∧ receipt_task_id receipt = k ∧
        receipt_resulting_revision receipt = n ∧ receipt_request_fingerprint receipt = x.2.

Lemma initially_indexed l : indexes l [] ((λ _, ∅) <$> ledger_tasks l).
Proof.
  intros k. rewrite lookup_fmap. split; [intros [t ->]; by eexists|].
  intros m n x. destruct (ledger_tasks l !! k); [|done]. intros [= <-]. rewrite lookup_empty.
  split; [done|]. by intros (? & ?%elem_of_nil & _).
Qed.

Lemma index_receipts_indexes l entries : ∀ done index,
  ledger_wf s l → reloadable l →
  (∀ r receipt, (r, receipt) ∈ done ++ entries → ledger_processed_requests l !! r = Some receipt) →
  NoDup (done ++ entries).*1 → indexes l done index →
  ∃ index', index_receipts l index entries = Ok index' ∧ indexes l (done ++ entries) index'.
Proof.
  induction entries as [|[r receipt] entries IH]; intros done index Hwf Hrl Hin Hnd Hix.
  { exists index. by rewrite app_nil_r. }
  assert (ledger_processed_requests l !! r = Some receipt) as Hr.
  { apply Hin. rewrite elem_of_app. right. by left. }
  destruct (lw_receipt _ _ Hwf _ _ Hr) as (t & Ht & Hrev).
  destruct (Hix (receipt_task_id receipt)) as [Hdom Hat].
  destruct (Hdom ltac:(by eexists)) as (m & Hm).
  assert (m !! receipt_resulting_revision receipt = None) as Hfresh.
  { destruct (m !! receipt_resulting_revision receipt) as [x|] eqn:Hx; [|done]. exfalso.
    apply (Hat _ _ _ Hm) in Hx as (receipt' & Hin' & Htask & Hn & _).
    assert (ledger_processed_requests l !! x.1 = Some receipt') as Hx
      by (apply Hin, elem_of_app; by left).
    destruct (lw_covered _ _ Hwf _ _ (receipt_resulting_revision receipt) Ht Hrev) as (r0 & _ & Huniq).
    assert (∀ q rec, ledger_processed_requests l !! q = Some rec →
      receipt_task_id rec = receipt_task_id receipt →
      receipt_resulting_revision rec = receipt_resulting_revision receipt → q = r0) as Hq.
    { intros q [] Hq Ht' Hn'. apply Huniq. cbn in Ht', Hn'. subst. by eexists. }
    assert (x.1 = r) as Heq by (rewrite (Hq _ _ Hx), (Hq _ _ Hr); done).
    rewrite fmap_app, NoDup_app in Hnd. destruct Hnd as (_ & Hnd & _).
    apply (Hnd r); [|by left]. clear -Hin' Heq. rewrite <-Heq. by apply (list_elem_of_fmap_2 fst done (x.1, receipt')). }
  cbn [index_receipts]. unfold index_receipt, require_receipt_revision, bail_if. cbn [fst snd].
  rewrite Ht, Hm. cbn [ok_or mbind result_bind].
  replace (run_revision t <? receipt_resulting_revision receipt) with false
    by (symmetry; apply Z.ltb_ge; lia).
  rewrite (rl_fingerprint _ Hrl _ _ Hr). cbn [reject_if with_context map_err mbind result_bind].
  rewrite Hfresh, bool_decide_eq_false_2 by (by intros []). cbn [reject_if mbind result_bind].
  destruct (IH (done ++ [(r, receipt)])
    (<[receipt_task_id receipt := <[receipt_resulting_revision receipt := receipt_entry r receipt]> m]>
       index)) as (index' & Hix' & Hall); [done..| | | |].
  - by rewrite <-app_assoc.
  - by rewrite <-app_assoc.
  - intros k. destruct (decide (k = receipt_task_id receipt)) as [->|Hne].
    + rewrite lookup_insert_eq. split; [by eexists|]. intros m' n x [= <-].
      destruct (decide (n = receipt_resulting_revision receipt)) as [->|Hn].
      * rewrite lookup_insert_eq. split.
        -- intros [= <-]. exists receipt. split_and!; [|done..]. apply elem_of_app. right. by left.
        -- intros (rec & Hrec & Hk & Hn & Hf).
           assert (∀ z, m !! receipt_resulting_revision receipt ≠ Some z) as Hnone by congruence.
           apply elem_of_app in Hrec as [Hrec|Hrec%list_elem_of_singleton].
           ++ destruct (Hnone x). apply (Hat _ _ _ Hm). eauto.
           ++ injection Hrec as Hx1 ->. unfold receipt_entry. rewrite Hf, <-Hx1. by destruct x.
      * rewrite lookup_insert_ne by done. rewrite (Hat _ _ _ Hm).
        setoid_rewrite elem_of_app. split; [naive_solver|].
        intros (rec & [Hrec|Hrec%list_elem_of_singleton] & Hk & Hn' & Hf); [eauto|].
        injection Hrec as _ ->. congruence.
    + rewrite lookup_insert_ne by done. destruct (Hix k) as [? Hk]. split; [done|].
      intros m' n x Hm'. rewrite (Hk _ _ _ Hm'). setoid_rewrite elem_of_app.
      split; [naive_solver|].
      intros (rec & [Hrec|Hrec%list_elem_of_singleton] & Hk' & Hn' & Hf); [eauto|].
      injection Hrec as _ ->. congruence.
  - exists index'. rewrite <-app_assoc in Hall. done.
Qed.

(** * Loading it back *)

Lemma index_of_ledger l :
  ledger_wf s l → reloadable l →
  ∃ index, index_receipts l ((λ _, ∅) <$> ledger_tasks l)
      (btree_items str_leb (ledger_processed_requests l)) = Ok index ∧
    ∀ k t, ledger_tasks l !! k = Some t → ∃ m, index !! k = Some m ∧
      ∀ n x, m !! n = Some x ↔
        ∃ receipt, ledger_processed_requests l !! x.1 = Some receipt ∧
          receipt_task_id receipt = k ∧ receipt_resulting_revision receipt = n ∧
          receipt_request_fingerprint receipt = x.2.
Proof.
  intros Hwf Hrl.
  destruct (index_receipts_indexes l (btree_items str_leb (ledger_processed_requests l)) []
    ((λ _, ∅) <$> ledger_tasks l)) as (index & Hindex & Hall); [done|done| | |by apply initially_indexed|].
  - intros r receipt. apply elem_of_btree_items.
  - cbn [app]. rewrite btree_items_perm. apply NoDup_fst_map_to_list.
  - exists index. split; [done|]. intros k t Ht. destruct (Hall k) as [Hdom Hat].
    destruct (Hdom ltac:(by eexists)) as (m & Hm). exists m. split; [done|].
    intros n x. rewrite (Hat m n x Hm). cbn [app]. by setoid_rewrite elem_of_btree_items.
Qed.

Lemma receipts_span l t (m : receipts) :
  ledger_wf s l → ledger_tasks l !! run_id t = Some t →
  (∀ n x, m !! n = Some x ↔
     ∃ receipt, ledger_processed_requests l !! x.1 = Some receipt ∧
       receipt_task_id receipt = run_id t ∧ receipt_resulting_revision receipt = n ∧
       receipt_request_fingerprint receipt = x.2) →
  ∀ n, is_Some (m !! n) ↔ 0 ≤ n < run_revision t + 1.
Proof.
  intros Hwf Ht Hm n. split.
  - intros [x (receipt & Hr & Htask & <- & _)%Hm].
    destruct (lw_receipt _ _ Hwf _ _ Hr) as (u & Hu & ?). rewrite Htask in Hu. simplify_eq. lia.
  - intros Hn. destruct (lw_covered _ _ Hwf _ _ n Ht) as (r & (fp & Hr) & _); [lia|].
    exists (r, fp). apply Hm. eexists. split_and!; [exact Hr|done..].
Qed.

Lemma span_chain task_id t (m : receipts) :
  0 ≤ run_revision t → run_revision t + 1 ≤ u64_max →
  (∀ n, is_Some (m !! n) ↔ 0 ≤ n < run_revision t + 1) →
  validate_receipt_chain task_id t m = Ok tt.
Proof.
  intros Hpos Hmax Hspan. unfold validate_receipt_chain, bail_if.
  assert (u64_checked_add (run_revision t) 1 = Some (run_revision t + 1)) as ->
    by (by apply u64_checked_add_Some).
  cbn [ok_or mbind result_bind].
  assert (dom m = list_to_set (seqZ 0 (run_revision t + 1))) as Hdom.
  { apply set_eq. intros n. rewrite elem_of_dom, Hspan, elem_of_list_to_set, elem_of_seqZ. lia. }
  assert (Z.of_nat (size m) = run_revision t + 1) as ->.
  { rewrite <-size_dom, Hdom, size_list_to_set by apply NoDup_seqZ. rewrite length_seqZ. lia. }
  rewrite Z.eqb_refl. cbn [negb orb].
  assert (covers_revisions m (run_revision t) = true) as ->; [|done].
  unfold covers_revisions. apply forallb_true_Forall, Forall_forall. intros i Hi.
  apply bool_decide_eq_true_2, Hspan. apply elem_of_seq in Hi. lia.
Qed.

Lemma reloadable_task l k t expected index uuids :
  ledger_wf s l → reloadable l → ledger_tasks l !! k = Some t →
  canonical_governed_project_root s = Ok expected →
  (∃ m, index !! k = Some m ∧
     ∀ n x, m !! n = Some x ↔
       ∃ receipt, ledger_processed_requests l !! x.1 = Some receipt ∧
         receipt_task_id receipt = k ∧ receipt_resulting_revision receipt = n ∧
         receipt_request_fingerprint receipt = x.2) →
  validate_task s (governed_project_id_for_storage s) expected index uuids (k, t) = Ok tt.
Proof.
  intros Hwf Hrl Ht Hexp (m & Hm & Hat). pose proof (lw_key _ _ Hwf _ _ Ht) as <-.
  destruct (rl_recorded _ Hrl _ _ Ht) as (fps & Hrec & Hreceipts).
  destruct (rl_root _ Hrl _ _ Ht) as (p & expected' & Hp & Hexp' & Hroot).
  assert (expected' = expected) as -> by congruence.
  pose proof (recorded_reachable _ _ Hrec) as Hreach.
  pose proof (reachable_revision_nonneg t Hreach) as Hpos.
  destruct (reachable_history_wf t Hreach) as [_ _ Hl Hb].
  pose proof (receipts_span l t m Hwf Ht Hat) as Hspan.
  unfold validate_task, require_project, validate_workspace, bail_if. cbn [fst snd].
  rewrite (lw_project _ _ Hwf _ _ Ht), bool_decide_eq_false_2 by (intros Hn; by apply Hn).
  rewrite (canonical_absolute _ _ Hp), (canonical_fixed _ _ Hp).
  cbn [negb reject_if ok_or mbind result_bind]. rewrite Hroot, bool_decide_eq_false_2 by (intros Hn; by apply Hn).
  cbn [negb orb reject_if ok_or mbind result_bind]. rewrite Hm. cbn [ok_or mbind result_bind].
  rewrite span_chain; [|done|unfold MAX_GOVERNED_EVENTS, u64_max in *; lia|done].
  cbn [mbind result_bind].
  assert (validate_registration_receipt (run_id t) t m = Ok tt) as ->.
  { unfold validate_registration_receipt, bail_if.
    destruct (proj2 (Hspan 0)) as [[r fp] Hx]; [lia|]. rewrite Hx. cbn [ok_or mbind result_bind fst snd].
    apply Hat in Hx as (receipt & Hr & Htask & Hn & Hrf).
    destruct (rc_registration _ _ _ Hreceipts _ _ Hr Htask Hn) as [Hv Hf]. cbn [fst snd] in *.
    rewrite Hv, <-Hrf, Hf, bool_decide_eq_false_2 by (intros Hne; by apply Hne). done. }
  cbn [mbind result_bind]. rewrite (recorded_validates t fps (uuids (run_id t)) Hrec).
  cbn [with_context map_err mbind result_bind].
  unfold validate_mutation_receipts. apply for_each_Ok, Forall_forall. intros [n fp] Hin.
  apply elem_of_btree_items in Hin. cbn [fst snd].
  destruct (proj2 (Hspan n)) as [[r fp'] Hx].
  { pose proof (proj1 (recorded_fingerprints t fps n Hrec) ltac:(by eexists)). lia. }
  rewrite Hx. cbn [ok_or mbind result_bind snd]. unfold bail_if.
  apply Hat in Hx as (receipt & Hr & Htask & <- & Hf). cbn [fst snd] in Hr, Hf.
  rewrite <-Hf, (rc_mutation _ _ _ Hreceipts _ _ _ Hr Htask Hin).
  by rewrite bool_decide_eq_false_2 by (intros Hne; by apply Hne).
Qed.

(** C2: Whatever sequence of registrations and mutations produced a ledger
    (under readable timestamps, fresh UUIDs and canonical project roots),
    writing it and loading it back succeeds and yields that ledger, whatever
    UUIDs the validation draws: its schema version, keys, receipt index, receipt
    chains, registration receipts, replayed histories and mutation fingerprints
    all pass. *)
Theorem reachable_ledger_reloads l uuids :
  host_reachable l → load_ledger s uuids l = Ok l.
Proof.
  intros Hr. pose proof (host_reachable_wf l Hr) as Hwf.
  pose proof (host_reachable_reloadable l Hr) as Hrl.
  unfold load_ledger, bail_if.
  replace (negb _) with false
    by (symmetry; apply negb_false_iff, orb_true_iff; rewrite !Z.eqb_eq; apply (lw_version _ _ Hwf)).
  replace (_ <? required_schema_version l) with false
    by (symmetry; apply Z.ltb_ge, (lw_stamped _ _ Hwf)).
  cbn [reject_if mbind result_bind]. unfold validate_ledger.
  assert (validate_keys l = Ok tt) as ->.
  { apply for_each_Ok, Forall_forall. intros [k t] Hin%elem_of_btree_items. cbn [fst snd].
    rewrite (lw_key _ _ Hwf _ _ Hin). unfold bail_if.
    by rewrite bool_decide_eq_false_2 by (intros Hne; by apply Hne). }
  cbn [mbind result_bind]. destruct (index_of_ledger l Hwf Hrl) as (index & -> & Hindex).
  cbn [mbind result_bind]. destruct (bool_decide (ledger_tasks l = ∅)) eqn:Hempty; [done|].
  apply bool_decide_eq_false, map_choose in Hempty as (k & t & Ht).
  destruct (rl_root _ Hrl _ _ Ht) as (_ & expected & _ & Hexp & _). rewrite Hexp.
  cbn [mbind result_bind].
  match goal with |- context [for_each ?f ?xs] => assert (for_each f xs = Ok tt) as -> end; [|done].
  apply for_each_Ok, Forall_forall. intros [k' t'] Hin%elem_of_btree_items.
  by apply (reloadable_task l); eauto.
Qed.
End reload.

(** * On the sample ledger *)

#[export] Instance sample_canonical : CanonicalPaths sample_storage.
Proof.
  split; intros p root; cbn [canonicalize sample_storage];
    destruct (path_is_absolute p && negb (contains_nul p) && (len p <=? 4096)) eqn:E; try done;
    intros [= <-]; repeat (apply andb_true_iff in E as [E ?]); [done|by apply negb_true_iff| |].
  - by apply Z.leb_le.
  - rewrite E. by repeat match goal with H : _ = true |- _ => rewrite H end.
Qed.

(** No id of the run ends in one of the UUIDs. *)
Definition fresh_check t ids : bool :=
  forallb (λ id, negb (bool_decide (fresh_record ids `suffix_of` id))
                 && negb (bool_decide (fresh_event ids `suffix_of` id))) (run_ids t).

Lemma fresh_check_for t ids : fresh_check t ids = true → fresh_for t ids.
Proof.
  intros Hc%forallb_true_Forall. rewrite Forall_forall in Hc.
  split; [intros prefix|]; intros Hin; apply Hc, andb_true_iff in Hin as [Hr He].
  - apply negb_true_iff, bool_decide_eq_false in Hr. apply Hr.
    exists (prefix ++ lit "-"). by rewrite <-app_assoc.
  - apply negb_true_iff, bool_decide_eq_false in He. apply He.
    exists (lit "event" ++ lit "-"). by rewrite <-app_assoc.
Qed.

(** The draws of mutation [n] are as the host gives them. *)
Definition host_check (l : GovernedTaskLedger) (n : Z) : bool :=
  bool_decide (is_Some (parse_from_rfc3339 (sample_time n)))
  && negb (contains_nul (fresh_record (sample_ids n)))
  && (len (fresh_record (sample_ids n)) <=? 64)
  && match ledger_tasks l !! lit "task-1" with
     | Some t => fresh_check t (sample_ids n)
     | None => true
     end.
Definition host_checks (ms : list GovernedTaskMutation) : bool :=
  forallb (λ k, host_check (sample_ledger (take k ms)) (Z.of_nat k + 1)) (seq 0 (length ms)).

Lemma sample_ledger_count ms :
  (foldl (λ p m, (p.1 + 1, ledger_after p.2 (sample_decide p.2 (p.1 + 1) m)))
     (0, sample_registered) ms).1 = zlen ms.
Proof.
  induction ms as [|m ms IH] using rev_ind; [done|].
  rewrite foldl_snoc, zlen_snoc. cbn [fst]. by rewrite IH.
Qed.

Lemma sample_host_step ms m :
  host_check (sample_ledger ms) (zlen ms + 1) = true →
  rtc (host_step sample_storage) (sample_ledger ms) (sample_ledger (ms ++ [m])).
Proof.
  intros Hc. unfold host_check in Hc. repeat (apply andb_true_iff in Hc as [Hc ?]). bool_inv.
  assert (sample_ledger (ms ++ [m]) =
    ledger_after (sample_ledger ms) (sample_decide (sample_ledger ms) (zlen ms + 1) m)) as ->.
  { unfold sample_ledger at 1. rewrite foldl_snoc. cbn [snd]. by rewrite sample_ledger_count. }
  destruct (sample_decide _ _ _) as [o|] eqn:Ho; [|done]. apply rtc_once.
  eapply host_mutate; [exact Ho|done|by split|].
  intros t Ht. cbn [sample_request request_task_id] in Ht. rewrite Ht in *. by apply fresh_check_for.
Qed.

Lemma sample_ledger_host_reachable ms :
  host_checks ms = true → host_reachable sample_storage (sample_ledger ms).
Proof.
  unfold host_reachable, host_checks. intros Hc. apply forallb_true_Forall in Hc. revert Hc.
  induction ms as [|m ms IH] using rev_ind; intros Hc.
  - unfold sample_ledger. cbn [foldl snd]. unfold sample_registered.
    destruct (decide_registration _ _ _ _ _) as [o|] eqn:Ho; [|done].
    apply rtc_once. eapply host_register; [exact Ho|by eexists].
  - rewrite Forall_forall in Hc. setoid_rewrite elem_of_seq in Hc.
    rewrite length_app in Hc. cbn [length] in Hc.
    etransitivity; [apply IH|apply sample_host_step].
    + apply Forall_forall. intros k Hk%elem_of_seq.
      specialize (Hc k ltac:(lia)). by rewrite take_app_le in Hc by lia.
    + specialize (Hc (length ms) ltac:(lia)). by rewrite take_app_length in Hc.
Qed.

Lemma reachable_ledger_reloads_witness :
  load_ledger sample_storage (λ _ n, sample_ids (1000 + n)) (sample_ledger sample_to_acceptance)
    = Ok (sample_ledger sample_to_acceptance) ∧
  run_review_state (sample_task (sample_ledger sample_to_acceptance)) = Accepted.
Proof.
  split; [|by vm_compute].
  apply (reachable_ledger_reloads sample_storage).
  apply sample_ledger_host_reachable. by vm_compute.
Defined.
