(* ===== verification/Wiring.v ===== *)
(** Wire contracts of the daemon-owned producers
    (impulse-ops/src/governed_wiring.rs): requests, acknowledgements, and the
    read-only rules surfaces share: when a staged worktree may be discarded,
    when an outcome may be promoted and which commit a discard would drop. *)
From S2P Require Export Lifecycle.
Local Open Scope Z_scope.

Record GovernedPromotionRequest := {
  promotion_request_request_id : rstring;
  promotion_request_project_id : rstring;
  promotion_request_task_id : rstring;
  promotion_request_expected_revision : Z
}.

Record GovernedStagedWorktreeDiscardRequest := {
  discard_request_request_id : rstring;
  discard_request_project_id : rstring;
  discard_request_task_id : rstring;
  discard_request_expected_revision : Z;
  discard_request_reason : rstring
}.

Definition validate_discard_request (r : GovernedStagedWorktreeDiscardRequest)
    : contract_result unit :=
  reject_if
    (is_empty (trim (discard_request_reason r)) || contains_nul (discard_request_reason r)
     || (MAX_GOVERNED_TEXT_BYTES <? len (discard_request_reason r)))
    (InvalidField (lit "reason")
       (lit "must be nonblank, NUL-free, and at most " ++ show_Z MAX_GOVERNED_TEXT_BYTES
          ++ lit " UTF-8 bytes")).

Record GovernedProducerAck := {
  ack_task : GovernedTaskRun;
  ack_replayed : bool;
  ack_pending_rerun_reason : option rstring
}.
Definition producer_ack_new (task : GovernedTaskRun) (replayed : bool)
    (pending_rerun_reason : option rstring) : GovernedProducerAck :=
  {| ack_task := task; ack_replayed := replayed;
     ack_pending_rerun_reason := pending_rerun_reason |}.

Record GovernedStagedWorktreeDiscardAck := {
  discard_ack_task : GovernedTaskRun;
  discard_ack_discarded_root : rstring;
  discard_ack_unreferenced_accepted_commit : option rstring
}.

Inductive StagedConfigRefusalReason : Type :=
  | Unpinned
  | Changed (component : SharedConfigComponent)
  | UnsupportedSubmodules (path : rstring).

Definition refusal_reason_as_str (r : StagedConfigRefusalReason) : rstring :=
  match r with
  | Unpinned => lit "repository_config_unpinned"
  | Changed _ => lit "repository_config_changed"
  | UnsupportedSubmodules _ => lit "unsupported_submodules"
  end.

Definition remedy (r : StagedConfigRefusalReason) : rstring :=
  match r with
  | Unpinned | Changed _ =>
      lit "discard the staged worktree and re-materialize it, then re-run the producer"
  | UnsupportedSubmodules _ =>
      lit "register this task with the authoritative world scope; the staged scope does not support submodule repositories"
  end.

Definition show_refusal_reason (r : StagedConfigRefusalReason) : rstring :=
  match r with
  | Changed component =>
      refusal_reason_as_str r ++ lit " (" ++ shared_config_component_as_str component ++ lit ")"
  | UnsupportedSubmodules path => refusal_reason_as_str r ++ lit " (" ++ path ++ lit ")"
  | Unpinned => refusal_reason_as_str r
  end.

Record GovernedStagedConfigRefusalAck := {
  refusal_task : GovernedTaskRun;
  refusal_refused : bool;
  refusal_reason : StagedConfigRefusalReason;
  refusal_remedy : rstring
}.
Definition refusal_ack_new (task : GovernedTaskRun) (reason : StagedConfigRefusalReason)
    : GovernedStagedConfigRefusalAck :=
  {| refusal_task := task; refusal_refused := true; refusal_reason := reason;
     refusal_remedy := remedy reason |}.

Definition builder_still_working (task : GovernedTaskRun) : bool :=
  bool_decide (run_execution_state task = Running)
  && negb (match run_review_state task with
           | Accepted | Rejected | Escalated => true
           | _ => false
           end).

(** The daemon's preflight copy of the discard rule. *)
Definition wiring_staged_worktree_is_discardable (task : GovernedTaskRun) : bool :=
  if bool_decide (run_execution_state task = LaunchFailed) then true
  else if bool_decide (run_execution_state task = RuntimeExited)
          && bool_decide (run_review_state task = AwaitingClaim) then true
  else if negb (builder_still_working task)
          && match run_staged_worktree task with
             | Some staged => negb (pin_is_comparable (staged_shared_config_digest staged))
             | None => false
             end then true
  else match run_review_state task with
       | Rejected | Escalated => true
       | Accepted => match latest_promotion task with Some _ => true | None => false end
       | _ => false
       end.

Definition governed_outcome_is_promotable (task : GovernedTaskRun) : bool :=
  bool_decide (run_world_scope task = StagedAuthoritative)
  && is_accepted task
  && bool_decide (is_Some (active_staged_worktree task))
  && bool_decide (is_Some (latest_claim task))
  && negb (match latest_promotion task with
           | Some previous => is_promoted (promotion_outcome previous)
           | None => false
           end)
  && (zlen (run_promotions task) <? MAX_GOVERNED_RECORDS_PER_KIND).

Definition unreferenced_accepted_commit_on_discard (task : GovernedTaskRun) : option rstring :=
  if negb (is_accepted task) then None
  else match latest_promotion task with
       | Some promotion =>
           if is_promoted (promotion_outcome promotion) then None
           else Some (promotion_accepted_revision promotion)
       | None => claim_subject_revision <$> latest_claim task
       end.
