(* ===== verification/WiringProps.v ===== *)
(** The rules the wire layer shares agree with the ledger's. *)
From S2P Require Export Wiring WorktreeProps.
Local Open Scope Z_scope.

Section properties.
Context `{Host}.
Implicit Types (t : GovernedTaskRun).

(** The daemon's preflight copy of the discard rule and the ledger's agree
    on every run, and both are the five-case rule: the checkout is removed only
    when the ledger will record the discard. *)
Theorem discard_preflight_agrees_with_ledger t :
  wiring_staged_worktree_is_discardable t = staged_worktree_is_discardable t ∧
  (wiring_staged_worktree_is_discardable t = true ↔ discard_allowed t).
Proof. split; [done|]. rewrite <-discardable_iff. done. Qed.

(** A surface offers a promotion exactly when the ledger's preconditions
    for recording one hold. *)
Theorem promotable_iff_ledger_admits t :
  governed_outcome_is_promotable t = is_ok (record_promotion_preconditions_hold t).
Proof.
  unfold governed_outcome_is_promotable, record_promotion_preconditions_hold, is_accepted.
  assert (∀ A (o : option A), bool_decide (is_Some o) = negb (bool_decide (o = None))) as Hsome.
  { intros A [a|]; [|done]. rewrite bool_decide_eq_true_2 by eauto.
    by rewrite bool_decide_eq_false_2. }
  rewrite !Hsome, Z.ltb_antisym.
  destruct (match latest_promotion t with Some _ => _ | None => _ end).
  - rewrite andb_false_r. cbn [andb].
    repeat match goal with |- context [reject_if ?b _] => destruct b; cbn [reject_if mbind result_bind]; [done|] end.
    done.
  - destruct (_ <=? _); cbn [negb andb reject_if mbind result_bind].
    + by rewrite !andb_false_r.
    + rewrite !andb_true_r.
      destruct (run_world_scope t), (run_review_state t); try done; cbn.
      all: destruct (bool_decide (active_staged_worktree t = None)),
             (bool_decide (latest_claim t = None)); done.
Qed.

(** The commit a discard is said to leave unreferenced is the accepted
    claim's, and is named exactly for an accepted run none of whose promotions
    landed. *)
Theorem unreferenced_commit_is_the_accepted_one t r :
  run_reachable t →
  unreferenced_accepted_commit_on_discard t = Some r ↔
  is_accepted t = true ∧
  Forall (λ p, is_promoted (promotion_outcome p) = false) (run_promotions t) ∧
  ∃ c, latest_claim t = Some c ∧ r = claim_subject_revision c.
Proof.
  intros Ht. pose proof (reachable_wf t Ht) as Hwf.
  unfold unreferenced_accepted_commit_on_discard.
  destruct (is_accepted t) eqn:Ha; cbn [negb]; [|naive_solver].
  assert (∃ c, latest_claim t = Some c) as [c Hc].
  { pose proof (wf_review t Hwf) as He. unfold is_accepted in Ha. bool_inv.
    unfold review_evidence in He. rewrite Ha in He.
    destruct He as (c & v & d & o & [[[] ] ]). eauto. }
  pose proof (wf_promotions t Hwf) as Hwp. pose proof Hwp as (_ & _ & Hrev).
  destruct (latest_promotion t) as [p|] eqn:Hp; unfold latest_promotion in Hp.
  - assert (p ∈ run_promotions t) as Hin by (by apply last_elem_of).
    destruct (Hrev p c Hin Hc) as [Hacc _].
    destruct (is_promoted (promotion_outcome p)) eqn:Hpr.
    + split; [done|]. intros (_ & Hall & _). rewrite Forall_forall in Hall.
      rewrite Hall in Hpr; done.
    + split.
      * intros [= <-]. split_and!; [done| |eauto].
        apply Forall_lookup. intros i q Hi. apply (none_promoted t Hwp) with (i := i); [|done].
        unfold latest_promotion. by rewrite Hp.
      * intros (_ & _ & c' & Hc' & ->). by simplify_eq; rewrite Hacc.
  - apply last_None in Hp. rewrite Hp, Hc. cbn. split.
    + intros [= <-]. split_and!; [done|constructor|eauto].
    + intros (_ & _ & c' & Hc' & ->). by simplify_eq.
Qed.
End properties.

(** The sample run, accepted and not promoted. *)
Lemma unreferenced_commit_is_the_accepted_one_witness :
  ∃ c, latest_claim sample_accepted = Some c ∧ sample_claim_oid = claim_subject_revision c.
Proof.
  apply (unreferenced_commit_is_the_accepted_one sample_accepted sample_claim_oid);
    [sample_reached|by vm_compute].
Defined.
