(* ===== verification/Reservation.v ===== *)
(** The producer reservation journal (src/state/producer_reservation.rs).

    A producer reserves before its external side effect and releases once the
    effect and its governed mutation are durable. As for the task ledger, every
    operation works on a candidate copy that is written and then swapped in, and
    takes the outcome of its write; ids and times it draws are arguments. *)
From S2P Require Export Ledger.
Local Open Scope Z_scope.

Definition PRODUCER_RESERVATIONS_SCHEMA_VERSION : Z := 2.
Definition PRODUCER_RESERVATIONS_LEGACY_SCHEMA_VERSION : Z := 1.

Inductive ProducerKind : Type := Verification | SupervisorReview | Promotion.
#[export] Instance ProducerKind_eq_dec : EqDecision ProducerKind.
Proof. solve_decision. Defined.

Definition show_producer (p : ProducerKind) : rstring :=
  match p with
  | Verification => lit "Verification"
  | SupervisorReview => lit "SupervisorReview"
  | Promotion => lit "Promotion"
  end.

Inductive ProducerReservationError : Type :=
  | LedgerDigestMismatch
  | UnsupportedSchemaVersion (version : Z)
  | KeyIdMismatch (key id : rstring)
  | DuplicateOpenReservation (task_id : rstring) (producer : ProducerKind)
  | ReservationNotFound (id : rstring)
  | AlreadyReleased (id : rstring).

Inductive ReservationOutcome : Type :=
  | Released (receipt_ref : rstring)
  | NeedsRerun (reason : rstring).
#[export] Instance ReservationOutcome_eq_dec : EqDecision ReservationOutcome.
Proof. solve_decision. Defined.

Inductive ProducerEffectOutcome : Type := Confirmed | FailedKnown | UnknownEffect.
#[export] Instance ProducerEffectOutcome_eq_dec : EqDecision ProducerEffectOutcome.
Proof. solve_decision. Defined.

(** An [anyhow::Error] of a producer: its [{}] and [{:#}] texts, and whether it
    is an [EffectDispatchedError]. *)
Record ProducerError := {
  error_display : rstring;
  error_chain : rstring;
  error_dispatched : bool
}.

Inductive ProducerSideEffectError : Type :=
  | SideEffectFailed (error : ProducerError)
  | ReceiptLost (error : ProducerError)
  | Dispatched (error : ProducerError).

Definition side_effect_error_into_inner (e : ProducerSideEffectError) : ProducerError :=
  match e with SideEffectFailed error | ReceiptLost error | Dispatched error => error end.

(** [EffectDispatchedError::wrap]: transparent, and a no-op when wrapped. *)
Definition dispatched_wrap (e : ProducerError) : ProducerError :=
  if error_dispatched e then e
  else {| error_display := error_display e; error_chain := error_chain e;
          error_dispatched := true |}.

Definition classify_producer_error (e : ProducerError) : ProducerSideEffectError :=
  if error_dispatched e
  then Dispatched {| error_display := error_display e; error_chain := error_chain e;
                     error_dispatched := false |}
  else SideEffectFailed e.

Record ProducerReservation := {
  res_id : rstring;
  res_task_id : rstring;
  res_revision : Z;
  res_request_id : rstring;
  res_producer : ProducerKind;
  res_reserved_at : rstring;
  res_released_at : option rstring;
  res_outcome : option ReservationOutcome;
  res_effect : option ProducerEffectOutcome
}.
#[export] Instance ProducerReservation_eq_dec : EqDecision ProducerReservation.
Proof. solve_decision. Defined.

Definition is_open (r : ProducerReservation) : bool := bool_decide (res_released_at r = None).

Definition effect_outcome (r : ProducerReservation) : option ProducerEffectOutcome :=
  match res_effect r with
  | Some effect => Some effect
  | None =>
      match res_outcome r with
      | None => None
      | Some (NeedsRerun _) => Some UnknownEffect
      | Some (Released receipt_ref) =>
          if starts_with (lit "failed: ") receipt_ref then Some FailedKnown else Some Confirmed
      end
  end.

Record ProducerReservationLedger := {
  journal_schema_version : Z;
  journal_reservations : gmap rstring ProducerReservation;
  journal_digest : rstring
}.

(** Errors of the journal: typed, a message, or a failed write. *)
Inductive JournalError : Type :=
  | ReservationError (error : ProducerReservationError)
  | JournalMessage (message : rstring)
  | JournalNotWritten.

Abbreviation journal_result := (result JournalError).

(** [serde_json::to_vec] of the reservation map. *)
Class ReservationJson := reservations_json : gmap rstring ProducerReservation → list Z.

(** A closed reservation. *)
Definition close_reservation (now : rstring) (outcome : ReservationOutcome)
    (effect : ProducerEffectOutcome) (r : ProducerReservation) : ProducerReservation :=
  {| res_id := res_id r; res_task_id := res_task_id r; res_revision := res_revision r;
     res_request_id := res_request_id r; res_producer := res_producer r;
     res_reserved_at := res_reserved_at r;
     res_released_at := Some now; res_outcome := Some outcome; res_effect := Some effect |}.

Definition journal_values (j : ProducerReservationLedger) : list ProducerReservation :=
  (btree_items str_leb (journal_reservations j)).*2.

Section journal.
Context `{Host, ReservationJson}.

Definition compute_digest (reservations : gmap rstring ProducerReservation) : rstring :=
  lit "sha256:" ++ sha256_hex (reservations_json reservations).

Definition journal_default : ProducerReservationLedger :=
  {| journal_schema_version := PRODUCER_RESERVATIONS_LEGACY_SCHEMA_VERSION;
     journal_reservations := ∅;
     journal_digest := compute_digest ∅ |}.

Definition journal_required_schema_version (j : ProducerReservationLedger) : Z :=
  if existsb (λ r, bool_decide (is_Some (res_effect r))) (journal_values j)
  then PRODUCER_RESERVATIONS_SCHEMA_VERSION else PRODUCER_RESERVATIONS_LEGACY_SCHEMA_VERSION.

Definition journal_validate_shape (j : ProducerReservationLedger) : journal_result unit :=
  reject_if
    (negb ((journal_schema_version j =? PRODUCER_RESERVATIONS_LEGACY_SCHEMA_VERSION)
           || (journal_schema_version j =? PRODUCER_RESERVATIONS_SCHEMA_VERSION)))
    (ReservationError (UnsupportedSchemaVersion (journal_schema_version j))) ;;
  reject_if (journal_schema_version j <? journal_required_schema_version j)
    (JournalMessage
       (lit "producer reservation journal declares schema version "
          ++ show_Z (journal_schema_version j)
          ++ lit " but records effect outcomes, which require version "
          ++ show_Z PRODUCER_RESERVATIONS_SCHEMA_VERSION)) ;;
  for_each (λ entry : rstring * ProducerReservation,
      reject_if (bool_decide (entry.1 ≠ res_id entry.2))
        (ReservationError (KeyIdMismatch entry.1 (res_id entry.2))))
    (btree_items str_leb (journal_reservations j)) ;;
  reject_if (bool_decide (compute_digest (journal_reservations j) ≠ journal_digest j))
    (ReservationError LedgerDigestMismatch).

(** [load] of a parsed file. *)
Definition journal_load (j : ProducerReservationLedger)
    : journal_result ProducerReservationLedger :=
  journal_validate_shape j ;; Ok j.

(** What [persist] writes. *)
Definition journal_stamp (j : ProducerReservationLedger) : ProducerReservationLedger :=
  {| journal_schema_version :=
       Z.max (journal_schema_version j) (journal_required_schema_version j);
     journal_reservations := journal_reservations j;
     journal_digest := compute_digest (journal_reservations j) |}.

Definition with_reservations (reservations : gmap rstring ProducerReservation)
    (j : ProducerReservationLedger) : ProducerReservationLedger :=
  {| journal_schema_version := journal_schema_version j;
     journal_reservations := reservations;
     journal_digest := journal_digest j |}.

(** [candidate.persist(storage)?; *ledger = candidate;]. The file holds what
    memory does, so the journal is one value. *)
Definition persist_and_swap {A} (written : bool) (candidate : ProducerReservationLedger)
    (value : A) (j : ProducerReservationLedger)
    : journal_result A * ProducerReservationLedger :=
  if written then (Ok value, journal_stamp candidate) else (Err JournalNotWritten, j).

(** ** Reserving *)

(** The scan of [reserve]: the ids of the open reservations behind [revision],
    or the duplicate. *)
Fixpoint reserve_scan (task_id : rstring) (revision : Z) (producer : ProducerKind)
    (stale : list rstring) (reservations : list ProducerReservation)
    : journal_result (list rstring) :=
  match reservations with
  | [] => Ok stale
  | r :: reservations =>
      if bool_decide (res_task_id r ≠ task_id) || bool_decide (res_producer r ≠ producer)
         || negb (is_open r)
      then reserve_scan task_id revision producer stale reservations
      else if res_revision r <? revision
      then reserve_scan task_id revision producer (stale ++ [res_id r]) reservations
      else Err (ReservationError (DuplicateOpenReservation task_id producer))
  end.

Definition superseded_reason (revision : Z) (stale : ProducerReservation) : rstring :=
  lit "superseded by a new reservation at revision " ++ show_Z revision
    ++ lit " (this one was reserved at revision " ++ show_Z (res_revision stale) ++ lit ")".

(** [if let Some(stale) = candidate.reservations.get_mut(stale_id)]. *)
Definition supersede (revision : Z) (now : rstring)
    (reservations : gmap rstring ProducerReservation) (stale_id : rstring)
    : gmap rstring ProducerReservation :=
  match reservations !! stale_id with
  | Some stale =>
      <[stale_id := close_reservation now (NeedsRerun (superseded_reason revision stale))
                      UnknownEffect stale]> reservations
  | None => reservations
  end.

Definition new_reservation (id task_id : rstring) (revision : Z) (request_id : rstring)
    (producer : ProducerKind) (now : rstring) : ProducerReservation :=
  {| res_id := id; res_task_id := task_id; res_revision := revision;
     res_request_id := request_id; res_producer := producer; res_reserved_at := now;
     res_released_at := None; res_outcome := None; res_effect := None |}.

Definition new_reservation_id (uuid : rstring) : rstring :=
  lit "producer-reservation-" ++ uuid.

Definition reserve (task_id : rstring) (revision : Z) (request_id : rstring)
    (producer : ProducerKind) (uuid now : rstring) (written : bool)
    (j : ProducerReservationLedger) : journal_result rstring * ProducerReservationLedger :=
  match reserve_scan task_id revision producer [] (journal_values j) with
  | Err e => (Err e, j)
  | Ok stale_ids =>
      let reservations := foldl (supersede revision now) (journal_reservations j) stale_ids in
      let id := new_reservation_id uuid in
      let candidate :=
        with_reservations
          (<[id := new_reservation id task_id revision request_id producer now]> reservations)
          j in
      persist_and_swap written candidate id j
  end.

(** ** Closing *)

(** The shared body of [close_released] and [close_reservation_needs_rerun]. *)
Definition close_with (id : rstring) (outcome : ReservationOutcome)
    (effect : ProducerEffectOutcome) (now : rstring) (written : bool)
    (j : ProducerReservationLedger) : journal_result unit * ProducerReservationLedger :=
  match journal_reservations j !! id with
  | None => (Err (ReservationError (ReservationNotFound id)), j)
  | Some existing =>
      if negb (is_open existing) then (Err (ReservationError (AlreadyReleased id)), j)
      else persist_and_swap written
             (with_reservations
                (<[id := close_reservation now outcome effect existing]>
                   (journal_reservations j)) j) tt j
  end.

Definition close_released (id receipt_ref : rstring) (effect : ProducerEffectOutcome)
    (now : rstring) (written : bool) (j : ProducerReservationLedger)
    : journal_result unit * ProducerReservationLedger :=
  close_with id (Released receipt_ref) effect now written j.

Definition release (id receipt_ref now : rstring) (written : bool)
    (j : ProducerReservationLedger) : journal_result unit * ProducerReservationLedger :=
  close_released id receipt_ref Confirmed now written j.

Definition release_failed (id : rstring) (error : ProducerError) (now : rstring)
    (written : bool) (j : ProducerReservationLedger)
    : journal_result unit * ProducerReservationLedger :=
  close_released id (lit "failed: " ++ error_display error) FailedKnown now written j.

Definition close_reservation_needs_rerun (id reason now : rstring) (written : bool)
    (j : ProducerReservationLedger) : journal_result unit * ProducerReservationLedger :=
  close_with id (NeedsRerun reason) UnknownEffect now written j.

(** ** Reading *)

Definition open_reservations (j : ProducerReservationLedger) : list ProducerReservation :=
  filter (λ r, is_open r = true) (journal_values j).

Definition reservations_of (task_id : rstring) (producer : ProducerKind)
    (request_id : rstring) (j : ProducerReservationLedger) : list ProducerReservation :=
  filter (λ r, res_task_id r = task_id ∧ res_producer r = producer
               ∧ res_request_id r = request_id) (journal_values j).

(** The key of [max_by_key]: the instant, then the text; an unreadable instant
    is the least. *)
Definition reserved_key_leb (a b : ProducerReservation) : bool :=
  match parse_from_rfc3339 (res_reserved_at a), parse_from_rfc3339 (res_reserved_at b) with
  | None, None => str_leb (res_reserved_at a) (res_reserved_at b)
  | None, Some _ => true
  | Some _, None => false
  | Some x, Some y =>
      (x <? y) || ((x =? y) && str_leb (res_reserved_at a) (res_reserved_at b))
  end.

(** [max_by_key] keeps the last of equal maxima. *)
Definition max_by_reserved (rs : list ProducerReservation) : option ProducerReservation :=
  foldl (λ best r,
      match best with
      | None => Some r
      | Some b => if reserved_key_leb b r then Some r else Some b
      end) None rs.

Definition latest_reservation (task_id : rstring) (producer : ProducerKind)
    (request_id : rstring) (j : ProducerReservationLedger) : option ProducerReservation :=
  max_by_reserved (reservations_of task_id producer request_id j).

Definition rerun_reason (r : ProducerReservation) : option rstring :=
  match res_outcome r with Some (NeedsRerun reason) => Some reason | _ => None end.

Definition pending_rerun_reason (task_id : rstring) (producer : ProducerKind)
    (request_id : rstring) (j : ProducerReservationLedger) : option rstring :=
  let matches :=
    stable_sort (λ a b, str_leb (res_reserved_at a) (res_reserved_at b))
      (reservations_of task_id producer request_id j) in
  head (omap rerun_reason (reverse matches)).

(** ** Reconciling at startup *)

Definition interruption_detail (r : ProducerReservation) (reason : rstring) : rstring :=
  lit "producer reservation " ++ res_id r ++ lit " (" ++ show_producer (res_producer r)
    ++ lit ") for request " ++ res_request_id r
    ++ lit " needs rerun (effect outcome unknown): " ++ reason.

(** The request [note_producer_reservation_interrupted] sends to the ledger. *)
Definition interruption_request (s : Storage) (r : ProducerReservation) (reason : rstring)
    (task : GovernedTaskRun) : state_result GovernedTaskMutationRequest :=
  request_id ← map_err ContractError
    (GovernedRequestId_try_new (lit "producer-reservation-reconcile-" ++ res_id r)) ;
  Ok {| request_request_id := request_id;
        request_project_id := governed_project_id_for_storage s;
        request_task_id := res_task_id r;
        request_expected_revision := run_revision task;
        request_mutation :=
          NoteProducerReservationInterrupted
            {| actor_kind := System; actor_id := lit "producer-reservation-journal" |}
            (interruption_detail r reason);
        request_fencing_generation := None |}.

Definition note_producer_reservation_interrupted {C} `{MemoryCandidates C} (s : Storage)
    (r : ProducerReservation) (reason : rstring) (ids : FreshIds) (now : rstring)
    (written : bool) (st : LedgerState) (c : C)
    : state_result unit * LedgerState * C :=
  let request :=
    found ← get_governed_task s (st_memory st) (governed_project_id_for_storage s)
      (res_task_id r) ;
    task ← ok_or found
      (Message (lit "governed task `" ++ res_task_id r
                  ++ lit "` not found for interrupted producer reservation `" ++ res_id r
                  ++ lit "`")) ;
    interruption_request s r reason task in
  match request with
  | Err e => (Err e, st, c)
  | Ok request =>
      let '(answer, st, c) := mutate_governed_task s request ids now written st c in
      (answer ;; Ok tt, st, c)
  end.

Definition interrupted_reason : rstring := lit "interrupted before receipt".

(** The draws and write outcomes of one step of the reconciliation. *)
Record ReconcileStep := {
  step_now : rstring;
  step_ids : FreshIds;
  step_closed : bool;
  step_noted : bool
}.

(** The loop of [reconcile_producer_reservations]: closing must succeed, the
    note is best effort. *)
Fixpoint reconcile_loop {C} `{MemoryCandidates C} (s : Storage)
    (steps : rstring → ReconcileStep) (reservations : list ProducerReservation)
    (j : ProducerReservationLedger) (st : LedgerState) (c : C)
    : journal_result unit * ProducerReservationLedger * LedgerState * C :=
  match reservations with
  | [] => (Ok tt, j, st, c)
  | r :: reservations =>
      let step := steps (res_id r) in
      match close_reservation_needs_rerun (res_id r) interrupted_reason (step_now step)
              (step_closed step) j with
      | (Err e, j) => (Err e, j, st, c)
      | (Ok _, j) =>
          let '(_, st, c) :=
            note_producer_reservation_interrupted s r interrupted_reason (step_ids step)
              (step_now step) (step_noted step) st c in
          reconcile_loop s steps reservations j st c
      end
  end.

Definition reconcile_producer_reservations {C} `{MemoryCandidates C} (s : Storage)
    (steps : rstring → ReconcileStep) (j : ProducerReservationLedger) (st : LedgerState)
    (c : C) : journal_result unit * ProducerReservationLedger * LedgerState * C :=
  reconcile_loop s steps (open_reservations j) j st c.

(** ** Running a side effect under a reservation *)

(** How the reservation of a finished side effect is closed. *)
Definition close_after {T} (id : rstring)
    (outcome : result ProducerSideEffectError (T * rstring)) (now : rstring) (written : bool)
    (j : ProducerReservationLedger) : journal_result unit * ProducerReservationLedger :=
  match outcome with
  | Ok (_, receipt_ref) => release id receipt_ref now written j
  | Err (Dispatched error) =>
      close_reservation_needs_rerun id
        (lit "side effect dispatched but its outcome was not observed: " ++ error_chain error)
        now written j
  | Err (ReceiptLost error) =>
      close_reservation_needs_rerun id
        (lit "receipt not recorded after the side effect ran: " ++ error_chain error)
        now written j
  | Err (SideEffectFailed error) => release_failed id error now written j
  end.

(** What a run of a producer returns to its caller. *)
Inductive ProducerFailure : Type :=
  | NotReserved (error : JournalError)
  | ProducerFailed (error : ProducerError).

(** The side effect runs in a world that holds the journal, which other
    requests may change meanwhile; an error closing is only logged. *)
Definition with_reservation_effect {W T} (task_id : rstring) (revision : Z)
    (request_id : rstring) (producer : ProducerKind) (uuid now : rstring) (written : bool)
    (side_effect : ProducerReservationLedger * W →
                   result ProducerSideEffectError (T * rstring)
                   * (ProducerReservationLedger * W))
    (closed_at : rstring) (closed : bool) (world : ProducerReservationLedger * W)
    : result ProducerFailure T * (ProducerReservationLedger * W) :=
  match reserve task_id revision request_id producer uuid now written world.1 with
  | (Err e, j) => (Err (NotReserved e), (j, world.2))
  | (Ok id, j) =>
      let '(outcome, (j, w)) := side_effect (j, world.2) in
      let j := (close_after id outcome closed_at closed j).2 in
      (match outcome with
       | Ok (value, _) => Ok value
       | Err e => Err (ProducerFailed (side_effect_error_into_inner e))
       end, (j, w))
  end.

Definition with_reservation {W T} (task_id : rstring) (revision : Z)
    (request_id : rstring) (producer : ProducerKind) (uuid now : rstring) (written : bool)
    (side_effect : ProducerReservationLedger * W →
                   result ProducerError (T * rstring) * (ProducerReservationLedger * W))
    (closed_at : rstring) (closed : bool) (world : ProducerReservationLedger * W)
    : result ProducerFailure T * (ProducerReservationLedger * W) :=
  with_reservation_effect task_id revision request_id producer uuid now written
    (λ world, let '(outcome, world) := side_effect world in
              (map_err classify_producer_error outcome, world))
    closed_at closed world.
End journal.
