(* ===== verification/ReservationProps.v ===== *)
(** The producer reservation journal: it reloads, it holds at most one open
    reservation per task and producer, and what closes a reservation says truly
    what is known of its side effect. *)
From S2P Require Export Reservation LedgerProps.
From stdpp Require Import gmap.
Local Open Scope Z_scope.

Section journal.
Context `{Host, ReservationJson}.
Implicit Types (j : ProducerReservationLedger) (r : ProducerReservation).

(** Two open reservations of one task and producer are the same one. *)
Definition contends (a b : ProducerReservation) : Prop :=
  res_task_id a = res_task_id b ∧ res_producer a = res_producer b ∧
  is_open a = true ∧ is_open b = true.

(** A reservation is open with nothing recorded, or closed with the outcome
    and the effect that belong together. *)
Definition reservation_wf r : Prop :=
  match res_released_at r, res_outcome r, res_effect r with
  | None, None, None => True
  | Some _, Some (NeedsRerun _), Some UnknownEffect => True
  | Some _, Some (Released _), Some Confirmed => True
  | Some _, Some (Released receipt_ref), Some FailedKnown =>
      starts_with (lit "failed: ") receipt_ref = true
  | _, _, _ => False
  end.

Record journal_wf j : Prop := {
  jw_key id r : journal_reservations j !! id = Some r → res_id r = id;
  jw_record id r : journal_reservations j !! id = Some r → reservation_wf r;
  jw_unique a b ra rb :
    journal_reservations j !! a = Some ra → journal_reservations j !! b = Some rb →
    contends ra rb → a = b;
  jw_digest : journal_digest j = compute_digest (journal_reservations j);
  jw_version :
    journal_schema_version j = PRODUCER_RESERVATIONS_LEGACY_SCHEMA_VERSION ∨
    journal_schema_version j = PRODUCER_RESERVATIONS_SCHEMA_VERSION;
  jw_stamped : journal_required_schema_version j ≤ journal_schema_version j
}.

(** The part of the invariant that is about the reservations. *)
Record reservations_wf (m : gmap rstring ProducerReservation) : Prop := {
  rw_key id r : m !! id = Some r → res_id r = id;
  rw_record id r : m !! id = Some r → reservation_wf r;
  rw_unique a b ra rb : m !! a = Some ra → m !! b = Some rb → contends ra rb → a = b
}.

Lemma journal_reservations_wf j : journal_wf j → reservations_wf (journal_reservations j).
Proof. by intros []. Qed.

Lemma required_version_cases j :
  journal_required_schema_version j = PRODUCER_RESERVATIONS_LEGACY_SCHEMA_VERSION ∨
  journal_required_schema_version j = PRODUCER_RESERVATIONS_SCHEMA_VERSION.
Proof. unfold journal_required_schema_version. destruct (existsb _ _); auto. Qed.

Lemma stamp_wf m j :
  journal_wf j → reservations_wf m → journal_wf (journal_stamp (with_reservations m j)).
Proof.
  intros [_ _ _ _ Hv _] []. split; try done.
  - cbn [journal_stamp journal_schema_version with_reservations].
    unfold PRODUCER_RESERVATIONS_LEGACY_SCHEMA_VERSION, PRODUCER_RESERVATIONS_SCHEMA_VERSION in *.
    destruct (required_version_cases (with_reservations m j)) as [-> | ->];
      unfold PRODUCER_RESERVATIONS_LEGACY_SCHEMA_VERSION, PRODUCER_RESERVATIONS_SCHEMA_VERSION;
      destruct Hv as [-> | ->]; cbn; auto.
  - change (journal_required_schema_version (journal_stamp (with_reservations m j)))
      with (journal_required_schema_version (with_reservations m j)).
    cbn [journal_stamp journal_schema_version]. lia.
Qed.

Lemma journal_default_wf : journal_wf journal_default.
Proof. split; try done. by left. Qed.

Lemma persist_and_swap_wf {A} written m (a : A) j :
  journal_wf j → reservations_wf m →
  journal_wf (persist_and_swap written (with_reservations m j) a j).2.
Proof. intros Hj Hm. destruct written; [by apply stamp_wf|done]. Qed.

(** ** Closing *)

Definition closing (outcome : ReservationOutcome) (effect : ProducerEffectOutcome) : Prop :=
  match outcome, effect with
  | NeedsRerun _, UnknownEffect | Released _, Confirmed => True
  | Released receipt_ref, FailedKnown => starts_with (lit "failed: ") receipt_ref = true
  | _, _ => False
  end.

Lemma closed_not_open now o e r : is_open (close_reservation now o e r) = false.
Proof. done. Qed.

Lemma close_reservations_wf m id r now o e :
  reservations_wf m → closing o e → m !! id = Some r →
  reservations_wf (<[id := close_reservation now o e r]> m).
Proof.
  intros [Hk Hr Hu] Hc Hid. split.
  - intros i q [[<- <-]|[_ ?]]%lookup_insert_Some; [by apply (Hk id r)|by apply Hk].
  - intros i q [[<- <-]|[_ ?]]%lookup_insert_Some; [by destruct o, e|by eapply Hr].
  - intros a b ra rb [[<- <-]|[_ Ha]]%lookup_insert_Some
      [[<- <-]|[_ Hb]]%lookup_insert_Some (Ht & Hp & Hoa & Hob); try done. by eapply Hu.
Qed.

Lemma close_with_wf id o e now written j :
  journal_wf j → closing o e → journal_wf (close_with id o e now written j).2.
Proof.
  intros Hj Hc. unfold close_with.
  destruct (journal_reservations j !! id) as [r|] eqn:Hid; [|done].
  destruct (is_open r); [|done]. cbn [negb].
  apply persist_and_swap_wf; [done|].
  by apply close_reservations_wf; [apply journal_reservations_wf| |].
Qed.

(** ** Reserving *)

Lemma elem_of_journal_values j r :
  journal_wf j → r ∈ journal_values j ↔ journal_reservations j !! res_id r = Some r.
Proof.
  intros Hj. unfold journal_values. rewrite list_elem_of_fmap. split.
  - intros ([id q] & -> & Hin%elem_of_btree_items). cbn.
    by rewrite (jw_key j Hj _ _ Hin).
  - intros Hr. exists (res_id r, r). split; [done|]. by apply elem_of_btree_items.
Qed.

(** The scan succeeds when every open competitor is behind, and returns them. *)
Lemma reserve_scan_spec task_id revision producer stale rs ids :
  reserve_scan task_id revision producer stale rs = Ok ids →
  (∀ id, id ∈ ids ↔ id ∈ stale ∨ ∃ r, r ∈ rs ∧ res_id r = id ∧ res_task_id r = task_id ∧
     res_producer r = producer ∧ is_open r = true) ∧
  (∀ r, r ∈ rs → res_task_id r = task_id → res_producer r = producer → is_open r = true →
     res_revision r < revision).
Proof.
  revert stale. induction rs as [|r rs IH]; intros stale; cbn [reserve_scan].
  - intros [= <-]. split; [|by intros ? ?%elem_of_nil].
    intros id. split; [auto|]. intros [?|(? & ?%elem_of_nil & _)]; done.
  - destruct (_ || _) eqn:Hskip.
    + intros [Hids Hrev]%IH.
      assert (¬ (res_task_id r = task_id ∧ res_producer r = producer ∧ is_open r = true)) as Hno.
      { intros (Ht & Hp & Ho). rewrite Ho, !bool_decide_eq_false_2 in Hskip by (by intros []).
        done. }
      setoid_rewrite elem_of_cons. split.
      * intros id. rewrite Hids. split; intros [?|(q & Hq & Hrest)]; eauto.
        destruct Hq as [->|Hq]; [|eauto]. tauto.
      * intros q [->|Hq] ???; [tauto|eauto].
    + bool_inv. destruct (Z.ltb_spec (res_revision r) revision) as [Hlt|]; [|done].
      intros [Hids Hrev]%IH. setoid_rewrite elem_of_cons. split.
      * intros id. rewrite Hids, elem_of_app, list_elem_of_singleton. split.
        -- intros [[?| ->]|(q & ? & ?)]; [by left|right; exists r; auto 10|right; exists q; auto].
        -- intros [?|(q & [->|?] & <- & ?)]; [auto|auto|right; eauto 10].
      * intros q [->|Hq] ???; [done|eauto].
Qed.

Lemma supersede_lookup revision now m stale id r :
  supersede revision now m stale !! id = Some r →
  m !! id = Some r ∨
  ∃ q, id = stale ∧ m !! id = Some q ∧
       r = close_reservation now (NeedsRerun (superseded_reason revision q)) UnknownEffect q.
Proof.
  unfold supersede. destruct (m !! stale) as [q|] eqn:Hq; [|by left].
  intros [[<- <-]|[_ ?]]%lookup_insert_Some; [right; eauto|by left].
Qed.

Lemma supersede_wf revision now m stale :
  reservations_wf m → reservations_wf (supersede revision now m stale).
Proof.
  intros Hm. unfold supersede. destruct (m !! stale) as [q|] eqn:Hq; [|done].
  by apply close_reservations_wf.
Qed.

Lemma supersede_all_wf revision now stale m :
  reservations_wf m → reservations_wf (foldl (supersede revision now) m stale).
Proof. revert m. induction stale as [|s stale IH]; cbn; eauto using supersede_wf. Qed.

(** After superseding, an open reservation was open before and not stale. *)
Lemma supersede_all_open revision now stale m id r :
  foldl (supersede revision now) m stale !! id = Some r → is_open r = true →
  m !! id = Some r ∧ id ∉ stale.
Proof.
  revert m. induction stale as [|s stale IH]; cbn [foldl]; intros m Hl Ho.
  - split; [done|apply not_elem_of_nil].
  - destruct (IH _ Hl Ho) as [Hs Hns].
    destruct (supersede_lookup _ _ _ _ _ _ Hs) as [Hm|(q & _ & _ & Hq)];
      [|by rewrite Hq in Ho].
    split; [done|]. rewrite not_elem_of_cons. split; [|done]. intros ->.
    unfold supersede in Hs. rewrite Hm, lookup_insert_eq in Hs.
    injection Hs as Hs. by rewrite <-Hs in Ho.
Qed.

Lemma supersede_all_domain revision now stale m id :
  foldl (supersede revision now) m stale !! id = None ↔ m !! id = None.
Proof.
  revert m. induction stale as [|s stale IH]; cbn [foldl]; intros m; [done|].
  rewrite IH. unfold supersede. destruct (m !! s) as [q|] eqn:Hq; [|done].
  rewrite lookup_insert_None. split; [by intros []|]. intros Hn. split; [done|congruence].
Qed.

Lemma reserve_wf task_id revision request_id producer uuid now written j :
  journal_wf j → journal_reservations j !! new_reservation_id uuid = None →
  journal_wf (reserve task_id revision request_id producer uuid now written j).2.
Proof.
  intros Hj Hfresh. unfold reserve.
  destruct (reserve_scan _ _ _ _ _) as [stale|e] eqn:Hscan; [|done].
  apply reserve_scan_spec in Hscan as [Hids _].
  apply persist_and_swap_wf; [done|].
  pose proof (supersede_all_wf revision now stale _ (journal_reservations_wf j Hj)) as [Hk Hr Hu].
  assert (∀ id r, foldl (supersede revision now) (journal_reservations j) stale !! id = Some r →
            is_open r = true → res_task_id r = task_id → res_producer r = producer → False) as Hnone.
  { intros id r Hl Ho Ht Hp. destruct (supersede_all_open _ _ _ _ _ _ Hl Ho) as [Hl' Hns].
    apply Hns, Hids. right. exists r. pose proof (jw_key j Hj _ _ Hl') as Hid.
    split_and!; try done. apply (elem_of_journal_values j r Hj). by rewrite Hid. }
  split.
  - intros i q [[<- <-]|[_ ?]]%lookup_insert_Some; [done|by apply Hk].
  - intros i q [[<- <-]|[_ ?]]%lookup_insert_Some; [done|by eapply Hr].
  - intros a b ra rb [[<- <-]|[Hna Ha]]%lookup_insert_Some
      [[<- <-]|[Hnb Hb]]%lookup_insert_Some (Ht & Hp & Hoa & Hob); [done|..|by eapply Hu].
    + exfalso. eapply Hnone; [exact Hb|done|by rewrite <-Ht|by rewrite <-Hp].
    + exfalso. eapply Hnone; [exact Ha|done|done|done].
Qed.

(** ** Steps *)

(** The operations, each with a fresh id or on a given one. *)
Inductive journal_step j : ProducerReservationLedger → Prop :=
  | step_reserve task_id revision request_id producer uuid now written :
      journal_reservations j !! new_reservation_id uuid = None →
      journal_step j (reserve task_id revision request_id producer uuid now written j).2
  | step_release id receipt_ref now written :
      journal_step j (release id receipt_ref now written j).2
  | step_release_failed id error now written :
      journal_step j (release_failed id error now written j).2
  | step_needs_rerun id reason now written :
      journal_step j (close_reservation_needs_rerun id reason now written j).2.

Definition journal_reachable j : Prop := rtc journal_step journal_default j.

Lemma journal_step_wf j j' : journal_wf j → journal_step j j' → journal_wf j'.
Proof.
  intros Hj []; [by apply reserve_wf|by apply close_with_wf| |by apply close_with_wf].
  apply close_with_wf; [done|]. cbn [closing]. unfold starts_with. by rewrite strip_prefix_app.
Qed.

Lemma journal_steps_wf j j' : journal_wf j → rtc journal_step j j' → journal_wf j'.
Proof. intros Hj. induction 1; eauto using journal_step_wf. Qed.

Lemma journal_reachable_wf j : journal_reachable j → journal_wf j.
Proof. apply journal_steps_wf, journal_default_wf. Qed.

Lemma persist_and_swap_cases {A} written m (a : A) j :
  let j' := (persist_and_swap written (with_reservations m j) a j).2 in
  (j' = j ∧ written = false) ∨ (journal_reservations j' = m ∧ written = true).
Proof. destruct written; [by right|by left]. Qed.

(** A closed reservation is never touched again. *)
Lemma close_with_keeps_closed id o e now written j i r :
  journal_reservations j !! i = Some r → is_open r = false →
  journal_reservations (close_with id o e now written j).2 !! i = Some r.
Proof.
  intros Hi Hc. unfold close_with.
  destruct (journal_reservations j !! id) as [q|] eqn:Hid; [|done].
  destruct (is_open q) eqn:Hq; [|done]. cbn [negb].
  match goal with |- context [persist_and_swap _ (with_reservations ?m _) ?a _] =>
    destruct (persist_and_swap_cases written m a j) as [[-> _]|[-> _]] end; [done|].
  rewrite lookup_insert_ne; [done|]. intros ->. congruence.
Qed.

Lemma supersede_all_keeps_others revision now stale m i r :
  m !! i = Some r → i ∉ stale → foldl (supersede revision now) m stale !! i = Some r.
Proof.
  revert m. induction stale as [|s stale IH]; cbn [foldl]; intros m Hm Hn; [done|].
  apply not_elem_of_cons in Hn as [Hne Hn]. apply IH; [|done].
  unfold supersede. destruct (m !! s); [|done]. by rewrite lookup_insert_ne by congruence.
Qed.

Lemma reserve_keeps_closed task_id revision request_id producer uuid now written j i r :
  journal_wf j → journal_reservations j !! new_reservation_id uuid = None →
  journal_reservations j !! i = Some r → is_open r = false →
  journal_reservations (reserve task_id revision request_id producer uuid now written j).2 !! i
  = Some r.
Proof.
  intros Hj Hfresh Hi Hc. unfold reserve.
  destruct (reserve_scan _ _ _ _ _) as [stale|e] eqn:Hscan; [|done].
  apply reserve_scan_spec in Hscan as [Hids _].
  match goal with |- context [persist_and_swap _ (with_reservations ?m _) ?a _] =>
    destruct (persist_and_swap_cases written m a j) as [[-> _]|[-> _]] end; [done|].
  rewrite lookup_insert_ne by congruence.
  apply supersede_all_keeps_others; [done|].
  intros [?%elem_of_nil|(q & Hq & <- & _ & _ & Ho)]%Hids; [done|].
  apply (elem_of_journal_values j q Hj) in Hq. congruence.
Qed.

Lemma journal_step_keeps_closed j j' i r :
  journal_wf j → journal_step j j' → journal_reservations j !! i = Some r →
  is_open r = false → journal_reservations j' !! i = Some r.
Proof. intros Hj []; eauto using reserve_keeps_closed, close_with_keeps_closed. Qed.

(** ** Reloading *)

Lemma journal_wf_loads j : journal_wf j → journal_load j = Ok j.
Proof.
  intros Hj. unfold journal_load, journal_validate_shape.
  assert ((journal_schema_version j =? PRODUCER_RESERVATIONS_LEGACY_SCHEMA_VERSION)
          || (journal_schema_version j =? PRODUCER_RESERVATIONS_SCHEMA_VERSION) = true) as ->
    by (by destruct (jw_version j Hj) as [-> | ->]).
  rewrite (proj2 (Z.ltb_ge _ _)) by (apply (jw_stamped j Hj)).
  cbn [negb reject_if mbind result_bind].
  rewrite (proj2 (for_each_Ok _ _ tt)).
  - cbn [mbind result_bind]. rewrite bool_decide_eq_false_2; [done|].
    intros Hn. apply Hn. symmetry. apply (jw_digest j Hj).
  - apply Forall_forall. intros [id r] Hin%elem_of_btree_items. cbn.
    rewrite bool_decide_eq_false_2; [done|]. intros Hn. by rewrite (jw_key j Hj _ _ Hin) in Hn.
Qed.

(** ** What a closed reservation says *)

(** The effect the outcome of a side effect stands for. *)
Definition effect_of {T} (outcome : result ProducerSideEffectError (T * rstring))
    : ProducerEffectOutcome :=
  match outcome with
  | Ok _ => Confirmed
  | Err (SideEffectFailed _) => FailedKnown
  | Err (ReceiptLost _ | Dispatched _) => UnknownEffect
  end.

Lemma close_after_effect {T} id (outcome : result ProducerSideEffectError (T * rstring)) now j r :
  journal_reservations j !! id = Some r → is_open r = true →
  ∃ r', journal_reservations (close_after id outcome now true j).2 !! id = Some r' ∧
    is_open r' = false ∧ effect_outcome r' = Some (effect_of outcome).
Proof.
  intros Hid Ho. unfold close_after, release, release_failed, close_released,
    close_reservation_needs_rerun, close_with.
  destruct outcome as [[value receipt]|[error|error|error]]; rewrite Hid, Ho;
    cbn [negb persist_and_swap snd journal_stamp with_reservations journal_reservations];
    rewrite lookup_insert_eq; eexists; split_and!; done.
Qed.

(** ** Reconciling *)

(** The close of one open reservation, written. *)
Lemma close_needs_rerun_open id reason now j r :
  journal_reservations j !! id = Some r → is_open r = true →
  ∃ j', close_reservation_needs_rerun id reason now true j = (Ok tt, j') ∧
    journal_reservations j'
    = <[id := close_reservation now (NeedsRerun reason) UnknownEffect r]> (journal_reservations j).
Proof.
  intros Hid Ho. unfold close_reservation_needs_rerun, close_with. rewrite Hid, Ho.
  eexists. split; reflexivity.
Qed.

Lemma reconcile_loop_closes {C} `{MemoryCandidates C} s steps rs j st (c : C) :
  (∀ id, step_closed (steps id) = true) → NoDup (res_id <$> rs) →
  (∀ r, r ∈ rs → journal_reservations j !! res_id r = Some r ∧ is_open r = true) →
  ∃ j' st' c', reconcile_loop s steps rs j st c = (Ok tt, j', st', c') ∧
    ∀ id, journal_reservations j' !! id =
      match journal_reservations j !! id with
      | Some r => Some (if decide (id ∈ res_id <$> rs)
                        then close_reservation (step_now (steps id))
                               (NeedsRerun interrupted_reason) UnknownEffect r
                        else r)
      | None => None
      end.
Proof.
  intros Hw. revert j st c. induction rs as [|r rs IH]; intros j st c Hnd Hopen.
  - exists j, st, c. split; [done|]. intros id. cbn. by destruct (journal_reservations j !! id).
  - cbn [fmap list_fmap] in Hnd. apply NoDup_cons in Hnd as [Hnr Hnd].
    destruct (Hopen r) as [Hr Ho]; [by left|].
    destruct (close_needs_rerun_open (res_id r) interrupted_reason (step_now (steps (res_id r))) j r
      Hr Ho) as (j1 & Hclose & Hj1).
    cbn [reconcile_loop]. rewrite Hw, Hclose.
    destruct (note_producer_reservation_interrupted _ _ _ _ _ _ _ _) as [[? st1] c1].
    destruct (IH j1 st1 c1 Hnd) as (j' & st' & c' & Hloop & Hj').
    { intros q Hq. rewrite Hj1, lookup_insert_ne.
      - apply Hopen. by right.
      - intros Heq. apply Hnr. rewrite Heq. by apply list_elem_of_fmap_2. }
    exists j', st', c'. split; [done|]. intros id. rewrite Hj', Hj1.
    cbn [fmap list_fmap]. destruct (decide (id = res_id r)) as [->|Hne].
    + rewrite lookup_insert_eq, Hr, decide_False, decide_True; [done|by left|done].
    + rewrite lookup_insert_ne by done. destruct (journal_reservations j !! id); [|done].
      do 2 f_equal. destruct (decide (id ∈ res_id <$> rs)).
      * by rewrite decide_True by (by right).
      * rewrite decide_False; [done|]. by intros [?|?]%elem_of_cons.
Qed.

Lemma elem_of_open_reservations j r :
  journal_wf j →
  r ∈ open_reservations j ↔ journal_reservations j !! res_id r = Some r ∧ is_open r = true.
Proof.
  intros Hj. unfold open_reservations.
  rewrite list_elem_of_filter, (elem_of_journal_values j r Hj). tauto.
Qed.

Lemma open_reservations_nodup j : journal_wf j → NoDup (res_id <$> open_reservations j).
Proof.
  intros Hj. unfold open_reservations, journal_values.
  assert (res_id <$> (btree_items str_leb (journal_reservations j)).*2
            = (btree_items str_leb (journal_reservations j)).*1) as Hids.
  { rewrite <-list_fmap_compose. apply list_fmap_ext. intros i [id r] Hi. cbn.
    apply (jw_key j Hj), (elem_of_btree_items str_leb). by apply list_elem_of_lookup_2 in Hi. }
  eapply sublist_NoDup; [|apply fmap_sublist, sublist_filter].
  rewrite Hids, btree_items_perm. apply NoDup_fst_map_to_list.
Qed.

(** ** The reservations of a request *)

Definition reserved_by (task_id : rstring) (producer : ProducerKind) (request_id : rstring) r
    : Prop :=
  res_task_id r = task_id ∧ res_producer r = producer ∧ res_request_id r = request_id.

Lemma elem_of_reservations_of task_id producer request_id j r :
  journal_wf j →
  r ∈ reservations_of task_id producer request_id j ↔
  journal_reservations j !! res_id r = Some r ∧ reserved_by task_id producer request_id r.
Proof.
  intros Hj. unfold reservations_of.
  rewrite list_elem_of_filter, (elem_of_journal_values j r Hj). unfold reserved_by. tauto.
Qed.

Lemma reserved_key_leb_refl r : reserved_key_leb r r = true.
Proof.
  unfold reserved_key_leb. destruct (parse_from_rfc3339 _); rewrite ?Z.eqb_refl, str_leb_refl;
    [apply orb_true_r|done].
Qed.

Lemma reserved_key_leb_total a b :
  reserved_key_leb a b = true ∨ reserved_key_leb b a = true.
Proof.
  unfold reserved_key_leb.
  destruct (parse_from_rfc3339 (res_reserved_at a)) as [x|],
    (parse_from_rfc3339 (res_reserved_at b)) as [y|]; auto using str_leb_total.
  destruct (Z.lt_trichotomy x y) as [Hlt|[-> |Hlt]].
  - left. by rewrite (proj2 (Z.ltb_lt x y)).
  - rewrite Z.eqb_refl. destruct (str_leb_total (res_reserved_at a) (res_reserved_at b)) as [-> | ->];
      [left|right]; apply orb_true_r.
  - right. by rewrite (proj2 (Z.ltb_lt y x)).
Qed.

Lemma reserved_key_leb_trans a b c :
  reserved_key_leb a b = true → reserved_key_leb b c = true → reserved_key_leb a c = true.
Proof.
  unfold reserved_key_leb.
  destruct (parse_from_rfc3339 (res_reserved_at a)) as [x|],
    (parse_from_rfc3339 (res_reserved_at b)) as [y|],
    (parse_from_rfc3339 (res_reserved_at c)) as [z|]; try done; [|apply str_leb_trans].
  rewrite !orb_true_iff, !andb_true_iff, !Z.ltb_lt, !Z.eqb_eq.
  intros [?|[-> Hab] ] [?|[-> Hbc] ]; [left; lia|left; lia|left; lia|right].
  split; [done|by eapply str_leb_trans].
Qed.

Lemma max_by_reserved_snoc rs r :
  max_by_reserved (rs ++ [r]) =
    match max_by_reserved rs with
    | None => Some r
    | Some b => if reserved_key_leb b r then Some r else Some b
    end.
Proof. unfold max_by_reserved. by rewrite foldl_snoc. Qed.

Lemma elem_of_snoc {A} (l : list A) x a : a ∈ l ++ [x] ↔ a ∈ l ∨ a = x.
Proof. by rewrite elem_of_app, list_elem_of_singleton. Qed.

Lemma max_by_reserved_spec rs :
  match max_by_reserved rs with
  | None => rs = []
  | Some r => r ∈ rs ∧ ∀ q, q ∈ rs → reserved_key_leb q r = true
  end.
Proof.
  induction rs as [|r rs IH] using rev_ind; [done|]. rewrite max_by_reserved_snoc.
  destruct (max_by_reserved rs) as [b|].
  - destruct IH as [Hb Hmax]. destruct (reserved_key_leb b r) eqn:Hbr.
    + split; [apply elem_of_snoc; by right|]. intros q [Hq| ->]%elem_of_snoc; [|apply reserved_key_leb_refl].
      eapply reserved_key_leb_trans; [by apply Hmax|done].
    + split; [apply elem_of_snoc; by left|]. intros q [Hq| ->]%elem_of_snoc; [by apply Hmax|].
      destruct (reserved_key_leb_total b r); congruence.
  - subst rs. split; [by left|]. intros q ->%list_elem_of_singleton. apply reserved_key_leb_refl.
Qed.

(** The first [Some] of a reversed sorted list is of its last such element. *)
Lemma head_omap_reverse {A B} (f : A → option B) (R : A → A → Prop) (l : list A) :
  match head (omap f (reverse l)) with
  | None => ∀ a, a ∈ l → f a = None
  | Some b => (∀ a, R a a) → StronglySorted R l →
      ∃ a, a ∈ l ∧ f a = Some b ∧ ∀ a', a' ∈ l → is_Some (f a') → R a' a
  end.
Proof.
  induction l as [|x l IH] using rev_ind; [by intros ? ?%elem_of_nil|].
  rewrite reverse_snoc. cbn [omap list_omap].
  destruct (f x) as [b|] eqn:Hx.
  - intros Hrefl Hs. exists x. split_and!; [apply elem_of_snoc; by right|done|]. intros a' [Ha'| ->]%elem_of_snoc _; [|done].
    apply StronglySorted_app in Hs as (Hcross & _ & _). apply Hcross; [done|by left].
  - destruct (head _) as [b|].
    + intros Hrefl (_ & Hs & _)%StronglySorted_app. destruct (IH Hrefl Hs) as (a & ? & ? & Hlast).
      exists a. split_and!; [apply elem_of_snoc; by left|done|]. intros a' [?| ->]%elem_of_snoc Hsome; [by apply Hlast|].
      rewrite Hx in Hsome. by destruct Hsome.
    + intros a [?| ->]%elem_of_snoc; [by apply IH|done].
Qed.
End journal.

#[export] Hint Resolve journal_reachable_wf : impulse.

(** * The properties *)

Section properties.
Context `{Host, ReservationJson}.
Implicit Types (j : ProducerReservationLedger) (r : ProducerReservation).

(** Every journal the operations produce loads again: its keys, schema
    version and digest are right, and each record is open with nothing
    recorded or closed with an outcome and the effect that goes with it. *)
Theorem journal_reloads j :
  journal_reachable j →
  journal_load j = Ok j ∧
  ∀ id r, journal_reservations j !! id = Some r → reservation_wf r.
Proof.
  intros Hj%journal_reachable_wf. split; [by apply journal_wf_loads|apply (jw_record j Hj)].
Qed.

(** C15: a task has at most one open reservation per producer, and a new one is
    granted exactly when every open one is of an earlier revision. *)
Theorem one_open_reservation_per_producer j task_id revision request_id producer uuid now :
  journal_reachable j →
  (∀ a b ra rb, journal_reservations j !! a = Some ra → journal_reservations j !! b = Some rb →
     contends ra rb → a = b) ∧
  (is_ok (reserve task_id revision request_id producer uuid now true j).1 = true ↔
   ∀ id r, journal_reservations j !! id = Some r → res_task_id r = task_id →
     res_producer r = producer → is_open r = true → res_revision r < revision).
Proof.
  intros Hj%journal_reachable_wf. split; [apply (jw_unique j Hj)|].
  assert (∀ stale rs, is_ok (reserve_scan task_id revision producer stale rs) = true ↔
    ∀ r, r ∈ rs → res_task_id r = task_id → res_producer r = producer → is_open r = true →
      res_revision r < revision) as Hscan.
  { intros stale rs. split.
    - intros (ids & Hs)%is_ok_true. by apply reserve_scan_spec in Hs as [_ ?].
    - revert stale. induction rs as [|r rs IH]; intros stale Hall; [done|]. cbn [reserve_scan].
      setoid_rewrite elem_of_cons in Hall.
      destruct (_ || _) eqn:Hskip; [by apply IH; auto|]. bool_inv.
      destruct (Z.ltb_spec (res_revision r) revision); [by apply IH; auto|].
      specialize (Hall r (or_introl eq_refl)). intuition lia. }
  transitivity (is_ok (reserve_scan task_id revision producer [] (journal_values j)) = true).
  - unfold reserve. by destruct (reserve_scan _ _ _ _ _).
  - rewrite Hscan. split.
    + intros Hall id r Hr. apply Hall, (elem_of_journal_values j r Hj).
      by rewrite (jw_key j Hj _ _ Hr).
    + intros Hall r Hr%(elem_of_journal_values j r Hj). eauto.
Qed.

(** A closed reservation is final: no later operation changes what it
    recorded, and closing it again is refused. *)
Theorem closed_reservation_is_final j j' id r :
  journal_reachable j → rtc journal_step j j' →
  journal_reservations j !! id = Some r → is_open r = false →
  journal_reservations j' !! id = Some r ∧
  ∀ o e now written, close_with id o e now written j'
                     = (Err (ReservationError (AlreadyReleased id)), j').
Proof.
  intros Hj%journal_reachable_wf Hs Hr Hc.
  assert (journal_reservations j' !! id = Some r) as Hr'.
  { revert Hj Hr. induction Hs as [|j u j' Hstep _ IH]; [done|]. intros Hj Hr.
    apply IH; eauto using journal_step_wf, journal_step_keeps_closed. }
  split; [done|]. intros o e now written. unfold close_with. by rewrite Hr', Hc.
Qed.

(** A producer run under a reservation leaves a true record: if the side
    effect kept its reservation open, the reservation is closed when the run
    returns, as confirmed exactly when the effect and its receipt succeeded,
    as a known failure exactly when the producer reported one before
    dispatching, and as unknown otherwise; the caller gets the producer's own
    value or error. *)
Theorem reservation_records_the_effect {W T} task_id revision request_id producer uuid now
    (side_effect : ProducerReservationLedger * W →
                   result ProducerSideEffectError (T * rstring)
                   * (ProducerReservationLedger * W))
    closed_at world id reserved outcome j1 w1 r :
  reserve task_id revision request_id producer uuid now true world.1 = (Ok id, reserved) →
  side_effect (reserved, world.2) = (outcome, (j1, w1)) →
  journal_reservations j1 !! id = Some r → is_open r = true →
  ∃ j2 r',
    with_reservation_effect task_id revision request_id producer uuid now true side_effect
      closed_at true world =
      (match outcome with
       | Ok (value, _) => Ok value
       | Err e => Err (ProducerFailed (side_effect_error_into_inner e))
       end, (j2, w1)) ∧
    journal_reservations j2 !! id = Some r' ∧ is_open r' = false ∧
    effect_outcome r' = Some (effect_of outcome).
Proof.
  intros Hres Hside Hr Ho.
  destruct (close_after_effect id outcome closed_at j1 r Hr Ho) as (r' & ? & ? & ?).
  do 2 eexists. split_and!; [|done..].
  unfold with_reservation_effect. by rewrite Hres, Hside.
Qed.

(** [latest_reservation] is the latest one: none exactly when the request
    reserved nothing for that task and producer, and otherwise one of its
    reservations that no other of them follows in time. *)
Theorem latest_reservation_is_latest j task_id producer request_id :
  journal_reachable j →
  match latest_reservation task_id producer request_id j with
  | None => ∀ id r, journal_reservations j !! id = Some r →
              ¬ reserved_by task_id producer request_id r
  | Some r => journal_reservations j !! res_id r = Some r ∧
      reserved_by task_id producer request_id r ∧
      ∀ id q, journal_reservations j !! id = Some q → reserved_by task_id producer request_id q →
        reserved_key_leb q r = true
  end.
Proof.
  intros Hj%journal_reachable_wf. unfold latest_reservation.
  pose proof (max_by_reserved_spec (reservations_of task_id producer request_id j)) as Hmax.
  destruct (max_by_reserved _) as [r|].
  - destruct Hmax as [Hin Hmax]. apply (elem_of_reservations_of _ _ _ j r Hj) in Hin as [Hr Hby].
    split_and!; [done..|]. intros id q Hq Hbyq.
    apply Hmax, (elem_of_reservations_of _ _ _ j q Hj). by rewrite (jw_key j Hj _ _ Hq).
  - intros id q Hq Hbyq. apply not_elem_of_nil with (x := q). rewrite <-Hmax.
    apply (elem_of_reservations_of _ _ _ j q Hj). by rewrite (jw_key j Hj _ _ Hq).
Qed.

(** [pending_rerun_reason] looks at the interrupted reservations of a
    request alone: it is none exactly when none of them needs a rerun, and
    otherwise the reason of the one reserved last among those that do,
    whatever a later attempt of the same request came to. *)
Theorem pending_rerun_reason_is_last_interruption j task_id producer request_id :
  journal_reachable j →
  match pending_rerun_reason task_id producer request_id j with
  | None => ∀ id r, journal_reservations j !! id = Some r →
              reserved_by task_id producer request_id r → rerun_reason r = None
  | Some reason => ∃ r, journal_reservations j !! res_id r = Some r ∧
      reserved_by task_id producer request_id r ∧ rerun_reason r = Some reason ∧
      ∀ id q, journal_reservations j !! id = Some q → reserved_by task_id producer request_id q →
        is_Some (rerun_reason q) → str_leb (res_reserved_at q) (res_reserved_at r) = true
  end.
Proof.
  intros Hj%journal_reachable_wf. unfold pending_rerun_reason. cbv zeta.
  set (sorted := stable_sort _ _).
  assert (∀ id q, journal_reservations j !! id = Some q →
            reserved_by task_id producer request_id q → q ∈ sorted) as Hin.
  { intros id q Hq Hby. unfold sorted. rewrite stable_sort_perm.
    apply (elem_of_reservations_of _ _ _ j q Hj). by rewrite (jw_key j Hj _ _ Hq). }
  pose proof (head_omap_reverse rerun_reason (λ q r, str_leb (res_reserved_at q) (res_reserved_at r) = true)
    sorted) as Hspec.
  destruct (head (omap rerun_reason (reverse sorted))) as [reason|].
  - destruct Hspec as (r & Hr & Hreason & Hlast).
    { intros r. apply str_leb_refl. }
    { apply (stable_sort_sorted (λ a b, str_leb (res_reserved_at a) (res_reserved_at b))).
      - intros a b. apply str_leb_total.
      - intros a b c. apply str_leb_trans. }
    assert (r ∈ reservations_of task_id producer request_id j) as Hr'
      by (by unfold sorted in Hr; rewrite stable_sort_perm in Hr).
    apply (elem_of_reservations_of _ _ _ j r Hj) in Hr' as [Hl Hby].
    exists r. split_and!; [done..|]. intros id q Hq Hbyq Hsome. apply Hlast; [|done]. by eapply Hin.
  - intros id q Hq Hby. apply Hspec. by eapply Hin.
Qed.

(** A version-1 record, which has no effect field, reads as what this build
    would have written: dropping the field of a journal record leaves its
    effect the same, unless it was confirmed under a receipt that starts with
    the failure mark. *)
Theorem legacy_effect_is_derived j id r :
  journal_reachable j → journal_reservations j !! id = Some r →
  effect_outcome {| res_id := res_id r; res_task_id := res_task_id r;
    res_revision := res_revision r; res_request_id := res_request_id r;
    res_producer := res_producer r; res_reserved_at := res_reserved_at r;
    res_released_at := res_released_at r; res_outcome := res_outcome r;
    res_effect := None |} = effect_outcome r ∨
  ∃ receipt_ref, res_outcome r = Some (Released receipt_ref) ∧
    res_effect r = Some Confirmed ∧ starts_with (lit "failed: ") receipt_ref = true.
Proof.
  intros Hj%journal_reachable_wf Hr. apply (jw_record j Hj) in Hr. revert Hr.
  unfold reservation_wf, effect_outcome. cbn [res_effect res_outcome].
  destruct (res_released_at r), (res_outcome r) as [[receipt|reason]|],
    (res_effect r) as [[]|]; try done; try (by left).
  - destruct (starts_with (lit "failed: ") receipt) eqn:Hs; [right; eauto|by left].
  - intros ->. by left.
Qed.

(** Reconciliation at startup, when its writes succeed, leaves no open
    reservation: each one that was open is closed as needing a rerun with its
    effect unknown, and every other record is as it was, whether or not the
    governed task could be annotated. *)
Theorem reconciliation_closes_every_open_reservation {C} `{MemoryCandidates C} s steps j st
    (c : C) :
  journal_reachable j → (∀ id, step_closed (steps id) = true) →
  ∃ j' st' c', reconcile_producer_reservations s steps j st c = (Ok tt, j', st', c') ∧
    ∀ id r, journal_reservations j !! id = Some r →
      ∃ r', journal_reservations j' !! id = Some r' ∧ is_open r' = false ∧
        (is_open r = false → r' = r) ∧
        (is_open r = true → res_outcome r' = Some (NeedsRerun interrupted_reason) ∧
                            effect_outcome r' = Some UnknownEffect).
Proof.
  intros Hj%journal_reachable_wf Hw. unfold reconcile_producer_reservations.
  destruct (reconcile_loop_closes s steps (open_reservations j) j st c Hw)
    as (j' & st' & c' & Hloop & Hj').
  { by apply open_reservations_nodup. }
  { intros r. by apply elem_of_open_reservations. }
  exists j', st', c'. split; [done|]. intros id r Hr. rewrite Hj', Hr. eexists. split; [done|].
  pose proof (jw_key j Hj _ _ Hr) as Hid.
  destruct (decide (id ∈ res_id <$> open_reservations j)) as [Hin|Hnin].
  - split_and!; [done| |done]. intros Hc. exfalso.
    apply list_elem_of_fmap_1 in Hin as (q & -> & Hq).
    apply (elem_of_open_reservations j q Hj) in Hq as [Hq Ho]. congruence.
  - assert (is_open r = false) as Hc.
    { destruct (is_open r) eqn:Ho; [|done]. exfalso. apply Hnin. rewrite <-Hid.
      apply list_elem_of_fmap_2, (elem_of_open_reservations j r Hj). by rewrite Hid. }
    split_and!; [done..|]. by rewrite Hc.
Qed.
End properties.

(** * A concrete journal *)

(** The bytes a digest is taken of; a stand-in that lists the ids. *)
#[export] Instance sample_reservation_json : ReservationJson :=
  λ m, concat (btree_items str_leb m).*1.

Definition sample_reserve (n : Z) (j : ProducerReservationLedger)
    : journal_result rstring * ProducerReservationLedger :=
  reserve (lit "task-1") n (lit "request-9") Verification (lit "u" ++ show_Z n) (sample_time n)
    true j.
Definition sample_id (n : Z) : rstring := new_reservation_id (lit "u" ++ show_Z n).

Definition sample_reserved : ProducerReservationLedger := (sample_reserve 3 journal_default).2.
Definition sample_released : ProducerReservationLedger :=
  (release (sample_id 3) (lit "verification-1") (sample_time 4) true sample_reserved).2.
Definition sample_again : ProducerReservationLedger := (sample_reserve 4 sample_released).2.

Lemma sample_reserved_reachable : journal_reachable sample_reserved.
Proof. apply rtc_once. constructor. reflexivity. Qed.
Lemma sample_released_step : journal_step sample_reserved sample_released.
Proof. constructor. Qed.
Lemma sample_released_reachable : journal_reachable sample_released.
Proof. eapply rtc_r; [exact sample_reserved_reachable|exact sample_released_step]. Qed.
Lemma sample_again_step : journal_step sample_released sample_again.
Proof. constructor. vm_compute. reflexivity. Qed.

Definition sample_record (j : ProducerReservationLedger) (n : Z) : ProducerReservation :=
  default (new_reservation [] [] 0 [] Verification []) (journal_reservations j !! sample_id n).
Lemma sample_record_lookup j n :
  bool_decide (is_Some (journal_reservations j !! sample_id n)) = true →
  journal_reservations j !! sample_id n = Some (sample_record j n).
Proof. intros [r Hr]%bool_decide_eq_true. unfold sample_record. by rewrite Hr. Qed.

(** * The theorems on it *)

Lemma journal_reloads_witness : journal_load sample_released = Ok sample_released.
Proof. apply (journal_reloads sample_released), sample_released_reachable. Defined.

(** A second reservation at the same revision is refused. *)
Lemma one_open_reservation_per_producer_witness :
  is_ok (sample_reserve 3 sample_reserved).1 ≠ true.
Proof.
  destruct (one_open_reservation_per_producer sample_reserved (lit "task-1") 3 (lit "request-9")
    Verification (lit "u3") (sample_time 3) sample_reserved_reachable) as [_ [H3 _] ].
  intros Hok. specialize (H3 Hok (sample_id 3) (sample_record sample_reserved 3)
    (sample_record_lookup sample_reserved 3 eq_refl) eq_refl eq_refl eq_refl).
  vm_compute in H3. discriminate H3.
Defined.

Lemma closed_reservation_is_final_witness :
  journal_reservations sample_again !! sample_id 3 = Some (sample_record sample_released 3) ∧
  (release (sample_id 3) (lit "again") (sample_time 6) true sample_again).1
  = Err (ReservationError (AlreadyReleased (sample_id 3))).
Proof.
  destruct (closed_reservation_is_final sample_released sample_again (sample_id 3)
    (sample_record sample_released 3)) as [Hr Hc].
  - exact sample_released_reachable.
  - apply rtc_once, sample_again_step.
  - apply sample_record_lookup. vm_compute. reflexivity.
  - vm_compute. reflexivity.
  - split; [exact Hr|]. unfold release, close_released. by rewrite Hc.
Defined.

(** A producer whose receipt is lost after its effect. *)
Definition sample_lost : ProducerError :=
  {| error_display := lit "io"; error_chain := lit "io"; error_dispatched := false |}.
Lemma reservation_records_the_effect_witness :
  ∃ j2 r',
    with_reservation_effect (lit "task-1") 3 (lit "request-9") Verification (lit "u3")
      (sample_time 3) true
      (λ world, (@Err _ (unit * rstring) (ReceiptLost sample_lost), world)) (sample_time 4) true
      (journal_default, tt)
    = (Err (ProducerFailed sample_lost), (j2, tt)) ∧
    journal_reservations j2 !! sample_id 3 = Some r' ∧
    effect_outcome r' = Some UnknownEffect.
Proof.
  destruct (reservation_records_the_effect (lit "task-1") 3 (lit "request-9") Verification
    (lit "u3") (sample_time 3)
    (λ world, (@Err _ (unit * rstring) (ReceiptLost sample_lost), world)) (sample_time 4)
    (journal_default, tt) (sample_id 3) sample_reserved (Err (ReceiptLost sample_lost))
    sample_reserved tt (sample_record sample_reserved 3)) as (j2 & r' & Hw & Hr & _ & He).
  - reflexivity.
  - reflexivity.
  - apply sample_record_lookup. vm_compute. reflexivity.
  - vm_compute. reflexivity.
  - exists j2, r'. exact (conj Hw (conj Hr He)).
Defined.

Lemma legacy_effect_is_derived_witness :
  effect_outcome {| res_id := sample_id 3; res_task_id := lit "task-1"; res_revision := 3;
    res_request_id := lit "request-9"; res_producer := Verification;
    res_reserved_at := sample_time 3; res_released_at := Some (sample_time 4);
    res_outcome := Some (Released (lit "verification-1")); res_effect := None |}
  = Some Confirmed.
Proof.
  destruct (legacy_effect_is_derived sample_released (sample_id 3)
    (sample_record sample_released 3)) as [Hr|(receipt & _ & _ & Hs)].
  - exact sample_released_reachable.
  - apply sample_record_lookup. vm_compute. reflexivity.
  - exact Hr.
  - vm_compute. reflexivity.
Defined.

Lemma reconciliation_closes_every_open_reservation_witness :
  ∃ j', (reconcile_producer_reservations sample_storage
           (λ _, {| step_now := sample_time 9; step_ids := sample_ids 9; step_closed := true;
                    step_noted := true |}) sample_reserved
           {| st_memory := sample_ledger sample_launch; st_disk := sample_ledger sample_launch |}
           tt).1.1.2 = j' ∧
    ∃ r, journal_reservations j' !! sample_id 3 = Some r ∧ is_open r = false.
Proof.
  destruct (reconciliation_closes_every_open_reservation sample_storage
    (λ _, {| step_now := sample_time 9; step_ids := sample_ids 9; step_closed := true;
             step_noted := true |}) sample_reserved
    {| st_memory := sample_ledger sample_launch; st_disk := sample_ledger sample_launch |} tt)
    as (j' & st' & c' & Hrec & Hall).
  - exact sample_reserved_reachable.
  - reflexivity.
  - exists j'. split; [by rewrite Hrec|].
    destruct (Hall (sample_id 3) (sample_record sample_reserved 3)) as (r & Hr & Ho & _);
      [apply sample_record_lookup; vm_compute; reflexivity|]. exists r. exact (conj Hr Ho).
Defined.

(** An interrupted attempt, then a confirmed one of the same request. *)
Definition sample_interrupted : ProducerReservationLedger :=
  (close_reservation_needs_rerun (sample_id 3) interrupted_reason (sample_time 4) true
     sample_reserved).2.
Definition sample_retried : ProducerReservationLedger :=
  (release (sample_id 5) (lit "verification-1") (sample_time 6) true
     (sample_reserve 5 sample_interrupted).2).2.

Lemma sample_retried_reachable : journal_reachable sample_retried.
Proof.
  eapply rtc_r; [|apply step_release]. eapply rtc_r; [|apply step_reserve; vm_compute; reflexivity].
  eapply rtc_r; [exact sample_reserved_reachable|apply step_needs_rerun].
Qed.

(** The latest reservation is the confirmed one. *)
Lemma latest_reservation_is_latest_witness :
  ∃ r, latest_reservation (lit "task-1") Verification (lit "request-9") sample_retried = Some r ∧
    effect_outcome r = Some Confirmed ∧
    reserved_key_leb (sample_record sample_retried 3) r = true.
Proof.
  pose proof (latest_reservation_is_latest sample_retried (lit "task-1") Verification
    (lit "request-9") sample_retried_reachable) as Hl.
  assert (effect_outcome <$> latest_reservation (lit "task-1") Verification (lit "request-9")
            sample_retried = Some (Some Confirmed)) as He by (vm_compute; reflexivity).
  destruct (latest_reservation _ _ _ _) as [r|]; [|discriminate He].
  destruct Hl as (_ & _ & Hmax). exists r. split; [reflexivity|].
  split; [by injection He|]. apply (Hmax (sample_id 3)).
  - apply sample_record_lookup. vm_compute. reflexivity.
  - vm_compute. repeat split.
Defined.

(** The interruption's reason outlives the confirmed retry. *)
Lemma pending_rerun_reason_is_last_interruption_witness :
  pending_rerun_reason (lit "task-1") Verification (lit "request-9") sample_retried ≠ None.
Proof.
  intros Hn. pose proof (pending_rerun_reason_is_last_interruption sample_retried (lit "task-1")
    Verification (lit "request-9") sample_retried_reachable) as Hp. rewrite Hn in Hp.
  specialize (Hp (sample_id 3) (sample_record sample_retried 3)
    (sample_record_lookup sample_retried 3 eq_refl)).
  vm_compute in Hp. discriminate Hp; repeat split.
Defined.
