(* ===== verification/MemoryContract.v ===== *)
(** The contract of reviewed project memory (impulse-ops/src/memory_candidate.rs
    and memory_wiring.rs): the review candidate of an accepted run, the durable
    record a promotion makes of it, the entry that chains the record into the
    log, and the decision an operator asks for.

    A field [f] of the source's [AcceptedRunMemoryCandidate] is [cand_f] here, of
    [MemoryRecord] [mem_f], of [MemoryLogEntry] [entry_f]; the variants [Promoted]
    and [Dismissed] of the review status are [CandidatePromoted] and
    [CandidateDismissed]. *)
From S2P Require Export Lifecycle.
Local Open Scope Z_scope.

Definition ACCEPTED_RUN_MEMORY_CANDIDATE_SCHEMA_VERSION : Z := 1.
Definition ACCEPTED_RUN_MEMORY_DERIVATION_VERSION : Z := 2.

Definition MAX_OPEN_ID_BYTES : Z := 256.
Definition MAX_PROJECT_TEXT_BYTES : Z := 16 * 1024.
Definition MAX_TASK_BYTES : Z := 8 * 1024.
Definition MAX_CRITERIA : Z := 64.
Definition MAX_CRITERION_BYTES : Z := 16 * 1024.
Definition MAX_PROPOSED_SUMMARY_BYTES : Z := 12 * 1024.
Definition MAX_ARTIFACT_REFERENCES : Z := 64.
Definition MAX_ARTIFACT_REFERENCE_BYTES : Z := 4 * 1024.
Definition MAX_COMMANDS : Z := 64.
Definition MAX_DISMISSAL_REASON_BYTES : Z := 4 * 1024.
Definition MAX_RECORD_TITLE_BYTES : Z := 4 * 1024.
Definition MAX_RECORD_BODY_BYTES : Z := 32 * 1024.

Inductive MemoryCandidateContractError : Type :=
  | MemoryInvalidId (value : rstring)
  | MemoryInvalidField (field message : rstring).
#[export] Instance MemoryCandidateContractError_eq_dec : EqDecision MemoryCandidateContractError.
Proof. solve_decision. Defined.

(** [thiserror]'s [Display] of a contract error. *)
Definition show_memory_contract_error (e : MemoryCandidateContractError) : rstring :=
  match e with
  | MemoryInvalidId value =>
      lit "invalid memory candidate id `" ++ value
        ++ lit "`: ids must be nonempty and contain no whitespace or control characters"
  | MemoryInvalidField field message =>
      lit "invalid memory candidate field `" ++ field ++ lit "`: " ++ message
  end.

Abbreviation memory_contract := (result MemoryCandidateContractError).

(** [MemoryCandidateId::try_new] and [MemoryRecordId::try_new]. *)
Definition memory_id_try_new (value : rstring) : memory_contract rstring :=
  reject_if (is_empty value || (MAX_OPEN_ID_BYTES <? len value)
             || existsb (λ c, char_is_whitespace c || char_is_control c) value)
    (MemoryInvalidId value) ;;
  Ok value.

(** * Shared checks *)

Definition invalid {A} (field message : rstring) : memory_contract A :=
  Err (MemoryInvalidField field message).
Definition invalid_if (c : bool) (field message : rstring) : memory_contract unit :=
  reject_if c (MemoryInvalidField field message).

Definition validate_text (field value : rstring) (max_bytes : Z) : memory_contract unit :=
  invalid_if (is_empty (trim value) || contains_nul value || (max_bytes <? len value)) field
    (lit "must be nonblank, NUL-free, and at most " ++ show_Z max_bytes ++ lit " bytes").

Definition is_lower_hex (value : rstring) : bool := forallb is_lower_hex_byte (bytes value).

Definition validate_references (field : rstring) (values : list rstring) : memory_contract unit :=
  invalid_if (MAX_ARTIFACT_REFERENCES <? zlen values) field
    (lit "must contain at most " ++ show_Z MAX_ARTIFACT_REFERENCES ++ lit " entries") ;;
  for_each (λ value, validate_text field value MAX_ARTIFACT_REFERENCE_BYTES) values.

Definition validate_git_oid (field value : rstring) : memory_contract unit :=
  invalid_if (negb ((len value =? 40) || (len value =? 64)) || negb (is_lower_hex value)) field
    (lit "must be a 40- or 64-character lowercase hexadecimal Git commit OID").

Definition validate_sha256_reference (field value : rstring) : memory_contract unit :=
  match strip_prefix (lit "sha256:") value with
  | None => invalid field (lit "must use the sha256:<hex> format")
  | Some hex =>
      invalid_if (negb (len hex =? 64) || negb (forallb is_ascii_hexdigit (bytes hex))) field
        (lit "must contain 64 hexadecimal characters")
  end.

Definition validate_lower_sha256 (field value prefix : rstring) : memory_contract unit :=
  match strip_prefix prefix value with
  | None => invalid field (lit "must use the " ++ prefix ++ lit "<hex> format")
  | Some hex =>
      invalid_if (negb (len hex =? 64) || negb (is_lower_hex hex)) field
        (lit "must contain 64 lowercase hexadecimal characters")
  end.

Definition validate_candidate_id (id : rstring) : memory_contract unit :=
  match strip_prefix (lit "memory-candidate-") id with
  | None => invalid (lit "id") (lit "must use the memory-candidate-<sha256> format")
  | Some hex =>
      invalid_if (negb (len hex =? 64) || negb (is_lower_hex hex)) (lit "id")
        (lit "must end with 64 lowercase hexadecimal characters")
  end.

Definition MEMORY_RECORD_SCHEMA_VERSION : Z := 1.
Definition MEMORY_LOG_GENESIS_DIGEST : rstring := lit "sha256-memlog-v1:genesis".
Definition MEMORY_RECORD_DIGEST_PREFIX : rstring := lit "sha256-mem-v1:".
Definition MEMORY_RECORD_ID_PREFIX : rstring := lit "memory-record-".
Definition MEMORY_LOG_DIGEST_PREFIX : rstring := lit "sha256-memlog-v1:".

Definition validate_record_id (id : rstring) : memory_contract unit :=
  match strip_prefix MEMORY_RECORD_ID_PREFIX id with
  | None => invalid (lit "record_id") (lit "must use the memory-record-<sha256> format")
  | Some hex =>
      invalid_if (negb (len hex =? 64) || negb (is_lower_hex hex)) (lit "record_id")
        (lit "must end with 64 lowercase hexadecimal characters")
  end.

(** * The review status *)

Inductive MemoryCandidateStatus : Type :=
  | PendingReview
  | CandidatePromoted (record_id decided_at : rstring) (decided_by : GovernedActor)
  | CandidateDismissed (reason decided_at : rstring) (decided_by : GovernedActor).
#[export] Instance MemoryCandidateStatus_eq_dec : EqDecision MemoryCandidateStatus.
Proof. solve_decision. Defined.

Definition is_pending (s : MemoryCandidateStatus) : bool :=
  match s with PendingReview => true | _ => false end.

Definition promoted_record_id (s : MemoryCandidateStatus) : option rstring :=
  match s with CandidatePromoted record_id _ _ => Some record_id | _ => None end.

Definition status_label (s : MemoryCandidateStatus) : rstring :=
  match s with
  | PendingReview => lit "pending_review"
  | CandidatePromoted _ _ _ => lit "promoted"
  | CandidateDismissed _ _ _ => lit "dismissed"
  end.

Definition validate_actor (actor : GovernedActor) : memory_contract unit :=
  validate_text (lit "status.decided_by") (actor_id actor) MAX_OPEN_ID_BYTES.

Section status.
Context `{Host}.

Definition validate_decided_at (value : rstring) : memory_contract unit :=
  match parse_from_rfc3339 value with
  | Some _ => Ok tt
  | None => invalid (lit "status.decided_at") (lit "must be a valid RFC 3339 timestamp")
  end.

Definition validate_status (s : MemoryCandidateStatus) : memory_contract unit :=
  match s with
  | PendingReview => Ok tt
  | CandidatePromoted record_id decided_at decided_by =>
      validate_record_id record_id ;;
      validate_decided_at decided_at ;;
      validate_actor decided_by
  | CandidateDismissed reason decided_at decided_by =>
      validate_text (lit "status.reason") reason MAX_DISMISSAL_REASON_BYTES ;;
      validate_decided_at decided_at ;;
      validate_actor decided_by
  end.
End status.

(** * The candidate *)

Inductive AcceptedRunSourceAssurance : Type :=
  | DaemonProfiledEvidenceDeclaredOperator
  | DaemonProfiledEvidenceAuthenticatedOperator
  | CallerComposedEvidenceDeclaredOperator.
#[export] Instance AcceptedRunSourceAssurance_eq_dec : EqDecision AcceptedRunSourceAssurance.
Proof. solve_decision. Defined.

Definition is_daemon_profiled (a : AcceptedRunSourceAssurance) : bool :=
  match a with
  | DaemonProfiledEvidenceDeclaredOperator
  | DaemonProfiledEvidenceAuthenticatedOperator => true
  | CallerComposedEvidenceDeclaredOperator => false
  end.

Record AcceptedRunCommandEvidence := {
  evidence_name : rstring;
  evidence_command_digest : rstring;
  evidence_output_digest : rstring;
  evidence_exit_code : option Z;
  evidence_success : bool;
  evidence_output_bytes : Z;
  evidence_output_truncated : bool
}.
#[export] Instance AcceptedRunCommandEvidence_eq_dec : EqDecision AcceptedRunCommandEvidence.
Proof. solve_decision. Defined.

Record AcceptedRunMemoryCandidate := {
  cand_id : rstring;
  cand_schema_version : Z;
  cand_derivation_version : Z;
  cand_status : MemoryCandidateStatus;
  cand_project_id : rstring;
  cand_workspace_root : rstring;
  cand_governed_task_id : rstring;
  cand_accepted_task_revision : Z;
  cand_task : rstring;
  cand_acceptance_criteria : list rstring;
  cand_proposed_summary : rstring;
  cand_runtime_id : rstring;
  cand_agent_id : rstring;
  cand_session_id : option rstring;
  cand_verification_profile : option GovernedVerificationProfile;
  cand_verification_policy : rstring;
  cand_subject_revision : rstring;
  cand_claim_id : rstring;
  cand_verification_id : rstring;
  cand_supervisor_verdict_id : rstring;
  cand_operator_decision_id : rstring;
  cand_claimed_artifact_ids : list rstring;
  cand_verification_artifact_ids : list rstring;
  cand_commands : list AcceptedRunCommandEvidence;
  cand_source_assurance : AcceptedRunSourceAssurance;
  cand_source_digest : rstring;
  cand_staged_at : rstring
}.
#[export] Instance AcceptedRunMemoryCandidate_eq_dec : EqDecision AcceptedRunMemoryCandidate.
Proof. solve_decision. Defined.

(** [candidate.status = status]. *)
Definition set_status (status : MemoryCandidateStatus) (c : AcceptedRunMemoryCandidate)
    : AcceptedRunMemoryCandidate :=
  {| cand_id := cand_id c; cand_schema_version := cand_schema_version c;
     cand_derivation_version := cand_derivation_version c; cand_status := status;
     cand_project_id := cand_project_id c; cand_workspace_root := cand_workspace_root c;
     cand_governed_task_id := cand_governed_task_id c;
     cand_accepted_task_revision := cand_accepted_task_revision c; cand_task := cand_task c;
     cand_acceptance_criteria := cand_acceptance_criteria c;
     cand_proposed_summary := cand_proposed_summary c; cand_runtime_id := cand_runtime_id c;
     cand_agent_id := cand_agent_id c; cand_session_id := cand_session_id c;
     cand_verification_profile := cand_verification_profile c;
     cand_verification_policy := cand_verification_policy c;
     cand_subject_revision := cand_subject_revision c; cand_claim_id := cand_claim_id c;
     cand_verification_id := cand_verification_id c;
     cand_supervisor_verdict_id := cand_supervisor_verdict_id c;
     cand_operator_decision_id := cand_operator_decision_id c;
     cand_claimed_artifact_ids := cand_claimed_artifact_ids c;
     cand_verification_artifact_ids := cand_verification_artifact_ids c;
     cand_commands := cand_commands c; cand_source_assurance := cand_source_assurance c;
     cand_source_digest := cand_source_digest c; cand_staged_at := cand_staged_at c |}.

Section candidate.
Context `{Host}.

Definition validate_evidence (command : AcceptedRunCommandEvidence) : memory_contract unit :=
  validate_text (lit "command.name") (evidence_name command) MAX_ARTIFACT_REFERENCE_BYTES ;;
  validate_sha256_reference (lit "command.command_digest") (evidence_command_digest command) ;;
  validate_sha256_reference (lit "command.output_digest") (evidence_output_digest command) ;;
  invalid_if (negb (evidence_success command)
              || bool_decide (evidence_exit_code command ≠ Some 0)) (lit "commands")
    (lit "accepted-run candidates require successful zero-exit command evidence").

(** [AcceptedRunMemoryCandidate::validate_shape]: identity and status ... *)
Definition validate_candidate_head (c : AcceptedRunMemoryCandidate) : memory_contract unit :=
  invalid_if (negb (cand_schema_version c =? ACCEPTED_RUN_MEMORY_CANDIDATE_SCHEMA_VERSION))
    (lit "schema_version")
    (lit "must equal " ++ show_Z ACCEPTED_RUN_MEMORY_CANDIDATE_SCHEMA_VERSION) ;;
  invalid_if (negb (cand_derivation_version c =? ACCEPTED_RUN_MEMORY_DERIVATION_VERSION))
    (lit "derivation_version")
    (lit "must equal " ++ show_Z ACCEPTED_RUN_MEMORY_DERIVATION_VERSION) ;;
  validate_candidate_id (cand_id c) ;;
  validate_status (cand_status c).

(** ... the registration's texts ... *)
Definition validate_candidate_texts (c : AcceptedRunMemoryCandidate) : memory_contract unit :=
  validate_text (lit "project_id") (cand_project_id c) MAX_OPEN_ID_BYTES ;;
  validate_text (lit "workspace_root") (cand_workspace_root c) MAX_PROJECT_TEXT_BYTES ;;
  validate_text (lit "task") (cand_task c) MAX_TASK_BYTES ;;
  invalid_if ((MAX_CRITERIA <? zlen (cand_acceptance_criteria c))
              || (bool_decide (cand_acceptance_criteria c = [])
                  && is_daemon_profiled (cand_source_assurance c)))
    (lit "acceptance_criteria")
    (lit "must contain at most " ++ show_Z MAX_CRITERIA
       ++ lit " entries and cannot be empty for daemon-profiled evidence") ;;
  for_each (λ criterion, validate_text (lit "acceptance_criteria") criterion MAX_CRITERION_BYTES)
    (cand_acceptance_criteria c) ;;
  validate_text (lit "proposed_summary") (cand_proposed_summary c) MAX_PROPOSED_SUMMARY_BYTES ;;
  validate_text (lit "runtime_id") (cand_runtime_id c) MAX_OPEN_ID_BYTES ;;
  validate_text (lit "agent_id") (cand_agent_id c) MAX_OPEN_ID_BYTES ;;
  match cand_session_id c with
  | Some session_id => validate_text (lit "session_id") session_id MAX_OPEN_ID_BYTES
  | None => Ok tt
  end.

(** ... and the evidence. *)
Definition validate_candidate_evidence (c : AcceptedRunMemoryCandidate) : memory_contract unit :=
  validate_text (lit "verification_policy") (cand_verification_policy c)
    MAX_ARTIFACT_REFERENCE_BYTES ;;
  (if is_daemon_profiled (cand_source_assurance c)
   then validate_git_oid (lit "subject_revision") (cand_subject_revision c)
   else validate_text (lit "subject_revision") (cand_subject_revision c)
          MAX_ARTIFACT_REFERENCE_BYTES) ;;
  validate_references (lit "claimed_artifact_ids") (cand_claimed_artifact_ids c) ;;
  validate_references (lit "verification_artifact_ids") (cand_verification_artifact_ids c) ;;
  invalid_if (bool_decide (cand_commands c = []) || (MAX_COMMANDS <? zlen (cand_commands c)))
    (lit "commands")
    (lit "must contain between 1 and " ++ show_Z MAX_COMMANDS ++ lit " entries") ;;
  for_each validate_evidence (cand_commands c) ;;
  validate_lower_sha256 (lit "source_digest") (cand_source_digest c) (lit "sha256-v1:") ;;
  match parse_from_rfc3339 (cand_staged_at c) with
  | Some _ => Ok tt
  | None => invalid (lit "staged_at") (lit "must be a valid RFC 3339 timestamp")
  end.

Definition validate_candidate (c : AcceptedRunMemoryCandidate) : memory_contract unit :=
  validate_candidate_head c ;;
  validate_candidate_texts c ;;
  validate_candidate_evidence c.
End candidate.

(** * The durable record *)

Inductive MemoryScope : Type := ProjectScope | WorkspaceScope | GlobalScope.
#[export] Instance MemoryScope_eq_dec : EqDecision MemoryScope.
Proof. solve_decision. Defined.

Definition is_writable_now (s : MemoryScope) : bool :=
  match s with ProjectScope => true | _ => false end.
Definition scope_label (s : MemoryScope) : rstring :=
  match s with
  | ProjectScope => lit "project"
  | WorkspaceScope => lit "workspace"
  | GlobalScope => lit "global"
  end.

Inductive MemoryKind : Type := AcceptedRunOutcome | OperatorNote.
#[export] Instance MemoryKind_eq_dec : EqDecision MemoryKind.
Proof. solve_decision. Defined.

Definition kind_label (k : MemoryKind) : rstring :=
  match k with
  | AcceptedRunOutcome => lit "accepted_run_outcome"
  | OperatorNote => lit "operator_note"
  end.

Inductive MemorySource : Type :=
  | CandidateRef (candidate_id candidate_source_digest governed_task_id : rstring)
  | OperatorManual (note : rstring).
#[export] Instance MemorySource_eq_dec : EqDecision MemorySource.
Proof. solve_decision. Defined.

Record MemoryRecord := {
  mem_id : rstring;
  mem_schema_version : Z;
  mem_kind : MemoryKind;
  mem_scope : MemoryScope;
  mem_project_id : rstring;
  mem_source : MemorySource;
  mem_request_id : rstring;
  mem_based_on_ledger_revision : Z;
  mem_title : rstring;
  mem_body : rstring;
  mem_valid_from : rstring;
  mem_superseded_by : option rstring;
  mem_digest : rstring
}.
#[export] Instance MemoryRecord_eq_dec : EqDecision MemoryRecord.
Proof. solve_decision. Defined.

(** What the identity digest of a record covers. *)
Record MemoryRecordSourceV1 := {
  source_schema_version : Z;
  source_kind : MemoryKind;
  source_scope : MemoryScope;
  source_project_id : rstring;
  source_source : MemorySource;
  source_request_id : rstring;
  source_based_on_ledger_revision : Z;
  source_title : rstring;
  source_body : rstring
}.

(** [identity_source_bytes], before its serialization. *)
Definition identity_source (kind : MemoryKind) (scope : MemoryScope) (project_id : rstring)
    (source : MemorySource) (request_id : rstring) (based_on_ledger_revision : Z)
    (title body : rstring) : MemoryRecordSourceV1 :=
  {| source_schema_version := MEMORY_RECORD_SCHEMA_VERSION; source_kind := kind;
     source_scope := scope; source_project_id := project_id; source_source := source;
     source_request_id := request_id;
     source_based_on_ledger_revision := based_on_ledger_revision;
     source_title := title; source_body := body |}.

(** [recompute_identity_source_bytes], before its serialization. *)
Definition recompute_identity_source (r : MemoryRecord) : MemoryRecordSourceV1 :=
  identity_source (mem_kind r) (mem_scope r) (mem_project_id r) (mem_source r)
    (mem_request_id r) (mem_based_on_ledger_revision r) (mem_title r) (mem_body r).

Definition identity_hex (r : MemoryRecord) : option rstring :=
  strip_prefix MEMORY_RECORD_ID_PREFIX (mem_id r).

Record MemoryLogEntry := {
  entry_seq : Z;
  entry_previous_digest : rstring;
  entry_record : MemoryRecord;
  entry_digest : rstring
}.
#[export] Instance MemoryLogEntry_eq_dec : EqDecision MemoryLogEntry.
Proof. solve_decision. Defined.

Section record.
Context `{Host}.

Definition validate_source (r : MemoryRecord) : memory_contract unit :=
  match mem_source r with
  | CandidateRef candidate_id candidate_source_digest _ =>
      validate_candidate_id candidate_id ;;
      validate_lower_sha256 (lit "source.candidate_source_digest") candidate_source_digest
        (lit "sha256-v1:") ;;
      invalid_if (bool_decide (mem_kind r ≠ AcceptedRunOutcome)) (lit "kind")
        (lit "a candidate-backed record must be an accepted_run_outcome")
  | OperatorManual note =>
      validate_text (lit "source.note") note MAX_RECORD_BODY_BYTES ;;
      invalid_if (bool_decide (mem_kind r ≠ OperatorNote)) (lit "kind")
        (lit "an operator-manual record must be an operator_note")
  end.

(** [MemoryRecord::validate_shape]. *)
Definition validate_record (r : MemoryRecord) : memory_contract unit :=
  invalid_if (negb (mem_schema_version r =? MEMORY_RECORD_SCHEMA_VERSION)) (lit "schema_version")
    (lit "must equal " ++ show_Z MEMORY_RECORD_SCHEMA_VERSION) ;;
  validate_record_id (mem_id r) ;;
  invalid_if (negb (is_writable_now (mem_scope r))) (lit "scope")
    (lit "only the project scope is writable in this stage; workspace and global are declared but refused") ;;
  validate_text (lit "project_id") (mem_project_id r) MAX_OPEN_ID_BYTES ;;
  validate_source r ;;
  validate_text (lit "title") (mem_title r) MAX_RECORD_TITLE_BYTES ;;
  validate_text (lit "body") (mem_body r) MAX_RECORD_BODY_BYTES ;;
  match parse_from_rfc3339 (mem_valid_from r) with
  | Some _ => Ok tt
  | None => invalid (lit "valid_from") (lit "must be a valid RFC 3339 timestamp")
  end ;;
  match mem_superseded_by r with
  | Some superseded_by => validate_record_id superseded_by
  | None => Ok tt
  end ;;
  validate_lower_sha256 (lit "digest") (mem_digest r) MEMORY_RECORD_DIGEST_PREFIX ;;
  id_hex ← ok_or (identity_hex r)
    (MemoryInvalidField (lit "id") (lit "must use the memory-record-<sha256> format")) ;
  invalid_if (bool_decide (strip_prefix MEMORY_RECORD_DIGEST_PREFIX (mem_digest r) ≠ Some id_hex))
    (lit "digest") (lit "record id and digest must be built from the same hex").

(** [MemoryLogEntry::verify_links]. *)
Definition verify_links (e : MemoryLogEntry) (expected_seq : Z)
    (expected_previous_digest : rstring) : memory_contract unit :=
  invalid_if (negb (entry_seq e =? expected_seq)) (lit "seq")
    (lit "memory log entry is out of order: expected seq " ++ show_Z expected_seq
       ++ lit ", found " ++ show_Z (entry_seq e)) ;;
  invalid_if (bool_decide (entry_previous_digest e ≠ expected_previous_digest))
    (lit "previous_digest")
    (lit "memory log entry " ++ show_Z expected_seq
       ++ lit " does not chain to its predecessor") ;;
  validate_lower_sha256 (lit "entry_digest") (entry_digest e) MEMORY_LOG_DIGEST_PREFIX ;;
  validate_record (entry_record e).
End record.

(** * The decision an operator asks for (memory_wiring.rs) *)

Inductive MemoryWiringContractError : Type :=
  | WiringInvalidField (field message : rstring).
#[export] Instance MemoryWiringContractError_eq_dec : EqDecision MemoryWiringContractError.
Proof. solve_decision. Defined.

Inductive MemoryCandidateDecisionKind : Type :=
  | Promote
  | Dismiss (reason : rstring).
#[export] Instance MemoryCandidateDecisionKind_eq_dec : EqDecision MemoryCandidateDecisionKind.
Proof. solve_decision. Defined.

Definition is_promote (k : MemoryCandidateDecisionKind) : bool :=
  match k with Promote => true | Dismiss _ => false end.
Definition decision_kind_label (k : MemoryCandidateDecisionKind) : rstring :=
  match k with Promote => lit "promote" | Dismiss _ => lit "dismiss" end.

Definition validate_decision_kind (k : MemoryCandidateDecisionKind)
    : result MemoryWiringContractError unit :=
  match k with
  | Promote => Ok tt
  | Dismiss reason =>
      reject_if (is_empty (trim reason) || contains_nul reason
                 || (MAX_DISMISSAL_REASON_BYTES <? len reason))
        (WiringInvalidField (lit "decision.reason")
           (lit "a dismissal reason must be nonblank, NUL-free, and at most "
              ++ show_Z MAX_DISMISSAL_REASON_BYTES ++ lit " bytes"))
  end.

Record MemoryCandidateDecisionInput := {
  input_request_id : rstring;
  input_project_id : rstring;
  input_candidate_id : rstring;
  input_decision : MemoryCandidateDecisionKind;
  input_actor : GovernedActor;
  input_expected_ledger_revision : Z
}.

Definition validate_decision_input (input : MemoryCandidateDecisionInput)
    : result MemoryWiringContractError unit :=
  reject_if (is_empty (trim (input_project_id input)))
    (WiringInvalidField (lit "project_id") (lit "must be nonblank")) ;;
  reject_if (is_empty (trim (actor_id (input_actor input))))
    (WiringInvalidField (lit "actor.id") (lit "must be nonblank")) ;;
  validate_decision_kind (input_decision input).

Record MemoryCandidateDecision := {
  decided_request_id : rstring;
  decided_candidate_id : rstring;
  decided_decision : MemoryCandidateDecisionKind;
  decided_actor : GovernedActor;
  decided_authentication : OperatorAuthentication;
  decided_at : rstring;
  decided_based_on_ledger_revision : Z;
  decided_resulting_ledger_revision : Z;
  decided_record_id : option rstring
}.
#[export] Instance MemoryCandidateDecision_eq_dec : EqDecision MemoryCandidateDecision.
Proof. solve_decision. Defined.

Record MemoryCandidateDecisionOutcome := {
  outcome_decision : MemoryCandidateDecision;
  outcome_candidate : AcceptedRunMemoryCandidate;
  outcome_record : option MemoryRecord;
  outcome_replayed : bool;
  outcome_projection_digest : rstring;
  outcome_retrieval_index_dirty : bool
}.
