(* ===== verification/MemoryLog.v ===== *)
(** The promoted-memory log (src/state/memory_record.rs): the append-only
    [MEMORY.jsonl], its digest chain and its committed head, the record a
    promotion derives, and the GENOME projection with its index marker.

    The log file is its text; JSON texts are the parameter [MemoryJson]. What a
    write came to is an argument: an append may land, or fail after some bytes
    and be cut back, or not be cut back. *)
From S2P Require Export MemoryContract.
Local Open Scope Z_scope.

Definition MEMORY_INDEX_SCHEMA_VERSION : Z := 1.
Definition MAX_UNCOMMITTED_TAIL_ENTRIES : Z := 1.

(** The JSON texts of the memory artifacts. *)
Class MemoryJson := {
  record_source_json : MemoryRecordSourceV1 → list Z;
  entry_source_json : Z → rstring → MemoryRecord → list Z;
  log_entry_json : MemoryLogEntry → rstring;
  parse_log_entry : rstring → result rstring MemoryLogEntry
}.

(** * Errors *)

Inductive MemoryLogError : Type :=
  | MalformedEntry (seq : Z) (message : rstring)
  | BrokenChain (seq : Z) (message : rstring)
  | Truncated (committed found : Z) (head_digest : rstring)
  | HeadMismatch (committed : Z) (expected found : rstring)
  | UncommittedTailTooLong (found : Z)
  | OrphanRecord (record_id : rstring)
  | MissingPromotedRecord (candidate_id record_id : rstring)
  | DuplicateRecord (record_id : rstring)
  | EmptyCommittedHead.

Inductive MemoryCandidateDecisionError : Type :=
  | CandidateNotFound (candidate_id : rstring)
  | LedgerRevisionConflict (expected current : Z)
  | DecisionPayloadConflict (request_id : rstring)
  | AlreadyDecided (candidate_id status : rstring)
  | SupersededCandidate (candidate_id : rstring)
  | InterruptedDecision (request_id : rstring)
  | ForeignUncommittedTail (request_id candidate_id : rstring) (committed_entries : Z)
  | DecisionProjectMismatch (expected actual : rstring).

(** [anyhow::Error] of the memory operations. *)
Inductive MemoryError : Type :=
  | MemoryContractFailure (error : MemoryCandidateContractError)
  | MemoryWiringFailure (error : MemoryWiringContractError)
  | MemoryLogFailure (error : MemoryLogError)
  | MemoryDecisionFailure (error : MemoryCandidateDecisionError)
  | GovernedFailure (error : AnyError)
  | MemoryMessage (message : rstring)
  | MemoryContext (context : rstring) (source : MemoryError)
  | MemoryPanicked.

Abbreviation memory_result := (result MemoryError).

Definition memory_context {A} (context : rstring) (m : memory_result A) : memory_result A :=
  map_err (MemoryContext context) m.
Definition log_error {A} (e : MemoryLogError) : memory_result A := Err (MemoryLogFailure e).
Definition log_error_if (c : bool) (e : MemoryLogError) : memory_result unit :=
  reject_if c (MemoryLogFailure e).

(** * The log and its heads *)

Record MemoryLogHead := { head_entry_count : Z; head_digest : rstring }.
#[export] Instance MemoryLogHead_eq_dec : EqDecision MemoryLogHead.
Proof. solve_decision. Defined.

Inductive LedgerOrigin : Type := Local | Absent.
#[export] Instance LedgerOrigin_eq_dec : EqDecision LedgerOrigin.
Proof. solve_decision. Defined.

Record MemoryLog := {
  committed : list MemoryLogEntry;
  uncommitted_tail : list MemoryLogEntry
}.
#[export] Instance MemoryLog_eq_dec : EqDecision MemoryLog.
Proof. solve_decision. Defined.
Definition log_default : MemoryLog := {| committed := []; uncommitted_tail := [] |}.

(** [uncommitted_tail.last().or_else(|| committed.last())]. *)
Definition last_entry (log : MemoryLog) : option MemoryLogEntry :=
  match last (uncommitted_tail log) with
  | Some entry => Some entry
  | None => last (committed log)
  end.

Definition full_head (log : MemoryLog) : option MemoryLogHead :=
  entry ← last_entry log ;
  Some {| head_entry_count := zlen (committed log) + zlen (uncommitted_tail log);
          head_digest := entry_digest entry |}.

Definition log_head (log : MemoryLog) : option MemoryLogHead :=
  entry ← last (committed log) ;
  Some {| head_entry_count := zlen (committed log); head_digest := entry_digest entry |}.

Definition next_previous_digest (log : MemoryLog) : rstring :=
  default MEMORY_LOG_GENESIS_DIGEST (entry_digest <$> last_entry log).

Definition next_seq (log : MemoryLog) : Z := zlen (committed log) + zlen (uncommitted_tail log).

Definition committed_record (log : MemoryLog) (record_id : rstring) : option MemoryRecord :=
  List.find (λ record, bool_decide (mem_id record = record_id)) (entry_record <$> committed log).

Definition projected_records (log : MemoryLog) : list MemoryRecord :=
  let superseded := omap (λ entry, mem_superseded_by (entry_record entry)) (committed log) in
  filter (λ record, mem_id record ∉ superseded) (entry_record <$> committed log).

(** [self.committed.append(&mut self.uncommitted_tail)]. *)
Definition commit_tail (log : MemoryLog) : MemoryLog :=
  {| committed := committed log ++ uncommitted_tail log; uncommitted_tail := [] |}.

(** [uncommitted_tail.push(entry)]. *)
Definition push_tail (entry : MemoryLogEntry) (log : MemoryLog) : MemoryLog :=
  {| committed := committed log; uncommitted_tail := uncommitted_tail log ++ [entry] |}.

Section log.
Context `{Host, MemoryJson}.

Definition seal_digest (seq : Z) (previous_digest : rstring) (record : MemoryRecord) : rstring :=
  MEMORY_LOG_DIGEST_PREFIX ++ sha256_hex (entry_source_json seq previous_digest record).

(** * Verification of a record's identity *)

Inductive RecordIdentityError : Type :=
  | InvalidRecord (error : MemoryCandidateContractError)
  | IdentityMismatch (record_id : rstring).

(** [Display] and the [anyhow] error of it. *)
Definition show_identity_error (e : RecordIdentityError) : rstring :=
  match e with
  | InvalidRecord _ => lit "Invalid promoted memory record"
  | IdentityMismatch record_id =>
      lit "memory record `" ++ record_id
        ++ lit "` id/digest do not match its own content digest"
  end.
Definition identity_failure (e : RecordIdentityError) : MemoryError :=
  match e with
  | InvalidRecord error => MemoryContext (show_identity_error e) (MemoryContractFailure error)
  | IdentityMismatch _ => MemoryMessage (show_identity_error e)
  end.

Definition verify_record_identity (record : MemoryRecord) : result RecordIdentityError unit :=
  map_err InvalidRecord (validate_record record) ;;
  let hex := sha256_hex (record_source_json (recompute_identity_source record)) in
  reject_if (bool_decide (mem_id record ≠ MEMORY_RECORD_ID_PREFIX ++ hex)
             || bool_decide (mem_digest record ≠ MEMORY_RECORD_DIGEST_PREFIX ++ hex))
    (IdentityMismatch (mem_id record)).

(** * Loading *)

(** Blank lines are skipped; [index] counts lines. *)
Fixpoint parse_log_lines (index : Z) (lines : list rstring) : memory_result (list MemoryLogEntry) :=
  match lines with
  | [] => Ok []
  | line :: lines =>
      if is_empty (trim line) then parse_log_lines (index + 1) lines
      else
        entry ← map_err (λ message, MemoryLogFailure (MalformedEntry index message))
                  (parse_log_entry line) ;
        entries ← parse_log_lines (index + 1) lines ;
        Ok (entry :: entries)
  end.

(** One link: position, predecessor, record, and the digest over all three. *)
Definition verify_entry (seq : Z) (previous_digest : rstring) (entry : MemoryLogEntry)
    : memory_result unit :=
  map_err (λ e, MemoryLogFailure (BrokenChain seq (show_memory_contract_error e)))
    (verify_links entry seq previous_digest) ;;
  map_err (λ e, MemoryLogFailure (BrokenChain seq (show_identity_error e)))
    (verify_record_identity (entry_record entry)) ;;
  log_error_if
    (bool_decide (entry_digest entry ≠ seal_digest seq previous_digest (entry_record entry)))
    (BrokenChain seq (lit "entry digest does not cover its own content")).

Fixpoint verify_chain (seq : Z) (previous_digest : rstring) (entries : list MemoryLogEntry)
    : memory_result unit :=
  match entries with
  | [] => Ok tt
  | entry :: entries =>
      verify_entry seq previous_digest entry ;;
      verify_chain (seq + 1) (entry_digest entry) entries
  end.

(** How many of the entries the ledger commits. *)
Definition committed_count (entries : list MemoryLogEntry) (committed_head : option MemoryLogHead)
    (origin : LedgerOrigin) : memory_result Z :=
  match committed_head with
  | Some head =>
      log_error_if (head_entry_count head =? 0) EmptyCommittedHead ;;
      let found := zlen entries in
      log_error_if (found <? head_entry_count head)
        (Truncated (head_entry_count head) found (head_digest head)) ;;
      entry ← ok_or (entries !! Z.to_nat (head_entry_count head - 1)) MemoryPanicked ;
      log_error_if (bool_decide (entry_digest entry ≠ head_digest head))
        (HeadMismatch (head_entry_count head) (head_digest head) (entry_digest entry)) ;;
      Ok (head_entry_count head)
  | None => Ok (match origin with Local => 0 | Absent => zlen entries end)
  end.

(** [BTreeSet::insert] of every record id. *)
Fixpoint reject_duplicates (seen : gset rstring) (entries : list MemoryLogEntry)
    : memory_result unit :=
  match entries with
  | [] => Ok tt
  | entry :: entries =>
      let id := mem_id (entry_record entry) in
      log_error_if (bool_decide (id ∈ seen)) (DuplicateRecord id) ;;
      reject_duplicates ({[id]} ∪ seen) entries
  end.

(** [MemoryLog::load]; [file] is the text of [MEMORY.jsonl], if it exists. *)
Definition load_log (file : option rstring) (committed_head : option MemoryLogHead)
    (origin : LedgerOrigin) : memory_result MemoryLog :=
  entries ← match file with
            | Some raw => parse_log_lines 0 (str_lines raw)
            | None => Ok []
            end ;
  verify_chain 0 MEMORY_LOG_GENESIS_DIGEST entries ;;
  count ← committed_count entries committed_head origin ;
  let log := {| committed := take (Z.to_nat count) entries;
                uncommitted_tail := drop (Z.to_nat count) entries |} in
  log_error_if (MAX_UNCOMMITTED_TAIL_ENTRIES <? zlen (uncommitted_tail log))
    (UncommittedTailTooLong (zlen (uncommitted_tail log))) ;;
  reject_duplicates ∅ (committed log ++ uncommitted_tail log) ;;
  Ok log.

(** * The statuses against the log *)

Fixpoint claimed_records (log : MemoryLog) (candidates : list AcceptedRunMemoryCandidate)
    : memory_result (list rstring) :=
  match candidates with
  | [] => Ok []
  | candidate :: candidates =>
      match promoted_record_id (cand_status candidate) with
      | None => claimed_records log candidates
      | Some record_id =>
          log_error_if (bool_decide (committed_record log record_id = None))
            (MissingPromotedRecord (cand_id candidate) record_id) ;;
          claimed ← claimed_records log candidates ;
          Ok (record_id :: claimed)
      end
  end.

Definition cross_check_statuses (log : MemoryLog) (candidates : list AcceptedRunMemoryCandidate)
    (parked : gmap rstring MemoryCandidateStatus) (check_orphans : bool) : memory_result unit :=
  claimed ← claimed_records log candidates ;
  let claimed :=
    claimed ++ omap (λ entry, promoted_record_id entry.2) (btree_items str_leb parked) in
  if negb check_orphans then Ok tt
  else for_each (λ entry,
    log_error_if (bool_decide (mem_id (entry_record entry) ∉ claimed))
      (OrphanRecord (mem_id (entry_record entry)))) (committed log).

Definition unreattached_parked_claims (log : MemoryLog)
    (parked : gmap rstring MemoryCandidateStatus) : list (rstring * rstring) :=
  omap (λ entry : rstring * MemoryCandidateStatus,
      record_id ← promoted_record_id entry.2 ;
      _ ← committed_record log record_id ;
      Some (entry.1, record_id)) (btree_items str_leb parked).

(** * Appending *)

(** What became of the write: it landed, or [torn] bytes of it did and the file
    was cut back to its length before, or not. *)
Inductive AppendWrite : Type :=
  | AppendLanded
  | AppendFailed (torn : rstring) (cut : bool).

(** [append_jsonl]: a line of its own, whatever the file ends with. *)
Definition append_line (file : option rstring) (line : rstring) : rstring :=
  let text := default [] file in
  text ++ (match last text with
           | Some c => if c =? 10 then [] else [10]
           | None => []
           end) ++ line ++ [10].

Definition failed_file (file : option rstring) (torn : rstring) (cut : bool) : option rstring :=
  if is_empty torn then file
  else if cut then Some (default [] file)
  else Some (default [] file ++ torn).

Definition sealed_entry (log : MemoryLog) (record : MemoryRecord) : MemoryLogEntry :=
  {| entry_seq := next_seq log;
     entry_previous_digest := next_previous_digest log;
     entry_record := record;
     entry_digest := seal_digest (next_seq log) (next_previous_digest log) record |}.

Definition append_with (log : MemoryLog) (file : option rstring) (record : MemoryRecord)
    (write : AppendWrite) : memory_result MemoryLogEntry * MemoryLog * option rstring :=
  let entry := sealed_entry log record in
  match write with
  | AppendLanded =>
      (Ok entry, push_tail entry log, Some (append_line file (log_entry_json entry)))
  | AppendFailed torn cut =>
      (Err (MemoryContext (lit "Failed to append to the promoted memory log")
              (MemoryMessage (lit "write failed"))), log, failed_file file torn cut)
  end.

(** * The record a promotion derives *)

Definition render_record_body (c : AcceptedRunMemoryCandidate) : rstring :=
  cand_proposed_summary c ++ [10; 10] ++ lit "Acceptance criteria:" ++ [10]
  ++ concat ((λ criterion, lit "- " ++ criterion ++ [10]) <$> cand_acceptance_criteria c)
  ++ [10] ++ lit "Verified subject: " ++ cand_subject_revision c
  ++ [10] ++ lit "Verification policy: " ++ cand_verification_policy c
  ++ [10] ++ lit "Governed task: " ++ cand_governed_task_id c ++ [10].

Definition derive_promoted_record (candidate : AcceptedRunMemoryCandidate) (request_id : rstring)
    (based_on_ledger_revision : Z) (valid_from : rstring) : memory_result MemoryRecord :=
  let source :=
    CandidateRef (cand_id candidate) (cand_source_digest candidate)
      (cand_governed_task_id candidate) in
  let title := cand_task candidate in
  let body := render_record_body candidate in
  let hex :=
    sha256_hex (record_source_json
      (identity_source AcceptedRunOutcome ProjectScope (cand_project_id candidate) source
         request_id based_on_ledger_revision title body)) in
  id ← memory_context (lit "Failed to build memory record id")
         (map_err MemoryContractFailure (memory_id_try_new (MEMORY_RECORD_ID_PREFIX ++ hex))) ;
  let record :=
    {| mem_id := id;
       mem_schema_version := MEMORY_RECORD_SCHEMA_VERSION;
       mem_kind := AcceptedRunOutcome;
       mem_scope := ProjectScope;
       mem_project_id := cand_project_id candidate;
       mem_source := source;
       mem_request_id := request_id;
       mem_based_on_ledger_revision := based_on_ledger_revision;
       mem_title := title;
       mem_body := body;
       mem_valid_from := valid_from;
       mem_superseded_by := None;
       mem_digest := MEMORY_RECORD_DIGEST_PREFIX ++ hex |} in
  map_err identity_failure (verify_record_identity record) ;;
  Ok record.

(** * The projection *)

(** [str::split_whitespace]: the maximal runs without whitespace. *)
Fixpoint split_whitespace_from (word : rstring) (s : rstring) : list rstring :=
  match s with
  | [] => if is_empty word then [] else [reverse word]
  | c :: s =>
      if char_is_whitespace c
      then (if is_empty word then [] else [reverse word]) ++ split_whitespace_from [] s
      else split_whitespace_from (c :: word) s
  end.
Definition split_whitespace (s : rstring) : list rstring := split_whitespace_from [] s.

(** ['#'], ['-'], ['>'], ['*'], ['+'], ['='] and ['|']. *)
Definition is_structural (c : Z) : bool :=
  bool_decide (c ∈ [35; 45; 62; 42; 43; 61; 124]).

Definition projection_inline (value : rstring) : rstring :=
  let collapsed := join_with (lit " ") (split_whitespace value) in
  match collapsed with
  | c :: _ => if is_structural c then 92 :: collapsed else collapsed
  | [] => collapsed
  end.

Definition backtick : Z := 96.

(** The loop of [projection_fence]: the longest run of backticks so far. *)
Fixpoint longest_backticks (longest current : Z) (body : rstring) : Z :=
  match body with
  | [] => longest
  | c :: body =>
      if c =? backtick then longest_backticks (Z.max longest (current + 1)) (current + 1) body
      else longest_backticks longest 0 body
  end.

Definition projection_fence (body : rstring) : rstring :=
  replicate (Z.to_nat (Z.max (longest_backticks 0 0 body) 2 + 1)) backtick.

(** [str::trim_end]. *)
Definition trim_end (s : rstring) : rstring :=
  reverse (drop_while char_is_whitespace (reverse s)).

Definition render_source (source : MemorySource) : rstring :=
  match source with
  | CandidateRef candidate_id candidate_source_digest governed_task_id =>
      lit "- source: candidate " ++ candidate_id ++ lit " (" ++ candidate_source_digest
        ++ lit ") from governed task " ++ governed_task_id ++ [10]
  | OperatorManual note =>
      lit "- source: operator manual " ++ [8212] ++ lit " " ++ projection_inline note ++ [10]
  end.

Definition render_record (record : MemoryRecord) : rstring :=
  let fence := projection_fence (mem_body record) in
  [10] ++ lit "## " ++ mem_id record ++ [10; 10]
  ++ lit "- scope: " ++ scope_label (mem_scope record) ++ [10]
  ++ lit "- kind: " ++ kind_label (mem_kind record) ++ [10]
  ++ lit "- valid_from: " ++ mem_valid_from record ++ [10]
  ++ render_source (mem_source record)
  ++ lit "- digest: " ++ mem_digest record ++ [10]
  ++ [10] ++ lit "### " ++ projection_inline (mem_title record) ++ [10; 10]
  ++ fence ++ [10] ++ trim_end (mem_body record) ++ [10] ++ fence ++ [10].

Definition projection_header : rstring :=
  lit "# Impulse Memory Projection" ++ [10; 10]
  ++ lit "<!-- generated: do not edit; regenerated from .impulse/MEMORY.jsonl -->" ++ [10; 10]
  ++ lit "*Promoted project memory. The raw candidate ledger and the promoted-record log are separate artifacts; this file is a projection of the log and is never a source of truth.*"
  ++ [10].

Definition render_projection (records : list MemoryRecord) : rstring :=
  projection_header
  ++ match records with
     | [] => [10] ++ lit "No promoted memory records." ++ [10]
     | _ => concat (render_record <$> records)
     end.

Definition projection_digest (rendered : rstring) : rstring :=
  lit "sha256-proj-v1:" ++ sha256_hex (bytes rendered).

(** ** The marker of the retrieval index *)

Record MemoryIndexMarker := {
  marker_schema_version : Z;
  marker_projection_digest : rstring;
  marker_indexed_digest : option rstring;
  marker_marked_at : rstring
}.
#[export] Instance MemoryIndexMarker_eq_dec : EqDecision MemoryIndexMarker.
Proof. solve_decision. Defined.

Definition is_dirty (marker : MemoryIndexMarker) : bool :=
  bool_decide (marker_indexed_digest marker ≠ Some (marker_projection_digest marker)).

(** [read_index_marker(..)?.map(|marker| marker.is_dirty()).unwrap_or(false)]. *)
Definition index_is_dirty (marker : option MemoryIndexMarker) : bool :=
  match marker with Some marker => is_dirty marker | None => false end.

(** The two files a projection write touches. *)
Record ProjectionFiles := {
  file_projection : option rstring;
  file_marker : option MemoryIndexMarker
}.

Definition next_indexed_digest (previous : option MemoryIndexMarker) (digest : rstring)
    (records : list MemoryRecord) (mark_index_dirty : bool) : option rstring :=
  if mark_index_dirty then None
  else match records with
       | [] => Some digest
       | _ =>
           marker ← previous ;
           if bool_decide (marker_projection_digest marker = digest)
           then marker_indexed_digest marker else None
       end.

Definition marker_unchanged (previous : option MemoryIndexMarker) (marker : MemoryIndexMarker)
    : bool :=
  match previous with
  | Some existing =>
      (marker_schema_version existing =? marker_schema_version marker)
      && bool_decide (marker_projection_digest existing = marker_projection_digest marker)
      && bool_decide (marker_indexed_digest existing = marker_indexed_digest marker)
  | None => false
  end.

(** [write_projection]; [writes] says whether the projection and the marker
    could be written. *)
Definition write_projection (files : ProjectionFiles) (records : list MemoryRecord)
    (now : rstring) (mark_index_dirty : bool) (writes : bool * bool)
    : memory_result (rstring * bool) * ProjectionFiles :=
  let rendered := render_projection records in
  let digest := projection_digest rendered in
  let changed := bool_decide (file_projection files ≠ Some rendered) in
  if changed && negb writes.1 then
    (Err (MemoryContext (lit "Failed to write the GENOME projection")
            (MemoryMessage (lit "write failed"))), files)
  else
    let files := {| file_projection := Some rendered; file_marker := file_marker files |} in
    let marker :=
      {| marker_schema_version := MEMORY_INDEX_SCHEMA_VERSION;
         marker_projection_digest := digest;
         marker_indexed_digest :=
           next_indexed_digest (file_marker files) digest records mark_index_dirty;
         marker_marked_at := now |} in
    if marker_unchanged (file_marker files) marker then (Ok (digest, is_dirty marker), files)
    else if writes.2 then
      (Ok (digest, is_dirty marker),
       {| file_projection := file_projection files; file_marker := Some marker |})
    else
      (Err (MemoryContext (lit "Failed to write the memory retrieval index marker")
              (MemoryMessage (lit "write failed"))), files).

(** [stamp_indexed]. *)
Definition stamp_indexed (digest now : rstring) : MemoryIndexMarker :=
  {| marker_schema_version := MEMORY_INDEX_SCHEMA_VERSION;
     marker_projection_digest := digest;
     marker_indexed_digest := Some digest;
     marker_marked_at := now |}.

(** [carry_status_forward]. *)
Definition carry_status_forward (stored : MemoryCandidateStatus)
    (rederived : AcceptedRunMemoryCandidate) : AcceptedRunMemoryCandidate :=
  if is_pending stored then rederived else set_status stored rederived.
End log.
