(* ===== verification/MemoryCandidate.v ===== *)
(** The review queue of accepted runs (src/state/memory_candidate.rs): the
    candidate an accepted run derives, the ledger of candidates with its
    derivation migration and reconciliation, and the decision that promotes a
    candidate into the memory log or dismisses it.

    [MEMORY_CANDIDATES.json] is the ledger value it holds. The storage lock
    serialises the operations; each works on what is on disk, as the source
    re-reads it under the lock, and takes the outcome of its writes. *)
From S2P Require Export Ledger MemoryLog.
Local Open Scope Z_scope.

Definition MEMORY_CANDIDATES_LEDGER_SCHEMA_VERSION : Z := 2.
Definition MEMORY_CANDIDATES_LEDGER_MIN_SUPPORTED_SCHEMA_VERSION : Z := 1.

(** * The ledger *)

Record MemoryCandidateLedger := {
  ml_schema_version : Z;
  ml_revision : Z;
  ml_candidates : gmap rstring AcceptedRunMemoryCandidate;
  ml_pending_status_migrations : gmap rstring MemoryCandidateStatus;
  ml_memory_log_head : option MemoryLogHead;
  ml_processed_decisions : gmap rstring MemoryCandidateDecision
}.
#[export] Instance MemoryCandidateLedger_eq_dec : EqDecision MemoryCandidateLedger.
Proof. solve_decision. Defined.

Definition candidates_default : MemoryCandidateLedger :=
  {| ml_schema_version := MEMORY_CANDIDATES_LEDGER_SCHEMA_VERSION; ml_revision := 0;
     ml_candidates := ∅; ml_pending_status_migrations := ∅; ml_memory_log_head := None;
     ml_processed_decisions := ∅ |}.

Definition ml_set_candidates (m : gmap rstring AcceptedRunMemoryCandidate)
    (l : MemoryCandidateLedger) : MemoryCandidateLedger :=
  {| ml_schema_version := ml_schema_version l; ml_revision := ml_revision l; ml_candidates := m;
     ml_pending_status_migrations := ml_pending_status_migrations l;
     ml_memory_log_head := ml_memory_log_head l;
     ml_processed_decisions := ml_processed_decisions l |}.
Definition ml_set_parked (m : gmap rstring MemoryCandidateStatus) (l : MemoryCandidateLedger)
    : MemoryCandidateLedger :=
  {| ml_schema_version := ml_schema_version l; ml_revision := ml_revision l;
     ml_candidates := ml_candidates l; ml_pending_status_migrations := m;
     ml_memory_log_head := ml_memory_log_head l;
     ml_processed_decisions := ml_processed_decisions l |}.
Definition ml_set_head (head : option MemoryLogHead) (l : MemoryCandidateLedger)
    : MemoryCandidateLedger :=
  {| ml_schema_version := ml_schema_version l; ml_revision := ml_revision l;
     ml_candidates := ml_candidates l;
     ml_pending_status_migrations := ml_pending_status_migrations l; ml_memory_log_head := head;
     ml_processed_decisions := ml_processed_decisions l |}.

(** [candidates.values()]. *)
Definition candidate_values (l : MemoryCandidateLedger) : list AcceptedRunMemoryCandidate :=
  (btree_items str_leb (ml_candidates l)).*2.

(** ** Migration of superseded derivations *)

Definition is_stale (c : AcceptedRunMemoryCandidate) : bool :=
  negb (cand_derivation_version c =? ACCEPTED_RUN_MEMORY_DERIVATION_VERSION).

(** One stale candidate leaves the queue; its decision, if any, is parked under
    its governed task. *)
Definition migrate_one (l : MemoryCandidateLedger)
    (entry : rstring * AcceptedRunMemoryCandidate) : MemoryCandidateLedger :=
  let l := ml_set_candidates (delete entry.1 (ml_candidates l)) l in
  if is_pending (cand_status entry.2) then l
  else ml_set_parked
         (<[cand_governed_task_id entry.2 := cand_status entry.2]>
            (ml_pending_status_migrations l)) l.

Definition migrate_superseded_derivations (l : MemoryCandidateLedger) : MemoryCandidateLedger :=
  foldl migrate_one l
    (filter (λ entry, is_stale entry.2 = true) (btree_items str_leb (ml_candidates l))).

Section candidates.
Context `{Host, MemoryJson}.

(** ** Loading *)

(** The loop of [validate_shape] over the candidates. *)
Fixpoint validate_candidate_entries (task_ids : gset rstring)
    (entries : list (rstring * AcceptedRunMemoryCandidate)) : memory_result unit :=
  match entries with
  | [] => Ok tt
  | (candidate_id, candidate) :: entries =>
      reject_if (bool_decide (candidate_id ≠ cand_id candidate))
        (MemoryMessage (lit "memory candidate ledger key `" ++ candidate_id
           ++ lit "` does not match record id `" ++ cand_id candidate ++ lit "`")) ;;
      memory_context (lit "Invalid memory candidate `" ++ candidate_id ++ lit "`")
        (map_err MemoryContractFailure (validate_candidate candidate)) ;;
      reject_if (bool_decide (cand_governed_task_id candidate ∈ task_ids))
        (MemoryMessage (lit "governed task `" ++ cand_governed_task_id candidate
           ++ lit "` has more than one accepted-run memory candidate")) ;;
      validate_candidate_entries ({[cand_governed_task_id candidate]} ∪ task_ids) entries
  end.

Definition validate_candidate_ledger (l : MemoryCandidateLedger) : memory_result unit :=
  reject_if ((ml_schema_version l <? MEMORY_CANDIDATES_LEDGER_MIN_SUPPORTED_SCHEMA_VERSION)
             || (MEMORY_CANDIDATES_LEDGER_SCHEMA_VERSION <? ml_schema_version l))
    (MemoryMessage (lit "Unsupported memory candidate ledger schema version "
       ++ show_Z (ml_schema_version l))) ;;
  validate_candidate_entries ∅ (btree_items str_leb (ml_candidates l)).

(** [MemoryCandidateLedger::load] of the file's value, if the file exists. *)
Definition load_candidate_ledger (file : option MemoryCandidateLedger)
    : memory_result MemoryCandidateLedger :=
  let ledger := migrate_superseded_derivations (default candidates_default file) in
  validate_candidate_ledger ledger ;;
  Ok ledger.

(** [load_memory_candidate_ledger]: the ledger, and whether its file existed. *)
Definition load_memory_candidate_ledger (file : option MemoryCandidateLedger)
    : memory_result (MemoryCandidateLedger * LedgerOrigin) :=
  ledger ← load_candidate_ledger file ;
  Ok (ledger, match file with Some _ => Local | None => Absent end).
End candidates.

(** * The candidate an accepted run derives *)

Record CandidateSourceV1 := {
  cs_derivation_version : Z;
  cs_project_id : rstring;
  cs_workspace_root : rstring;
  cs_governed_task_id : rstring;
  cs_accepted_task_revision : Z;
  cs_task : rstring;
  cs_acceptance_criteria : list rstring;
  cs_runtime_id : rstring;
  cs_agent_id : rstring;
  cs_session_id : option rstring;
  cs_verification_profile : option GovernedVerificationProfile;
  cs_verification_policy : rstring;
  cs_subject_revision : rstring;
  cs_claim_id : rstring;
  cs_verification_id : rstring;
  cs_supervisor_verdict_id : rstring;
  cs_operator_decision_id : rstring;
  cs_claimed_artifact_ids : list rstring;
  cs_verification_artifact_ids : list rstring;
  cs_commands : list AcceptedRunCommandEvidence;
  cs_source_assurance : AcceptedRunSourceAssurance;
  cs_staged_at : rstring
}.

(** Its JSON bytes. *)
Class CandidateJson := candidate_source_json : CandidateSourceV1 → list Z.

Definition command_evidence (command : GovernedCommandEvidence) : AcceptedRunCommandEvidence :=
  {| evidence_name := command_name command;
     evidence_command_digest := command_command_digest command;
     evidence_output_digest := command_output_digest command;
     evidence_exit_code := command_exit_code command;
     evidence_success := command_success command;
     evidence_output_bytes := command_output_bytes command;
     evidence_output_truncated := command_output_truncated command |}.

Definition source_assurance_of (profiled authenticated : bool) : AcceptedRunSourceAssurance :=
  match profiled, authenticated with
  | true, true => DaemonProfiledEvidenceAuthenticatedOperator
  | true, false => DaemonProfiledEvidenceDeclaredOperator
  | false, _ => CallerComposedEvidenceDeclaredOperator
  end.

Definition proposed_summary (assurance : AcceptedRunSourceAssurance) (task : rstring) : rstring :=
  lit "Accepted governed outcome for task: " ++ task ++
  match assurance with
  | DaemonProfiledEvidenceAuthenticatedOperator =>
      lit ". Daemon-profiled evidence passed and an authenticated operator approved it; pending semantic-memory review."
  | DaemonProfiledEvidenceDeclaredOperator =>
      lit ". Daemon-profiled evidence passed; pending semantic-memory review."
  | CallerComposedEvidenceDeclaredOperator =>
      lit ". Caller-composed evidence passed; pending semantic-memory review."
  end.

(** The records an acceptance rests on, and the revision it landed on. *)
Record AcceptedEvidence := {
  ae_claim : WorkerCompletionClaim;
  ae_verification : GovernedVerification;
  ae_supervisor : SupervisorVerdict;
  ae_operator : OperatorDecision;
  ae_revision : Z
}.

Definition accepted_evidence (task : GovernedTaskRun) : memory_result AcceptedEvidence :=
  reject_if (bool_decide (run_review_state task ≠ Accepted))
    (MemoryMessage (lit "governed task `" ++ run_id task
       ++ lit "` is not eligible for a memory candidate")) ;;
  claim ← ok_or (latest_claim task)
    (MemoryMessage (lit "accepted governed task has no current worker claim")) ;
  verification ← ok_or (latest_verification task)
    (MemoryMessage (lit "accepted governed task has no current verification")) ;
  supervisor ← ok_or (latest_supervisor_verdict task)
    (MemoryMessage (lit "accepted governed task has no current Supervisor verdict")) ;
  operator ← ok_or (last (run_operator_decisions task))
    (MemoryMessage (lit "accepted governed task has no current operator decision")) ;
  accepted_task_revision ← ok_or (u64_checked_add (decision_based_on_revision operator) 1)
    (MemoryMessage (lit "accepted governed task operator decision revision exhausted u64")) ;
  reject_if
    (bool_decide (verification_outcome verification ≠ Passed)
     || bool_decide (verification_claim_id verification ≠ claim_id claim)
     || bool_decide (verification_subject_revision verification ≠ claim_subject_revision claim)
     || bool_decide (verdict_verdict supervisor ≠ RecommendAccept)
     || bool_decide (verdict_verification_id supervisor ≠ verification_id verification)
     || bool_decide (decision_decision operator ≠ Approve)
     || bool_decide (decision_supervisor_verdict_id operator ≠ verdict_id supervisor)
     || (run_revision task <? accepted_task_revision))
    (MemoryMessage (lit "accepted governed task `" ++ run_id task
       ++ lit "` has an incoherent candidate evidence chain")) ;;
  Ok {| ae_claim := claim; ae_verification := verification; ae_supervisor := supervisor;
        ae_operator := operator; ae_revision := accepted_task_revision |}.

Definition evidence_commands (e : AcceptedEvidence) : list AcceptedRunCommandEvidence :=
  command_evidence <$> verification_commands (ae_verification e).

Definition evidence_assurance (task : GovernedTaskRun) (e : AcceptedEvidence)
    : AcceptedRunSourceAssurance :=
  source_assurance_of (bool_decide (run_verification_profile task ≠ None))
    (bool_decide (decision_authentication (ae_operator e) = CapabilityAuthenticated)).

Definition candidate_source (task : GovernedTaskRun) (e : AcceptedEvidence) : CandidateSourceV1 :=
  {| cs_derivation_version := ACCEPTED_RUN_MEMORY_DERIVATION_VERSION;
     cs_project_id := run_project_id task;
     cs_workspace_root := run_workspace_root task;
     cs_governed_task_id := run_id task;
     cs_accepted_task_revision := ae_revision e;
     cs_task := run_task task;
     cs_acceptance_criteria := run_acceptance_criteria task;
     cs_runtime_id := run_runtime_id task;
     cs_agent_id := run_agent_id task;
     cs_session_id := run_session_id task;
     cs_verification_profile := run_verification_profile task;
     cs_verification_policy := verification_policy (ae_verification e);
     cs_subject_revision := verification_subject_revision (ae_verification e);
     cs_claim_id := claim_id (ae_claim e);
     cs_verification_id := verification_id (ae_verification e);
     cs_supervisor_verdict_id := verdict_id (ae_supervisor e);
     cs_operator_decision_id := decision_id (ae_operator e);
     cs_claimed_artifact_ids := claim_artifact_ids (ae_claim e);
     cs_verification_artifact_ids := verification_artifact_ids (ae_verification e);
     cs_commands := evidence_commands e;
     cs_source_assurance := evidence_assurance task e;
     cs_staged_at := decision_decided_at (ae_operator e) |}.

(** The candidate of a source and the digest of its bytes. *)
Definition candidate_of_source (source : CandidateSourceV1) (source_hex : rstring)
    : AcceptedRunMemoryCandidate :=
  {| cand_id := lit "memory-candidate-" ++ source_hex;
     cand_schema_version := ACCEPTED_RUN_MEMORY_CANDIDATE_SCHEMA_VERSION;
     cand_derivation_version := ACCEPTED_RUN_MEMORY_DERIVATION_VERSION;
     cand_status := PendingReview;
     cand_project_id := cs_project_id source;
     cand_workspace_root := cs_workspace_root source;
     cand_governed_task_id := cs_governed_task_id source;
     cand_accepted_task_revision := cs_accepted_task_revision source;
     cand_task := cs_task source;
     cand_acceptance_criteria := cs_acceptance_criteria source;
     cand_proposed_summary := proposed_summary (cs_source_assurance source) (cs_task source);
     cand_runtime_id := cs_runtime_id source;
     cand_agent_id := cs_agent_id source;
     cand_session_id := cs_session_id source;
     cand_verification_profile := cs_verification_profile source;
     cand_verification_policy := cs_verification_policy source;
     cand_subject_revision := cs_subject_revision source;
     cand_claim_id := cs_claim_id source;
     cand_verification_id := cs_verification_id source;
     cand_supervisor_verdict_id := cs_supervisor_verdict_id source;
     cand_operator_decision_id := cs_operator_decision_id source;
     cand_claimed_artifact_ids := cs_claimed_artifact_ids source;
     cand_verification_artifact_ids := cs_verification_artifact_ids source;
     cand_commands := cs_commands source;
     cand_source_assurance := cs_source_assurance source;
     cand_source_digest := lit "sha256-v1:" ++ source_hex;
     cand_staged_at := cs_staged_at source |}.

Section derivation.
Context `{Host, CandidateJson}.

Definition derive_accepted_run_memory_candidate (task : GovernedTaskRun)
    : memory_result AcceptedRunMemoryCandidate :=
  evidence ← accepted_evidence task ;
  let source := candidate_source task evidence in
  let source_hex := sha256_hex (candidate_source_json source) in
  map_err MemoryContractFailure (memory_id_try_new (lit "memory-candidate-" ++ source_hex)) ;;
  let candidate := candidate_of_source source source_hex in
  map_err MemoryContractFailure (validate_candidate candidate) ;;
  Ok candidate.

(** [map(derive).collect::<Result<Vec<_>>>()]. *)
Fixpoint derive_all (tasks : list GovernedTaskRun)
    : memory_result (list AcceptedRunMemoryCandidate) :=
  match tasks with
  | [] => Ok []
  | task :: tasks =>
      candidate ← derive_accepted_run_memory_candidate task ;
      candidates ← derive_all tasks ;
      Ok (candidate :: candidates)
  end.

Definition expected_accepted_run_candidates (tasks : list GovernedTaskRun)
    : memory_result (gmap rstring AcceptedRunMemoryCandidate) :=
  candidates ← derive_all (filter (λ task, is_accepted task = true) tasks) ;
  Ok (foldl (λ expected candidate, <[cand_id candidate := candidate]> expected) ∅ candidates).
End derivation.

(** * Reconciliation with the accepted runs *)

Definition matches_ignoring_status (stored expected : AcceptedRunMemoryCandidate) : bool :=
  bool_decide (set_status (cand_status expected) stored = expected).

(** The check of one stored candidate. *)
Definition reconcile_stored (expected : gmap rstring AcceptedRunMemoryCandidate)
    (entry : rstring * AcceptedRunMemoryCandidate) : memory_result unit :=
  expected_candidate ← ok_or (expected !! entry.1)
    (MemoryMessage (lit "memory candidate `" ++ entry.1
       ++ lit "` is orphaned from accepted governed-task truth")) ;
  reject_if (negb (matches_ignoring_status entry.2 expected_candidate))
    (MemoryMessage (lit "memory candidate `" ++ entry.1
       ++ lit "` does not match its accepted governed-task source")).

(** One expected candidate joins the queue, with the decision parked for its
    governed task. *)
Definition reconcile_expected (repaired : MemoryCandidateLedger)
    (entry : rstring * AcceptedRunMemoryCandidate) : MemoryCandidateLedger :=
  if bool_decide (is_Some (ml_candidates repaired !! entry.1)) then repaired
  else
    let parked := ml_pending_status_migrations repaired in
    let candidate :=
      match parked !! cand_governed_task_id entry.2 with
      | Some status => carry_status_forward status entry.2
      | None => entry.2
      end in
    ml_set_candidates (<[entry.1 := candidate]> (ml_candidates repaired))
      (ml_set_parked (delete (cand_governed_task_id entry.2) parked) repaired).

Definition reconciled_candidate_ledger (ledger : MemoryCandidateLedger)
    (expected : gmap rstring AcceptedRunMemoryCandidate)
    : memory_result (option MemoryCandidateLedger) :=
  for_each (reconcile_stored expected) (btree_items str_leb (ml_candidates ledger)) ;;
  let repaired := foldl reconcile_expected ledger (btree_items str_leb expected) in
  let repaired :=
    ml_set_parked
      (filter (λ entry, is_pending entry.2 = false) (ml_pending_status_migrations repaired))
      repaired in
  Ok (if bool_decide (ml_candidates repaired ≠ ml_candidates ledger)
         || bool_decide (ml_pending_status_migrations repaired
                         ≠ ml_pending_status_migrations ledger)
      then Some repaired else None).
