(* ===== verification/MemoryState.v ===== *)
(** The operations on project memory (src/state/memory_candidate.rs, second
    part): start-up reconciliation of the review queue and of the promoted log,
    the candidate an acceptance records, the operator's decision, and the reads.

    [MemoryState] is the daemon's copy of the ledger and the log beside the files
    they come from. The storage lock serialises the operations; an operation is
    a state computation that stops at its first error, keeping what it changed
    before it, and takes the outcomes of its locks and writes as arguments. *)
From S2P Require Export MemoryCandidate.
Local Open Scope Z_scope.

(** * The state and its computations *)

Record MemoryState := {
  ms_ledger : MemoryCandidateLedger;
  ms_log : MemoryLog;
  ms_origin : LedgerOrigin;
  disk_ledger : option MemoryCandidateLedger;
  disk_log : option rstring;
  disk_projection : ProjectionFiles
}.

Definition with_ledger (l : MemoryCandidateLedger) (st : MemoryState) : MemoryState :=
  {| ms_ledger := l; ms_log := ms_log st; ms_origin := ms_origin st;
     disk_ledger := disk_ledger st; disk_log := disk_log st;
     disk_projection := disk_projection st |}.
Definition with_log (log : MemoryLog) (st : MemoryState) : MemoryState :=
  {| ms_ledger := ms_ledger st; ms_log := log; ms_origin := ms_origin st;
     disk_ledger := disk_ledger st; disk_log := disk_log st;
     disk_projection := disk_projection st |}.
Definition with_disk_ledger (l : MemoryCandidateLedger) (st : MemoryState) : MemoryState :=
  {| ms_ledger := ms_ledger st; ms_log := ms_log st; ms_origin := ms_origin st;
     disk_ledger := Some l; disk_log := disk_log st; disk_projection := disk_projection st |}.
Definition with_disk_log (file : option rstring) (st : MemoryState) : MemoryState :=
  {| ms_ledger := ms_ledger st; ms_log := ms_log st; ms_origin := ms_origin st;
     disk_ledger := disk_ledger st; disk_log := file; disk_projection := disk_projection st |}.
Definition with_projection (files : ProjectionFiles) (st : MemoryState) : MemoryState :=
  {| ms_ledger := ms_ledger st; ms_log := ms_log st; ms_origin := ms_origin st;
     disk_ledger := disk_ledger st; disk_log := disk_log st; disk_projection := files |}.

Definition memory_op (A : Type) : Type := MemoryState → memory_result A * MemoryState.
#[export] Instance memory_op_ret : MRet memory_op := λ A a st, (Ok a, st).
#[export] Instance memory_op_bind : MBind memory_op := λ A B k m st,
  match m st with
  | (Ok a, st) => k a st
  | (Err e, st) => (Err e, st)
  end.

(** A pure fallible computation, a read of the state and a change of it. *)
Definition attempt {A} (m : memory_result A) : memory_op A := λ st, (m, st).
Definition gets {A} (f : MemoryState → A) : memory_op A := λ st, (Ok (f st), st).
Definition modify (f : MemoryState → MemoryState) : memory_op unit := λ st, (Ok tt, f st).

Definition require {A} (o : option A) (message : rstring) : memory_op A :=
  attempt (ok_or o (MemoryMessage message)).

(** A lock or a write that failed. *)
Definition io (done : bool) (context : rstring) : memory_op unit :=
  attempt (memory_context context (reject_if (negb done) (MemoryMessage (lit "i/o error")))).

Section operations.
Context `{Host, MemoryJson, CandidateJson}.
Context (s : Storage) (uuids : rstring → Z → FreshIds).

Definition reload_ledger : memory_op unit :=
  file ← gets disk_ledger ;
  ledger ← attempt (load_candidate_ledger file) ;
  modify (with_ledger ledger).

Definition write_ledger (l : MemoryCandidateLedger) (written : bool) (context : rstring)
    : memory_op unit :=
  io written context ;;
  modify (with_disk_ledger l) ;;
  modify (with_ledger l).

(** [governed_tasks_on_disk]. *)
Definition governed_tasks_on_disk (file : GovernedTaskLedger)
    : memory_result (list GovernedTaskRun) :=
  map_err GovernedFailure (ledger_values <$> load_ledger s uuids file).

(** * Start-up: the review queue *)

(** [tasks] are this process's governed tasks, [file] the ledger on disk. *)
Definition reconcile_accepted_run_memory_candidates (tasks : list GovernedTaskRun)
    (file : GovernedTaskLedger) (locked written : bool) : memory_op unit :=
  expected ← attempt (expected_accepted_run_candidates tasks) ;
  ledger ← gets ms_ledger ;
  match reconciled_candidate_ledger ledger expected with
  | Ok None => mret tt
  | _ =>
      io locked (lit "Failed to lock project state to reconcile memory candidates") ;;
      current_file ← gets disk_ledger ;
      current ← attempt (load_candidate_ledger current_file) ;
      tasks ← attempt (governed_tasks_on_disk file) ;
      expected ← attempt (expected_accepted_run_candidates tasks) ;
      repair ← attempt (reconciled_candidate_ledger current expected) ;
      match repair with
      | Some repaired =>
          write_ledger repaired written
            (lit "Failed to persist reconciled accepted-run memory candidates")
      | None => modify (with_ledger current)
      end
  end.

(** * Start-up: the promoted log *)

Definition adopted_decision_actor : GovernedActor :=
  {| actor_kind := System; actor_id := lit "adopted-from-checkout" |}.

(** One committed record of a checked-out log rejoins its candidate. *)
Definition adopt_entry (repaired : MemoryCandidateLedger) (entry : MemoryLogEntry)
    : MemoryCandidateLedger :=
  let record := entry_record entry in
  match mem_source record with
  | OperatorManual _ => repaired
  | CandidateRef candidate_id _ governed_task_id =>
      let status :=
        CandidatePromoted (mem_id record) (mem_valid_from record) adopted_decision_actor in
      match ml_candidates repaired !! candidate_id with
      | Some candidate =>
          if is_pending (cand_status candidate)
          then ml_set_candidates
                 (<[candidate_id := set_status status candidate]> (ml_candidates repaired))
                 repaired
          else repaired
      | None =>
          ml_set_parked
            (<[governed_task_id := status]> (ml_pending_status_migrations repaired)) repaired
      end
  end.

(** The ledger that adopts [log], whose head is [adopted]. *)
Definition adopted_ledger (current : MemoryCandidateLedger) (log : MemoryLog)
    (adopted : MemoryLogHead) : MemoryCandidateLedger :=
  foldl adopt_entry (ml_set_head (Some adopted) current) (committed log).

Definition adopt_log (log : MemoryLog) (locked written : bool) : memory_op unit :=
  match log_head log with
  | None => mret tt
  | Some adopted =>
      io locked (lit "Failed to lock project state to adopt the memory log") ;;
      file ← gets disk_ledger ;
      current ← attempt (load_candidate_ledger file) ;
      match ml_memory_log_head current with
      | Some _ => modify (with_ledger current)
      | None =>
          write_ledger (adopted_ledger current log adopted) written
            (lit "Failed to record the adopted promoted-memory log head")
      end
  end.

(** [write_projection] on the state's files. *)
Definition project_log (log : MemoryLog) (now : rstring) (mark_index_dirty : bool)
    (writes : bool * bool) : memory_op (rstring * bool) := λ st,
  let '(answer, files) :=
    write_projection (disk_projection st) (projected_records log) now mark_index_dirty writes in
  (answer, with_projection files st).

Definition map_op_err {A} (f : MemoryError → MemoryError) (m : memory_op A) : memory_op A := λ st,
  let '(answer, st) := m st in (map_err f answer, st).

Definition reconcile_promoted_memory_log (now : rstring) (locked written : bool)
    (writes : bool * bool) : memory_op unit :=
  ledger ← gets ms_ledger ;
  origin ← gets ms_origin ;
  file ← gets disk_log ;
  log ← attempt (memory_context (lit "Failed to load the promoted memory log")
          (load_log file (ml_memory_log_head ledger) origin)) ;
  attempt (memory_context (lit "Promoted memory log does not match the candidate ledger")
    (cross_check_statuses log (candidate_values ledger) (ml_pending_status_migrations ledger)
       (bool_decide (origin = Local)))) ;;
  (if bool_decide (origin = Absent) then adopt_log log locked written else mret tt) ;;
  files ← gets disk_projection ;
  (if negb (bool_decide (projected_records log = []))
      || bool_decide (is_Some (file_projection files))
   then map_op_err (MemoryContext (lit "Failed to regenerate the GENOME projection"))
          (project_log log now false writes) ;; mret tt
   else mret tt) ;;
  modify (with_log log).

(** * Recording the candidate of an acceptance *)

(** [candidates.values().any(|stored| stored.governed_task_id == task.id)]. *)
Definition has_candidate_of (task_id : rstring) (l : MemoryCandidateLedger) : bool :=
  existsb (λ stored, bool_decide (cand_governed_task_id stored = task_id)) (candidate_values l).

Definition ensure_candidate (task : GovernedTaskRun) (locked written : bool) : memory_op unit :=
  if negb (is_accepted task) then mret tt
  else
    candidate ← attempt (derive_accepted_run_memory_candidate task) ;
    io locked (lit "Failed to lock project state to record a memory candidate") ;;
    reload_ledger ;;
    ledger ← gets ms_ledger ;
    match ml_candidates ledger !! cand_id candidate with
    | Some stored =>
        attempt (reject_if (negb (matches_ignoring_status stored candidate))
          (MemoryMessage (lit "memory candidate `" ++ cand_id candidate
             ++ lit "` conflicts with its deterministic accepted-run projection")))
    | None =>
        attempt (reject_if (has_candidate_of (run_id task) ledger)
          (MemoryMessage (lit "governed task `" ++ run_id task
             ++ lit "` already has a different memory candidate"))) ;;
        write_ledger
          (ml_set_candidates (<[cand_id candidate := candidate]> (ml_candidates ledger)) ledger)
          written (lit "Failed to persist accepted-run memory candidate")
    end.

(** * Deciding a candidate *)

Definition tail_candidate_id (entry : MemoryLogEntry) : option rstring :=
  match mem_source (entry_record entry) with
  | CandidateRef candidate_id _ _ => Some candidate_id
  | OperatorManual _ => None
  end.

Definition is_foreign_tail (entry : MemoryLogEntry) (l : MemoryCandidateLedger) : bool :=
  if bool_decide (is_Some (ml_processed_decisions l !! mem_request_id (entry_record entry)))
  then false
  else
    match tail_candidate_id entry with
    | None => true
    | Some candidate_id =>
        if bool_decide (is_Some (ml_candidates l !! candidate_id)) then false
        else
          match mem_source (entry_record entry) with
          | CandidateRef _ _ governed_task_id =>
              negb (bool_decide (is_Some (ml_pending_status_migrations l !! governed_task_id)))
          | OperatorManual _ => true
          end
    end.

Definition decision_error {A} (e : MemoryCandidateDecisionError) : memory_result A :=
  Err (MemoryDecisionFailure e).
Definition decision_error_if (c : bool) (e : MemoryCandidateDecisionError) : memory_result unit :=
  reject_if c (MemoryDecisionFailure e).

Definition require_idempotent_decision (recorded : MemoryCandidateDecision)
    (input : MemoryCandidateDecisionInput) : memory_result unit :=
  decision_error_if
    (bool_decide (decided_candidate_id recorded ≠ input_candidate_id input)
     || bool_decide (decided_decision recorded ≠ input_decision input)
     || bool_decide (decided_actor recorded ≠ input_actor input)
     || negb (decided_based_on_ledger_revision recorded
              =? input_expected_ledger_revision input))
    (DecisionPayloadConflict (input_request_id input)).

(** The answer to a request that has a receipt. *)
Definition replayed_decision (l : MemoryCandidateLedger) (log : MemoryLog)
    (files : ProjectionFiles) (recorded : MemoryCandidateDecision)
    (input : MemoryCandidateDecisionInput) : memory_result MemoryCandidateDecisionOutcome :=
  require_idempotent_decision recorded input ;;
  candidate ← ok_or (ml_candidates l !! decided_candidate_id recorded)
    (MemoryDecisionFailure (CandidateNotFound (decided_candidate_id recorded))) ;
  Ok {| outcome_decision := recorded;
        outcome_candidate := candidate;
        outcome_record := decided_record_id recorded ≫= committed_record log;
        outcome_replayed := true;
        outcome_projection_digest := projection_digest (render_projection (projected_records log));
        outcome_retrieval_index_dirty := index_is_dirty (file_marker files) |}.

(** The candidate a new decision is about: pending, and still what governed
    truth derives. *)
Definition decidable_candidate (l : MemoryCandidateLedger)
    (expected : gmap rstring AcceptedRunMemoryCandidate) (input : MemoryCandidateDecisionInput)
    : memory_result AcceptedRunMemoryCandidate :=
  decision_error_if (negb (ml_revision l =? input_expected_ledger_revision input))
    (LedgerRevisionConflict (input_expected_ledger_revision input) (ml_revision l)) ;;
  stored ← ok_or (ml_candidates l !! input_candidate_id input)
    (MemoryDecisionFailure (CandidateNotFound (input_candidate_id input))) ;
  decision_error_if (negb (is_pending (cand_status stored)))
    (AlreadyDecided (input_candidate_id input) (status_label (cand_status stored))) ;;
  match expected !! input_candidate_id input with
  | Some expected => decision_error_if (negb (matches_ignoring_status stored expected))
                       (SupersededCandidate (input_candidate_id input))
  | None => decision_error (SupersededCandidate (input_candidate_id input))
  end ;;
  Ok stored.

(** The record of the uncommitted entry this request left behind, if any. *)
Definition adopted_tail (l : MemoryCandidateLedger) (log : MemoryLog)
    (input : MemoryCandidateDecisionInput) : memory_result (option MemoryRecord) :=
  match uncommitted_tail log with
  | [] => Ok None
  | entry :: _ =>
      let request_id := mem_request_id (entry_record entry) in
      if bool_decide (request_id = input_request_id input) then Ok (Some (entry_record entry))
      else if is_foreign_tail entry l then
        decision_error
          (ForeignUncommittedTail request_id (default (lit "<none>") (tail_candidate_id entry))
             (default 0 (head_entry_count <$> ml_memory_log_head l)))
      else decision_error (InterruptedDecision request_id)
  end.

(** [log.append(storage, record)]. *)
Definition append_record (record : MemoryRecord) (write : AppendWrite) : memory_op unit := λ st,
  let '(answer, log, file) := append_with (ms_log st) (disk_log st) record write in
  (answer ;; Ok tt, with_disk_log file (with_log log st)).

(** What a decision settles: the status, its instant, the record, the head. *)
Record Settled := {
  settled_status : MemoryCandidateStatus;
  settled_at : rstring;
  settled_record : option MemoryRecord;
  settled_head : option MemoryLogHead
}.

Definition settle_promotion (stored : AcceptedRunMemoryCandidate) (adopted : option MemoryRecord)
    (input : MemoryCandidateDecisionInput) (now : rstring) (write : AppendWrite)
    : memory_op Settled :=
  ledger ← gets ms_ledger ;
  derived ← attempt
    (derive_promoted_record stored (input_request_id input) (ml_revision ledger) now) ;
  promoted ←
    match adopted with
    | Some tail =>
        attempt (decision_error_if (bool_decide (mem_id tail ≠ mem_id derived))
                   (DecisionPayloadConflict (input_request_id input))) ;;
        mret tail
    | None => append_record derived write ;; mret derived
    end ;
  let decided_at := match adopted with Some tail => mem_valid_from tail | None => now end in
  log ← gets ms_log ;
  mret {| settled_status := CandidatePromoted (mem_id promoted) decided_at (input_actor input);
          settled_at := decided_at;
          settled_record := Some promoted;
          settled_head := full_head log |}.

Definition settle_dismissal (adopted : option MemoryRecord)
    (input : MemoryCandidateDecisionInput) (reason now : rstring) : memory_op Settled :=
  ledger ← gets ms_ledger ;
  attempt (decision_error_if (bool_decide (is_Some adopted))
             (DecisionPayloadConflict (input_request_id input))) ;;
  mret {| settled_status := CandidateDismissed reason now (input_actor input);
          settled_at := now;
          settled_record := None;
          settled_head := ml_memory_log_head ledger |}.

(** [match &input.decision]. *)
Definition settle (stored : AcceptedRunMemoryCandidate) (adopted : option MemoryRecord)
    (input : MemoryCandidateDecisionInput) (now : rstring) (write : AppendWrite)
    : memory_op Settled :=
  match input_decision input with
  | Promote => settle_promotion stored adopted input now write
  | Dismiss reason => settle_dismissal adopted input reason now
  end.

(** The receipt of a settled decision. *)
Definition decision_receipt (input : MemoryCandidateDecisionInput)
    (authentication : OperatorAuthentication) (settled : Settled) (based_on next : Z)
    : MemoryCandidateDecision :=
  {| decided_request_id := input_request_id input;
     decided_candidate_id := input_candidate_id input;
     decided_decision := input_decision input;
     decided_actor := input_actor input;
     decided_authentication := authentication;
     decided_at := settled_at settled;
     decided_based_on_ledger_revision := based_on;
     decided_resulting_ledger_revision := next;
     decided_record_id := mem_id <$> settled_record settled |}.

(** The ledger that commits it. *)
Definition decided_ledger (l : MemoryCandidateLedger) (decision : MemoryCandidateDecision)
    (updated : AcceptedRunMemoryCandidate) (head : option MemoryLogHead)
    : MemoryCandidateLedger :=
  {| ml_schema_version := MEMORY_CANDIDATES_LEDGER_SCHEMA_VERSION;
     ml_revision := decided_resulting_ledger_revision decision;
     ml_candidates := <[decided_candidate_id decision := updated]> (ml_candidates l);
     ml_pending_status_migrations := ml_pending_status_migrations l;
     ml_memory_log_head := head;
     ml_processed_decisions :=
       <[decided_request_id decision := decision]> (ml_processed_decisions l) |}.

(** The outcomes of a decision's lock and writes. *)
Record DecisionIo := {
  io_locked : bool;
  io_append : AppendWrite;
  io_ledger : bool;
  io_projection : bool * bool
}.

(** A decision on a candidate that may still be decided. *)
Definition settle_decision (stored : AcceptedRunMemoryCandidate) (adopted : option MemoryRecord)
    (input : MemoryCandidateDecisionInput) (authentication : OperatorAuthentication)
    (now : rstring) (outcomes : DecisionIo) : memory_op MemoryCandidateDecisionOutcome :=
  ledger ← gets ms_ledger ;
  next_revision ← require (u64_checked_add (ml_revision ledger) 1)
    (lit "memory candidate ledger revision exhausted u64") ;
  settled ← settle stored adopted input now (io_append outcomes) ;
  let updated := set_status (settled_status settled) stored in
  attempt (memory_context (lit "Decided memory candidate failed its own contract")
             (map_err MemoryContractFailure (validate_candidate updated))) ;;
  let decision :=
    decision_receipt input authentication settled (ml_revision ledger) next_revision in
  write_ledger (decided_ledger ledger decision updated (settled_head settled))
    (io_ledger outcomes) (lit "Failed to persist memory candidate decision") ;;
  log ← gets (λ st, commit_tail (ms_log st)) ;
  modify (with_log log) ;;
  projected ← project_log log now (is_promote (input_decision input)) (io_projection outcomes) ;
  mret {| outcome_decision := decision;
          outcome_candidate := updated;
          outcome_record := settled_record settled;
          outcome_replayed := false;
          outcome_projection_digest := projected.1;
          outcome_retrieval_index_dirty := projected.2 |}.

Definition decide_memory_candidate (file : GovernedTaskLedger)
    (input : MemoryCandidateDecisionInput) (authentication : OperatorAuthentication)
    (now : rstring) (outcomes : DecisionIo) : memory_op MemoryCandidateDecisionOutcome :=
  attempt (memory_context (lit "Invalid memory candidate decision")
             (map_err MemoryWiringFailure (validate_decision_input input))) ;;
  let expected_project := governed_project_id_for_storage s in
  attempt (decision_error_if (bool_decide (input_project_id input ≠ expected_project))
             (DecisionProjectMismatch expected_project (input_project_id input))) ;;
  io (io_locked outcomes) (lit "Failed to lock project state to record a memory decision") ;;
  reload_ledger ;;
  tasks ← attempt (governed_tasks_on_disk file) ;
  expected ← attempt (expected_accepted_run_candidates tasks) ;
  ledger ← gets ms_ledger ;
  log_file ← gets disk_log ;
  log ← attempt (memory_context (lit "Failed to load the promoted memory log")
          (load_log log_file (ml_memory_log_head ledger) Local)) ;
  modify (with_log log) ;;
  match ml_processed_decisions ledger !! input_request_id input with
  | Some recorded =>
      files ← gets disk_projection ;
      attempt (replayed_decision ledger log files recorded input)
  | None =>
      stored ← attempt (decidable_candidate ledger expected input) ;
      adopted ← attempt (adopted_tail ledger log input) ;
      settle_decision stored adopted input authentication now outcomes
  end.

(** * Reads and the retrieval index *)

Definition read_genome_projection (st : MemoryState) : option rstring :=
  file_projection (disk_projection st).

Definition memory_retrieval_index_is_dirty (st : MemoryState) : bool :=
  index_is_dirty (file_marker (disk_projection st)).

Definition list_promoted_memory_records (st : MemoryState) : list MemoryRecord :=
  projected_records (ms_log st).

(** [index] is the retrieval index's own answer to the records it was given. *)
Definition index_promoted_memory_records (index : list MemoryRecord → memory_result Z)
    (now : rstring) (written : bool) : memory_op Z :=
  records ← gets list_promoted_memory_records ;
  indexed ← attempt (memory_context (lit "Failed to index promoted memory records")
              (index records)) ;
  let digest := projection_digest (render_projection records) in
  io written (lit "Failed to stamp the memory retrieval index marker") ;;
  files ← gets disk_projection ;
  modify (with_projection
    {| file_projection := file_projection files;
       file_marker := Some (stamp_indexed digest now) |}) ;;
  mret indexed.

(** [sort_by(|left, right| right.staged_at.cmp(&left.staged_at))]. *)
Definition list_accepted_run_memory_candidates (project_id : rstring) (l : MemoryCandidateLedger)
    : memory_result (list AcceptedRunMemoryCandidate) :=
  map_err GovernedFailure (require_project (governed_project_id_for_storage s) project_id) ;;
  Ok (stable_sort (λ left right, str_leb (cand_staged_at right) (cand_staged_at left))
        (filter (λ candidate, cand_project_id candidate = project_id) (candidate_values l))).

(** [State::new]: what the memory component does at start-up. *)
Definition open_memory (tasks : list GovernedTaskRun) (file : GovernedTaskLedger)
    (now : rstring) (reconcile_io adopt_io : bool * bool) (writes : bool * bool)
    : memory_op unit :=
  candidates_file ← gets disk_ledger ;
  loaded ← attempt (load_memory_candidate_ledger candidates_file) ;
  modify (λ st, {| ms_ledger := loaded.1; ms_log := log_default; ms_origin := loaded.2;
                   disk_ledger := disk_ledger st; disk_log := disk_log st;
                   disk_projection := disk_projection st |}) ;;
  reconcile_accepted_run_memory_candidates tasks file reconcile_io.1 reconcile_io.2 ;;
  reconcile_promoted_memory_log now adopt_io.1 adopt_io.2 writes.
End operations.
