(* ===== verification/MemoryLogFacts.v ===== *)
(** Facts about the promoted-memory log: its text as lines, its digest chain as
    a determined list, what a load that succeeds established, and what an append
    adds to it. *)
From S2P Require Export MemoryLog.
Local Open Scope Z_scope.

(** What the log relies on of its JSON texts: an entry is read back as it was
    written, on one line, and a digest's source determines what it covers. *)
Class MemoryJsonLaws `{MemoryJson} := {
  parse_log_entry_json e : parse_log_entry (log_entry_json e) = Ok e;
  log_entry_json_line e : Forall (λ c, c ≠ 10 ∧ c ≠ 13) (log_entry_json e);
  log_entry_json_nonblank e : is_empty (trim (log_entry_json e)) = false;
  entry_source_json_inj seq1 d1 r1 seq2 d2 r2 :
    entry_source_json seq1 d1 r1 = entry_source_json seq2 d2 r2 →
    seq1 = seq2 ∧ d1 = d2 ∧ r1 = r2;
  record_source_json_inj s1 s2 : record_source_json s1 = record_source_json s2 → s1 = s2
}.

(** What the digest of an entry covers. *)
Definition entry_source `{Host, MemoryJson} (e : MemoryLogEntry) : list Z :=
  entry_source_json (entry_seq e) (entry_previous_digest e) (entry_record e).

(** An entry of each list is at hand whose sources differ and have one SHA-256
    digest. *)
Definition colliding_entries `{Host, MemoryJson} (a b : list MemoryLogEntry) : Prop :=
  ∃ e e', e ∈ a ∧ e' ∈ b ∧ entry_source e ≠ entry_source e' ∧
    sha256_hex (entry_source e) = sha256_hex (entry_source e').

(** * Lines *)

Lemma split_on_nonempty sep cur a : split_on sep cur a ≠ [].
Proof. revert cur. induction a as [|c a IH]; intros cur; cbn; [done|]. by destruct (c =? sep). Qed.

(** The last piece ends as the text does. *)
Lemma split_on_last sep cur a final :
  last (split_on sep cur a) = Some final → last a ≠ Some sep → (a = [] → cur ≠ []) →
  final ≠ [] ∧ (a ≠ [] → last final = last a).
Proof.
  revert cur. induction a as [|c a IH]; intros cur Hlast Hsep Hcur; cbn [split_on last] in Hlast.
  - injection Hlast as <-. split; [|done]. intros Hrev. apply Hcur; [done|].
    apply (f_equal reverse) in Hrev. by rewrite reverse_involutive in Hrev.
  - destruct a as [|c' a].
    + cbn [split_on last] in Hlast, Hsep. destruct (Z.eqb_spec c sep); [congruence|].
      injection Hlast as <-. rewrite reverse_cons. split; [by destruct (reverse cur)|].
      intros _. by rewrite last_snoc.
    + assert (Hrest : last (c' :: a) ≠ Some sep) by done.
      destruct (Z.eqb_spec c sep) as [->|Hc].
      * assert (Hcons : last (split_on sep [] (c' :: a)) = Some final).
        { pose proof (split_on_nonempty sep [] (c' :: a)) as Hne.
          destruct (split_on sep [] (c' :: a)); done. }
        destruct (IH [] Hcons Hrest) as [??]; [done|]. split; [done|]. intros _. auto.
      * destruct (IH (c :: cur) Hlast Hrest) as [??]; [done|]. split; [done|]. intros _. auto.
Qed.

Lemma str_lines_app a b :
  str_lines (a ++ 10 :: b) = (strip_trailing_cr <$> split_on 10 [] a) ++ str_lines b.
Proof.
  unfold str_lines. rewrite split_on_app, reverse_app.
  destruct (reverse (split_on 10 [] b)) as [|final before] eqn:Hb.
  - apply (f_equal reverse) in Hb. rewrite reverse_involutive in Hb.
    by apply split_on_nonempty in Hb.
  - cbn. by rewrite reverse_app, reverse_involutive, fmap_app, <-app_assoc.
Qed.

Lemma strip_trailing_cr_id a : last a ≠ Some 13 → strip_trailing_cr a = a.
Proof.
  unfold strip_trailing_cr. destruct a as [|c a _] using rev_ind; [done|].
  rewrite last_snoc, reverse_snoc. intros Hc. by repeat case_match; simplify_eq.
Qed.

(** A text that does not end in a newline, followed by one. *)
Lemma str_lines_terminate a :
  a ≠ [] → last a ≠ Some 10 → last a ≠ Some 13 →
  strip_trailing_cr <$> split_on 10 [] a = str_lines a.
Proof.
  intros Ha H10 H13. unfold str_lines.
  destruct (reverse (split_on 10 [] a)) as [|final before] eqn:Hrev.
  - apply (f_equal reverse) in Hrev. rewrite reverse_involutive in Hrev.
    by apply split_on_nonempty in Hrev.
  - apply (f_equal reverse) in Hrev. rewrite reverse_involutive, reverse_cons in Hrev.
    rewrite Hrev, fmap_app. f_equal.
    destruct (split_on_last 10 [] a final) as [Hfinal Hlast];
      [by rewrite Hrev, last_snoc|done|done|].
    cbn. rewrite strip_trailing_cr_id; [by destruct final|]. by rewrite Hlast.
Qed.

Lemma line_last_not_cr (line : rstring) :
  Forall (λ c, c ≠ 10 ∧ c ≠ 13) line → last line ≠ Some 13.
Proof.
  rewrite Forall_forall. intros Hline Hlast%last_elem_of. by apply Hline in Hlast as [_ ?].
Qed.

Lemma str_lines_line (line : rstring) :
  Forall (λ c, c ≠ 10 ∧ c ≠ 13) line → str_lines (line ++ [10]) = [line].
Proof.
  intros Hline. rewrite str_lines_app, split_on_none.
  - cbn. by rewrite strip_trailing_cr_id by by apply line_last_not_cr.
  - eapply Forall_impl; [exact Hline|]. by intros c [??].
Qed.

(** An append adds exactly its line to the lines of the file. *)
Lemma str_lines_append_line file (line : rstring) :
  Forall (λ c, c ≠ 10 ∧ c ≠ 13) line → last (default [] file) ≠ Some 13 →
  str_lines (append_line file line) = str_lines (default [] file) ++ [line].
Proof.
  intros Hline H13. unfold append_line. set (text := default [] file) in *. clearbody text.
  destruct text as [|c text _] using rev_ind.
  - cbn. by apply str_lines_line.
  - rewrite last_snoc in *. destruct (Z.eqb_spec c 10) as [->|Hc].
    + cbn [app]. rewrite <-app_assoc. cbn [app].
      rewrite (str_lines_app text (line ++ [10])), (str_lines_app text []), str_lines_line by done.
      by rewrite app_nil_r.
    + cbn [app]. rewrite (str_lines_app _ (line ++ [10])), str_lines_line by done.
      rewrite str_lines_terminate; [done| |by rewrite last_snoc; congruence..].
      by destruct text.
Qed.

Lemma append_line_terminated file (line : rstring) : last (append_line file line) = Some 10.
Proof. unfold append_line. by rewrite !app_assoc, last_snoc. Qed.

(** A file that ends in no carriage return: appends end in a newline. *)
Definition log_file_terminated (file : option rstring) : Prop := last (default [] file) ≠ Some 13.

(** * Parsing *)

Section parsing.
Context `{Host, MemoryJson}.

Lemma parse_log_lines_app index a b :
  parse_log_lines index (a ++ b) =
    (entries ← parse_log_lines index a ;
     more ← parse_log_lines (index + zlen a) b ;
     Ok (entries ++ more)).
Proof.
  revert index. induction a as [|line a IH]; intros index.
  - cbn. rewrite Z.add_0_r. by destruct (parse_log_lines index b).
  - cbn [app parse_log_lines]. rewrite zlen_cons, IH.
    replace (index + 1 + zlen a) with (index + (1 + zlen a)) by lia.
    destruct (is_empty (trim line)); [done|].
    destruct (map_err _ (parse_log_entry line)); [|done]. cbn.
    destruct (parse_log_lines (index + 1) a); [|done]. cbn.
    by destruct (parse_log_lines _ b).
Qed.
End parsing.

(** * The chain *)

(** The digest the next entry chains to. *)
Definition chain_digest (start : rstring) (entries : list MemoryLogEntry) : rstring :=
  default start (entry_digest <$> last entries).

Lemma chain_digest_snoc start entries e : chain_digest start (entries ++ [e]) = entry_digest e.
Proof. unfold chain_digest. by rewrite last_snoc. Qed.

Lemma chain_digest_cons start e entries :
  chain_digest start (e :: entries) = chain_digest (entry_digest e) entries.
Proof. unfold chain_digest. rewrite last_cons. by destruct (last entries). Qed.

Section chain.
Context `{Host, MemoryJson}.

Lemma verify_chain_app seq start a b :
  verify_chain seq start (a ++ b) =
    (verify_chain seq start a ;; verify_chain (seq + zlen a) (chain_digest start a) b).
Proof.
  revert seq start. induction a as [|e a IH]; intros seq start.
  - cbn [app verify_chain]. by rewrite zlen_nil, Z.add_0_r.
  - cbn [app verify_chain]. rewrite IH, chain_digest_cons, zlen_cons.
    replace (seq + 1 + zlen a) with (seq + (1 + zlen a)) by lia.
    by destruct (verify_entry seq start e) as [[]|].
Qed.

Lemma verify_chain_snoc seq start a e :
  verify_chain seq start (a ++ [e]) = Ok tt ↔
    verify_chain seq start a = Ok tt ∧ verify_entry (seq + zlen a) (chain_digest start a) e = Ok tt.
Proof.
  rewrite verify_chain_app. cbn [verify_chain]. split.
  - intros Hok. result_inv. done.
  - intros [-> He]. cbn. by rewrite He.
Qed.

Lemma verify_chain_take n seq start entries :
  verify_chain seq start entries = Ok tt → verify_chain seq start (take n entries) = Ok tt.
Proof.
  rewrite <-(take_drop n entries) at 1. rewrite verify_chain_app. intros Hok. by result_inv.
Qed.

(** What one verified entry is. *)
Lemma verify_entry_Ok seq start e :
  verify_entry seq start e = Ok tt →
  entry_seq e = seq ∧ entry_previous_digest e = start ∧
  entry_digest e = seal_digest seq start (entry_record e) ∧
  verify_record_identity (entry_record e) = Ok tt.
Proof.
  unfold verify_entry, log_error_if. intros Hok. result_inv. bool_inv.
  match goal with Hl : verify_links _ _ _ = Ok tt |- _ => unfold verify_links, invalid_if in Hl end.
  result_inv. bool_inv. done.
Qed.

(** Two verified chains of one length that end in the same digest are the same
    list, unless their digests collide. *)
Lemma verify_chain_determined `{!MemoryJsonLaws} seq start a b :
  length a = length b →
  verify_chain seq start a = Ok tt → verify_chain seq start b = Ok tt →
  chain_digest start a = chain_digest start b →
  a = b ∨ colliding_entries a b.
Proof.
  revert b. induction a as [|e a IH] using rev_ind; intros b Hlen.
  - by destruct b; [left|].
  - destruct b as [|e' b _] using rev_ind; [by destruct a|].
    rewrite !length_app in Hlen. cbn in Hlen.
    rewrite !verify_chain_snoc, !chain_digest_snoc.
    intros [Ha He] [Hb He'] Hdigest.
    assert (Hab : length a = length b) by lia. replace (zlen b) with (zlen a) in He' by (unfold zlen; lia).
    apply verify_entry_Ok in He as (Hs & Hp & Hd & _), He' as (Hs' & Hp' & Hd' & _).
    rewrite Hd, Hd' in Hdigest. unfold seal_digest in Hdigest. apply app_inv_head in Hdigest.
    destruct (decide (entry_source e = entry_source e')) as [Heq|Hne].
    + unfold entry_source in Heq. rewrite Hp, Hp' in Heq.
      apply entry_source_json_inj in Heq as (_ & Hchain & Hrecord).
      destruct (IH b Hab Ha Hb Hchain) as [->|(c & c' & Hc & Hc' & Hcollide)].
      * left. do 2 f_equal. destruct e, e'; cbn in *. congruence.
      * right. exists c, c'. split_and!; [apply elem_of_app; by left..|apply Hcollide|apply Hcollide].
    + right. exists e, e'. split_and!; [apply elem_of_app; right; by apply list_elem_of_singleton..|done|].
      unfold entry_source. by rewrite Hs, Hp, Hs', Hp'.
Qed.
End chain.

(** * Loading *)

Section loading.
Context `{Host, MemoryJson}.

Lemma reject_duplicates_Ok seen entries :
  reject_duplicates seen entries = Ok tt ↔
    NoDup ((λ e, mem_id (entry_record e)) <$> entries)
    ∧ Forall (λ e, mem_id (entry_record e) ∉ seen) entries.
Proof.
  revert seen. induction entries as [|e entries IH]; intros seen; cbn [reject_duplicates].
  - split; [|done]. split; constructor.
  - rewrite fmap_cons, NoDup_cons, Forall_cons. unfold log_error_if.
    case_bool_decide as Hseen; cbn; [naive_solver|].
    rewrite IH, !Forall_forall. split.
    + intros [Hnd Hall]. split; [split; [|done]|split; [done|]].
      * intros (e' & Heq & Hin)%list_elem_of_fmap. apply (Hall _ Hin). set_solver.
      * intros e' Hin. specialize (Hall _ Hin). set_solver.
    + intros [[Hnotin Hnd] [_ Hall]]. split; [done|]. intros e' Hin Helem.
      apply elem_of_union in Helem as [Heq%elem_of_singleton|Helem]; [|by apply (Hall _ Hin)].
      apply Hnotin. apply list_elem_of_fmap. by exists e'.
Qed.

(** The entries a log file holds. *)
Definition file_entries (file : option rstring) : memory_result (list MemoryLogEntry) :=
  match file with
  | Some raw => parse_log_lines 0 (str_lines raw)
  | None => Ok []
  end.

Lemma file_entries_default file :
  file_entries file = parse_log_lines 0 (str_lines (default [] file)).
Proof. by destruct file. Qed.

(** A load succeeds exactly when all of this holds of the file's entries. *)
Definition loads_as (entries : list MemoryLogEntry) (head : option MemoryLogHead)
    (origin : LedgerOrigin) (log : MemoryLog) : Prop :=
  verify_chain 0 MEMORY_LOG_GENESIS_DIGEST entries = Ok tt ∧
  (∃ count, committed_count entries head origin = Ok count ∧
     committed log = take (Z.to_nat count) entries ∧
     uncommitted_tail log = drop (Z.to_nat count) entries) ∧
  zlen (uncommitted_tail log) ≤ MAX_UNCOMMITTED_TAIL_ENTRIES ∧
  NoDup ((λ e, mem_id (entry_record e)) <$> entries).

Lemma load_log_Ok file head origin log :
  load_log file head origin = Ok log ↔
    ∃ entries, file_entries file = Ok entries ∧ loads_as entries head origin log.
Proof.
  unfold load_log. fold (file_entries file). unfold loads_as, log_error_if. split.
  - intros Hok. apply bind_Ok in Hok as (entries & Hparse & Hok).
    exists entries. split; [done|].
    apply bind_Ok in Hok as ([] & Hchain & Hok).
    apply bind_Ok in Hok as (count & Hcount & Hok).
    apply bind_Ok in Hok as ([] & Hlong & Hok). apply reject_if_Ok in Hlong. bool_inv.
    apply bind_Ok in Hok as ([] & Hdup & Hok). apply Ok_inj in Hok as <-.
    cbn [committed uncommitted_tail] in *. rewrite take_drop in Hdup.
    apply reject_duplicates_Ok in Hdup as [Hdup _]. eauto 10.
  - intros (entries & -> & Hchain & (count & Hcount & Htake & Hdrop) & Hlong & Hdup).
    rewrite bind_ret_l, Hchain, bind_ret_l, Hcount, bind_ret_l, <-Htake, <-Hdrop.
    cbn [committed uncommitted_tail].
    destruct (Z.ltb_spec MAX_UNCOMMITTED_TAIL_ENTRIES (zlen (uncommitted_tail log))); [lia|].
    cbn [reject_if]. rewrite bind_ret_l.
    replace (committed log ++ uncommitted_tail log) with entries
      by by rewrite Htake, Hdrop, take_drop.
    rewrite (proj2 (reject_duplicates_Ok ∅ entries)); [|split; [done|]].
    + rewrite bind_ret_l. by destruct log.
    + apply Forall_forall. set_solver.
Qed.

Lemma loads_as_entries entries head origin log :
  loads_as entries head origin log → committed log ++ uncommitted_tail log = entries.
Proof. intros (_ & (count & _ & -> & ->) & _). apply take_drop. Qed.

Lemma committed_count_app entries more head count :
  committed_count entries head Local = Ok count →
  committed_count (entries ++ more) head Local = Ok count.
Proof.
  unfold committed_count, log_error_if. destruct head as [head|]; [|done].
  intros Hok. result_inv. bool_inv. rewrite zlen_app. pose proof (zlen_nonneg more).
  destruct (Z.eqb_spec (head_entry_count head) 0); [lia|]. cbn.
  destruct (Z.ltb_spec (zlen entries + zlen more) (head_entry_count head)); [lia|]. cbn.
  match goal with Hl : entries !! _ = Some _ |- _ => rewrite (lookup_app_l_Some _ _ _ _ Hl) end.
  cbn. by rewrite bool_decide_eq_false_2 by naive_solver.
Qed.

(** The head of a log commits all of it. *)
Lemma committed_count_full entries origin e :
  last entries = Some e →
  committed_count entries
    (Some {| head_entry_count := zlen entries; head_digest := entry_digest e |}) origin
  = Ok (zlen entries).
Proof.
  intros Hlast. pose proof Hlast as (before & ->)%last_Some.
  unfold committed_count, log_error_if. cbn [head_entry_count head_digest].
  rewrite zlen_snoc. pose proof (zlen_nonneg before).
  destruct (Z.eqb_spec (zlen before + 1) 0); [lia|]. cbn. rewrite Z.ltb_irrefl. cbn.
  replace (Z.to_nat (zlen before + 1 - 1)) with (length before) by (unfold zlen; lia).
  rewrite list_lookup_middle by done. cbn. by rewrite bool_decide_eq_false_2 by naive_solver.
Qed.

(** A log loads against its full head as the log with its tail committed. *)
Lemma full_head_loads file head origin origin' log :
  load_log file head origin = Ok log → load_log file (full_head log) origin' = Ok (commit_tail log).
Proof.
  intros (entries & Hparse & Hload)%load_log_Ok. apply load_log_Ok. exists entries.
  split; [done|]. pose proof (loads_as_entries _ _ _ _ Hload) as Hentries.
  destruct Hload as (Hchain & _ & _ & Hdup). split; [done|].
  unfold commit_tail. cbn [committed uncommitted_tail]. rewrite Hentries. split; [|done].
  exists (zlen entries). unfold zlen at 2 3. rewrite Nat2Z.id, take_ge, drop_ge by done.
  split; [|done]. unfold full_head, last_entry. rewrite <-zlen_app, Hentries.
  assert (Hlast : last entries = match last (uncommitted_tail log) with
    | Some e => Some e | None => last (committed log) end)
    by by rewrite <-Hentries, last_app.
  rewrite <-Hlast. destruct (last entries) as [e|] eqn:He; cbn [mbind option_bind].
  - by apply committed_count_full.
  - apply last_None in He as ->. by destruct origin'.
Qed.

(** Loading stops only at an error value. *)
Lemma committed_count_no_panic entries head origin :
  (∀ h, head = Some h → 0 ≤ head_entry_count h) →
  committed_count entries head origin ≠ Err MemoryPanicked.
Proof.
  unfold committed_count, log_error_if. destruct head as [head|]; [|done]. intros Hcount.
  specialize (Hcount _ eq_refl).
  destruct (Z.eqb_spec (head_entry_count head) 0); [done|]. cbn.
  destruct (Z.ltb_spec (zlen entries) (head_entry_count head)) as [|Hle]; [done|]. cbn.
  destruct (lookup_lt_is_Some_2 entries (Z.to_nat (head_entry_count head - 1))) as [e ->];
    [unfold zlen in Hle; lia|].
  cbn. by case_bool_decide.
Qed.
End loading.

(** * Appending *)

Section appending.
Context `{Host, !HostLaws, MemoryJson, !MemoryJsonLaws}.

Lemma file_entries_append file entries e :
  last (default [] file) ≠ Some 13 → file_entries file = Ok entries →
  file_entries (Some (append_line file (log_entry_json e))) = Ok (entries ++ [e]).
Proof using Type*.
  intros H13 Hok. cbn [file_entries].
  rewrite str_lines_append_line by (done || apply log_entry_json_line).
  rewrite file_entries_default in Hok. rewrite parse_log_lines_app, Hok. cbn.
  rewrite log_entry_json_nonblank, parse_log_entry_json. done.
Qed.

Lemma seal_digest_valid seq d r :
  validate_lower_sha256 (lit "entry_digest") (seal_digest seq d r) MEMORY_LOG_DIGEST_PREFIX = Ok tt.
Proof using Type*.
  unfold validate_lower_sha256, seal_digest. rewrite strip_prefix_app.
  unfold is_lower_hex. by rewrite sha256_hex_len, sha256_hex_digits.
Qed.

Lemma verify_record_identity_shape r :
  verify_record_identity r = Ok tt → validate_record r = Ok tt.
Proof. unfold verify_record_identity. intros Hok. by result_inv. Qed.

(** The entry an append seals verifies at its place. *)
Lemma sealed_entry_verifies log r :
  verify_record_identity r = Ok tt →
  verify_entry (next_seq log) (next_previous_digest log) (sealed_entry log r) = Ok tt.
Proof using Type*.
  intros Hr. pose proof (verify_record_identity_shape _ Hr) as Hshape.
  unfold verify_entry, verify_links, invalid_if, log_error_if, sealed_entry.
  cbn [entry_seq entry_previous_digest entry_digest entry_record].
  rewrite Z.eqb_refl, (bool_decide_eq_false_2 (next_previous_digest log ≠ _)) by naive_solver.
  cbn [negb reject_if]. rewrite !bind_ret_l, seal_digest_valid, bind_ret_l, Hshape.
  cbn [map_err]. rewrite bind_ret_l, Hr. cbn [map_err]. rewrite bind_ret_l.
  by rewrite bool_decide_eq_false_2 by naive_solver.
Qed.

Lemma log_chain_facts entries head origin log :
  loads_as entries head origin log →
  next_seq log = zlen entries
  ∧ next_previous_digest log = chain_digest MEMORY_LOG_GENESIS_DIGEST entries.
Proof.
  intros Hload. apply loads_as_entries in Hload as <-.
  unfold next_seq, next_previous_digest, last_entry, chain_digest. rewrite zlen_app.
  split; [done|]. rewrite last_app. by destruct (last (uncommitted_tail log)).
Qed.

(** The entries after an append. *)
Lemma append_entries_verify entries head log r :
  loads_as entries head Local log → verify_record_identity r = Ok tt →
  verify_chain 0 MEMORY_LOG_GENESIS_DIGEST (entries ++ [sealed_entry log r]) = Ok tt.
Proof using Type*.
  intros Hload Hr. destruct (log_chain_facts _ _ _ _ Hload) as [Hseq Hprev].
  apply verify_chain_snoc. split; [apply Hload|]. rewrite Z.add_0_l, <-Hseq, <-Hprev.
  by apply sealed_entry_verifies.
Qed.

Lemma full_head_app log e :
  full_head (push_tail e log)
  = Some {| head_entry_count := zlen (committed log ++ uncommitted_tail log ++ [e]);
            head_digest := entry_digest e |}.
Proof.
  unfold full_head, last_entry, push_tail. cbn [committed uncommitted_tail]. rewrite last_snoc.
  cbn. by rewrite !zlen_app.
Qed.

(** A log and file after one more entry: the old head leaves it uncommitted, the
    full head commits it. *)
Lemma append_loads file head log r :
  load_log file head Local = Ok log → uncommitted_tail log = [] →
  last (default [] file) ≠ Some 13 → verify_record_identity r = Ok tt →
  committed_record log (mem_id r) = None →
  let log' := push_tail (sealed_entry log r) log in
  let file' := Some (append_line file (log_entry_json (sealed_entry log r))) in
  load_log file' head Local = Ok log' ∧
  load_log file' (full_head log') Local = Ok (commit_tail log').
Proof using Type*.
  intros (entries & Hparse & Hload)%load_log_Ok Htail H13 Hr Hfresh. cbn zeta.
  pose proof (loads_as_entries _ _ _ _ Hload) as Hentries. rewrite Htail, app_nil_r in Hentries.
  pose proof (append_entries_verify _ _ _ _ Hload Hr) as Hchain.
  pose proof (file_entries_append _ _ (sealed_entry log r) H13 Hparse) as Hparse'.
  assert (Hdup : NoDup ((λ e, mem_id (entry_record e)) <$> (entries ++ [sealed_entry log r]))).
  { rewrite fmap_app. apply NoDup_app. split; [apply Hload|]. split; [|apply NoDup_singleton].
    intros id (e & -> & He)%list_elem_of_fmap Hin%list_elem_of_singleton.
    unfold committed_record in Hfresh. rewrite Hentries in Hfresh.
    assert (Hfind : List.find (λ record, bool_decide (mem_id record = mem_id r))
      (entry_record <$> entries) ≠ None); [|done].
    intros Hnone. eapply find_none in Hnone; [|apply list_elem_of_In, list_elem_of_fmap; by exists e].
    bool_inv. by apply Hnone. }
  destruct Hload as (_ & (count & Hcount & Htake & Hdrop) & _ & _).
  assert (Hall : (length entries ≤ Z.to_nat count)%nat).
  { rewrite Hdrop in Htail. apply (f_equal length) in Htail. rewrite length_drop in Htail.
    cbn in Htail. lia. }
  split; apply load_log_Ok; exists (entries ++ [sealed_entry log r]); (split; [done|]);
    (split; [done|]).
  - split; [|split; [|done]].
    + exists (zlen entries). split.
      * destruct head as [head|].
        -- apply committed_count_app. rewrite Hcount. f_equal.
           revert Hcount. unfold committed_count, log_error_if. intros Hok. result_inv. bool_inv.
           match goal with Hl : _ !! _ = Some _ |- _ => apply lookup_lt_Some in Hl end.
           unfold zlen in *. lia.
        -- cbn in Hcount. injection Hcount as <-. cbn in Hall. by destruct entries; [|cbn in Hall; lia].
      * unfold push_tail. cbn [committed uncommitted_tail]. unfold zlen. rewrite Nat2Z.id.
        rewrite take_app_length, drop_app_length, Htail, Hentries. done.
    + unfold push_tail, MAX_UNCOMMITTED_TAIL_ENTRIES. cbn [uncommitted_tail]. rewrite Htail. done.
  - split; [|split; [|done]].
    + exists (zlen (entries ++ [sealed_entry log r])). rewrite full_head_app, Htail, Hentries.
      split; [apply committed_count_full; by rewrite last_snoc|].
      unfold commit_tail, push_tail. cbn [committed uncommitted_tail].
      unfold zlen. rewrite Nat2Z.id, take_ge, drop_ge by done. rewrite Hentries, Htail. done.
    + done.
Qed.
End appending.
