(* ===== verification/MemoryCandidateFacts.v ===== *)
(** Facts about the review queue: what its load-time validation establishes,
    when a ledger is its own migration, and what one step of the migration and of
    the reconciliation does to the decisions it carries. *)
From S2P Require Export MemoryState.
Local Open Scope Z_scope.

Lemma set_status_same c : set_status (cand_status c) c = c.
Proof. by destruct c. Qed.
Lemma set_status_twice σ τ c : set_status σ (set_status τ c) = set_status σ c.
Proof. done. Qed.

Lemma matches_ignoring_status_true stored expected :
  matches_ignoring_status stored expected = true ↔
    set_status (cand_status expected) stored = expected.
Proof. unfold matches_ignoring_status. apply bool_decide_eq_true. Qed.

Lemma matches_set_status σ c : matches_ignoring_status (set_status σ c) c = true.
Proof. apply matches_ignoring_status_true. rewrite set_status_twice. apply set_status_same. Qed.

Lemma matches_ignoring_status_id stored expected :
  matches_ignoring_status stored expected = true →
  cand_id stored = cand_id expected ∧ cand_governed_task_id stored = cand_governed_task_id expected.
Proof. intros <-%matches_ignoring_status_true. done. Qed.

(** * Maps as lists of items *)

(** A projection of a map's values repeats nothing exactly when it tells the
    keys apart. *)
Lemma NoDup_btree_values {V B} `{EqDecision B} (f : V → B) (m : gmap rstring V) :
  NoDup (f <$> (btree_items str_leb m).*2) ↔
    ∀ k1 k2 v1 v2, m !! k1 = Some v1 → m !! k2 = Some v2 → f v1 = f v2 → k1 = k2.
Proof.
  rewrite (btree_items_perm str_leb m).
  induction m as [|k v m Hk Hfresh IH] using map_first_key_ind.
  - rewrite map_to_list_empty. split; [|constructor]. intros _ k1 k2 v1 v2.
    by rewrite lookup_empty.
  - rewrite map_to_list_insert_first_key by done. cbn. rewrite NoDup_cons, IH. split.
    + intros [Hnotin Hinj] k1 k2 v1 v2.
      assert (Hout : ∀ k' v', m !! k' = Some v' → f v' ≠ f v).
      { intros k' v' Hv Heq. apply Hnotin. rewrite <-Heq. apply list_elem_of_fmap.
        exists v'. split; [done|]. apply list_elem_of_fmap. exists (k', v'). split; [done|].
        by apply elem_of_map_to_list. }
      rewrite !lookup_insert_Some. naive_solver.
    + intros Hinj. split.
      * intros (v' & Heq & ([k' ?] & -> & Hv%elem_of_map_to_list)%list_elem_of_fmap)%list_elem_of_fmap.
        cbn in *. assert (k = k') as <-; [|by simplify_eq].
        eapply Hinj; [by rewrite lookup_insert_eq|rewrite lookup_insert_ne; [done|]|done].
        intros ->. by simplify_eq.
      * intros k1 k2 v1 v2 H1 H2. apply Hinj; (rewrite lookup_insert_ne; [done|]);
          intros ->; congruence.
Qed.

(** Iterating over a map's items and asking a property of each. *)
Lemma Forall_btree_items {V} (P : rstring * V → Prop) (m : gmap rstring V) :
  Forall P (btree_items str_leb m) ↔ ∀ k v, m !! k = Some v → P (k, v).
Proof.
  rewrite Forall_forall. split.
  - intros HP k v Hv. apply HP. by apply elem_of_btree_items.
  - intros HP [k v] Hin. apply HP. by apply elem_of_btree_items in Hin.
Qed.

(** * Validation *)

Section validation.
Context `{Host}.

Lemma validate_candidate_entries_Ok task_ids entries :
  validate_candidate_entries task_ids entries = Ok tt ↔
    Forall (λ e, e.1 = cand_id e.2 ∧ validate_candidate e.2 = Ok tt) entries
    ∧ NoDup (cand_governed_task_id <$> entries.*2)
    ∧ Forall (λ e, cand_governed_task_id e.2 ∉ task_ids) entries.
Proof.
  revert task_ids. induction entries as [|[k c] entries IH]; intros task_ids.
  - cbn. split; [|done]. split; [constructor|]. split; constructor.
  - cbn [validate_candidate_entries]. rewrite !fmap_cons, NoDup_cons, !Forall_cons. cbn [fst snd].
    split.
    + intros Hok. result_inv. bool_inv. unfold memory_context in *. result_inv. subst.
      match goal with Hrest : validate_candidate_entries _ _ = Ok tt |- _ =>
        apply IH in Hrest as (Hall & Hnd & Hfresh) end.
      rewrite Forall_forall in Hfresh. split; [done|]. split; [split; [|done]|split; [done|]].
      * intros (c' & Heq & ([k' ?] & -> & Hin)%list_elem_of_fmap)%list_elem_of_fmap.
        specialize (Hfresh _ Hin). cbn in *. set_solver.
      * apply Forall_forall. intros e Hin. specialize (Hfresh _ Hin). set_solver.
    + intros ([[-> Hvalid] Hall] & [Hnotin Hnd] & [Hc Hfresh]).
      rewrite bool_decide_eq_false_2 by naive_solver. cbn [reject_if]. rewrite bind_ret_l.
      unfold memory_context. rewrite Hvalid. cbn [map_err]. rewrite bind_ret_l.
      case_bool_decide; [done|]. cbn [reject_if]. rewrite bind_ret_l.
      apply IH. split; [done|]. split; [done|]. rewrite Forall_forall in Hfresh |- *.
      intros e Hin Hin'. apply elem_of_union in Hin' as [Heq%elem_of_singleton|Hin'].
      * apply Hnotin. apply list_elem_of_fmap. exists e.2. split; [done|].
        apply list_elem_of_fmap. by exists e.
      * by apply (Hfresh e Hin).
Qed.

(** What a ledger that validates is. *)
Record valid_ledger (l : MemoryCandidateLedger) : Prop := {
  valid_schema : MEMORY_CANDIDATES_LEDGER_MIN_SUPPORTED_SCHEMA_VERSION ≤ ml_schema_version l
                 ≤ MEMORY_CANDIDATES_LEDGER_SCHEMA_VERSION;
  valid_candidate k c :
    ml_candidates l !! k = Some c → k = cand_id c ∧ validate_candidate c = Ok tt;
  valid_tasks k1 k2 c1 c2 :
    ml_candidates l !! k1 = Some c1 → ml_candidates l !! k2 = Some c2 →
    cand_governed_task_id c1 = cand_governed_task_id c2 → k1 = k2
}.

Lemma validate_candidate_ledger_Ok l : validate_candidate_ledger l = Ok tt ↔ valid_ledger l.
Proof.
  unfold validate_candidate_ledger.
  assert (Hentries : validate_candidate_entries ∅ (btree_items str_leb (ml_candidates l)) = Ok tt
    ↔ (∀ k c, ml_candidates l !! k = Some c → k = cand_id c ∧ validate_candidate c = Ok tt)
      ∧ (∀ k1 k2 c1 c2, ml_candidates l !! k1 = Some c1 → ml_candidates l !! k2 = Some c2 →
           cand_governed_task_id c1 = cand_governed_task_id c2 → k1 = k2)).
  { rewrite validate_candidate_entries_Ok, Forall_btree_items, NoDup_btree_values.
    split; [by intros (? & ? & _)|]. intros [? ?]. split; [done|]. split; [done|].
    apply Forall_forall. set_solver. }
  split.
  - intros Hok. result_inv. bool_inv.
    match goal with Hrest : validate_candidate_entries _ _ = Ok tt |- _ =>
      apply Hentries in Hrest as [Hc Ht] end.
    by split.
  - intros [[Hlow Hhigh] Hc Ht]. apply Z.ltb_ge in Hlow, Hhigh. rewrite Hlow, Hhigh.
    cbn [orb reject_if]. rewrite bind_ret_l. by apply Hentries.
Qed.

(** A candidate that validates has the current derivation. *)
Lemma validate_candidate_current c : validate_candidate c = Ok tt → is_stale c = false.
Proof.
  unfold validate_candidate, validate_candidate_head, invalid_if, is_stale. intros Hok.
  result_inv. done.
Qed.

(** [validate_candidate] of the status alone. *)
Lemma validate_candidate_set_status σ c :
  validate_candidate c = Ok tt → validate_status σ = Ok tt →
  validate_candidate (set_status σ c) = Ok tt.
Proof.
  unfold validate_candidate, validate_candidate_head, invalid_if. intros Hok Hσ.
  apply bind_Ok in Hok as ([] & Hhead & Hrest).
  apply bind_Ok in Hhead as ([] & Hschema & Hhead).
  apply bind_Ok in Hhead as ([] & Hversion & Hhead).
  apply bind_Ok in Hhead as ([] & Hid & _).
  cbn [cand_id cand_schema_version cand_derivation_version cand_status set_status].
  rewrite Hschema, bind_ret_l, Hversion, bind_ret_l, Hid, bind_ret_l, Hσ, bind_ret_l.
  exact Hrest.
Qed.

Lemma validate_candidate_status c : validate_candidate c = Ok tt → validate_status (cand_status c) = Ok tt.
Proof. unfold validate_candidate, validate_candidate_head. intros Hok. by result_inv. Qed.

(** * Migration *)

Lemma migrate_fresh l :
  (∀ k c, ml_candidates l !! k = Some c → is_stale c = false) →
  migrate_superseded_derivations l = l.
Proof.
  intros Hfresh. unfold migrate_superseded_derivations.
  replace (filter _ _) with (@nil (rstring * AcceptedRunMemoryCandidate)); [done|].
  symmetry. apply filter_none, Forall_btree_items. intros k c Hc Hstale.
  cbn in Hstale. by rewrite (Hfresh _ _ Hc) in Hstale.
Qed.

Lemma valid_ledger_fresh l :
  valid_ledger l → ∀ k c, ml_candidates l !! k = Some c → is_stale c = false.
Proof. intros Hl k c Hc. apply validate_candidate_current. by apply (valid_candidate l Hl k c). Qed.

Lemma load_valid l : valid_ledger l → load_candidate_ledger (Some l) = Ok l.
Proof.
  intros Hl. unfold load_candidate_ledger.
  change (default candidates_default (Some l)) with l.
  rewrite migrate_fresh by by apply valid_ledger_fresh.
  by rewrite (proj2 (validate_candidate_ledger_Ok l) Hl).
Qed.

Lemma load_candidate_ledger_Ok file l :
  load_candidate_ledger file = Ok l →
  l = migrate_superseded_derivations (default candidates_default file) ∧ valid_ledger l.
Proof.
  unfold load_candidate_ledger. intros Hok. result_inv. split; [done|].
  by apply validate_candidate_ledger_Ok.
Qed.

(** Loading what was loaded changes nothing. *)
Lemma load_loaded file l :
  load_candidate_ledger file = Ok l → load_candidate_ledger (Some l) = Ok l.
Proof. intros [_ Hl]%load_candidate_ledger_Ok. by apply load_valid. Qed.
End validation.

(** * Decisions *)

(** The ledger holds decision [σ] on the run [g]: at its candidate, or parked. *)
Definition holds_decision (l : MemoryCandidateLedger) (g : rstring) (σ : MemoryCandidateStatus)
    : Prop :=
  is_pending σ = false ∧
  ((∃ k c, ml_candidates l !! k = Some c ∧ cand_governed_task_id c = g ∧ cand_status c = σ)
   ∨ ml_pending_status_migrations l !! g = Some σ).

(** No run has two decisions. *)
Definition one_decision_per_run (l : MemoryCandidateLedger) : Prop :=
  ∀ g σ τ, holds_decision l g σ → holds_decision l g τ → σ = τ.

Definition same_decisions (l l' : MemoryCandidateLedger) : Prop :=
  ∀ g σ, holds_decision l g σ ↔ holds_decision l' g σ.

#[export] Instance same_decisions_equivalence : Equivalence same_decisions.
Proof.
  split; unfold same_decisions.
  - done.
  - intros l l' H g σ. by rewrite H.
  - intros l l' l'' H H' g σ. by rewrite H.
Qed.

#[export] Instance holds_decision_proper :
  Proper (same_decisions ==> eq ==> eq ==> iff) holds_decision.
Proof. intros l l' H g _ <- σ _ <-. apply H. Qed.

#[export] Instance one_decision_proper : Proper (same_decisions ==> iff) one_decision_per_run.
Proof. intros l l' H. unfold one_decision_per_run. by setoid_rewrite H. Qed.

Lemma and_iff_r (P A B : Prop) : (P → A ↔ B) → P ∧ A ↔ P ∧ B.
Proof. tauto. Qed.

(** Migrating one candidate keeps every decision. *)
Lemma migrate_one_decisions l k c :
  one_decision_per_run l → ml_candidates l !! k = Some c →
  same_decisions l (migrate_one l (k, c)).
Proof.
  intros Hone Hc g σ. unfold migrate_one, holds_decision. cbn [fst snd].
  destruct (is_pending (cand_status c)) eqn:Hpending;
    cbn [ml_candidates ml_pending_status_migrations ml_set_candidates ml_set_parked].
  - apply and_iff_r. intros Hσ.
    assert (Hcands : (∃ k' c', ml_candidates l !! k' = Some c' ∧ cand_governed_task_id c' = g
        ∧ cand_status c' = σ) ↔ (∃ k' c', delete k (ml_candidates l) !! k' = Some c' ∧
        cand_governed_task_id c' = g ∧ cand_status c' = σ)); [|by rewrite Hcands].
    setoid_rewrite lookup_delete_Some. split; [|naive_solver].
    intros (k' & c' & Hc' & Hg & Hs). exists k', c'. split; [|done]. split; [|done].
    intros <-. simplify_eq. congruence.
  - apply and_iff_r. intros Hσ. setoid_rewrite lookup_delete_Some.
    rewrite lookup_insert_Some. split.
    + intros [(k' & c' & Hc' & Hg & Hs)|Hparked].
      * destruct (decide (k = k')) as [<-|Hk]; [|by left; eauto 10].
        simplify_eq. right. by left.
      * destruct (decide (cand_governed_task_id c = g)) as [Hg|]; [|by right; right].
        right. left. split; [done|]. apply (Hone g); [|by split; [|right]].
        split; [done|]. left. by exists k, c.
    + intros [(k' & c' & [_ Hc'] & Hg & Hs)|[[Hg Hs]|[_ Hparked]]]; [left..|by right].
      * by exists k', c'.
      * by exists k, c.
Qed.

Lemma migrate_one_candidates l entry :
  ml_candidates (migrate_one l entry) = delete entry.1 (ml_candidates l).
Proof. unfold migrate_one. by destruct (is_pending _). Qed.

Lemma migrate_all_decisions entries l :
  one_decision_per_run l → NoDup entries.*1 →
  Forall (λ e, ml_candidates l !! e.1 = Some e.2) entries →
  same_decisions l (foldl migrate_one l entries).
Proof.
  revert l. induction entries as [|[k c] entries IH]; intros l Hone Hnd Hall; [done|].
  rewrite fmap_cons in Hnd. apply NoDup_cons in Hnd as [Hk Hnd].
  apply Forall_cons in Hall as [Hc Hall]. cbn [fst snd] in *. cbn [foldl].
  pose proof (migrate_one_decisions l k c Hone Hc) as Hstep. etrans; [exact Hstep|].
  apply IH; [by rewrite <-Hstep|done|]. rewrite migrate_one_candidates.
  rewrite Forall_forall in Hall |- *. intros e He. cbn [fst].
  rewrite lookup_delete_ne; [by apply Hall|]. intros Heq. apply Hk. rewrite Heq.
  by apply list_elem_of_fmap_2.
Qed.

Lemma NoDup_btree_keys {V} (m : gmap rstring V) : NoDup (btree_items str_leb m).*1.
Proof. rewrite (btree_items_perm str_leb m). apply NoDup_fst_map_to_list. Qed.

(** The derivation migration keeps every decision. *)
Lemma migrate_decisions l :
  one_decision_per_run l → same_decisions l (migrate_superseded_derivations l).
Proof.
  intros Hone. apply migrate_all_decisions; [done| |].
  - apply (sublist_NoDup _ _ (NoDup_btree_keys (ml_candidates l))). apply fmap_sublist, sublist_filter.
  - apply Forall_forall. intros [k c] [_ Hin]%list_elem_of_filter.
    by apply elem_of_btree_items in Hin.
Qed.

(** * Reconciliation *)

(** Joining one expected candidate keeps every decision, and invents none. *)
Lemma reconcile_expected_decisions l k e :
  is_pending (cand_status e) = true → same_decisions l (reconcile_expected l (k, e)).
Proof.
  intros He g σ. unfold reconcile_expected. cbn [fst snd].
  case_bool_decide as Hk; [done|]. rewrite <-eq_None_not_Some in Hk.
  unfold holds_decision.
  cbn [ml_candidates ml_pending_status_migrations ml_set_candidates ml_set_parked].
  apply and_iff_r. intros Hσ. setoid_rewrite lookup_insert_Some.
  rewrite lookup_delete_Some. split.
  - intros [(k' & c & Hc & Hg & Hs)|Hparked].
    + left. exists k', c. split; [right; split; [congruence|done]|done].
    + destruct (decide (cand_governed_task_id e = g)) as [Hg|]; [|by right].
      left. eexists k, _. split; [by left|]. rewrite Hg, Hparked.
      unfold carry_status_forward. by rewrite Hσ.
  - intros [(k' & c & [[<- <-]|[Hne Hc]] & Hg & Hs)|[_ Hparked]]; [|left; eauto|by right].
    revert Hg Hs. destruct (ml_pending_status_migrations l !! cand_governed_task_id e)
      as [τ|] eqn:Hτ; [|intros _ <-; congruence].
    unfold carry_status_forward. destruct (is_pending τ) eqn:Hpending; [intros _ <-; congruence|].
    intros <- <-. right. done.
Qed.

Lemma reconcile_all_decisions entries l :
  Forall (λ e, is_pending (cand_status e.2) = true) entries →
  same_decisions l (foldl reconcile_expected l entries).
Proof.
  intros Hall. revert l. induction Hall as [|[k e] entries He _ IH]; intros l; [done|].
  cbn [foldl]. etrans; [by apply reconcile_expected_decisions|apply IH].
Qed.

Lemma drop_pending_decisions l :
  same_decisions l
    (ml_set_parked (filter (λ entry, is_pending entry.2 = false) (ml_pending_status_migrations l)) l).
Proof.
  intros g σ. unfold holds_decision.
  cbn [ml_candidates ml_pending_status_migrations ml_set_parked].
  apply and_iff_r. intros Hσ. rewrite map_lookup_filter_Some. naive_solver.
Qed.

(** What one step does to the candidates: it adds at most the expected one. *)
Lemma reconcile_expected_lookup l k e k' :
  ml_candidates (reconcile_expected l (k, e)) !! k' =
    match ml_candidates l !! k' with
    | Some c => Some c
    | None => if decide (k = k') then Some (match ml_pending_status_migrations l
                                                    !! cand_governed_task_id e with
                                            | Some σ => carry_status_forward σ e
                                            | None => e
                                            end)
              else None
    end.
Proof.
  unfold reconcile_expected. cbn [fst snd]. case_bool_decide as Hk.
  - destruct Hk as [c Hc]. destruct (ml_candidates l !! k') as [c'|] eqn:Hc'; [done|].
    rewrite decide_False; [done|]. intros ->. congruence.
  - rewrite <-eq_None_not_Some in Hk. cbn [ml_candidates ml_set_candidates].
    destruct (decide (k = k')) as [<-|Hne].
    + by rewrite lookup_insert_eq, Hk.
    + rewrite lookup_insert_ne by done. by destruct (ml_candidates l !! k').
Qed.

(** A candidate already in the queue is never changed. *)
Lemma reconcile_all_keeps entries l k c :
  ml_candidates l !! k = Some c →
  ml_candidates (foldl reconcile_expected l entries) !! k = Some c.
Proof.
  revert l. induction entries as [|[k' e] entries IH]; intros l Hc; [done|].
  apply IH. by rewrite reconcile_expected_lookup, Hc.
Qed.

(** An expected candidate is in the queue, and what joined is expected. *)
Lemma carry_matches σ e : matches_ignoring_status (carry_status_forward σ e) e = true.
Proof.
  unfold carry_status_forward. destruct (is_pending σ); [|apply matches_set_status].
  apply matches_ignoring_status_true, set_status_same.
Qed.

Lemma reconcile_all_complete entries l :
  Forall (λ e, is_Some (ml_candidates (foldl reconcile_expected l entries) !! e.1)) entries.
Proof.
  revert l. induction entries as [|[k e] entries IH]; intros l; constructor; [|apply IH].
  cbn [foldl fst]. destruct (ml_candidates (reconcile_expected l (k, e)) !! k) as [c|] eqn:Hc.
  - exists c. by apply reconcile_all_keeps.
  - rewrite reconcile_expected_lookup, decide_True in Hc by done.
    by destruct (ml_candidates l !! k).
Qed.

Lemma reconcile_all_sound entries l k c :
  ml_candidates (foldl reconcile_expected l entries) !! k = Some c →
  ml_candidates l !! k = Some c ∨
  ∃ e, (k, e) ∈ entries ∧ matches_ignoring_status c e = true.
Proof.
  revert l. induction entries as [|[k' e] entries IH]; intros l Hc; [by left|].
  apply IH in Hc as [Hc|(e' & Hin & Hm)]; [|right; exists e'; split; [by right|done]].
  rewrite reconcile_expected_lookup in Hc.
  destruct (ml_candidates l !! k) as [c'|]; [by left|].
  case_decide as Hk; [|done]. subst k'. injection Hc as <-. right. exists e.
  split; [by left|]. case_match; [apply carry_matches|].
  apply matches_ignoring_status_true, set_status_same.
Qed.

(** Every expected candidate already in the queue: nothing joins. *)
Lemma reconcile_all_none entries l :
  Forall (λ e, is_Some (ml_candidates l !! e.1)) entries → foldl reconcile_expected l entries = l.
Proof.
  induction 1 as [|[k e] entries Hk _ IH]; [done|]. cbn [foldl]. unfold reconcile_expected at 2.
  cbn [fst] in *. by rewrite bool_decide_eq_true_2.
Qed.

(** Every stored candidate has its expected one. *)
Definition stored_expected (l : MemoryCandidateLedger)
    (expected : gmap rstring AcceptedRunMemoryCandidate) : Prop :=
  ∀ k c, ml_candidates l !! k = Some c →
    ∃ e, expected !! k = Some e ∧ matches_ignoring_status c e = true.

Lemma for_each_reconcile_stored l expected :
  for_each (reconcile_stored expected) (btree_items str_leb (ml_candidates l)) = Ok tt ↔
    stored_expected l expected.
Proof.
  rewrite for_each_Ok, Forall_btree_items. unfold stored_expected, reconcile_stored.
  cbn [fst snd]. split; intros Hall k c Hc; specialize (Hall k c Hc).
  - result_inv. bool_inv. eauto.
  - destruct Hall as (e & He & Hm). rewrite He. cbn [ok_or]. by rewrite bind_ret_l, Hm.
Qed.

(** What a reconciliation that succeeds leaves. *)
Definition repaired_ledger (l : MemoryCandidateLedger)
    (expected : gmap rstring AcceptedRunMemoryCandidate) : MemoryCandidateLedger :=
  let repaired := foldl reconcile_expected l (btree_items str_leb expected) in
  ml_set_parked
    (filter (λ entry, is_pending entry.2 = false) (ml_pending_status_migrations repaired)) repaired.

Lemma reconciled_Ok l expected repair :
  reconciled_candidate_ledger l expected = Ok repair ↔
    stored_expected l expected ∧
    repair = if bool_decide (ml_candidates (repaired_ledger l expected) ≠ ml_candidates l)
                || bool_decide (ml_pending_status_migrations (repaired_ledger l expected)
                                ≠ ml_pending_status_migrations l)
             then Some (repaired_ledger l expected) else None.
Proof.
  unfold reconciled_candidate_ledger. rewrite <-for_each_reconcile_stored. split.
  - intros Hok. apply bind_Ok in Hok as ([] & Hall & Hok). apply Ok_inj in Hok as <-. done.
  - by intros [-> ->].
Qed.

Lemma repaired_stored_expected l expected :
  stored_expected l expected → stored_expected (repaired_ledger l expected) expected.
Proof.
  intros Hl k c Hc. cbn [repaired_ledger ml_candidates ml_set_parked] in Hc.
  apply reconcile_all_sound in Hc as [Hc|(e & Hin & Hm)]; [by apply Hl|].
  exists e. by apply elem_of_btree_items in Hin.
Qed.

Lemma repaired_complete l expected :
  Forall (λ e, is_Some (ml_candidates (repaired_ledger l expected) !! e.1))
    (btree_items str_leb expected).
Proof. apply reconcile_all_complete. Qed.

(** Repairing again changes nothing. *)
Lemma repaired_again l expected :
  repaired_ledger (repaired_ledger l expected) expected = repaired_ledger l expected.
Proof.
  unfold repaired_ledger at 1. rewrite reconcile_all_none by apply repaired_complete.
  unfold repaired_ledger. cbn [ml_pending_status_migrations ml_set_parked].
  by rewrite map_filter_filter_l.
Qed.

Lemma repaired_decisions l expected :
  (∀ k e, expected !! k = Some e → is_pending (cand_status e) = true) →
  same_decisions l (repaired_ledger l expected).
Proof.
  intros He. unfold repaired_ledger. etrans; [|apply drop_pending_decisions].
  apply reconcile_all_decisions, Forall_btree_items. exact He.
Qed.
