(* ===== verification/MemoryOps.v ===== *)
(** Reasoning about the computations of [MemoryState]: inversion of one that ran,
    case analysis on its steps, and what the expected candidates of a list of runs
    are. *)
From S2P Require Export MemoryCandidateFacts.
Local Open Scope Z_scope.

(** * Inversion *)

Section inversion.
Context {A B : Type}.
Implicit Types (st : MemoryState).

Lemma op_bind_Ok (m : memory_op A) (f : A → memory_op B) st b st' :
  (m ≫= f) st = (Ok b, st') ↔ ∃ a st1, m st = (Ok a, st1) ∧ f a st1 = (Ok b, st').
Proof. unfold mbind, memory_op_bind. destruct (m st) as [[] ?]; naive_solver. Qed.

Lemma op_bind_Err (m : memory_op A) (f : A → memory_op B) st e st' :
  (m ≫= f) st = (Err e, st') ↔
    m st = (Err e, st') ∨ ∃ a st1, m st = (Ok a, st1) ∧ f a st1 = (Err e, st').
Proof. unfold mbind, memory_op_bind. destruct (m st) as [[] ?]; naive_solver. Qed.

Lemma op_bind_run (m : memory_op A) (f : A → memory_op B) st a st1 :
  m st = (Ok a, st1) → (m ≫= f) st = f a st1.
Proof. unfold mbind, memory_op_bind. by intros ->. Qed.

Lemma op_bind_fail (m : memory_op A) (f : A → memory_op B) st e st1 :
  m st = (Err e, st1) → (m ≫= f) st = (Err e, st1).
Proof. unfold mbind, memory_op_bind. by intros ->. Qed.

Lemma attempt_Ok (m : memory_result A) st a st' :
  attempt m st = (Ok a, st') ↔ m = Ok a ∧ st' = st.
Proof. unfold attempt. naive_solver. Qed.

Lemma attempt_Err (m : memory_result A) st e st' :
  attempt m st = (Err e, st') ↔ m = Err e ∧ st' = st.
Proof. unfold attempt. naive_solver. Qed.

Lemma gets_run (f : MemoryState → A) st a st' :
  gets f st = (a, st') ↔ a = Ok (f st) ∧ st' = st.
Proof. unfold gets. naive_solver. Qed.

Lemma modify_run f st a st' : modify f st = (a, st') ↔ a = Ok tt ∧ st' = f st.
Proof. unfold modify. naive_solver. Qed.

Lemma ret_run (x : A) st a st' : (mret x : memory_op A) st = (a, st') ↔ a = Ok x ∧ st' = st.
Proof. unfold mret, memory_op_ret. naive_solver. Qed.
End inversion.

Lemma io_Ok done context st st' : io done context st = (Ok tt, st') ↔ done = true ∧ st' = st.
Proof.
  unfold io, memory_context. rewrite attempt_Ok, map_err_Ok, reject_if_Ok, negb_false_iff. done.
Qed.

Lemma io_Err done context st e st' :
  io done context st = (Err e, st') ↔
    done = false ∧ e = MemoryContext context (MemoryMessage (lit "i/o error")) ∧ st' = st.
Proof.
  unfold io, memory_context. rewrite attempt_Err. destruct done; cbn [negb reject_if map_err];
    naive_solver.
Qed.

(** [op_inv] takes a computation that ran to its end apart; [op_err] one that
    failed, into the place it failed at. *)
Ltac op_inv_step :=
  match goal with
  | H : mbind _ _ _ = (Ok _, _) |- _ => apply op_bind_Ok in H; destruct H as (? & ? & ? & H)
  | H : attempt _ _ = (Ok _, _) |- _ => apply attempt_Ok in H; destruct H as [H ?]; subst
  | H : gets _ _ = (Ok _, _) |- _ =>
      apply gets_run in H; destruct H as [H ?]; apply Ok_inj in H; subst
  | H : modify _ _ = (Ok _, _) |- _ => apply modify_run in H; destruct H as [H ?]; subst
  | H : mret _ _ = (Ok _, _) |- _ =>
      apply ret_run in H; destruct H as [H ?]; apply Ok_inj in H; subst
  | H : io _ _ _ = (Ok ?u, _) |- _ => destruct u; apply io_Ok in H; destruct H as [H ?]; subst
  | u : unit |- _ => destruct u
  | H : Ok tt = Ok tt |- _ => clear H
  end.
Ltac op_inv := repeat op_inv_step.

Ltac op_err_step :=
  match goal with
  | H : mbind _ _ _ = (Err _, _) |- _ =>
      apply op_bind_Err in H; destruct H as [H|(? & ? & ? & H)]
  | H : attempt _ _ = (Err _, _) |- _ => apply attempt_Err in H; destruct H as [H ?]; subst
  | H : gets _ _ = (Err _, _) |- _ => apply gets_run in H; destruct H as [H _]; discriminate H
  | H : modify _ _ = (Err _, _) |- _ => apply modify_run in H; destruct H as [H _]; discriminate H
  | H : mret _ _ = (Err _, _) |- _ => apply ret_run in H; destruct H as [H _]; discriminate H
  | H : io _ _ _ = (Err _, _) |- _ => apply io_Err in H; destruct H as (? & ? & ?); subst
  end.
Ltac op_err := repeat (op_err_step || op_inv_step).

(** A computation either stops at its first step or goes on with its value. *)
Ltac op_case H :=
  match type of H with
  | mbind ?f ?m ?st = (_, _) =>
      let Hm := fresh "Hm" in
      destruct (m st) as [[?|?] ?] eqn:Hm;
      [rewrite (op_bind_run _ _ _ _ _ Hm) in H
      |rewrite (op_bind_fail _ _ _ _ _ Hm) in H; injection H as <- <-; op_err]
  end; op_inv.

(** * The expected candidates *)

Section expected.
Context `{Host, CandidateJson}.

Lemma derive_Ok task c :
  derive_accepted_run_memory_candidate task = Ok c →
  ∃ e, accepted_evidence task = Ok e ∧
    c = candidate_of_source (candidate_source task e)
          (sha256_hex (candidate_source_json (candidate_source task e))) ∧
    validate_candidate c = Ok tt.
Proof.
  unfold derive_accepted_run_memory_candidate. intros Hok.
  apply bind_Ok in Hok as (e & He & Hok). result_inv. eauto.
Qed.

Lemma derive_pending task c :
  derive_accepted_run_memory_candidate task = Ok c → cand_status c = PendingReview.
Proof. by intros (e & _ & -> & _)%derive_Ok. Qed.

Lemma derive_task_id task c :
  derive_accepted_run_memory_candidate task = Ok c → cand_governed_task_id c = run_id task.
Proof. by intros (e & _ & -> & _)%derive_Ok. Qed.

Lemma derive_all_Ok tasks cs :
  derive_all tasks = Ok cs ↔ Forall2 (λ t c, derive_accepted_run_memory_candidate t = Ok c) tasks cs.
Proof.
  revert cs. induction tasks as [|t tasks IH]; intros cs; cbn [derive_all].
  - split; [intros [= <-]; constructor|by intros Hall; inversion Hall].
  - split.
    + intros Hok. apply bind_Ok in Hok as (c & Hc & Hok).
      apply bind_Ok in Hok as (cs' & Hcs & Hok). apply Ok_inj in Hok as <-.
      constructor; [done|]. by apply IH.
    + intros Hall. inversion Hall as [|? c ? cs' Hc Hcs]; subst. apply IH in Hcs.
      by rewrite Hc, bind_ret_l, Hcs.
Qed.

Lemma foldl_insert_lookup (cs : list AcceptedRunMemoryCandidate) (m : gmap rstring AcceptedRunMemoryCandidate) k c :
  foldl (λ m candidate, <[cand_id candidate := candidate]> m) m cs !! k = Some c →
  m !! k = Some c ∨ (c ∈ cs ∧ k = cand_id c).
Proof.
  revert m. induction cs as [|c' cs IH]; intros m Hc; [by left|].
  apply IH in Hc as [Hc|[Hin ->]]; [|right; split; [by right|done]].
  apply lookup_insert_Some in Hc as [[<- <-]|[_ Hc]]; [|by left]. right. split; [by left|done].
Qed.

(** An expected candidate is the derivation of an accepted run, under its id. *)
Lemma expected_Ok tasks expected k c :
  expected_accepted_run_candidates tasks = Ok expected → expected !! k = Some c →
  k = cand_id c ∧
  ∃ t, t ∈ tasks ∧ is_accepted t = true ∧ derive_accepted_run_memory_candidate t = Ok c.
Proof.
  unfold expected_accepted_run_candidates. intros Hok Hc.
  apply bind_Ok in Hok as (cs & Hcs%derive_all_Ok & Hok). apply Ok_inj in Hok as <-.
  apply foldl_insert_lookup in Hc as [Hc|[Hin ->]]; [by rewrite lookup_empty in Hc|].
  split; [done|]. apply list_elem_of_lookup_1 in Hin as [i Hi].
  destruct (Forall2_lookup_r _ _ _ _ _ Hcs Hi) as (t & Ht & Hderive).
  apply list_elem_of_lookup_2, list_elem_of_filter in Ht as [Ha Ht]. by exists t.
Qed.

Lemma expected_pending tasks expected :
  expected_accepted_run_candidates tasks = Ok expected →
  ∀ k c, expected !! k = Some c → is_pending (cand_status c) = true.
Proof.
  intros Hok k c Hc. destruct (expected_Ok _ _ _ _ Hok Hc) as (_ & t & _ & _ & Hd).
  by rewrite (derive_pending _ _ Hd).
Qed.
End expected.
