(* ===== verification/MemorySample.v ===== *)
(** A concrete JSON stand-in for the memory artifacts, with its laws, on which
    the theorems about project memory are instantiated: a value is flattened to
    numbers, a text to its length and characters, and each number becomes one
    character above every control character. *)
From S2P Require Export MemoryLogFacts MemoryState Sample.
Local Open Scope Z_scope.

(** * Numbers as characters *)

(** [100, 102, 104, ...] for [0, 1, 2, ...] and [101, 103, ...] for the negative. *)
Definition digit_of (z : Z) : Z := if 0 <=? z then 100 + 2 * z else 99 - 2 * z.
Definition of_digit (c : Z) : Z := if Z.even c then (c - 100) / 2 else - ((c - 99) / 2).

Lemma of_digit_of z : of_digit (digit_of z) = z.
Proof.
  unfold of_digit, digit_of. destruct (Z.leb_spec 0 z).
  - replace (100 + 2 * z) with (2 * (50 + z)) by lia. rewrite Z.even_mul. cbn [Z.even orb].
    replace (2 * (50 + z) - 100) with (z * 2) by lia. by rewrite Z.div_mul.
  - replace (99 - 2 * z) with (1 + 2 * (49 - z)) by lia. rewrite Z.even_add_mul_2. cbn [Z.even].
    replace (1 + 2 * (49 - z) - 99) with (- z * 2) by lia. rewrite Z.div_mul by lia. lia.
Qed.

Lemma digit_of_bound z : 100 ≤ digit_of z.
Proof. unfold digit_of. destruct (Z.leb_spec 0 z); lia. Qed.

Definition sample_text (zs : list Z) : rstring := 123 :: (digit_of <$> zs).
Definition sample_untext (s : rstring) : option (list Z) :=
  match s with 123 :: s => Some (of_digit <$> s) | _ => None end.

Lemma sample_untext_text zs : sample_untext (sample_text zs) = Some zs.
Proof.
  cbn. f_equal. rewrite <-list_fmap_compose. rewrite <-(list_fmap_id zs) at 2.
  apply list_fmap_ext. intros i z _. apply of_digit_of.
Qed.

Lemma sample_text_line zs : Forall (λ c, c ≠ 10 ∧ c ≠ 13) (sample_text zs).
Proof.
  constructor; [done|]. apply Forall_fmap, Forall_forall. intros z _. cbn.
  pose proof (digit_of_bound z). lia.
Qed.

(** * Values as numbers *)

(** A reader takes a value off the front of the numbers. *)
Definition reader (A : Type) : Type := list Z → option (A * list Z).
Class Flat (A : Type) := {
  flatten : A → list Z;
  unflatten : reader A;
  unflatten_flatten a rest : unflatten (flatten a ++ rest) = Some (a, rest)
}.

#[export] Instance flat_Z : Flat Z.
Proof.
  refine {| flatten z := [z]; unflatten zs := match zs with z :: zs => Some (z, zs) | [] => None end |}.
  done.
Defined.

#[export] Instance flat_string : Flat rstring.
Proof.
  refine {| flatten s := zlen s :: s;
            unflatten zs := match zs with
                            | n :: zs => Some (take (Z.to_nat n) zs, drop (Z.to_nat n) zs)
                            | [] => None
                            end |}.
  intros s rest. cbn [app]. unfold zlen. rewrite Nat2Z.id.
  by rewrite take_app_length, drop_app_length.
Defined.

#[export] Instance flat_pair {A B} `{Flat A, Flat B} : Flat (A * B).
Proof.
  refine {| flatten p := flatten p.1 ++ flatten p.2;
            unflatten zs := '(a, zs) ← unflatten zs ; '(b, zs) ← unflatten zs ; Some ((a, b), zs) |}.
  intros [a b] rest. cbn [fst snd]. rewrite <-app_assoc, unflatten_flatten. cbn.
  by rewrite unflatten_flatten.
Defined.

#[export] Instance flat_option {A} `{Flat A} : Flat (option A).
Proof.
  refine {| flatten o := match o with Some a => 1 :: flatten a | None => [0] end;
            unflatten zs := match zs with
                            | 1 :: zs => '(a, zs) ← unflatten zs ; Some (Some a, zs)
                            | 0 :: zs => Some (None, zs)
                            | _ => None
                            end |}.
  intros [a|] rest; cbn [app]; [|done]. by rewrite unflatten_flatten.
Defined.

(** A type that embeds in a flat one. *)
Definition flat_inj {A B} `{Flat B} (f : A → B) (g : B → A) (gf : ∀ a, g (f a) = a) : Flat A.
Proof.
  refine {| flatten a := flatten (f a);
            unflatten zs := '(b, zs) ← unflatten zs ; Some (g b, zs) |}.
  intros a rest. rewrite unflatten_flatten. cbn. by rewrite gf.
Defined.

#[export] Instance flat_kind : Flat MemoryKind.
Proof.
  refine (flat_inj (λ k, match k with AcceptedRunOutcome => 0 | OperatorNote => 1 end)
    (λ z, if z =? 0 then AcceptedRunOutcome else OperatorNote) _).
  by intros [].
Defined.

#[export] Instance flat_scope : Flat MemoryScope.
Proof.
  refine (flat_inj (λ k, match k with ProjectScope => 0 | WorkspaceScope => 1 | GlobalScope => 2 end)
    (λ z, if z =? 0 then ProjectScope else if z =? 1 then WorkspaceScope else GlobalScope) _).
  by intros [].
Defined.

#[export] Instance flat_source : Flat MemorySource.
Proof.
  refine (flat_inj
    (λ src, match src with
            | CandidateRef a b c => (0, (a, (b, c)))
            | OperatorManual note => (1, (note, ([], [])))
            end)
    (λ p : Z * (rstring * (rstring * rstring)),
       if p.1 =? 0 then CandidateRef p.2.1 p.2.2.1 p.2.2.2 else OperatorManual p.2.1) _).
  by intros [].
Defined.

Definition record_fields (r : MemoryRecord) :=
  (mem_id r, (mem_schema_version r, (mem_kind r, (mem_scope r, (mem_project_id r,
   (mem_source r, (mem_request_id r, (mem_based_on_ledger_revision r, (mem_title r,
    (mem_body r, (mem_valid_from r, (mem_superseded_by r, mem_digest r)))))))))))).

#[export] Instance flat_record : Flat MemoryRecord.
Proof.
  refine (flat_inj record_fields
    (λ '(id, (version, (kind, (scope, (project, (source, (request, (revision, (title,
         (body, (from, (superseded, digest)))))))))))),
       Build_MemoryRecord id version kind scope project source request revision title body from
         superseded digest) _).
  by intros [].
Defined.

#[export] Instance flat_entry : Flat MemoryLogEntry.
Proof.
  refine (flat_inj
    (λ e, (entry_seq e, (entry_previous_digest e, (entry_record e, entry_digest e))))
    (λ '(seq, (previous, (record, digest))), Build_MemoryLogEntry seq previous record digest) _).
  by intros [].
Defined.

#[export] Instance flat_record_source : Flat MemoryRecordSourceV1.
Proof.
  refine (flat_inj
    (λ r, (source_schema_version r, (source_kind r, (source_scope r, (source_project_id r,
       (source_source r, (source_request_id r, (source_based_on_ledger_revision r,
        (source_title r, source_body r)))))))))
    (λ '(version, (kind, (scope, (project, (source, (request, (revision, (title, body)))))))),
       Build_MemoryRecordSourceV1 version kind scope project source request revision title body)
    _).
  by intros [].
Defined.

Lemma flatten_inj {A} `{Flat A} (a b : A) : flatten a = flatten b → a = b.
Proof.
  intros Heq. apply (f_equal (λ zs, fst <$> unflatten (zs ++ []))) in Heq.
  rewrite !unflatten_flatten in Heq. by injection Heq.
Qed.

(** * The JSON texts *)

#[export] Instance sample_json : MemoryJson := {|
  record_source_json source := flatten source;
  entry_source_json seq previous record := flatten (seq, (previous, record));
  log_entry_json entry := sample_text (flatten entry);
  parse_log_entry line :=
    match zs ← sample_untext line ; unflatten zs with
    | Some (entry, []) => Ok entry
    | _ => Err (lit "expected a memory log entry")
    end
|}.

#[export] Instance sample_json_laws : MemoryJsonLaws.
Proof.
  split.
  - intros e. cbn [parse_log_entry log_entry_json sample_json]. rewrite sample_untext_text.
    cbn [mbind option_bind]. rewrite <-(app_nil_r (flatten e)). by rewrite unflatten_flatten.
  - intros e. apply sample_text_line.
  - intros e. apply (trim_nonblank _ 123); [by left|done].
  - intros * Heq%(flatten_inj (A:=Z * (rstring * MemoryRecord))). by simplify_eq.
  - intros s1 s2. apply flatten_inj.
Qed.

#[export] Instance sample_candidate_json : CandidateJson := λ source,
  flatten (cs_project_id source, (cs_governed_task_id source,
    (cs_accepted_task_revision source, (cs_task source, cs_staged_at source)))).

(** * A candidate and what its promotion writes *)

(** The value of a computation that succeeds. *)
Definition ok_value {E A} (m : result E A) : is_ok m = true → A :=
  match m return is_ok m = true → A with
  | Ok a => λ _, a
  | Err _ => λ H, False_rect A (diff_false_true H)
  end.

Definition sample_derivation : memory_result AcceptedRunMemoryCandidate := Eval vm_compute in
  derive_accepted_run_memory_candidate sample_accepted.
Definition sample_candidate : AcceptedRunMemoryCandidate := Eval vm_compute in
  ok_value sample_derivation (@eq_refl bool true <: is_ok sample_derivation = true).

Definition sample_promotion_record : memory_result MemoryRecord := Eval vm_compute in
  derive_promoted_record sample_candidate (lit "decide-1") 0 (sample_time 9).
Definition sample_memory_record : MemoryRecord := Eval vm_compute in
  ok_value sample_promotion_record (@eq_refl bool true <: is_ok sample_promotion_record = true).

Definition sample_log_entry : MemoryLogEntry := Eval vm_compute in
  sealed_entry log_default sample_memory_record.
Definition sample_log : MemoryLog := push_tail sample_log_entry log_default.
Definition sample_log_file : option rstring :=
  Some (append_line None (log_entry_json sample_log_entry)).

Example sample_candidate_derived :
  derive_accepted_run_memory_candidate sample_accepted = Ok sample_candidate.
Proof. vm_compute. reflexivity. Qed.
Example sample_log_loads :
  load_log sample_log_file (full_head sample_log) Local = Ok (commit_tail sample_log).
Proof. vm_compute. reflexivity. Qed.
