(* ===== verification/MemoryLogProps.v ===== *)
(** The properties of the promoted-memory log: a committed head determines the
    log, an append is read back as written, and the projection's code fence
    holds whatever the record's body contains. *)
From S2P Require Export MemorySample.
Local Open Scope Z_scope.

Section tamper_evidence.
Context `{Host, MemoryJson, !MemoryJsonLaws}.

(** What a load against a committed head establishes of the committed part. *)
Lemma committed_chain file head origin log :
  load_log file (Some head) origin = Ok log →
  verify_chain 0 MEMORY_LOG_GENESIS_DIGEST (committed log) = Ok tt ∧
  length (committed log) = Z.to_nat (head_entry_count head) ∧
  (committed log ≠ [] →
     chain_digest MEMORY_LOG_GENESIS_DIGEST (committed log) = head_digest head).
Proof.
  intros (entries & _ & Hchain & (count & Hcount & Htake & _) & _)%load_log_Ok.
  rewrite Htake. split; [by apply verify_chain_take|].
  revert Hcount. unfold committed_count, log_error_if. intros Hok. result_inv. bool_inv.
  match goal with Hl : entries !! _ = Some ?e |- _ =>
    rename e into last_committed; rename Hl into Hlast end.
  pose proof (lookup_lt_Some _ _ _ Hlast) as Hlt.
  destruct (decide (head_entry_count head ≤ 0)) as [Hneg|Hpos].
  - replace (Z.to_nat (head_entry_count head)) with 0%nat by lia. done.
  - split; [rewrite length_take; unfold zlen in *; lia|]. intros _.
    replace (Z.to_nat (head_entry_count head))
      with (S (Z.to_nat (head_entry_count head - 1))) by lia.
    rewrite (take_S_r _ _ _ Hlast), chain_digest_snoc. congruence.
Qed.

(** C16: the committed part of [MEMORY.jsonl] is tamper-evident: any two files
    that load against the same committed head hold the same committed entries, in
    the same order and with every field equal, unless an entry of one and an entry of
    the other have different content and one SHA-256 digest. Editing, reordering, inserting or dropping a committed
    entry is therefore always refused. *)
Theorem committed_log_is_tamper_evident file file' head origin origin' log log'
    (Hload : load_log file (Some head) origin = Ok log)
    (Hload' : load_log file' (Some head) origin' = Ok log') :
  committed log = committed log' ∨ colliding_entries (committed log) (committed log').
Proof using Type*.
  apply committed_chain in Hload as (Hchain & Hlen & Hdigest).
  apply committed_chain in Hload' as (Hchain' & Hlen' & Hdigest').
  assert (Hsame : length (committed log) = length (committed log')) by lia.
  apply (verify_chain_determined 0 MEMORY_LOG_GENESIS_DIGEST); [done..|].
  destruct (committed log), (committed log'); try done. by rewrite Hdigest, Hdigest'.
Qed.
End tamper_evidence.

Definition sample_log_head : MemoryLogHead :=
  {| head_entry_count := 1; head_digest := entry_digest sample_log_entry |}.

(** The same entry in a file whose last line break is missing. *)
Definition sample_unended_file : option rstring := Some (log_entry_json sample_log_entry).

Lemma committed_log_is_tamper_evident_witness :
  sample_log_file ≠ sample_unended_file ∧
  (committed (commit_tail sample_log) = committed (commit_tail sample_log) ∨
   colliding_entries (committed (commit_tail sample_log)) (committed (commit_tail sample_log))).
Proof.
  split; [by vm_compute|].
  apply (committed_log_is_tamper_evident sample_log_file sample_unended_file sample_log_head
           Local Absent); vm_compute; reflexivity.
Defined.

Section round_trip.
Context `{Host, !HostLaws, MemoryJson, !MemoryJsonLaws}.

(** An append is read back as it was written: against the ledger's old head
    the new entry is the uncommitted tail, against the log's full head it is
    committed, and the file stays one an append can extend. *)
Theorem appended_entry_reloads file head log record
    (Hload : load_log file head Local = Ok log) (Htail : uncommitted_tail log = [])
    (Hfile : log_file_terminated file) (Hrecord : verify_record_identity record = Ok tt)
    (Hfresh : committed_record log (mem_id record) = None) :
  ∃ entry log' file',
    append_with log file record AppendLanded = (Ok entry, log', file') ∧
    entry_record entry = record ∧ uncommitted_tail log' = [entry] ∧
    load_log file' head Local = Ok log' ∧
    load_log file' (full_head log') Local = Ok (commit_tail log') ∧
    log_file_terminated file'.
Proof using Type*.
  destruct (append_loads file head log record Hload Htail Hfile Hrecord Hfresh) as [Hold Hfull].
  eexists _, _, _. split; [done|]. split; [done|]. split; [cbn; by rewrite Htail|].
  split; [done|]. split; [done|]. unfold log_file_terminated.
  change (last (append_line file (log_entry_json (sealed_entry log record))) ≠ Some 13).
  by rewrite append_line_terminated.
Qed.
End round_trip.

Lemma appended_entry_reloads_witness :
  ∃ entry log' file',
    append_with log_default None sample_memory_record AppendLanded = (Ok entry, log', file') ∧
    entry_record entry = sample_memory_record ∧ uncommitted_tail log' = [entry] ∧
    load_log file' None Local = Ok log' ∧
    load_log file' (full_head log') Local = Ok (commit_tail log') ∧
    log_file_terminated file'.
Proof. apply (appended_entry_reloads None None log_default); vm_compute; done. Defined.

(** * The projection *)

Lemma longest_backticks_ge longest current body :
  0 ≤ current → longest ≤ longest_backticks longest current body.
Proof.
  revert longest current. induction body as [|c body IH]; intros longest current Hc; cbn; [lia|].
  destruct (c =? backtick); [|apply IH; lia].
  etrans; [|apply IH; lia]. lia.
Qed.

Lemma longest_backticks_run longest current n post :
  0 ≤ current →
  current + Z.of_nat n ≤ Z.max current (longest_backticks longest current (replicate n backtick ++ post)).
Proof.
  revert longest current. induction n as [|n IH]; intros longest current Hc; [lia|].
  cbn [replicate app longest_backticks]. rewrite Z.eqb_refl.
  specialize (IH (Z.max longest (current + 1)) (current + 1)).
  pose proof (longest_backticks_ge (Z.max longest (current + 1)) (current + 1)
    (replicate n backtick ++ post)). lia.
Qed.

Lemma longest_backticks_infix longest current pre n post :
  0 ≤ current →
  Z.of_nat n ≤ longest_backticks longest current (pre ++ replicate n backtick ++ post) ∨ n = 0%nat.
Proof.
  revert longest current. induction pre as [|c pre IH]; intros longest current Hc.
  - pose proof (longest_backticks_run longest current n post Hc) as Hrun.
    cbn [app]. destruct n as [|n]; [by right|]. left.
    cbn [replicate app longest_backticks] in *. rewrite Z.eqb_refl in *.
    pose proof (longest_backticks_ge (Z.max longest (current + 1)) (current + 1)
      (replicate n backtick ++ post)). lia.
  - cbn [app longest_backticks]. destruct (c =? backtick); apply IH; lia.
Qed.

(** A promoted record cannot break out of its code block in the GENOME
    projection: the fence around the body is longer than every run of backticks
    the body contains, and at least three long. *)
Theorem projection_fence_outlasts_body body pre n post :
  body = pre ++ replicate n backtick ++ post →
  (n < length (projection_fence body))%nat ∧ (3 ≤ length (projection_fence body))%nat.
Proof.
  intros ->. unfold projection_fence. rewrite length_replicate.
  pose proof (longest_backticks_ge 0 0 (pre ++ replicate n backtick ++ post)).
  destruct (longest_backticks_infix 0 0 pre n post); lia.
Qed.

Lemma projection_fence_outlasts_body_witness :
  (4 < length (projection_fence (lit "a" ++ replicate 4 backtick ++ lit "b")))%nat
  ∧ (3 ≤ length (projection_fence (lit "a" ++ replicate 4 backtick ++ lit "b")))%nat.
Proof. by apply (projection_fence_outlasts_body _ (lit "a") 4 (lit "b")). Defined.
