(* ===== verification/MemoryStartProps.v ===== *)
(** Start-up of the review queue: loading, migrating and reconciling it keeps
    every review decision, reconciling again does nothing, and a candidate that is
    already in the queue is never touched. *)
From S2P Require Export MemoryOps MemorySample ReloadProps.
Local Open Scope Z_scope.

Section start.
Context `{Host, MemoryJson, CandidateJson} (s : Storage) (uuids : rstring → Z → FreshIds).

(** How a reconciliation of the queue that succeeds ends. *)
Lemma reconcile_run tasks file locked written st st' :
  reconcile_accepted_run_memory_candidates s uuids tasks file locked written st = (Ok tt, st') →
  (∃ expected, expected_accepted_run_candidates tasks = Ok expected ∧
     reconciled_candidate_ledger (ms_ledger st) expected = Ok None ∧ st' = st) ∨
  (∃ current on_disk expected repair,
     load_candidate_ledger (disk_ledger st) = Ok current ∧
     governed_tasks_on_disk s uuids file = Ok on_disk ∧
     expected_accepted_run_candidates on_disk = Ok expected ∧
     reconciled_candidate_ledger current expected = Ok repair ∧
     st' = match repair with
           | Some repaired => with_ledger repaired (with_disk_ledger repaired st)
           | None => with_ledger current st
           end).
Proof.
  unfold reconcile_accepted_run_memory_candidates. intros Hrun.
  apply op_bind_Ok in Hrun as (expected & st1 & Hexpected & Hrun). op_inv.
  destruct (reconciled_candidate_ledger (ms_ledger st) expected) as [[repaired|]|] eqn:Hfirst.
  2: { op_inv. left. eauto. }
  all: right; op_inv.
  all: match goal with Hr : match ?repair with Some _ => _ | None => _ end _ = _ |- _ =>
         destruct repair as [repaired'|] eqn:? end.
  all: unfold write_ledger in *; op_inv; by eexists _, _, _, _.
Qed.

(** Start-up never loses, changes or invents a review decision. Whatever a
    derivation-version migration re-derives and whatever the reconciliation adds,
    the decisions the ledger holds afterwards (at a candidate, or parked for a run
    that is not here) are exactly those the file held before. *)
Theorem start_up_keeps_decisions tasks file locked written st st'
    (Hload : load_candidate_ledger (disk_ledger st) = Ok (ms_ledger st))
    (Hone : one_decision_per_run (default candidates_default (disk_ledger st)))
    (Hrun : reconcile_accepted_run_memory_candidates s uuids tasks file locked written st
            = (Ok tt, st')) :
  same_decisions (default candidates_default (disk_ledger st)) (ms_ledger st') ∧
  (disk_ledger st' = disk_ledger st ∨ disk_ledger st' = Some (ms_ledger st')).
Proof.
  assert (Hmigrated : same_decisions (default candidates_default (disk_ledger st)) (ms_ledger st)).
  { apply load_candidate_ledger_Ok in Hload as [-> _]. by apply migrate_decisions. }
  apply reconcile_run in Hrun as [(expected & _ & _ & ->)|Hrun]; [by split; [|left]|].
  destruct Hrun as (current & on_disk & expected & repair & Hcurrent & _ & He & Hrepair & ->).
  rewrite Hload in Hcurrent. apply Ok_inj in Hcurrent as <-.
  apply reconciled_Ok in Hrepair as [_ ->].
  destruct (bool_decide _ || bool_decide _); cbn [ms_ledger disk_ledger with_ledger with_disk_ledger];
    [|by split; [|left]].
  split; [|by right]. rewrite Hmigrated. apply repaired_decisions. by eapply expected_pending.
Qed.

(** Reconciling the queue is idempotent: once it has succeeded on the runs
    that are on disk, reconciling again, with any outcome of its lock and write,
    succeeds and changes neither the memory nor the disk. *)
Theorem reconciliation_is_idempotent tasks file locked written locked' written' st st'
    (Hload : load_candidate_ledger (disk_ledger st) = Ok (ms_ledger st))
    (Htasks : governed_tasks_on_disk s uuids file = Ok tasks)
    (Hrun : reconcile_accepted_run_memory_candidates s uuids tasks file locked written st
            = (Ok tt, st')) :
  reconcile_accepted_run_memory_candidates s uuids tasks file locked' written' st' = (Ok tt, st').
Proof.
  assert (Hagain : ∃ expected, expected_accepted_run_candidates tasks = Ok expected ∧
    reconciled_candidate_ledger (ms_ledger st') expected = Ok None).
  { apply reconcile_run in Hrun as [(expected & He & Hr & ->)|Hrun]; [by exists expected|].
    destruct Hrun as (current & on_disk & expected & repair & _ & Hdisk & He & Hrepair & ->).
    rewrite Htasks in Hdisk. apply Ok_inj in Hdisk as <-. exists expected. split; [done|].
    destruct repair as [repaired|]; [|done].
    cbn [ms_ledger with_ledger]. pose proof Hrepair as Hs. apply reconciled_Ok in Hs as [Hs Hrep].
    destruct (bool_decide _ || bool_decide _) in Hrep; [|done]. injection Hrep as ->.
    apply reconciled_Ok. split; [by apply repaired_stored_expected|].
    rewrite repaired_again. by rewrite !bool_decide_eq_false_2 by naive_solver. }
  destruct Hagain as (expected & He & Hr).
  unfold reconcile_accepted_run_memory_candidates.
  rewrite (op_bind_run _ _ st' expected st') by by apply attempt_Ok.
  rewrite (op_bind_run _ _ st' (ms_ledger st') st') by by apply gets_run.
  by rewrite Hr.
Qed.

(** Reconciling never touches a candidate that is already in the queue, and
    then leaves a decision parked for its run parked. A decision that adoption of
    a checked-out log parked is therefore not reattached by a later start-up when
    the run's candidate was re-derived under another id before. *)
Theorem parked_decision_waits_for_a_new_candidate l expected repaired g σ
    (Hrun : reconciled_candidate_ledger l expected = Ok (Some repaired))
    (Hpresent : ∀ k e, expected !! k = Some e → cand_governed_task_id e = g →
                is_Some (ml_candidates l !! k))
    (Hparked : ml_pending_status_migrations l !! g = Some σ) (Hσ : is_pending σ = false) :
  ml_pending_status_migrations repaired !! g = Some σ ∧
  ∀ k c, ml_candidates l !! k = Some c → ml_candidates repaired !! k = Some c.
Proof.
  apply reconciled_Ok in Hrun as [_ Hr].
  destruct (bool_decide _ || bool_decide _) in Hr; [|done]. injection Hr as ->.
  split; [|intros k c Hc; by apply reconcile_all_keeps].
  cbn [repaired_ledger ml_pending_status_migrations ml_set_parked].
  apply map_lookup_filter_Some. split; [|done].
  assert (Hall : Forall (λ e : rstring * AcceptedRunMemoryCandidate,
      cand_governed_task_id e.2 = g → is_Some (ml_candidates l !! e.1))
    (btree_items str_leb expected)) by by apply Forall_btree_items.
  clear Hpresent. revert l Hparked Hall.
  induction (btree_items str_leb expected) as [|[k e] entries IH]; intros l Hparked Hall; [done|].
  apply Forall_cons in Hall as [He Hall]. cbn [foldl fst snd] in *. apply IH.
  - unfold reconcile_expected. cbn [fst snd]. case_bool_decide as Hk; [done|].
    cbn [ml_pending_status_migrations ml_set_candidates ml_set_parked].
    rewrite lookup_delete_ne; [done|]. intros Hg. by apply Hk, He.
  - eapply Forall_impl; [exact Hall|]. intros [k' e'] Hk' Hg. destruct (Hk' Hg) as [c Hc].
    exists c. cbn [fst] in *. by rewrite reconcile_expected_lookup, Hc.
Qed.
End start.

(** * Witnesses *)

(** A queue whose one candidate was dismissed under an older derivation. *)
Definition sample_dismissal : MemoryCandidateStatus :=
  CandidateDismissed (lit "not reusable") (sample_time 8) operator.
Definition sample_stale_candidate : AcceptedRunMemoryCandidate :=
  let c := set_status sample_dismissal sample_candidate in
  {| cand_id := lit "memory-candidate-of-version-1"; cand_schema_version := cand_schema_version c;
     cand_derivation_version := 1; cand_status := cand_status c;
     cand_project_id := cand_project_id c; cand_workspace_root := cand_workspace_root c;
     cand_governed_task_id := cand_governed_task_id c;
     cand_accepted_task_revision := cand_accepted_task_revision c; cand_task := cand_task c;
     cand_acceptance_criteria := cand_acceptance_criteria c;
     cand_proposed_summary := cand_proposed_summary c; cand_runtime_id := cand_runtime_id c;
     cand_agent_id := cand_agent_id c; cand_session_id := cand_session_id c;
     cand_verification_profile := cand_verification_profile c;
     cand_verification_policy := cand_verification_policy c;
     cand_subject_revision := cand_subject_revision c; cand_claim_id := cand_claim_id c;
     cand_verification_id := cand_verification_id c;
     cand_supervisor_verdict_id := cand_supervisor_verdict_id c;
     cand_operator_decision_id := cand_operator_decision_id c;
     cand_claimed_artifact_ids := cand_claimed_artifact_ids c;
     cand_verification_artifact_ids := cand_verification_artifact_ids c;
     cand_commands := cand_commands c; cand_source_assurance := cand_source_assurance c;
     cand_source_digest := cand_source_digest c; cand_staged_at := cand_staged_at c |}.
Definition sample_stale_ledger : MemoryCandidateLedger :=
  ml_set_candidates {[cand_id sample_stale_candidate := sample_stale_candidate]} candidates_default.

(** A state that has just loaded [l] from disk. *)
Definition sample_memory (l : MemoryCandidateLedger) (log : MemoryLog) (file : option rstring)
    : MemoryState :=
  {| ms_ledger := migrate_superseded_derivations l; ms_log := log; ms_origin := Local;
     disk_ledger := Some l; disk_log := file;
     disk_projection := {| file_projection := None; file_marker := None |} |}.

Definition sample_governed : GovernedTaskLedger := Eval vm_compute in
  sample_ledger sample_to_acceptance.
Definition sample_replay_uuids (_ : rstring) (n : Z) : FreshIds := sample_ids (1000 + n).

Definition sample_reconcile (st : MemoryState) : memory_result unit * MemoryState :=
  reconcile_accepted_run_memory_candidates sample_storage sample_replay_uuids
    (ledger_values sample_governed) sample_governed true true st.

(** A run is known by its answer. *)
Lemma ran {A} (run : memory_result A * MemoryState) a : run.1 = Ok a → run = (Ok a, run.2).
Proof. destruct run. by intros [= ->]. Qed.

Lemma start_up_keeps_decisions_witness :
  same_decisions sample_stale_ledger
    (ms_ledger (sample_reconcile (sample_memory sample_stale_ledger log_default None)).2)
  ∧ cand_status <$> candidate_values
      (ms_ledger (sample_reconcile (sample_memory sample_stale_ledger log_default None)).2)
    = [sample_dismissal].
Proof.
  split; [|vm_compute; reflexivity].
  refine (proj1 (start_up_keeps_decisions sample_storage sample_replay_uuids
    (ledger_values sample_governed) sample_governed true true
    (sample_memory sample_stale_ledger log_default None) _ _ _ _)).
  - vm_compute. reflexivity.
  - assert (Hholds : ∀ g σ, holds_decision sample_stale_ledger g σ → σ = sample_dismissal).
    { intros g σ [_ [(k & c & Hc & _ & <-)|Hparked]]; [|by destruct (lookup_empty_Some _ _ Hparked)].
      cbn [ml_candidates sample_stale_ledger ml_set_candidates] in Hc.
      by apply lookup_singleton_Some in Hc as [_ <-]. }
    intros g σ τ ->%Hholds ->%Hholds. done.
  - apply ran. vm_compute. reflexivity.
Defined.

Lemma reconciliation_is_idempotent_witness :
  sample_reconcile (sample_reconcile (sample_memory sample_stale_ledger log_default None)).2
  = (Ok tt, (sample_reconcile (sample_memory sample_stale_ledger log_default None)).2).
Proof.
  refine (reconciliation_is_idempotent sample_storage sample_replay_uuids
    (ledger_values sample_governed) sample_governed true true true true
    (sample_memory sample_stale_ledger log_default None)
    (sample_reconcile (sample_memory sample_stale_ledger log_default None)).2 _ _ _);
    [vm_compute; reflexivity..|apply ran; vm_compute; reflexivity].
Defined.

(** A fresh clone whose run was derived under another id than the log's record. *)
Definition sample_promoted_elsewhere : MemoryCandidateStatus :=
  CandidatePromoted (mem_id sample_memory_record) (sample_time 9) adopted_decision_actor.
Definition sample_adopted_ledger : MemoryCandidateLedger :=
  ml_set_parked {[lit "task-1" := sample_promoted_elsewhere; lit "task-0" := PendingReview]}
    (ml_set_candidates {[cand_id sample_candidate := sample_candidate]} candidates_default).

Definition sample_expected : gmap rstring AcceptedRunMemoryCandidate :=
  {[cand_id sample_candidate := sample_candidate]}.

Lemma parked_decision_waits_for_a_new_candidate_witness :
  ∃ repaired,
    reconciled_candidate_ledger sample_adopted_ledger sample_expected = Ok (Some repaired) ∧
    ml_pending_status_migrations repaired !! lit "task-1" = Some sample_promoted_elsewhere.
Proof.
  exists (repaired_ledger sample_adopted_ledger sample_expected). split; [vm_compute; reflexivity|].
  refine (proj1 (parked_decision_waits_for_a_new_candidate sample_adopted_ledger sample_expected
    _ _ _ _ _ _ _)); [vm_compute; reflexivity| |vm_compute; reflexivity..].
  intros k e Hk _. unfold sample_expected in Hk. apply lookup_singleton_Some in Hk as [<- <-].
  exists sample_candidate. vm_compute. reflexivity.
Defined.
