(* ===== verification/MemoryDerive.v ===== *)
(** What the ledger checked of a run is what its memory candidate needs: the
    texts, references, commands and timestamps of every run the host recorded,
    in the terms of the candidate's own contract. *)
From S2P Require Export MemoryOps RecordedRun.
Local Open Scope Z_scope.

Lemma same_is_not_different {A} (x : A) `{Decision (x ≠ x)} : bool_decide (x ≠ x) = false.
Proof. apply bool_decide_eq_false_2. naive_solver. Qed.

(** * Texts *)

(** A text within a bound, as every contract here words it. *)
Definition text_within (value : rstring) (max_bytes : Z) : Prop :=
  is_empty (trim value) || contains_nul value || (max_bytes <? len value) = false.

Lemma text_within_weaken value n m : n ≤ m → text_within value n → text_within value m.
Proof.
  unfold text_within. intros Hnm [Hv Hn]%orb_false_iff. rewrite Hv. cbn [orb].
  apply Z.ltb_ge in Hn. apply Z.ltb_ge. lia.
Qed.

Lemma validate_text_Ok field value n : validate_text field value n = Ok tt ↔ text_within value n.
Proof. apply reject_if_Ok. Qed.
Lemma validate_nonblank_Ok field value n : validate_nonblank field value n = Ok tt ↔ text_within value n.
Proof. apply reject_if_Ok. Qed.
Lemma require_bounded_text_Ok field value n :
  require_bounded_text field value n = Ok tt ↔ text_within value n.
Proof. apply reject_if_Ok. Qed.

(** A text between two fixed ones. *)
Lemma text_within_affixed (before after : rstring) value n c :
  text_within value n → c ∈ before → char_is_whitespace c = false →
  contains_nul before = false → contains_nul after = false →
  text_within (before ++ value ++ after) (len before + n + len after).
Proof.
  unfold text_within. intros [[_ Hnul]%orb_false_iff Hlen]%orb_false_iff Hc Hw Hb Ha.
  rewrite (trim_nonblank _ c); [|by apply elem_of_app; left|done].
  rewrite !contains_nul_app, Hb, Hnul, Ha, !len_app. cbn [orb].
  apply Z.ltb_ge in Hlen. apply Z.ltb_ge. lia.
Qed.

Lemma proposed_summary_within assurance task n :
  text_within task n → n ≤ 8 * 1024 →
  text_within (proposed_summary assurance task) MAX_PROPOSED_SUMMARY_BYTES.
Proof.
  intros Ht Hn. unfold proposed_summary.
  destruct assurance; eapply text_within_weaken;
    [|apply (text_within_affixed _ _ _ n 65); [done|by left|vm_compute; reflexivity..]
     | |apply (text_within_affixed _ _ _ n 65); [done|by left|vm_compute; reflexivity..]
     | |apply (text_within_affixed _ _ _ n 65); [done|by left|vm_compute; reflexivity..]].
  all: match goal with |- len ?a + _ + len ?b ≤ _ =>
    let x := eval vm_compute in (len a) in let y := eval vm_compute in (len b) in
    change (len a) with x; change (len b) with y end; unfold MAX_PROPOSED_SUMMARY_BYTES; lia.
Qed.

(** * What a recorded run satisfies *)

Section run_texts.
Context `{Host}.
Implicit Types (t : GovernedTaskRun).

(** The registration a run was made by. *)
Record registered_as t (r : GovernedTaskRegistration) : Prop := {
  as_valid : validate_registration r = Ok tt;
  as_project : run_project_id t = reg_project_id r;
  as_workspace : run_workspace_root t = reg_workspace_root r;
  as_task : run_task t = reg_task r;
  as_criteria : run_acceptance_criteria t = reg_acceptance_criteria r;
  as_profile : run_verification_profile t = reg_verification_profile r;
  as_runtime : run_runtime_id t = reg_runtime_id r;
  as_agent : run_agent_id t = reg_agent_id r;
  as_session : run_session_id t = reg_session_id r
}.

Definition references_within (values : list rstring) : Prop :=
  zlen values ≤ MAX_GOVERNED_REFERENCES ∧
  Forall (λ value, text_within value MAX_GOVERNED_REFERENCE_BYTES) values.

Record claim_within (c : WorkerCompletionClaim) : Prop := {
  cw_subject : text_within (claim_subject_revision c) MAX_GOVERNED_REFERENCE_BYTES;
  cw_artifacts : references_within (claim_artifact_ids c)
}.

Record verification_within (v : GovernedVerification) : Prop := {
  vw_policy : text_within (verification_policy v) MAX_GOVERNED_REFERENCE_BYTES;
  vw_artifacts : references_within (verification_artifact_ids v);
  vw_count : zlen (verification_commands v) ≤ MAX_GOVERNED_COMMANDS;
  vw_commands : Forall (λ c, validate_command c = Ok tt) (verification_commands v)
}.

Record run_texts t : Prop := {
  rt_registered : ∃ r, registered_as t r;
  rt_claims : Forall claim_within (run_claims t);
  rt_verifications : Forall verification_within (run_verifications t);
  rt_decisions : Forall (λ o, is_Some (parse_from_rfc3339 (decision_decided_at o)) ∧
                              0 ≤ decision_based_on_revision o < run_revision t)
                   (run_operator_decisions t)
}.

Lemma registered_as_later t u r : same_identity t u → registered_as t r → registered_as u r.
Proof.
  intros Hid []. split; [done|..].
  - by rewrite (same_project _ _ Hid).
  - by rewrite (same_workspace _ _ Hid).
  - by rewrite (same_task _ _ Hid).
  - by rewrite (same_criteria _ _ Hid).
  - by rewrite (same_profile _ _ Hid).
  - by rewrite (same_runtime _ _ Hid).
  - by rewrite (same_agent _ _ Hid).
  - by rewrite (same_session _ _ Hid).
Qed.

Lemma validate_reference_ids_Ok label values :
  validate_reference_ids label values = Ok tt → references_within values.
Proof.
  unfold validate_reference_ids, references_within. intros Hok. result_inv. bool_inv.
  split; [done|]. eapply Forall_impl; [eassumption|]. intros x. apply require_bounded_text_Ok.
Qed.

Lemma validate_verification_within input id actor claim subject outcome at' based :
  validate_verification input = Ok tt →
  verification_within
    {| verification_id := id; verification_actor := actor; verification_claim_id := claim;
       verification_subject_revision := subject;
       verification_policy := verification_input_policy input;
       verification_outcome := outcome;
       verification_commands := verification_input_commands input;
       verification_artifact_ids := verification_input_artifact_ids input;
       verification_notes := verification_input_notes input;
       verification_recorded_at := at'; verification_based_on_revision := based |}.
Proof.
  unfold validate_verification. cbv zeta. intros Hok. result_inv. bool_inv.
  split; cbn [verification_policy verification_artifact_ids verification_commands]; try done.
  - by eapply require_bounded_text_Ok.
  - by eapply validate_reference_ids_Ok.
Qed.

(** A mutation adds records that its own checks cover. *)
Lemma mutation_texts m rev ctx ids t u :
  apply_mutation m rev ctx ids t = Ok u →
  Forall claim_within (run_claims t) → Forall verification_within (run_verifications t) →
  Forall claim_within (run_claims u) ∧ Forall verification_within (run_verifications u) ∧
  (run_operator_decisions u = run_operator_decisions t ∨
   ∃ o, run_operator_decisions u = run_operator_decisions t ++ [o] ∧
     decision_decided_at o = ctx_now ctx ∧ decision_based_on_revision o = run_revision t).
Proof.
  intros Hm Hc Hv. mutation_inv Hm; run_simpl;
    try (split; [done|split; [done|left; done]]).
  - unfold admit_claim in *. result_inv. split; [|by split; [|left]].
    apply Forall_app_2; [done|]. apply Forall_singleton. split; cbn [claim_artifact_ids].
    + by eapply require_bounded_text_Ok.
    + by eapply validate_reference_ids_Ok.
  - unfold admit_claim in *. result_inv. split; [|by split; [|left]].
    apply Forall_app_2; [done|]. apply Forall_singleton. split; cbn [claim_artifact_ids].
    + by eapply require_bounded_text_Ok.
    + by eapply validate_reference_ids_Ok.
  - split; [done|]. split; [|by left]. apply Forall_app_2; [done|]. apply Forall_singleton.
    by apply validate_verification_within.
  - split; [done|]. split; [done|]. right. by eexists.
Qed.

Lemma recorded_texts t fps : recorded t fps → run_texts t.
Proof.
  induction 1 as [r ids now Hv _|t fps m a ids now t' Hr [[r Hreg] Hc Hver Hd] Ha Hnow _ _].
  - split; [|done..]. exists r. by split.
  - pose proof (advance_future _ _ _ _ _ _ Ha) as [Hid _ _ _].
    pose proof (reachable_revision_nonneg t (recorded_reachable _ _ Hr)) as Hrev.
    apply advance_run_inv in Ha as (u & Hu & _ & ->).
    destruct (mutation_texts _ _ _ _ _ _ Hu Hc Hver) as (Hc' & Hver' & Hdec).
    split; run_simpl; [by exists r; apply (registered_as_later t)|done|done|].
    assert (Hold : Forall (λ o, is_Some (parse_from_rfc3339 (decision_decided_at o)) ∧
      0 ≤ decision_based_on_revision o < run_revision t + 1) (run_operator_decisions t)).
    { eapply Forall_impl; [exact Hd|]. intros o [? ?]. split; [done|lia]. }
    destruct Hdec as [->|(o & -> & Hat & Hbased)]; [done|].
    apply Forall_app_2; [done|]. apply Forall_singleton. rewrite Hat, Hbased. split; [done|lia].
Qed.
End run_texts.
