(* ===== verification/MemoryDeriveProps.v ===== *)
(** The candidate of an accepted run: the host's every accepted run derives one,
    it never changes afterwards, and a profiled run's can be promoted. *)
From S2P Require Export MemoryDerive MemoryStartProps.
Local Open Scope Z_scope.

Section derive.
Context `{Host, !HostLaws, CandidateJson}.
Implicit Types (t : GovernedTaskRun).

(** * The evidence *)

Lemma recorded_evidence t fps :
  recorded t fps → is_accepted t = true →
  ∃ e, accepted_evidence t = Ok e ∧
    latest_claim t = Some (ae_claim e) ∧ latest_verification t = Some (ae_verification e) ∧
    verification_subject_revision (ae_verification e) = claim_subject_revision (ae_claim e) ∧
    run_operator_decisions t = [ae_operator e] ∧ passing (ae_verification e).
Proof.
  intros Hr Ha. unfold is_accepted in Ha. bool_inv.
  pose proof (recorded_reachable _ _ Hr) as Hreach.
  pose proof (wf_review t (reachable_wf t Hreach)) as He.
  unfold review_evidence in He. rewrite Ha in He. destruct He as (c & v & d & o & Hdec).
  destruct Hdec as [[[Hc _ Hv _ Hvc Hvs] Hpass Hd _ Hdv Hdk] Ho _ Hov Hok].
  pose proof (rt_decisions _ (recorded_texts _ _ Hr)) as Hbased. rewrite Ho in Hbased.
  apply Forall_singleton in Hbased as [_ [Hlow Hhigh]].
  pose proof (reachable_history_wf t Hreach) as [_ _ Hlen Hbound].
  exists {| ae_claim := c; ae_verification := v; ae_supervisor := d; ae_operator := o;
            ae_revision := decision_based_on_revision o + 1 |}.
  cbn [ae_claim ae_verification ae_operator]. split; [|done].
  unfold accepted_evidence. rewrite Ha, Hc, Hv, Hd, Ho. cbn [last ok_or].
  rewrite same_is_not_different.
  cbn [reject_if]. rewrite !bind_ret_l.
  assert (u64_checked_add (decision_based_on_revision o) 1
    = Some (decision_based_on_revision o + 1)) as ->.
  { apply u64_checked_add_Some. split; [done|].
    unfold MAX_GOVERNED_EVENTS, u64_max in *. lia. }
  cbn [ok_or]. rewrite bind_ret_l, (pass_outcome _ Hpass), Hvc, Hvs, Hdk, Hdv, Hok, Hov.
  rewrite !same_is_not_different. cbn [orb].
  destruct (Z.ltb_spec (run_revision t) (decision_based_on_revision o + 1)); [lia|]. done.
Qed.

(** * Its candidate validates *)

Lemma text_ok field value n m : text_within value n → n ≤ m → validate_text field value m = Ok tt.
Proof using Type. intros Hv Hn. apply validate_text_Ok. by eapply text_within_weaken. Qed.

Lemma references_ok field values :
  references_within values → validate_references field values = Ok tt.
Proof using Type.
  intros [Hlen Hall]. unfold validate_references, invalid_if.
  destruct (Z.ltb_spec MAX_ARTIFACT_REFERENCES (zlen values)) as [Hlt|_];
    [unfold MAX_ARTIFACT_REFERENCES, MAX_GOVERNED_REFERENCES in *; lia|].
  cbn [reject_if]. rewrite bind_ret_l. apply for_each_Ok.
  eapply Forall_impl; [exact Hall|]. intros value Hvalue.
  by apply (text_ok _ _ _ _ Hvalue).
Qed.

Lemma prefixed_sha_ok field prefix input :
  validate_lower_sha256 field (prefix ++ sha256_hex input) prefix = Ok tt.
Proof using Type*.
  unfold validate_lower_sha256. rewrite strip_prefix_app. unfold is_lower_hex.
  by rewrite sha256_hex_len, sha256_hex_digits.
Qed.

Lemma candidate_id_ok input : validate_candidate_id (lit "memory-candidate-" ++ sha256_hex input) = Ok tt.
Proof using Type*.
  unfold validate_candidate_id. rewrite strip_prefix_app. unfold is_lower_hex.
  by rewrite sha256_hex_len, sha256_hex_digits.
Qed.

(** A digest has no character an id refuses. *)
Lemma sha256_hex_plain input :
  existsb (λ c, char_is_whitespace c || char_is_control c) (sha256_hex input) = false.
Proof using Type*.
  pose proof (sha256_hex_digits input) as Hd. apply forallb_true_Forall in Hd.
  apply existsb_false_Forall, Forall_forall. intros c Hc.
  rewrite Forall_forall in Hd.
  assert (Hbytes : ∀ b, b ∈ utf8_encode c → is_lower_hex_byte b = true).
  { intros b Hb. apply Hd. unfold bytes. apply list_elem_of_bind. by exists c. }
  assert (is_lower_hex_byte c = true) as Hhex.
  { unfold utf8_encode in Hbytes. destruct (Z.ltb_spec c 128); [apply Hbytes; by left|].
    exfalso. destruct (c <? 2048) eqn:?; [|destruct (c <? 65536) eqn:?]; bool_inv.
    - specialize (Hbytes (128 + c mod 64) ltac:(right; by left)).
      pose proof (Z.mod_pos_bound c 64 ltac:(lia)). revert Hbytes.
      unfold is_lower_hex_byte, is_ascii_digit, is_lower_hex_letter. lia.
    - specialize (Hbytes (128 + c mod 64) ltac:(right; right; by left)).
      pose proof (Z.mod_pos_bound c 64 ltac:(lia)). revert Hbytes.
      unfold is_lower_hex_byte, is_ascii_digit, is_lower_hex_letter. lia.
    - specialize (Hbytes (128 + c mod 64) ltac:(right; right; right; by left)).
      pose proof (Z.mod_pos_bound c 64 ltac:(lia)). revert Hbytes.
      unfold is_lower_hex_byte, is_ascii_digit, is_lower_hex_letter. lia. }
  revert Hhex. unfold is_lower_hex_byte, is_ascii_digit, is_lower_hex_letter,
    char_is_whitespace, char_is_control. lia.
Qed.

Lemma prefixed_id_ok (prefix : rstring) input :
  prefix ≠ [] → len prefix ≤ 64 →
  existsb (λ c, char_is_whitespace c || char_is_control c) prefix = false →
  memory_id_try_new (prefix ++ sha256_hex input) = Ok (prefix ++ sha256_hex input).
Proof using Type*.
  intros Hne Hlen Hplain. unfold memory_id_try_new.
  rewrite existsb_app, Hplain, sha256_hex_plain, len_app, sha256_hex_len.
  destruct prefix as [|c prefix]; [done|]. cbn [app is_empty orb].
  unfold MAX_OPEN_ID_BYTES. destruct (Z.ltb_spec 256 (len (c :: prefix) + 64)); [lia|]. done.
Qed.

(** Command evidence of a passing verification. *)
Lemma evidence_ok c :
  validate_command c = Ok tt → command_success c = true → validate_evidence (command_evidence c) = Ok tt.
Proof using Type.
  unfold validate_command. intros Hv Hs. result_inv. bool_inv.
  unfold validate_evidence, command_evidence, invalid_if.
  cbn [evidence_name evidence_command_digest evidence_output_digest evidence_success evidence_exit_code].
  match goal with Hn : require_bounded_text _ (command_name c) _ = Ok tt |- _ =>
    apply require_bounded_text_Ok in Hn; rewrite (text_ok _ _ _ _ Hn) by done end.
  rewrite bind_ret_l.
  assert (Hdigest : ∀ label field value, require_sha256_digest label value = Ok tt →
    validate_sha256_reference field value = Ok tt).
  { intros label field value. unfold require_sha256_digest, validate_sha256_reference.
    destruct (strip_prefix _ value); [|done]. unfold invalid_if. by destruct (_ || _). }
  erewrite Hdigest by eassumption. rewrite bind_ret_l.
  erewrite Hdigest by eassumption. rewrite bind_ret_l, Hs.
  match goal with He : exit_code_agrees _ _ = true |- _ =>
    rewrite Hs in He; destruct (command_exit_code c) as [code|]; [|done]; cbn in He;
    apply Z.eqb_eq in He; subst code end.
  by rewrite same_is_not_different.
Qed.

(** What a registration that validates says of its texts. *)
Record registration_within (r : GovernedTaskRegistration) : Prop := {
  rw_project : text_within (reg_project_id r) 256;
  rw_workspace : text_within (reg_workspace_root r) (16 * 1024);
  rw_task : text_within (reg_task r) MAX_GOVERNED_TASK_BYTES;
  rw_runtime : text_within (reg_runtime_id r) 256;
  rw_agent : text_within (reg_agent_id r) 256;
  rw_count : zlen (reg_acceptance_criteria r) ≤ MAX_ACCEPTANCE_CRITERIA;
  rw_criteria :
    Forall (λ c, text_within c MAX_GOVERNED_TEXT_BYTES) (reg_acceptance_criteria r);
  rw_session session : reg_session_id r = Some session → text_within session 256;
  rw_profiled : reg_verification_profile r ≠ None →
    reg_acceptance_criteria r ≠ [] ∧ text_within (reg_task r) MAX_PROFILED_TASK_BYTES ∧
    zlen (reg_acceptance_criteria r) ≤ MAX_PROFILED_ACCEPTANCE_CRITERIA ∧
    Forall (λ c, text_within c MAX_PROFILED_ACCEPTANCE_CRITERION_BYTES) (reg_acceptance_criteria r)
}.

Lemma registration_texts r : validate_registration r = Ok tt → registration_within r.
Proof using Type.
  unfold validate_registration. intros Hok.
  apply bind_Ok in Hok as ([] & Hfields & Hok). apply bind_Ok in Hok as ([] & _ & Hok).
  apply bind_Ok in Hok as ([] & Hprofile & _).
  unfold validate_registration_fields in Hfields. result_inv. bool_inv.
  repeat match goal with Hn : validate_nonblank _ _ _ = Ok tt |- _ => apply validate_nonblank_Ok in Hn end.
  split; try done.
  - eapply Forall_impl; [eassumption|]. intros c. apply validate_nonblank_Ok.
  - intros session Hs. rewrite Hs in *.
    match goal with Hn : validate_nonblank _ session _ = Ok tt |- _ => by apply validate_nonblank_Ok in Hn end.
  - unfold validate_registration_profile in Hprofile.
    destruct (reg_verification_profile r); [|done]. intros _. result_inv. bool_inv.
    split; [done|]. split; [by eapply validate_nonblank_Ok|]. split; [done|].
    eapply Forall_impl; [eassumption|]. intros c. apply validate_nonblank_Ok.
Qed.

(** The claimed subject of a profiled run is a commit. *)
Definition subject_is_commit t : Prop :=
  run_verification_profile t = None ∨
  ∃ c, latest_claim t = Some c ∧ is_git_commit_oid (claim_subject_revision c) = true.

Lemma assurance_profiled t e :
  is_daemon_profiled (evidence_assurance t e) = true ↔ run_verification_profile t ≠ None.
Proof using Type.
  unfold evidence_assurance. destruct (run_verification_profile t) as [profile|];
    cbn; by destruct (decision_authentication (ae_operator e)).
Qed.

Section derived.
Context t fps (Hrec : recorded t fps) e (He : accepted_evidence t = Ok e)
  (Hclaim : latest_claim t = Some (ae_claim e))
  (Hverification : latest_verification t = Some (ae_verification e))
  (Hsubject : verification_subject_revision (ae_verification e) = claim_subject_revision (ae_claim e))
  (Hdecision : run_operator_decisions t = [ae_operator e])
  (Hpass : passing (ae_verification e)).
#[local] Set Default Proof Using "All".

Let hex := sha256_hex (candidate_source_json (candidate_source t e)).
Let candidate := candidate_of_source (candidate_source t e) hex.

Lemma evidence_within : claim_within (ae_claim e) ∧ verification_within (ae_verification e)
  ∧ is_Some (parse_from_rfc3339 (decision_decided_at (ae_operator e))).
Proof.
  destruct (recorded_texts _ _ Hrec) as [_ Hc Hv Hd].
  rewrite Forall_forall in Hc. rewrite Forall_forall in Hv. rewrite Hdecision in Hd. apply Forall_singleton in Hd as [? _].
  split; [by apply Hc, last_elem_of|]. split; [by apply Hv, last_elem_of|done].
Qed.

Lemma derived_head : validate_candidate_head candidate = Ok tt.
Proof.
  unfold validate_candidate_head, candidate, candidate_of_source.
  cbn [cand_id cand_schema_version cand_derivation_version cand_status].
  rewrite !Z.eqb_refl. cbn [negb invalid_if reject_if]. unfold invalid_if. cbn [reject_if].
  rewrite !bind_ret_l. unfold hex. by rewrite candidate_id_ok.
Qed.

Lemma derived_texts : validate_candidate_texts candidate = Ok tt.
Proof.
  destruct (rt_registered _ (recorded_texts _ _ Hrec)) as [r Hr].
  destruct (registration_texts r (as_valid _ _ Hr)) as [Hp Hw Ht Hrt Ha Hn Hc Hs Hprof].
  unfold validate_candidate_texts, candidate, candidate_of_source, candidate_source.
  cbn [cand_project_id cand_workspace_root cand_task cand_acceptance_criteria cand_source_assurance
       cand_proposed_summary cand_runtime_id cand_agent_id cand_session_id
       cs_project_id cs_workspace_root cs_task cs_acceptance_criteria cs_source_assurance
       cs_runtime_id cs_agent_id cs_session_id].
  rewrite (as_project _ _ Hr), (as_workspace _ _ Hr), (as_task _ _ Hr), (as_criteria _ _ Hr),
    (as_runtime _ _ Hr), (as_agent _ _ Hr), (as_session _ _ Hr).
  rewrite (text_ok _ _ _ _ Hp), (text_ok _ _ _ _ Hw), (text_ok _ _ _ _ Ht) by by vm_compute.
  rewrite !bind_ret_l. unfold invalid_if at 1.
  destruct (Z.ltb_spec MAX_CRITERIA (zlen (reg_acceptance_criteria r))) as [Hlt|_];
    [unfold MAX_CRITERIA, MAX_ACCEPTANCE_CRITERIA in *; lia|].
  assert (bool_decide (reg_acceptance_criteria r = []) && is_daemon_profiled (evidence_assurance t e)
    = false) as ->.
  { case_bool_decide as Hempty; [|done]. cbn [andb].
    destruct (is_daemon_profiled _) eqn:Hd; [|done]. apply assurance_profiled in Hd.
    rewrite (as_profile _ _ Hr) in Hd. by destruct (Hprof Hd). }
  cbn [orb reject_if]. rewrite bind_ret_l.
  rewrite (proj2 (for_each_Ok _ _ tt)), bind_ret_l.
  2: { eapply Forall_impl; [exact Hc|]. intros criterion Hcriterion.
       apply (text_ok _ _ _ _ Hcriterion). by vm_compute. }
  rewrite (proj2 (validate_text_Ok _ _ _) (proposed_summary_within _ _ _ Ht ltac:(by vm_compute))).
  rewrite bind_ret_l, (text_ok _ _ _ _ Hrt), (text_ok _ _ _ _ Ha) by by vm_compute.
  rewrite !bind_ret_l. destruct (reg_session_id r) as [session|]; [|done].
  apply (text_ok _ _ _ _ (Hs session eq_refl)). by vm_compute.
Qed.

(** All that can be wrong with the evidence is the subject of a profiled run. *)
Lemma derived_evidence : validate_candidate_evidence candidate =
  if is_daemon_profiled (evidence_assurance t e)
  then validate_git_oid (lit "subject_revision") (claim_subject_revision (ae_claim e))
  else Ok tt.
Proof.
  destruct evidence_within as ([Hs Hca] & [Hp Hva Hn Hcmd] & [at' Hat]).
  unfold validate_candidate_evidence, candidate, candidate_of_source, candidate_source.
  cbn [cand_verification_policy cand_source_assurance cand_subject_revision
       cand_claimed_artifact_ids cand_verification_artifact_ids cand_commands cand_source_digest
       cand_staged_at cs_verification_policy cs_source_assurance cs_subject_revision
       cs_claimed_artifact_ids cs_verification_artifact_ids cs_commands cs_staged_at].
  rewrite (text_ok _ _ _ _ Hp), bind_ret_l by by vm_compute.
  assert ((if is_daemon_profiled (evidence_assurance t e)
    then validate_git_oid (lit "subject_revision") (verification_subject_revision (ae_verification e))
    else validate_text (lit "subject_revision") (verification_subject_revision (ae_verification e))
           MAX_ARTIFACT_REFERENCE_BYTES)
    = if is_daemon_profiled (evidence_assurance t e)
      then validate_git_oid (lit "subject_revision") (claim_subject_revision (ae_claim e))
      else Ok tt) as ->.
  { rewrite Hsubject. destruct (is_daemon_profiled _); [done|]. by apply (text_ok _ _ _ _ Hs). }
  destruct (if is_daemon_profiled _ then _ else _) as [[]|err]; [|reflexivity].
  rewrite bind_ret_l, (references_ok _ _ Hca), bind_ret_l, (references_ok _ _ Hva), bind_ret_l.
  unfold invalid_if. rewrite bool_decide_eq_false_2.
  2: { unfold evidence_commands. intros Hnil%fmap_nil_inv. by apply (pass_evidence _ Hpass). }
  destruct (Z.ltb_spec MAX_COMMANDS (zlen (evidence_commands e))) as [Hlt|_].
  { unfold evidence_commands, zlen in Hlt. rewrite length_fmap in Hlt.
    unfold MAX_COMMANDS, MAX_GOVERNED_COMMANDS, zlen in *. lia. }
  cbn [orb reject_if]. rewrite bind_ret_l, (proj2 (for_each_Ok _ _ tt)), bind_ret_l.
  2: { unfold evidence_commands. apply Forall_fmap. eapply Forall_impl.
       - apply Forall_and. split; [exact Hcmd|exact (pass_commands _ Hpass)].
       - intros c [Hc Hok]. by apply evidence_ok. }
  unfold hex. by rewrite prefixed_sha_ok, bind_ret_l, Hat.
Qed.
End derived.

Lemma git_oid_checks field value :
  validate_git_oid field value
  = if is_git_commit_oid value then Ok tt
    else invalid field (lit "must be a 40- or 64-character lowercase hexadecimal Git commit OID").
Proof using Type.
  unfold validate_git_oid, invalid_if, reject_if, invalid, is_git_commit_oid, is_lower_hex.
  by destruct (len value =? 40), (len value =? 64), (forallb _ _).
Qed.

(** What the derivation answers of a profiled run that claimed no commit. *)
Definition subject_refused : MemoryError :=
  MemoryContractFailure (MemoryInvalidField (lit "subject_revision")
    (lit "must be a 40- or 64-character lowercase hexadecimal Git commit OID")).

(** The derivation of an accepted run stands or falls with its claimed subject. *)
Lemma accepted_run_candidate t fps :
  recorded t fps → is_accepted t = true →
  (subject_is_commit t →
     ∃ c, derive_accepted_run_memory_candidate t = Ok c ∧ validate_candidate c = Ok tt ∧
       cand_status c = PendingReview ∧ cand_governed_task_id c = run_id t)
  ∧ (¬ subject_is_commit t → derive_accepted_run_memory_candidate t = Err subject_refused).
Proof using Type*.
  intros Hrec Haccepted.
  destruct (recorded_evidence t fps Hrec Haccepted) as (e & He & Hc & Hv & Hs & Hd & Hp).
  unfold derive_accepted_run_memory_candidate. rewrite He, bind_ret_l.
  rewrite prefixed_id_ok; [|done|by vm_compute|by vm_compute].
  cbn [map_err]. rewrite bind_ret_l.
  assert (validate_candidate (candidate_of_source (candidate_source t e)
      (sha256_hex (candidate_source_json (candidate_source t e))))
    = if is_daemon_profiled (evidence_assurance t e)
      then validate_git_oid (lit "subject_revision") (claim_subject_revision (ae_claim e))
      else Ok tt) as Hvalid.
  { unfold validate_candidate. erewrite derived_head by eassumption. rewrite bind_ret_l.
    erewrite derived_texts by eassumption. rewrite bind_ret_l. by eapply derived_evidence. }
  rewrite git_oid_checks in Hvalid. split.
  - intros Hcommit.
    assert (validate_candidate (candidate_of_source (candidate_source t e)
      (sha256_hex (candidate_source_json (candidate_source t e)))) = Ok tt) as Hok.
    { rewrite Hvalid. destruct (is_daemon_profiled _) eqn:Hprofiled; [|done].
      apply assurance_profiled in Hprofiled. destruct Hcommit as [?|(c & Hc' & Hoid)]; [done|].
      rewrite Hc in Hc'. injection Hc' as <-. by rewrite Hoid. }
    eexists. rewrite Hok. split; [reflexivity|]. split; [exact Hok|]. done.
  - intros Hcommit. assert (run_verification_profile t ≠ None) as Hprofile.
    { intros Hnone. apply Hcommit. by left. }
    assert (is_git_commit_oid (claim_subject_revision (ae_claim e)) = false) as Hoid.
    { apply not_true_is_false. intros Hoid. apply Hcommit. right. by eexists. }
    rewrite Hoid, (proj2 (assurance_profiled t e) Hprofile) in Hvalid. by rewrite Hvalid.
Qed.

(** C18: Which accepted runs get a memory candidate: of every run the host recorded
    (registered, mutated, timestamped by the ledger's own operations) that is
    accepted, the derivation succeeds and gives a candidate of that run that passes
    the candidate contract, pending review, when the run has no closed-loop profile
    or its claim names a commit; a profiled run whose claim names anything else,
    which the ledger does not check, never gets one: the derivation refuses its
    subject. *)
Theorem accepted_run_derives_candidate t fps
    (Hrec : recorded t fps) (Haccepted : is_accepted t = true) :
  (subject_is_commit t →
     ∃ c, derive_accepted_run_memory_candidate t = Ok c ∧ validate_candidate c = Ok tt ∧
       cand_status c = PendingReview ∧ cand_governed_task_id c = run_id t)
  ∧ (¬ subject_is_commit t → derive_accepted_run_memory_candidate t = Err subject_refused).
Proof using Type*. by eapply accepted_run_candidate. Qed.

(** * It never changes *)

Lemma last_claim t t' : run_claims t' = run_claims t → latest_claim t' = latest_claim t.
Proof using Type. unfold latest_claim. by intros ->. Qed.

Lemma step_evidence t t' e :
  run_step t t' → accepted_evidence t = Ok e →
  accepted_evidence t' = Ok e ∧ candidate_source t' e = candidate_source t e.
Proof using Type.
  intros Hstep He. pose proof (step_identity _ _ Hstep) as Hid.
  destruct Hstep as (m & authentication & ids & now & Ha).
  unfold accepted_evidence in He. result_inv. bool_inv.
  assert (is_settled_review (run_review_state t) = true) as Hsettled
    by by match goal with Hs : run_review_state t = Accepted |- _ => rewrite Hs end.
  destruct (advance_settled _ _ _ _ _ _ Ha Hsettled) as [Hs Hc Hv Hd Ho].
  apply advance_run_inv in Ha as (u & _ & _ & Ht').
  assert (run_revision t' = run_revision t + 1) as Hrev by by rewrite Ht'.
  split.
  - unfold accepted_evidence. rewrite Hs.
    unfold latest_claim, latest_verification, latest_supervisor_verdict in *. rewrite Hc, Hv, Hd, Ho.
    repeat match goal with
      | E : last ?l = Some _ |- context [last ?l] => rewrite E
      | E : run_review_state t = Accepted |- _ => rewrite E; clear E
      end.
    rewrite same_is_not_different. cbn [reject_if ok_or]. rewrite !bind_ret_l.
    repeat match goal with E : ?a = ?b |- context [bool_decide (?a ≠ ?b)] =>
      rewrite (bool_decide_eq_false_2 (a ≠ b)) by naive_solver end.
    cbn [orb].
    match goal with E : u64_checked_add _ 1 = Some _ |- _ => rewrite E end.
    cbn [ok_or]. rewrite bind_ret_l, Hrev.
    match goal with |- context [run_revision t + 1 <? ?n] =>
      replace (run_revision t + 1 <? n) with false by (symmetry; apply Z.ltb_ge; lia) end.
    done.
  - unfold candidate_source, evidence_assurance.
    by rewrite (same_project _ _ Hid), (same_workspace _ _ Hid), (same_id _ _ Hid),
      (same_task _ _ Hid), (same_criteria _ _ Hid), (same_runtime _ _ Hid), (same_agent _ _ Hid),
      (same_session _ _ Hid), (same_profile _ _ Hid).
Qed.

(** The candidate of an accepted run never changes: whatever is recorded of
    the run after its acceptance (an exit, promotions, the discard of its
    worktree, interruption notes), the derivation gives the same candidate with
    the same id, so a stored candidate never stops matching its run. *)
Theorem candidate_of_run_is_stable t t' c
    (Hderive : derive_accepted_run_memory_candidate t = Ok c) (Hsteps : rtc run_step t t') :
  derive_accepted_run_memory_candidate t' = Ok c.
Proof using Type.
  induction Hsteps as [|t u t' Hstep _ IH]; [done|]. apply IH.
  unfold derive_accepted_run_memory_candidate in *.
  apply bind_Ok in Hderive as (e & He & Hrest).
  destruct (step_evidence _ _ _ Hstep He) as [Hu Hsource]. rewrite Hu, bind_ret_l, Hsource. exact Hrest.
Qed.
End derive.

(** * Promotion *)

Section promotion.
Context `{Host, !HostLaws, MemoryJson, CandidateJson}.
Implicit Types (t : GovernedTaskRun).

(** A candidate whose task is longer than a record title can never be
    promoted, whatever the request, although the ledger accepts runs with tasks
    of twice that length and their candidates validate. *)
Theorem long_task_is_never_promoted candidate request_id revision now record
    (Hlong : MAX_RECORD_TITLE_BYTES < len (cand_task candidate)) :
  derive_promoted_record candidate request_id revision now ≠ Ok record.
Proof using Type.
  unfold derive_promoted_record. intros Hok. result_inv.
  match goal with Hv : verify_record_identity _ = Ok tt |- _ =>
    unfold verify_record_identity, validate_record in Hv; result_inv end.
  match goal with Hv : validate_text _ _ MAX_RECORD_TITLE_BYTES = Ok tt |- _ =>
    apply validate_text_Ok in Hv; unfold text_within in Hv; cbn [mem_title] in Hv end.
  bool_inv. lia.
Qed.

(** ** The body of a record *)

Lemma text_within_len value n : text_within value n → len value ≤ n.
Proof using Type. unfold text_within. intros [_ Hn]%orb_false_iff. bool_inv. lia. Qed.
Lemma text_within_nul value n : text_within value n → contains_nul value = false.
Proof using Type. unfold text_within. by intros [[_ Hn]%orb_false_iff _]%orb_false_iff. Qed.

Lemma criteria_body criteria n :
  Forall (λ c, text_within c n) criteria →
  contains_nul (concat ((λ c, lit "- " ++ c ++ [10]) <$> criteria)) = false ∧
  len (concat ((λ c, lit "- " ++ c ++ [10]) <$> criteria)) ≤ zlen criteria * (n + 3).
Proof using Type.
  induction 1 as [|c criteria Hc _ [IHnul IHlen]]; [done|].
  rewrite fmap_cons, concat_cons, !contains_nul_app, !len_app, IHnul, (text_within_nul _ _ Hc), zlen_cons.
  split; [done|]. pose proof (text_within_len _ _ Hc).
  replace (len (lit "- ")) with 2 by done. replace (len [10]) with 1 by done. lia.
Qed.

Lemma open_id_within value :
  GovernedTaskId_try_new value = Ok value → contains_nul value = false ∧ len value ≤ 256.
Proof using Type.
  unfold GovernedTaskId_try_new, validate_open_id. intros Hok. result_inv. bool_inv.
  split; [|done]. apply contains_nul_false.
  match goal with Hc : existsb _ value = false |- _ => apply existsb_false_Forall in Hc;
    eapply Forall_impl; [exact Hc|] end.
  intros c Hc ->. by vm_compute in Hc.
Qed.

(** The body of the record of a candidate whose texts are within bounds. *)
Lemma record_body_within c n :
  text_within (cand_proposed_summary c) n →
  Forall (λ criterion, text_within criterion MAX_PROFILED_ACCEPTANCE_CRITERION_BYTES)
    (cand_acceptance_criteria c) →
  zlen (cand_acceptance_criteria c) ≤ MAX_PROFILED_ACCEPTANCE_CRITERIA →
  text_within (cand_subject_revision c) 4096 → text_within (cand_verification_policy c) 4096 →
  contains_nul (cand_governed_task_id c) = false → len (cand_governed_task_id c) ≤ 256 →
  n ≤ MAX_PROPOSED_SUMMARY_BYTES →
  text_within (render_record_body c) MAX_RECORD_BODY_BYTES.
Proof using Type.
  intros Hsum Hcrit Hcount Hsub Hpol Hnul Hid Hn.
  destruct (criteria_body _ _ Hcrit) as [Hcnul Hclen].
  pose proof (text_within_len _ _ Hsum). pose proof (text_within_len _ _ Hsub).
  pose proof (text_within_len _ _ Hpol).
  unfold text_within. rewrite orb_false_iff, orb_false_iff. unfold render_record_body. split; [split|].
  - unfold text_within in Hsum. apply orb_false_iff in Hsum as [[Hblank _]%orb_false_iff _].
    destruct (is_empty (trim (cand_proposed_summary c ++ _))) eqn:Htrim; [|done].
    rewrite <-Hblank. apply is_empty_true, trim_nil, Forall_app in Htrim as [Hall _].
    symmetry. by apply is_empty_true, trim_nil.
  - rewrite !contains_nul_app, (text_within_nul _ _ Hsum), Hcnul, (text_within_nul _ _ Hsub),
      (text_within_nul _ _ Hpol), Hnul. done.
  - apply Z.ltb_ge. rewrite !len_app.
    repeat match goal with |- context [len (lit ?x)] =>
      let y := eval vm_compute in (len (lit x)) in change (len (lit x)) with y end.
    replace (len [10]) with 1 by done. replace (len [10; 10]) with 2 by done.
    unfold MAX_RECORD_BODY_BYTES, MAX_PROPOSED_SUMMARY_BYTES, MAX_PROFILED_ACCEPTANCE_CRITERIA,
      MAX_PROFILED_ACCEPTANCE_CRITERION_BYTES in *. lia.
Qed.

Lemma lower_sha256_any_field field field' value prefix :
  validate_lower_sha256 field value prefix = Ok tt → validate_lower_sha256 field' value prefix = Ok tt.
Proof using Type.
  unfold validate_lower_sha256, invalid_if. destruct (strip_prefix _ _); [|done]. by destruct (_ || _).
Qed.

(** A record derived from texts within bounds passes the record contract. *)
Lemma derive_record_ok candidate request_id revision now :
  validate_candidate candidate = Ok tt →
  text_within (cand_task candidate) MAX_RECORD_TITLE_BYTES →
  text_within (render_record_body candidate) MAX_RECORD_BODY_BYTES →
  is_Some (parse_from_rfc3339 now) →
  ∃ record, derive_promoted_record candidate request_id revision now = Ok record.
Proof using Type*.
  intros Hvalid Htitle Hbody [instant Hnow].
  assert (Hfields : validate_candidate_id (cand_id candidate) = Ok tt ∧
    text_within (cand_project_id candidate) MAX_OPEN_ID_BYTES ∧
    validate_lower_sha256 (lit "source_digest") (cand_source_digest candidate) (lit "sha256-v1:") = Ok tt).
  { unfold validate_candidate, validate_candidate_head, validate_candidate_texts,
      validate_candidate_evidence in Hvalid. result_inv. split; [done|]. split; [|done].
    by eapply validate_text_Ok. }
  clear Hvalid. destruct Hfields as (Hid & Hproject & Hdigest).
  unfold derive_promoted_record, memory_context.
  rewrite prefixed_id_ok; [|done|by vm_compute|by vm_compute].
  cbn [map_err]. rewrite bind_ret_l. eexists.
  unfold verify_record_identity, validate_record, recompute_identity_source, validate_source,
    validate_record_id, identity_hex.
  cbn [mem_schema_version mem_id mem_scope mem_project_id mem_source mem_title mem_body mem_valid_from
       mem_superseded_by mem_digest mem_kind mem_request_id mem_based_on_ledger_revision
       is_writable_now negb].
  rewrite Z.eqb_refl, !strip_prefix_app, prefixed_sha_ok, !same_is_not_different, Hid,
    (lower_sha256_any_field _ _ _ _ Hdigest), Hnow.
  unfold is_lower_hex. rewrite sha256_hex_len, sha256_hex_digits. unfold invalid_if.
  rewrite (proj2 (validate_text_Ok _ _ _) Hproject), (proj2 (validate_text_Ok _ _ _) Htitle),
    (proj2 (validate_text_Ok _ _ _) Hbody).
  cbn [ok_or negb orb Z.eqb Pos.eqb reject_if mbind result_bind map_err].
  rewrite same_is_not_different. cbn [reject_if mbind result_bind map_err]. reflexivity.
Qed.

(** The review of a profiled run can always end in a promotion: whatever the
    candidate an accepted run with a closed-loop profile derived, its record can
    be derived for every request, ledger revision and readable time. *)
Theorem profiled_candidate_is_promotable t fps candidate request_id revision now
    (Hrec : recorded t fps) (Hderive : derive_accepted_run_memory_candidate t = Ok candidate)
    (Hprofile : run_verification_profile t ≠ None)
    (Hid : GovernedTaskId_try_new (run_id t) = Ok (run_id t))
    (Hnow : is_Some (parse_from_rfc3339 now)) :
  ∃ record, derive_promoted_record candidate request_id revision now = Ok record.
Proof using Type*.
  apply derive_Ok in Hderive as (e & He & -> & Hvalid).
  assert (Haccepted : is_accepted t = true).
  { unfold is_accepted. unfold accepted_evidence in He. result_inv. bool_inv.
    by apply bool_decide_eq_true_2. }
  destruct (recorded_evidence t fps Hrec Haccepted) as (e' & He' & Hc & Hv & Hs & Hd & Hp).
  rewrite He in He'. apply Ok_inj in He' as <-.
  destruct (evidence_within t fps Hrec e He Hc Hv Hs Hd Hp) as ([Hsubject _] & [Hpolicy _ _ _] & _).
  destruct (rt_registered _ (recorded_texts _ _ Hrec)) as [r Hr].
  destruct (registration_texts r (as_valid _ _ Hr)) as [_ _ _ _ _ _ _ _ Hprof].
  rewrite (as_profile _ _ Hr) in Hprofile. destruct (Hprof Hprofile) as (_ & Htask & Hcount & Hcriteria).
  destruct (open_id_within _ Hid) as [Hnul Hlen].
  apply derive_record_ok; [done| | |done].
  - cbn [candidate_of_source candidate_source cand_task cs_task]. rewrite (as_task _ _ Hr).
    eapply text_within_weaken; [|exact Htask]. by vm_compute.
  - apply (record_body_within _ MAX_PROPOSED_SUMMARY_BYTES);
      cbn [candidate_of_source candidate_source cand_proposed_summary cand_acceptance_criteria
           cand_subject_revision cand_verification_policy cand_governed_task_id cs_task
           cs_acceptance_criteria cs_source_assurance cs_subject_revision cs_verification_policy
           cs_governed_task_id];
      rewrite ?(as_task _ _ Hr), ?(as_criteria _ _ Hr), ?Hs; try done.
    apply (proposed_summary_within _ _ _ Htask). by vm_compute.
Qed.
End promotion.

(** * Witnesses *)

Lemma sample_recorded : ∃ fps, recorded sample_accepted fps.
Proof.
  assert (Hr : host_reachable sample_storage (sample_ledger sample_to_acceptance)).
  { apply sample_ledger_host_reachable. vm_compute. reflexivity. }
  pose proof (host_reachable_reloadable sample_storage _ Hr) as Hl.
  destruct (rl_recorded _ _ Hl (lit "task-1") sample_accepted) as (fps & Hrec & _);
    [vm_compute; reflexivity|by exists fps].
Qed.

Lemma sample_commit : subject_is_commit sample_accepted.
Proof. right. eexists. split; [vm_compute; reflexivity|vm_compute; reflexivity]. Qed.

Lemma accepted_run_derives_candidate_witness :
  ∃ c, derive_accepted_run_memory_candidate sample_accepted = Ok c ∧ validate_candidate c = Ok tt ∧
    cand_status c = PendingReview ∧ cand_governed_task_id c = run_id sample_accepted.
Proof.
  destruct sample_recorded as [fps Hrec].
  refine (proj1 (accepted_run_derives_candidate sample_accepted fps Hrec _) sample_commit).
  vm_compute. reflexivity.
Defined.

Lemma candidate_of_run_is_stable_witness :
  derive_accepted_run_memory_candidate sample_promoted = Ok sample_candidate.
Proof.
  apply (candidate_of_run_is_stable sample_accepted); [apply sample_candidate_derived|].
  apply rtc_once. exists sample_promotion, Declared, (sample_ids 7), (sample_time 7).
  vm_compute. reflexivity.
Defined.

Lemma profiled_candidate_is_promotable_witness :
  ∃ record, derive_promoted_record sample_candidate (lit "decide-7") 3 (sample_time 20) = Ok record.
Proof.
  destruct sample_recorded as [fps Hrec].
  apply (profiled_candidate_is_promotable sample_accepted fps); [done|apply sample_candidate_derived|..].
  - vm_compute. discriminate.
  - vm_compute. reflexivity.
  - exists 20000000000. vm_compute. reflexivity.
Defined.

(** The candidate of a run whose task has 5000 characters. *)
Definition sample_long_source : CandidateSourceV1 :=
  {| cs_derivation_version := ACCEPTED_RUN_MEMORY_DERIVATION_VERSION;
     cs_project_id := lit "demo"; cs_workspace_root := lit "/srv/demo";
     cs_governed_task_id := lit "task-1"; cs_accepted_task_revision := 6;
     cs_task := replicate 5000 97; cs_acceptance_criteria := [lit "tests pass"];
     cs_runtime_id := lit "codex"; cs_agent_id := lit "builder-1"; cs_session_id := None;
     cs_verification_profile := None; cs_verification_policy := lit "manual";
     cs_subject_revision := sample_claim_oid; cs_claim_id := lit "claim-r3";
     cs_verification_id := lit "verification-r4";
     cs_supervisor_verdict_id := lit "supervisor-verdict-r5";
     cs_operator_decision_id := lit "operator-decision-r6"; cs_claimed_artifact_ids := [];
     cs_verification_artifact_ids := [];
     cs_commands := [{| evidence_name := lit "test"; evidence_command_digest := sample_sha;
                        evidence_output_digest := sample_sha; evidence_exit_code := Some 0;
                        evidence_success := true; evidence_output_bytes := 12;
                        evidence_output_truncated := false |}];
     cs_source_assurance := CallerComposedEvidenceDeclaredOperator;
     cs_staged_at := sample_time 6 |}.
Definition sample_long_candidate : AcceptedRunMemoryCandidate :=
  candidate_of_source sample_long_source (sha256_hex (candidate_source_json sample_long_source)).

Lemma long_task_is_never_promoted_witness :
  validate_candidate sample_long_candidate = Ok tt ∧
  derive_promoted_record sample_long_candidate (lit "decide-1") 0 (sample_time 9)
    ≠ Ok sample_memory_record.
Proof.
  split; [vm_compute; reflexivity|].
  apply long_task_is_never_promoted. vm_compute. reflexivity.
Defined.
