(* ===== verification/MemoryDecision.v ===== *)
(** Facts about the operator's decision: what it reads before it branches, the
    three ways it can settle, what a decision that went through left behind, and
    that the state it left is read back as it is. *)
From S2P Require Export MemoryOps MemoryLogFacts.
Local Open Scope Z_scope.

(** The files are as they were. *)
Definition same_disk (st st' : MemoryState) : Prop :=
  disk_ledger st' = disk_ledger st ∧ disk_log st' = disk_log st
  ∧ disk_projection st' = disk_projection st.

Section decision.
Context `{Host, MemoryJson, CandidateJson} (s : Storage) (uuids : rstring → Z → FreshIds).
Implicit Types (l : MemoryCandidateLedger) (log : MemoryLog) (st : MemoryState)
  (input : MemoryCandidateDecisionInput).

(** * What a decision reads *)

Record ready (file : GovernedTaskLedger) input st l
    (expected : gmap rstring AcceptedRunMemoryCandidate) log : Prop := {
  ready_input : validate_decision_input input = Ok tt;
  ready_project : input_project_id input = governed_project_id_for_storage s;
  ready_ledger : load_candidate_ledger (disk_ledger st) = Ok l;
  ready_expected :
    (governed_tasks_on_disk s uuids file ≫= expected_accepted_run_candidates) = Ok expected;
  ready_log : load_log (disk_log st) (ml_memory_log_head l) Local = Ok log
}.

Definition loaded_state l log st : MemoryState := with_log log (with_ledger l st).

(** The part of a decision after its reads. *)
Definition decide_loaded l (expected : gmap rstring AcceptedRunMemoryCandidate) log input
    (authentication : OperatorAuthentication) (now : rstring) (outcomes : DecisionIo)
    : memory_op MemoryCandidateDecisionOutcome :=
  match ml_processed_decisions l !! input_request_id input with
  | Some recorded =>
      files ← gets disk_projection ;
      attempt (replayed_decision l log files recorded input)
  | None =>
      stored ← attempt (decidable_candidate l expected input) ;
      adopted ← attempt (adopted_tail l log input) ;
      settle_decision stored adopted input authentication now outcomes
  end.

Lemma decide_ready file input authentication now outcomes st l expected log :
  ready file input st l expected log → io_locked outcomes = true →
  decide_memory_candidate s uuids file input authentication now outcomes st
  = decide_loaded l expected log input authentication now outcomes (loaded_state l log st).
Proof.
  intros [Hinput Hproject Hledger Hexpected Hlog] Hlock.
  apply bind_Ok in Hexpected as (tasks & Htasks & Hexpected).
  unfold decide_memory_candidate, memory_context, decision_error_if.
  rewrite Hinput, Hproject, bool_decide_eq_false_2 by naive_solver.
  rewrite (op_bind_run _ _ st tt st) by done. rewrite (op_bind_run _ _ st tt st) by done.
  rewrite (op_bind_run _ _ st tt st) by by apply io_Ok.
  rewrite (op_bind_run _ _ st tt (with_ledger l st)).
  2: { unfold reload_ledger. rewrite (op_bind_run _ _ st (disk_ledger st) st) by done.
       by rewrite (op_bind_run _ _ st l st) by by apply attempt_Ok. }
  rewrite (op_bind_run _ _ _ tasks (with_ledger l st)) by by apply attempt_Ok.
  rewrite (op_bind_run _ _ _ expected (with_ledger l st)) by by apply attempt_Ok.
  rewrite (op_bind_run _ _ _ l (with_ledger l st)) by done.
  rewrite (op_bind_run _ _ _ (disk_log st) (with_ledger l st)) by done.
  rewrite (op_bind_run _ _ _ log (with_ledger l st)) by by (apply attempt_Ok; rewrite Hlog).
  rewrite (op_bind_run _ _ _ tt (loaded_state l log st)) by done.
  done.
Qed.

(** A decision fails before it touched a file, or gets to branch. *)
Lemma decide_cases file input authentication now outcomes st r st' :
  decide_memory_candidate s uuids file input authentication now outcomes st = (r, st') →
  (∃ e, r = Err e ∧ same_disk st st') ∨
  ∃ l expected log, ready file input st l expected log ∧ io_locked outcomes = true ∧
    decide_loaded l expected log input authentication now outcomes (loaded_state l log st)
    = (r, st').
Proof.
  unfold decide_memory_candidate, reload_ledger, memory_context, decision_error_if. intros Hrun.
  do 10 (op_case Hrun; [|left; eexists; split; [reflexivity|by split_and!]..]).
  right. result_inv. bool_inv.
  eexists _, _, _. split; [|split; [done|exact Hrun]].
  split; try done. by match goal with Ht : governed_tasks_on_disk _ _ _ = _ |- _ => rewrite Ht end.
Qed.
End decision.

(** * How a decision settles *)

Section settling.
Context `{Host, MemoryJson, CandidateJson}.
Implicit Types (log : MemoryLog) (st : MemoryState) (input : MemoryCandidateDecisionInput).

Definition promotion_of (record : MemoryRecord) input (decided_at : rstring) log : Settled :=
  {| settled_status := CandidatePromoted (mem_id record) decided_at (input_actor input);
     settled_at := decided_at; settled_record := Some record; settled_head := full_head log |}.

(** The state after the entry of [record] was appended. *)
Definition appended (record : MemoryRecord) st : MemoryState :=
  with_disk_log
    (Some (append_line (disk_log st) (log_entry_json (sealed_entry (ms_log st) record))))
    (with_log (push_tail (sealed_entry (ms_log st) record) (ms_log st)) st).

(** A dismissal, a promotion that takes up the entry an interrupted one left
    behind, and a promotion that appends its own. *)
Inductive settles stored input (now : rstring) st :
    option MemoryRecord → AppendWrite → Settled → MemoryState → Prop :=
  | settles_dismissal reason write (Hkind : input_decision input = Dismiss reason) :
      settles stored input now st None write
        {| settled_status := CandidateDismissed reason now (input_actor input);
           settled_at := now; settled_record := None;
           settled_head := ml_memory_log_head (ms_ledger st) |} st
  | settles_adopted tail derived write (Hkind : input_decision input = Promote)
      (Hderive : derive_promoted_record stored (input_request_id input)
                   (ml_revision (ms_ledger st)) now = Ok derived)
      (Hid : mem_id tail = mem_id derived) :
      settles stored input now st (Some tail) write
        (promotion_of tail input (mem_valid_from tail) (ms_log st)) st
  | settles_fresh derived (Hkind : input_decision input = Promote)
      (Hderive : derive_promoted_record stored (input_request_id input)
                   (ml_revision (ms_ledger st)) now = Ok derived) :
      settles stored input now st None AppendLanded
        (promotion_of derived input now (ms_log (appended derived st))) (appended derived st).

Lemma append_record_run record write st r st' :
  append_record record write st = (r, st') →
  (r = Ok tt ∧ write = AppendLanded ∧ st' = appended record st) ∨
  ∃ e torn cut, r = Err (MemoryContext e (MemoryMessage (lit "write failed")))
    ∧ write = AppendFailed torn cut
    ∧ st' = with_disk_log (failed_file (disk_log st) torn cut) (with_log (ms_log st) st).
Proof.
  unfold append_record, append_with. destruct write as [|torn cut]; cbn; intros [= <- <-];
    [by left|]. right. by eexists _, _, _.
Qed.

Lemma settle_Ok stored adopted input now write st settled st' :
  settle stored adopted input now write st = (Ok settled, st') ↔
    settles stored input now st adopted write settled st'.
Proof.
  unfold settle, settle_promotion, settle_dismissal, decision_error_if. split.
  - destruct (input_decision input) as [|reason] eqn:Hkind.
    + destruct adopted as [tail|]; intros Hrun; op_inv; result_inv; bool_inv; op_inv.
      * by eapply settles_adopted.
      * match goal with Hw : append_record _ _ _ = _ |- _ =>
          apply append_record_run in Hw as [(_ & -> & ->)|(? & ? & ? & ? & _)]; [|done] end.
        by apply settles_fresh.
    + intros Hrun. op_inv. result_inv. bool_inv. destruct adopted as [tail|]; [|by apply settles_dismissal].
      by match goal with Hn : ¬ is_Some _ |- _ => destruct Hn end.
  - intros [reason write' Hkind|tail derived write' Hkind Hderive Hid|derived Hkind Hderive];
      rewrite Hkind.
    + done.
    + rewrite (op_bind_run _ _ _ (ms_ledger st) st) by done.
      rewrite (op_bind_run _ _ _ derived st) by by apply attempt_Ok.
      rewrite Hid, bool_decide_eq_false_2 by naive_solver. done.
    + rewrite (op_bind_run _ _ _ (ms_ledger st) st) by done.
      rewrite (op_bind_run _ _ _ derived st) by by apply attempt_Ok.
      done.
Qed.

(** A failure that is not one of the typed decision errors. *)
Definition untyped (e : MemoryError) : Prop := ∀ d, e ≠ MemoryDecisionFailure d.

(** Settling fails at a check, with nothing done, or at the append. *)
Lemma settle_Err stored adopted input now write st e st' :
  settle stored adopted input now write st = (Err e, st') →
  st' = st ∨
  untyped e ∧ ∃ torn cut, write = AppendFailed torn cut ∧
    st' = with_disk_log (failed_file (disk_log st) torn cut) (with_log (ms_log st) st).
Proof.
  unfold settle, settle_promotion, settle_dismissal, decision_error_if.
  destruct (input_decision input) as [|reason]; [destruct adopted as [tail|]|]; intros Hrun;
    op_err; try by left.
  match goal with Hw : append_record _ _ _ = _ |- _ =>
    apply append_record_run in Hw as [(? & _)|(? & torn & cut & He & -> & ->)]; [done|] end.
  right. simplify_eq. split; [by intros d ?|eauto].
Qed.

(** * What a settled decision commits *)

Definition settled_decision l input authentication (settled : Settled) (next : Z)
    : MemoryCandidateDecision :=
  decision_receipt input authentication settled (ml_revision l) next.

Definition settled_ledger l input authentication (settled : Settled) stored (next : Z)
    : MemoryCandidateLedger :=
  decided_ledger l (settled_decision l input authentication settled next)
    (set_status (settled_status settled) stored) (settled_head settled).

(** The state once ledger [l] is written and the log's tail is committed. *)
Definition committed_state l st : MemoryState :=
  with_log (commit_tail (ms_log st)) (with_ledger l (with_disk_ledger l st)).

Definition settled_outcome l input authentication (settled : Settled) stored (next : Z)
    (projected : rstring * bool) : MemoryCandidateDecisionOutcome :=
  {| outcome_decision := settled_decision l input authentication settled next;
     outcome_candidate := set_status (settled_status settled) stored;
     outcome_record := settled_record settled; outcome_replayed := false;
     outcome_projection_digest := projected.1; outcome_retrieval_index_dirty := projected.2 |}.

(** The projection write that ends a decision. *)
Definition project_decision input (now : rstring) (outcomes : DecisionIo) st
    : memory_result (rstring * bool) * ProjectionFiles :=
  write_projection (disk_projection st) (projected_records (commit_tail (ms_log st))) now
    (is_promote (input_decision input)) (io_projection outcomes).

(** A decision that settles comes down to its ledger write. *)
Lemma settle_decision_run stored adopted input authentication now outcomes st next settled st1 :
  u64_checked_add (ml_revision (ms_ledger st)) 1 = Some next →
  settles stored input now st adopted (io_append outcomes) settled st1 →
  validate_candidate (set_status (settled_status settled) stored) = Ok tt →
  settle_decision stored adopted input authentication now outcomes st =
  if io_ledger outcomes then
    (projected ← (project_decision input now outcomes st1).1 ;
     Ok (settled_outcome (ms_ledger st) input authentication settled stored next projected),
     with_projection (project_decision input now outcomes st1).2
       (committed_state
          (settled_ledger (ms_ledger st) input authentication settled stored next) st1))
  else
    (Err (MemoryContext (lit "Failed to persist memory candidate decision")
            (MemoryMessage (lit "i/o error"))), st1).
Proof.
  intros Hnext Hsettles Hvalid.
  assert (Hsettle : settle stored adopted input now (io_append outcomes) st = (Ok settled, st1))
    by by apply settle_Ok.
  destruct (settle_decision stored adopted input authentication now outcomes st) as [r st'] eqn:Hrun.
  unfold settle_decision, require, write_ledger, memory_context in Hrun.
  rewrite (op_bind_run _ _ st (ms_ledger st) st) in Hrun by done.
  rewrite (op_bind_run _ _ st next st) in Hrun by by rewrite Hnext.
  rewrite (op_bind_run _ _ _ _ _ Hsettle) in Hrun.
  rewrite (op_bind_run _ _ _ tt st1) in Hrun by by rewrite Hvalid.
  destruct (io_ledger outcomes); [|by injection Hrun as <- <-].
  rewrite (op_bind_run _ _ _ tt (with_ledger (settled_ledger (ms_ledger st) input authentication
    settled stored next) (with_disk_ledger (settled_ledger (ms_ledger st) input authentication
    settled stored next) st1))) in Hrun by done.
  op_case Hrun. op_case Hrun. unfold project_log in Hrun. unfold project_decision.
  set (answer := write_projection _ _ _ _ _) in *.
  unfold mbind, memory_op_bind in Hrun.
  change (write_projection _ _ _ _ _) with answer in Hrun.
  destruct answer as [[projected|e] files]; by injection Hrun as <- <-.
Qed.
(** A decided candidate that fails its contract stops the decision, but only
    after it has settled. *)
Lemma settle_decision_invalid stored adopted input authentication now outcomes st next settled st1 :
  u64_checked_add (ml_revision (ms_ledger st)) 1 = Some next →
  settles stored input now st adopted (io_append outcomes) settled st1 →
  validate_candidate (set_status (settled_status settled) stored) ≠ Ok tt →
  ∃ e, settle_decision stored adopted input authentication now outcomes st = (Err e, st1).
Proof.
  intros Hnext Hsettles Hvalid. apply settle_Ok in Hsettles.
  unfold settle_decision, require, memory_context.
  rewrite (op_bind_run _ _ st (ms_ledger st) st) by done.
  rewrite (op_bind_run _ _ st next st) by by rewrite Hnext.
  rewrite (op_bind_run _ _ _ _ _ Hsettles).
  destruct (validate_candidate _) as [[]|e]; [done|]. eexists. by apply op_bind_fail.
Qed.

(** Where a decision stops once its candidate may be decided: before it settled,
    between settling and the ledger write, or after that write. *)
Lemma settle_decision_cases stored adopted input authentication now outcomes st r st' :
  settle_decision stored adopted input authentication now outcomes st = (r, st') →
  (∃ e, r = Err e ∧ (untyped e ∧ st' = st ∨
     settle stored adopted input now (io_append outcomes) st = (Err e, st'))) ∨
  ∃ next settled st1,
    u64_checked_add (ml_revision (ms_ledger st)) 1 = Some next ∧
    settles stored input now st adopted (io_append outcomes) settled st1 ∧
    ((∃ e, r = Err e ∧ untyped e ∧ st' = st1
        ∧ (validate_candidate (set_status (settled_status settled) stored) ≠ Ok tt
           ∨ io_ledger outcomes = false)) ∨
     validate_candidate (set_status (settled_status settled) stored) = Ok tt ∧
     io_ledger outcomes = true ∧
     r = (projected ← (project_decision input now outcomes st1).1 ;
          Ok (settled_outcome (ms_ledger st) input authentication settled stored next projected)) ∧
     st' = with_projection (project_decision input now outcomes st1).2
             (committed_state
                (settled_ledger (ms_ledger st) input authentication settled stored next) st1)).
Proof.
  intros Hrun. pose proof Hrun as Hrest.
  unfold settle_decision, require, memory_context in Hrest. op_case Hrest. op_case Hrest.
  2: { left. eexists. split; [done|]. left. split; [|done]. intros d ->.
       by match goal with Hm : ok_or _ _ = _ |- _ => destruct (u64_checked_add _ _) end. }
  destruct (settle stored adopted input now (io_append outcomes) st) as [[settled|e] st1] eqn:Hsettle.
  2: { rewrite (op_bind_fail _ _ _ _ _ Hsettle) in Hrest. injection Hrest as <- <-.
       left. eexists. split; [done|]. by right. }
  rewrite (op_bind_run _ _ _ _ _ Hsettle) in Hrest. apply settle_Ok in Hsettle. result_inv.
  right. eexists _, settled, st1. split; [done|]. split; [done|].
  destruct (validate_candidate (set_status _ _)) as [[]|e'] eqn:Hvalid.
  - erewrite settle_decision_run in Hrun by done.
    destruct (io_ledger outcomes); injection Hrun as <- <-; [by right|].
    left. eexists. split; [done|]. split; [by intros d ?|]. split; [done|by right].
  - injection Hrest as <- <-. left. eexists. split; [done|]. split; [by intros d ?|].
    split; [done|by left].
Qed.
End settling.

(** * What the checks before settling establish *)

Section checks.
Context `{Host, MemoryJson}.
Implicit Types (l : MemoryCandidateLedger) (log : MemoryLog)
  (input : MemoryCandidateDecisionInput).

Lemma decidable_candidate_Ok l expected input stored :
  decidable_candidate l expected input = Ok stored →
  ml_revision l = input_expected_ledger_revision input ∧
  ml_candidates l !! input_candidate_id input = Some stored ∧
  is_pending (cand_status stored) = true ∧
  ∃ e, expected !! input_candidate_id input = Some e ∧ matches_ignoring_status stored e = true.
Proof.
  unfold decidable_candidate, decision_error_if, decision_error. intros Hok.
  apply bind_Ok in Hok as ([] & Hrev & Hok). apply bind_Ok in Hok as (c & Hc & Hok).
  apply bind_Ok in Hok as ([] & Hpending & Hok). apply bind_Ok in Hok as ([] & Hmatch & Hok).
  result_inv. bool_inv. split_and!; [done..|].
  destruct (expected !! _) as [e|]; [|done]. result_inv. bool_inv. by exists e.
Qed.

Lemma adopted_tail_None l log input :
  adopted_tail l log input = Ok None → uncommitted_tail log = [].
Proof.
  unfold adopted_tail, decision_error. destruct (uncommitted_tail log) as [|entry rest]; [done|].
  intros Hok. by repeat case_match.
Qed.

Lemma adopted_tail_Some l log input r :
  adopted_tail l log input = Ok (Some r) →
  mem_request_id r = input_request_id input ∧
  ∃ entry rest, uncommitted_tail log = entry :: rest ∧ entry_record entry = r.
Proof.
  unfold adopted_tail, decision_error. destruct (uncommitted_tail log) as [|entry rest]; [done|].
  case_bool_decide as Hid; [|by case_match]. intros [= <-]. split; [done|]. eauto.
Qed.

Lemma adopted_tail_own l log input entry rest :
  uncommitted_tail log = entry :: rest →
  mem_request_id (entry_record entry) = input_request_id input →
  adopted_tail l log input = Ok (Some (entry_record entry)).
Proof. unfold adopted_tail. intros -> ->. by rewrite bool_decide_eq_true_2. Qed.

Lemma adopted_tail_other l log input entry rest :
  uncommitted_tail log = entry :: rest →
  mem_request_id (entry_record entry) ≠ input_request_id input →
  ∃ e, adopted_tail l log input = Err (MemoryDecisionFailure e).
Proof.
  unfold adopted_tail, decision_error. intros -> Hid.
  rewrite bool_decide_eq_false_2 by done. case_match; eauto.
Qed.

(** The record of a promotion: its identity leaves the time out. *)
Lemma derive_promoted_record_Ok c request_id revision now r :
  derive_promoted_record c request_id revision now = Ok r →
  verify_record_identity r = Ok tt ∧ mem_request_id r = request_id ∧ mem_valid_from r = now.
Proof. unfold derive_promoted_record, memory_context. intros Hok. by result_inv. Qed.

Lemma derive_promoted_record_at c request_id revision now now' r :
  derive_promoted_record c request_id revision now = Ok r →
  is_Some (parse_from_rfc3339 now') →
  ∃ r', derive_promoted_record c request_id revision now' = Ok r' ∧ mem_id r' = mem_id r.
Proof.
  unfold derive_promoted_record, memory_context. intros Hok [instant Hnow].
  apply bind_Ok in Hok as (id & -> & Hok). rewrite bind_ret_l.
  apply bind_Ok in Hok as ([] & Hv & Hok). apply Ok_inj in Hok as <-.
  eexists. split.
  2: { match goal with |- _ = mem_id ?r => instantiate (1 := {| mem_id := mem_id r;
         mem_schema_version := mem_schema_version r; mem_kind := mem_kind r;
         mem_scope := mem_scope r; mem_project_id := mem_project_id r;
         mem_source := mem_source r; mem_request_id := mem_request_id r;
         mem_based_on_ledger_revision := mem_based_on_ledger_revision r;
         mem_title := mem_title r; mem_body := mem_body r; mem_valid_from := now';
         mem_superseded_by := mem_superseded_by r; mem_digest := mem_digest r |}) end. done. }
  unfold verify_record_identity, validate_record, recompute_identity_source, validate_source,
    identity_hex in Hv |- *.
  cbn [mem_schema_version mem_id mem_scope mem_project_id mem_source mem_title mem_body
       mem_valid_from mem_superseded_by mem_digest mem_kind mem_request_id
       mem_based_on_ledger_revision] in Hv |- *.
  destruct (parse_from_rfc3339 now); [|by result_inv]. by rewrite Hnow, Hv.
Qed.
End checks.

(** * What a decision left is read back *)

(** No record id occurs twice. *)
Definition distinct_records (log : MemoryLog) : Prop :=
  NoDup ((λ e, mem_id (entry_record e)) <$> committed log ++ uncommitted_tail log).

Lemma distinct_records_fresh log e :
  uncommitted_tail log = [] → distinct_records (push_tail e log) →
  committed_record log (mem_id (entry_record e)) = None.
Proof.
  unfold distinct_records, push_tail, committed_record. cbn [committed uncommitted_tail].
  intros -> Hdup. rewrite app_nil_l, fmap_app in Hdup. apply NoDup_app in Hdup as (_ & Hnot & _).
  destruct (List.find _ _) as [r|] eqn:Hfind; [|done]. exfalso.
  apply find_some in Hfind as [Hin Hid]. bool_inv.
  apply list_elem_of_In, list_elem_of_fmap in Hin as (e' & -> & Hin).
  apply (Hnot (mem_id (entry_record e'))); [apply list_elem_of_fmap; by exists e'|].
  rewrite Hid. by left.
Qed.

Lemma distinct_records_find log e :
  distinct_records log → e ∈ committed log →
  committed_record log (mem_id (entry_record e)) = Some (entry_record e).
Proof.
  unfold distinct_records, committed_record. rewrite fmap_app. intros Hdup%NoDup_app Hin.
  destruct Hdup as [Hdup _]. revert Hdup Hin.
  induction (committed log) as [|e' entries IH]; intros Hdup Hin; [by apply elem_of_nil in Hin|].
  cbn in Hdup |- *. apply NoDup_cons in Hdup as [Hnot Hdup].
  apply elem_of_cons in Hin as [->|Hin]; [by rewrite bool_decide_eq_true_2|].
  rewrite bool_decide_eq_false_2; [by apply IH|].
  intros Heq. apply Hnot. rewrite Heq. apply list_elem_of_fmap. by exists e.
Qed.

Section reload.
Context `{Host, !HostLaws, MemoryJson, !MemoryJsonLaws}.
Implicit Types (l : MemoryCandidateLedger) (st : MemoryState)
  (input : MemoryCandidateDecisionInput).

Lemma settled_ledger_valid l input authentication settled stored next :
  valid_ledger l → ml_candidates l !! input_candidate_id input = Some stored →
  validate_candidate (set_status (settled_status settled) stored) = Ok tt →
  valid_ledger (settled_ledger l input authentication settled stored next).
Proof using Type.
  intros [Hschema Hcandidate Htasks] Hstored Hvalid. split.
  - done.
  - intros k c. cbn. rewrite lookup_insert_Some. intros [[<- <-]|[_ Hc]]; [|by apply Hcandidate].
    split; [|done]. by apply (Hcandidate _ _ Hstored).
  - assert (Hback : ∀ k c,
      ml_candidates (settled_ledger l input authentication settled stored next) !! k = Some c →
      ∃ c', ml_candidates l !! k = Some c' ∧ cand_governed_task_id c' = cand_governed_task_id c).
    { intros k c. cbn. rewrite lookup_insert_Some. intros [[<- <-]|[_ Hc]]; eauto. }
    intros k1 k2 c1 c2 (c1' & Hc1 & <-)%Hback (c2' & Hc2 & <-)%Hback. by apply Htasks.
Qed.

Lemma settled_log_loads stored input now st adopted write settled st1 :
  load_log (disk_log st) (ml_memory_log_head (ms_ledger st)) Local = Ok (ms_log st) →
  adopted_tail (ms_ledger st) (ms_log st) input = Ok adopted →
  settles stored input now st adopted write settled st1 →
  log_file_terminated (disk_log st) → distinct_records (ms_log st1) →
  load_log (disk_log st1) (settled_head settled) Local = Ok (commit_tail (ms_log st1))
  ∧ log_file_terminated (disk_log st1).
Proof using Type*.
  intros Hload Hadopted Hsettles Hfile Hdup.
  destruct Hsettles as [reason write Hkind|tail derived write Hkind Hderive Hid|derived Hkind Hderive].
  - split; [|done]. cbn [settled_head]. apply adopted_tail_None in Hadopted.
    rewrite Hload. unfold commit_tail. rewrite Hadopted, app_nil_r.
    destruct (ms_log st); cbn in *; by subst.
  - split; [|done]. by apply (full_head_loads _ _ _ Local) in Hload.
  - apply adopted_tail_None in Hadopted.
    apply derive_promoted_record_Ok in Hderive as (Hverify & _ & _).
    pose proof (distinct_records_fresh _ _ Hadopted Hdup) as Hfresh.
    destruct (append_loads _ _ _ _ Hload Hadopted Hfile Hverify Hfresh) as [_ Hfull].
    split; [exact Hfull|]. unfold log_file_terminated.
    change (last (append_line (disk_log st) (log_entry_json (sealed_entry (ms_log st) derived)))
            ≠ Some 13).
    by rewrite append_line_terminated.
Qed.
End reload.
