(* ===== verification/MemoryDecisionProps.v ===== *)
(** The operator's decision: it commits one receipt or leaves the queue as it
    was, a request is decided once, an interrupted promotion is completed by
    replaying its request, and a dismissal changes nothing but the queue. *)
From S2P Require Export MemoryDecision MemoryDerive MemoryStartProps.
Local Open Scope Z_scope.

Section decisions.
Context `{Host, MemoryJson, CandidateJson} (s : Storage) (uuids : rstring → Z → FreshIds).
Implicit Types (l : MemoryCandidateLedger) (log : MemoryLog) (st : MemoryState)
  (input : MemoryCandidateDecisionInput).

(** A decision that was settled and whose candidate may be written. *)
Record decides l expected log input now write st stored adopted next settled st1 : Prop := {
  ds_new : ml_processed_decisions l !! input_request_id input = None;
  ds_stored : decidable_candidate l expected input = Ok stored;
  ds_adopted : adopted_tail l log input = Ok adopted;
  ds_next : u64_checked_add (ml_revision l) 1 = Some next;
  ds_settles : settles stored input now (loaded_state l log st) adopted write settled st1;
  ds_valid : validate_candidate (set_status (settled_status settled) stored) = Ok tt
}.

(** Where every decision ends. *)
Lemma decide_inv file input authentication now outcomes st r st' :
  decide_memory_candidate s uuids file input authentication now outcomes st = (r, st') →
  (∃ e, r = Err e ∧ same_disk st st') ∨
  ∃ l expected log, ready s uuids file input st l expected log ∧
    ((∃ recorded, ml_processed_decisions l !! input_request_id input = Some recorded ∧
        r = replayed_decision l log (disk_projection st) recorded input ∧
        st' = loaded_state l log st) ∨
     (∃ e torn cut, r = Err e ∧ untyped e ∧
        io_append outcomes = AppendFailed torn cut ∧
        st' = with_disk_log (failed_file (disk_log st) torn cut) (loaded_state l log st)) ∨
     ∃ stored adopted next settled st1,
       (ml_processed_decisions l !! input_request_id input = None ∧
        decidable_candidate l expected input = Ok stored ∧
        adopted_tail l log input = Ok adopted ∧
        settles stored input now (loaded_state l log st) adopted (io_append outcomes) settled st1 ∧
        ∃ e, r = Err e ∧ untyped e ∧ st' = st1 ∧
          (validate_candidate (set_status (settled_status settled) stored) ≠ Ok tt
           ∨ io_ledger outcomes = false)) ∨
       (decides l expected log input now (io_append outcomes) st stored adopted next settled st1 ∧
        io_ledger outcomes = true ∧
        r = (projected ← (project_decision input now outcomes st1).1 ;
             Ok (settled_outcome l input authentication settled stored next projected)) ∧
        st' = with_projection (project_decision input now outcomes st1).2
                (committed_state
                   (settled_ledger l input authentication settled stored next) st1))).
Proof.
  intros [Hleft|(l & expected & log & Hready & _ & Hrun)]%decide_cases; [by left|].
  unfold decide_loaded in Hrun.
  destruct (ml_processed_decisions l !! input_request_id input) as [recorded|] eqn:Hnew.
  { op_case Hrun. unfold attempt in Hrun. injection Hrun as <- <-.
    right. eexists l, expected, log. split; [done|]. left. by exists recorded. }
  op_case Hrun; [|left; eexists; split; [done|by split_and!]].
  op_case Hrun; [|left; eexists; split; [done|by split_and!]].
  apply settle_decision_cases in Hrun as [(e & -> & Hstop)|Hrun].
  - destruct Hstop as [[_ ->]|[->|(He & torn & cut & Hwrite & ->)]%settle_Err].
    1,2: left; eexists; split; [done|by split_and!].
    right. exists l, expected, log. split; [done|]. right. left. by exists e, torn, cut.
  - destruct Hrun as (next & settled & st1 & Hnext & Hsettles & Hend).
    right. exists l, expected, log. split; [done|]. right. right.
    eexists _, _, next, settled, st1.
    destruct Hend as [(e & -> & He & -> & Hwhy)|(Hvalid & Hio & -> & ->)]; [left|right].
    + do 4 (split; [done|]). by eexists.
    + split; [by split|]. done.
Qed.

(** The ledger on disk took in exactly the receipt of [input]. *)
Definition commits_receipt input st st' : Prop :=
  ∃ l l' stored decision σ,
    load_candidate_ledger (disk_ledger st) = Ok l ∧ disk_ledger st' = Some l' ∧
    ml_revision l' = ml_revision l + 1 ∧
    ml_candidates l !! input_candidate_id input = Some stored ∧
    cand_status stored = PendingReview ∧ is_pending σ = false ∧
    ml_candidates l' = <[input_candidate_id input := set_status σ stored]> (ml_candidates l) ∧
    ml_pending_status_migrations l' = ml_pending_status_migrations l ∧
    ml_processed_decisions l !! input_request_id input = None ∧
    ml_processed_decisions l'
    = <[input_request_id input := decision]> (ml_processed_decisions l) ∧
    require_idempotent_decision decision input = Ok tt.

(** A decision either changes no ledger, or commits the one receipt of its
    request: the revision moves by one, the candidate it names goes from pending
    to decided, every other candidate, every parked decision and every earlier
    receipt stays. An answer without a new receipt is a failure or a replay that
    wrote nothing, and a typed refusal leaves every file as it was. *)
Theorem decision_commits_one_receipt file input authentication now outcomes st r st'
    (Hrun : decide_memory_candidate s uuids file input authentication now outcomes st
            = (r, st')) :
  (disk_ledger st' = disk_ledger st ∧ disk_projection st' = disk_projection st
   ∧ (is_ok r = true → disk_log st' = disk_log st)
   ∨ commits_receipt input st st')
  ∧ ∀ e, r = Err (MemoryDecisionFailure e) → same_disk st st'.
Proof using Type.
  apply decide_inv in Hrun as [(e & -> & Hdisk)|(l & expected & log & Hready & Hrun)].
  { split; [left; by destruct Hdisk as (? & ? & ?)|by intros]. }
  destruct Hrun as [(recorded & _ & _ & ->)|[(e & torn & cut & -> & He & _ & ->)|Hrun]].
  { split; [by left|done]. }
  { split; [by left|]. intros d [= ->]. by destruct (He d). }
  destruct Hrun as (stored & adopted & next & settled & st1 & [Hfailed|Hdone]).
  { destruct Hfailed as (_ & _ & _ & Hsettles & e & -> & He & -> & _). split; [left|].
    - by destruct Hsettles.
    - intros d [= ->]. by destruct (He d). }
  destruct Hdone as ([Hnew Hstored Hadopted Hnext Hsettles Hvalid] & _ & -> & ->).
  apply decidable_candidate_Ok in Hstored as (Hrevision & Hstored & Hpending & _).
  apply u64_checked_add_Some in Hnext as [-> _].
  split.
  2: { intros d Hr. exfalso. revert Hr. unfold project_decision.
       unfold write_projection. repeat case_match; done. }
  right. eexists l, _, stored, _, (settled_status settled). split; [by apply Hready|].
  do 3 (split; [done|]). split; [by destruct (cand_status stored)|].
  split; [by destruct Hsettles|]. do 4 (split; [done|]).
  unfold require_idempotent_decision, decision_error_if.
  cbn. rewrite !same_is_not_different, <-Hrevision, Z.eqb_refl. done.
Qed.

(** How a decision that goes through ends. *)
Lemma decide_Ok file input authentication now outcomes st o st' :
  decide_memory_candidate s uuids file input authentication now outcomes st = (Ok o, st') →
  ∃ l expected log, ready s uuids file input st l expected log ∧
    ((∃ recorded, ml_processed_decisions l !! input_request_id input = Some recorded ∧
        replayed_decision l log (disk_projection st) recorded input = Ok o ∧
        st' = loaded_state l log st) ∨
     ∃ stored adopted next settled st1 projected,
       decides l expected log input now (io_append outcomes) st stored adopted next settled st1 ∧
       (project_decision input now outcomes st1).1 = Ok projected ∧
       o = settled_outcome l input authentication settled stored next projected ∧
       st' = with_projection (project_decision input now outcomes st1).2
               (committed_state
                  (settled_ledger l input authentication settled stored next) st1)).
Proof using Type.
  intros [(e & ? & _)|(l & expected & log & Hready & Hrun)]%decide_inv; [done|].
  exists l, expected, log. split; [done|].
  destruct Hrun as [(recorded & Hr & Ho & ->)|[(e & torn & cut & ? & _)|Hrun]]; [|done|].
  - left. by exists recorded.
  - destruct Hrun as (stored & adopted & next & settled & st1 & [Hfailed|Hdone]).
    { by destruct Hfailed as (_ & _ & _ & _ & e & ? & _). }
    destruct Hdone as (Hdecides & _ & Ho & ->). right.
    symmetry in Ho. apply bind_Ok in Ho as (projected & Hp & Ho). apply Ok_inj in Ho as <-.
    by exists stored, adopted, next, settled, st1, projected.
Qed.
End decisions.

Section reloading.
Context `{Host, !HostLaws, MemoryJson, !MemoryJsonLaws, CandidateJson}.
Context (s : Storage) (uuids : rstring → Z → FreshIds).

(** Memory and disk agree: the ledger and the log in memory are what a load of
    the files gives, and the log file can be appended to. *)
Record in_step (st : MemoryState) : Prop := {
  in_step_ledger : load_candidate_ledger (disk_ledger st) = Ok (ms_ledger st);
  in_step_log :
    load_log (disk_log st) (ml_memory_log_head (ms_ledger st)) Local = Ok (ms_log st);
  in_step_file : log_file_terminated (disk_log st)
}.

Lemma decides_in_step file expected l log input authentication now write st stored adopted next
    settled st1 files :
  ready s uuids file input st l expected log →
  decides l expected log input now write st stored adopted next settled st1 →
  log_file_terminated (disk_log st) → distinct_records (ms_log st1) →
  in_step (with_projection files
    (committed_state (settled_ledger l input authentication settled stored next) st1)).
Proof using Type*.
  intros [_ _ Hledger _ Hlog] [_ Hstored Hadopted _ Hsettles Hvalid] Hfile Hdup.
  apply decidable_candidate_Ok in Hstored as (_ & Hstored & _).
  apply load_candidate_ledger_Ok in Hledger as [_ Hl].
  destruct (settled_log_loads stored input now (loaded_state l log st) adopted write settled st1)
    as [Hload Hfile']; [done..|].
  split; [|exact Hload|exact Hfile'].
  cbn [disk_ledger ms_ledger with_projection committed_state with_log with_ledger with_disk_ledger].
  by apply load_valid, settled_ledger_valid.
Qed.

(** After every decision that goes through, fresh or replayed, what is in
    memory is exactly what the files load as: the ledger passes its validation
    and migration unchanged, and the log's chain verifies up to the head the
    ledger commits, with nothing uncommitted. *)
Theorem decided_state_reloads file input authentication now outcomes st o st'
    (Hfile : log_file_terminated (disk_log st))
    (Hrun : decide_memory_candidate s uuids file input authentication now outcomes st
            = (Ok o, st'))
    (Hdup : distinct_records (ms_log st')) :
  in_step st' ∧ (outcome_replayed o = false → uncommitted_tail (ms_log st') = []).
Proof using Type*.
  apply decide_Ok in Hrun as (l & expected & log & Hready & [Hreplay|Hdone]).
  - destruct Hreplay as (recorded & _ & Ho & ->). split; [by destruct Hready|].
    unfold replayed_decision in Ho. result_inv. done.
  - destruct Hdone as (stored & adopted & next & settled & st1 & projected & Hdecides & _ & -> & ->).
    split; [|done]. eapply decides_in_step; [done..|].
    unfold distinct_records in *. cbn in Hdup. by rewrite app_nil_r in Hdup.
Qed.

(** * A request is decided once *)

Definition as_replayed (o : MemoryCandidateDecisionOutcome) : MemoryCandidateDecisionOutcome :=
  {| outcome_decision := outcome_decision o; outcome_candidate := outcome_candidate o;
     outcome_record := outcome_record o; outcome_replayed := true;
     outcome_projection_digest := outcome_projection_digest o;
     outcome_retrieval_index_dirty := outcome_retrieval_index_dirty o |}.

Lemma loaded_state_same st : loaded_state (ms_ledger st) (ms_log st) st = st.
Proof using Type. by destruct st. Qed.

Lemma write_projection_Ok files records now dirty writes p files' :
  write_projection files records now dirty writes = (Ok p, files') →
  p.1 = projection_digest (render_projection records) ∧ p.2 = index_is_dirty (file_marker files').
Proof using Type.
  unfold write_projection. destruct (_ && _); [done|].
  destruct (marker_unchanged _ _) eqn:Hsame; cbn [file_projection file_marker].
  - intros [= <- <-]. split; [done|]. cbn [snd file_marker].
    unfold marker_unchanged in Hsame. destruct (file_marker files) as [m|]; [|done].
    cbn in Hsame. bool_inv. unfold index_is_dirty, is_dirty.
    cbn [marker_indexed_digest marker_projection_digest]. by repeat match goal with
      | E : marker_projection_digest m = _ |- _ => rewrite E; clear E
      | E : marker_indexed_digest m = _ |- _ => rewrite E; clear E end.
  - destruct writes.2; [|done]. by intros [= <- <-].
Qed.

(** The record a decision settled is the log's once its tail is committed. *)
Lemma settled_record_committed l input stored now st adopted write settled st1 :
  adopted_tail l (ms_log st) input = Ok adopted →
  settles stored input now st adopted write settled st1 → distinct_records (ms_log st1) →
  (mem_id <$> settled_record settled) ≫= committed_record (commit_tail (ms_log st1))
  = settled_record settled.
Proof using Type.
  intros Hadopted Hsettles Hdup.
  assert (Hcommitted : ∀ e, e ∈ uncommitted_tail (ms_log st1) →
    committed_record (commit_tail (ms_log st1)) (mem_id (entry_record e)) = Some (entry_record e)).
  { intros e He. apply distinct_records_find.
    - unfold distinct_records, commit_tail in *. cbn. by rewrite app_nil_r.
    - cbn. apply elem_of_app. by right. }
  destruct Hsettles as [| |derived Hkind Hderive]; [done| |].
  - apply adopted_tail_Some in Hadopted as (_ & e & rest & Htail & <-).
    cbn. apply Hcommitted. rewrite Htail. by left.
  - cbn [settled_record promotion_of fmap option_fmap option_map mbind option_bind].
    apply (Hcommitted (sealed_entry (ms_log st) derived)). cbn. apply elem_of_app. right. by left.
Qed.

Lemma replay_run file' input authentication' now' outcomes' st recorded o :
  in_step st → io_locked outcomes' = true →
  validate_decision_input input = Ok tt →
  input_project_id input = governed_project_id_for_storage s →
  is_ok (governed_tasks_on_disk s uuids file' ≫= expected_accepted_run_candidates) = true →
  ml_processed_decisions (ms_ledger st) !! input_request_id input = Some recorded →
  replayed_decision (ms_ledger st) (ms_log st) (disk_projection st) recorded input = Ok o →
  decide_memory_candidate s uuids file' input authentication' now' outcomes' st = (Ok o, st).
Proof using Type.
  intros [Hledger Hlog _] Hlock Hinput Hproject Hgoverned Hrecorded Ho.
  destruct (_ ≫= _) as [expected|] eqn:Hexpected in Hgoverned; [|done].
  rewrite (decide_ready s uuids _ _ _ _ _ _ (ms_ledger st) expected (ms_log st)) by done.
  unfold decide_loaded. rewrite Hrecorded, loaded_state_same.
  rewrite (op_bind_run _ _ _ (disk_projection st) st) by done. by rewrite Ho.
Qed.

(** A request is decided once: asked again after it went through, with any
    actor class, time, writes and later governed ledger, it is answered with the
    same receipt, candidate, record, projection digest and index state, marked as
    a replay, and neither memory nor any file changes. *)
Theorem decision_is_idempotent file file' input authentication authentication' now now'
    outcomes outcomes' st o st'
    (Hfile : log_file_terminated (disk_log st))
    (Hrun : decide_memory_candidate s uuids file input authentication now outcomes st
            = (Ok o, st'))
    (Hdup : distinct_records (ms_log st'))
    (Hlock : io_locked outcomes' = true)
    (Hgoverned :
      is_ok (governed_tasks_on_disk s uuids file' ≫= expected_accepted_run_candidates) = true) :
  decide_memory_candidate s uuids file' input authentication' now' outcomes' st'
  = (Ok (as_replayed o), st').
Proof using Type*.
  apply decide_Ok in Hrun as (l & expected & log & Hready & [Hreplay|Hdone]).
  - destruct Hreplay as (recorded & Hrecorded & Ho & ->).
    assert (as_replayed o = o) as -> by (unfold replayed_decision in Ho; by result_inv).
    apply (replay_run _ _ _ _ _ _ recorded); try done; by destruct Hready.
  - destruct Hdone as (stored & adopted & next & settled & st1 & projected & Hdecides & Hp & -> & ->).
    assert (Hdup1 : distinct_records (ms_log st1)).
    { unfold distinct_records in *. cbn in Hdup. by rewrite app_nil_r in Hdup. }
    destruct (project_decision input now outcomes st1) as [answer files] eqn:Hproject.
    cbn [fst snd] in *. subst answer. apply write_projection_Ok in Hproject as [Hdigest Hdirty].
    apply (replay_run _ _ _ _ _ _
      (settled_decision l input authentication settled next)); [|done|..|done| |];
      try by destruct Hready.
    + by eapply decides_in_step.
    + cbn. by rewrite lookup_insert_eq.
    + destruct Hdecides as [_ Hstored Hadopted _ Hsettles _].
      apply decidable_candidate_Ok in Hstored as (Hrevision & _).
      unfold replayed_decision, require_idempotent_decision, decision_error_if.
      cbn [settled_decision decision_receipt decided_candidate_id decided_decision decided_actor
           decided_based_on_ledger_revision].
      rewrite !same_is_not_different, <-Hrevision, Z.eqb_refl. cbn [negb orb reject_if].
      rewrite bind_ret_l.
      change (ml_candidates (ms_ledger _)) with
        (<[input_candidate_id input := set_status (settled_status settled) stored]> (ml_candidates l)).
      rewrite lookup_insert_eq. cbn [ok_or]. rewrite bind_ret_l.
      unfold as_replayed, settled_outcome.
      cbn [outcome_decision outcome_candidate outcome_record outcome_projection_digest
           outcome_retrieval_index_dirty]. rewrite Hdigest, Hdirty.
      f_equal. f_equal; try done.
      eapply settled_record_committed; [|exact Hsettles|done]. exact Hadopted.
Qed.

(** * An interrupted promotion *)

(** The same outcomes, but the ledger write is lost. *)
Definition ledger_write_lost (outcomes : DecisionIo) : DecisionIo :=
  {| io_locked := io_locked outcomes; io_append := io_append outcomes; io_ledger := false;
     io_projection := io_projection outcomes |}.

Lemma decides_run file input authentication now outcomes st l expected log stored adopted next
    settled st1 :
  ready s uuids file input st l expected log → io_locked outcomes = true →
  decides l expected log input now (io_append outcomes) st stored adopted next settled st1 →
  decide_memory_candidate s uuids file input authentication now outcomes st =
  if io_ledger outcomes then
    (projected ← (project_decision input now outcomes st1).1 ;
     Ok (settled_outcome l input authentication settled stored next projected),
     with_projection (project_decision input now outcomes st1).2
       (committed_state (settled_ledger l input authentication settled stored next) st1))
  else
    (Err (MemoryContext (lit "Failed to persist memory candidate decision")
            (MemoryMessage (lit "i/o error"))), st1).
Proof using Type.
  intros Hready Hlock [Hnew Hstored Hadopted Hnext Hsettles Hvalid].
  erewrite decide_ready by done. unfold decide_loaded. rewrite Hnew, Hstored, Hadopted.
  rewrite (op_bind_run _ _ _ stored (loaded_state l log st)) by done.
  rewrite (op_bind_run _ _ _ adopted (loaded_state l log st)) by done.
  by apply (settle_decision_run stored adopted input authentication now outcomes
    (loaded_state l log st) next settled st1).
Qed.

Lemma decide_Ok_locked file input authentication now outcomes st o st' :
  decide_memory_candidate s uuids file input authentication now outcomes st = (Ok o, st') →
  io_locked outcomes = true.
Proof using Type. by intros [(? & ? & _)|(? & ? & ? & _ & ? & _)]%decide_cases. Qed.

(** A promotion that was settled and not committed settles again as it did. *)
Lemma promotion_settles_again l log input now now' stored st adopted write write' settled st1 :
  load_log (disk_log st) (ml_memory_log_head l) Local = Ok log →
  adopted_tail l log input = Ok adopted →
  settles stored input now (loaded_state l log st) adopted write settled st1 →
  input_decision input = Promote → log_file_terminated (disk_log st) →
  distinct_records (ms_log st1) → is_Some (parse_from_rfc3339 now') →
  disk_ledger st1 = disk_ledger st ∧ disk_projection st1 = disk_projection st ∧
  loaded_state l (ms_log st1) st1 = st1 ∧
  load_log (disk_log st1) (ml_memory_log_head l) Local = Ok (ms_log st1) ∧
  ∃ record, adopted_tail l (ms_log st1) input = Ok (Some record) ∧
    settles stored input now' st1 (Some record) write' settled st1.
Proof using Type*.
  intros Hload Hadopted Hsettles Hpromote Hfile Hdup Hnow.
  destruct Hsettles as [reason write Hkind|tail derived write Hkind Hderive Hid|derived Hkind Hderive];
    [congruence|..]; (split; [done|]); (split; [done|]); (split; [done|]).
  - split; [done|]. exists tail. split; [done|].
    destruct (derive_promoted_record_at _ _ _ _ now' _ Hderive Hnow) as (derived' & Hderive' & Hid').
    eapply settles_adopted; [done|exact Hderive'|congruence].
  - apply adopted_tail_None in Hadopted.
    pose proof (derive_promoted_record_Ok _ _ _ _ _ Hderive) as (Hverify & Hrequest & Hfrom).
    pose proof (distinct_records_fresh _ _ Hadopted Hdup) as Hfresh.
    destruct (append_loads _ _ _ _ Hload Hadopted Hfile Hverify Hfresh) as [Hold _].
    split; [exact Hold|]. exists derived. split.
    + apply (adopted_tail_own _ _ _ (sealed_entry log derived) []); [|done].
      cbn. by rewrite Hadopted.
    + destruct (derive_promoted_record_at _ _ _ _ now' _ Hderive Hnow)
        as (derived' & Hderive' & Hid').
      replace (promotion_of derived input now (ms_log (appended derived (loaded_state l log st))))
        with (promotion_of derived input (mem_valid_from derived)
                (ms_log (appended derived (loaded_state l log st)))) by by rewrite Hfrom.
      eapply settles_adopted; [done|exact Hderive'|congruence].
Qed.

(** A promotion that could write its projection left the index dirty. *)
Lemma project_promotion input now outcomes st :
  input_decision input = Promote → io_projection outcomes = (true, true) →
  ∃ marker, project_decision input now outcomes st =
    (Ok (projection_digest (render_projection (projected_records (commit_tail (ms_log st)))), true),
     {| file_projection :=
          Some (render_projection (projected_records (commit_tail (ms_log st))));
        file_marker := Some marker |}).
Proof using Type.
  intros Hkind Hio. unfold project_decision, write_projection. rewrite Hkind, Hio.
  cbn [is_promote fst snd negb next_indexed_digest file_marker file_projection].
  rewrite andb_false_r.
  destruct (marker_unchanged _ _) eqn:Hsame; [|by eexists].
  destruct (file_marker (disk_projection st)) as [m|]; [|done]. by exists m.
Qed.

(** C17: a crash between the append of a promotion and the ledger write loses
    nothing: replaying the request at any later readable time, whatever became of
    its own append, takes up the entry left behind and ends with the answer, the
    ledger, the log and the projection the uninterrupted promotion would have
    left, the instant of the decision included. *)
Theorem interrupted_promotion_is_completed file input authentication now now' outcomes outcomes'
    st o st1 r st2
    (Hfile : log_file_terminated (disk_log st)) (Hpromote : input_decision input = Promote)
    (Hrun : decide_memory_candidate s uuids file input authentication now outcomes st = (Ok o, st1))
    (Hnew : outcome_replayed o = false) (Hdup : distinct_records (ms_log st1))
    (Hprojected : io_projection outcomes = (true, true))
    (Hcrash : decide_memory_candidate s uuids file input authentication now
                (ledger_write_lost outcomes) st = (r, st2))
    (Hnow : is_Some (parse_from_rfc3339 now')) (Hlock : io_locked outcomes' = true)
    (Hledger : io_ledger outcomes' = true) (Hprojection : io_projection outcomes' = (true, true)) :
  disk_ledger st2 = disk_ledger st ∧
  ∃ st3,
    decide_memory_candidate s uuids file input authentication now' outcomes' st2 = (Ok o, st3) ∧
    disk_ledger st3 = disk_ledger st1 ∧ disk_log st3 = disk_log st1 ∧
    file_projection (disk_projection st3) = file_projection (disk_projection st1) ∧
    ms_ledger st3 = ms_ledger st1 ∧ ms_log st3 = ms_log st1.
Proof using Type*.
  pose proof (decide_Ok_locked _ _ _ _ _ _ _ _ Hrun) as Hlocked.
  apply decide_Ok in Hrun as (l & expected & log & Hready & [Hreplay|Hdone]).
  { destruct Hreplay as (recorded & _ & Ho & _). unfold replayed_decision in Ho. by result_inv. }
  destruct Hdone as (stored & adopted & next & settled & stm & projected & Hdecides & Hp & -> & ->).
  rewrite (decides_run _ _ _ _ (ledger_write_lost outcomes) _ _ _ _ _ _ _ _ _ Hready Hlocked Hdecides)
    in Hcrash. injection Hcrash as <- <-.
  assert (Hdup1 : distinct_records (ms_log stm)).
  { unfold distinct_records in *. cbn in Hdup. by rewrite app_nil_r in Hdup. }
  destruct (project_promotion input now outcomes stm) as [marker Hproj]; [done..|].
  rewrite Hproj in Hp |- *. injection Hp as <-.
  pose proof Hdecides as [Hfresh Hstored Hadopted Hnext Hsettles Hvalid].
  destruct (promotion_settles_again l log input now now' stored st adopted (io_append outcomes)
    (io_append outcomes') settled stm) as (Hdl & Hdp & Hsame & Hload & record & Hown & Hagain);
    [by destruct Hready|done..|].
  split; [done|].
  assert (Hready2 : ready s uuids file input stm l expected (ms_log stm)).
  { destruct Hready as [Hv Hpr Hl He _]. split; [done|done|by rewrite Hdl|done|done]. }
  destruct (project_promotion input now' outcomes' stm) as [marker' Hproj']; [done..|].
  eexists. split.
  { erewrite (decides_run _ _ _ _ outcomes' _ _ _ _ stored (Some record) next settled stm Hready2 Hlock).
    2: { split; try done. by rewrite Hsame. }
    by rewrite Hledger, Hproj'. }
  done.
Qed.

(** * A dismissal *)

(** The projection on disk is that of [records], and the index is up to date. *)
Definition projection_current (files : ProjectionFiles) (records : list MemoryRecord) : Prop :=
  file_projection files = Some (render_projection records) ∧
  ∃ marker, file_marker files = Some marker ∧
    marker_schema_version marker = MEMORY_INDEX_SCHEMA_VERSION ∧
    marker_projection_digest marker = projection_digest (render_projection records) ∧
    is_dirty marker = false.

Lemma write_current files records now writes :
  projection_current files records →
  write_projection files records now false writes
  = ((Ok (projection_digest (render_projection records), false)), files).
Proof using Type.
  intros [Hprojection (marker & Hmarker & Hschema & Hdigest & Hclean)].
  unfold is_dirty in Hclean. bool_inv. rewrite Hdigest in Hclean.
  assert (Hnext : next_indexed_digest (file_marker files)
    (projection_digest (render_projection records)) records false
    = Some (projection_digest (render_projection records))).
  { unfold next_indexed_digest. destruct records as [|r records]; [done|].
    rewrite Hmarker. cbn [mbind option_bind]. by rewrite Hdigest, bool_decide_eq_true_2. }
  unfold write_projection. rewrite Hprojection, same_is_not_different.
  cbn [andb file_marker file_projection]. rewrite Hnext, Hmarker. unfold marker_unchanged.
  cbn [marker_schema_version marker_projection_digest marker_indexed_digest].
  rewrite Hschema, Hdigest, Hclean, !bool_decide_eq_true_2, Z.eqb_refl by done.
  cbn [andb]. unfold is_dirty. cbn [marker_indexed_digest marker_projection_digest].
  rewrite same_is_not_different. f_equal. destruct files; cbn in *. by rewrite Hprojection, Hmarker.
Qed.

(** A dismissal changes nothing but the queue: on a project whose projection
    and retrieval index are up to date it leaves the log, the projection and the
    index marker as they are, whatever became of its writes, records nothing and
    never reports the index dirty. *)
Theorem dismissal_changes_only_the_queue file input reason authentication now outcomes st o st'
    (Hin : in_step st) (Hkind : input_decision input = Dismiss reason)
    (Hcurrent : projection_current (disk_projection st) (projected_records (ms_log st)))
    (Hrun : decide_memory_candidate s uuids file input authentication now outcomes st
            = (Ok o, st')) :
  disk_log st' = disk_log st ∧ disk_projection st' = disk_projection st ∧ ms_log st' = ms_log st ∧
  outcome_retrieval_index_dirty o = false ∧ (outcome_replayed o = false → outcome_record o = None).
Proof using Type.
  destruct Hin as [Hledger Hlog _].
  apply decide_Ok in Hrun as (l & expected & log & Hready & Hend).
  pose proof (ready_ledger _ _ _ _ _ _ _ _ Hready) as Hl. rewrite Hledger in Hl.
  apply Ok_inj in Hl as <-. pose proof (ready_log _ _ _ _ _ _ _ _ Hready) as Hl.
  rewrite Hlog in Hl. apply Ok_inj in Hl as <-.
  destruct Hend as [(recorded & _ & Ho & ->)|Hdone].
  - do 3 (split; [done|]). unfold replayed_decision in Ho. result_inv. split; [|done].
    destruct Hcurrent as [_ (marker & Hmarker & _ & _ & Hclean)]. cbn. by rewrite Hmarker.
  - destruct Hdone as (stored & adopted & next & settled & st1 & projected & Hdecides & Hp & -> & ->).
    destruct Hdecides as [_ _ Hadopted _ Hsettles _].
    inversion Hsettles as [reason' write' Hkind'|? ? ? Hkind'|? Hkind']; [|congruence..].
    subst adopted settled st1. apply adopted_tail_None in Hadopted.
    assert (Hcommit : commit_tail (ms_log st) = ms_log st).
    { unfold commit_tail. rewrite Hadopted, app_nil_r. destruct (ms_log st); cbn in *; by subst. }
    assert (Hproject : project_decision input now outcomes (loaded_state (ms_ledger st) (ms_log st) st)
      = (Ok (projection_digest (render_projection (projected_records (ms_log st))), false),
         disk_projection st)).
    { unfold project_decision. cbn [disk_projection ms_log loaded_state with_log with_ledger].
      rewrite Hcommit, Hkind. by apply write_current. }
    rewrite Hproject in Hp |- *. injection Hp as <-. by split_and!.
Qed.

(** * A promotion refused too late *)

(** C20: the name of the deciding operator is checked after the record of a
    promotion is appended, not before: a promotion by an actor whose id the
    candidate contract refuses fails with its entry left in the log, and until
    that entry is taken up no decision under another request id goes through. *)
Theorem refused_promotion_blocks_the_queue file input authentication now outcomes st l expected log
    stored derived next
    (Hready : ready s uuids file input st l expected log) (Hlock : io_locked outcomes = true)
    (Hnew : ml_processed_decisions l !! input_request_id input = None)
    (Hstored : decidable_candidate l expected input = Ok stored)
    (Hnext : u64_checked_add (ml_revision l) 1 = Some next)
    (Htail : uncommitted_tail log = []) (Hkind : input_decision input = Promote)
    (Hderive : derive_promoted_record stored (input_request_id input) (ml_revision l) now
               = Ok derived)
    (Hwrite : io_append outcomes = AppendLanded)
    (Hfile : log_file_terminated (disk_log st))
    (Hfresh : committed_record log (mem_id derived) = None)
    (Hactor : validate_actor (input_actor input) ≠ Ok tt) :
  ∃ e st',
    decide_memory_candidate s uuids file input authentication now outcomes st = (Err e, st') ∧
    disk_ledger st' = disk_ledger st ∧ disk_log st' ≠ disk_log st ∧
    ∀ file' input' authentication' now' outcomes' o' st'',
      input_request_id input' ≠ input_request_id input →
      decide_memory_candidate s uuids file' input' authentication' now' outcomes' st' = (Ok o', st'') →
      outcome_replayed o' = true.
Proof using Type*.
  assert (Hadopted : adopted_tail l log input = Ok None) by (unfold adopted_tail; by rewrite Htail).
  assert (Hsettles : settles stored input now (loaded_state l log st) None (io_append outcomes)
    (promotion_of derived input now (ms_log (appended derived (loaded_state l log st))))
    (appended derived (loaded_state l log st))) by (rewrite Hwrite; by apply settles_fresh).
  destruct (append_loads (disk_log st) (ml_memory_log_head l) log derived) as [Hold _];
    [by destruct Hready|done|done|by eapply derive_promoted_record_Ok|done|].
  destruct (settle_decision_invalid stored None input authentication now outcomes
    (loaded_state l log st) next _ _ Hnext Hsettles) as [e He].
  { intros Hvalid%validate_candidate_status. cbn in Hvalid. result_inv. by apply Hactor. }
  exists e, (appended derived (loaded_state l log st)). split; [|split; [done|split]].
  - erewrite decide_ready by done. unfold decide_loaded. rewrite Hnew, Hstored, Hadopted. exact He.
  - cbn [appended disk_log with_disk_log with_log loaded_state with_ledger ms_log]. intros Hsame.
    apply (f_equal (λ f, length (default [] f))) in Hsame. unfold append_line in Hsame.
    cbn [default from_option id] in Hsame. rewrite !length_app in Hsame. cbn in Hsame. lia.
  - intros file' input' authentication' now' outcomes' o' st'' Hother Hrun'.
    apply decide_Ok in Hrun' as (l' & expected' & log' & Hready' & [Hreplay|Hdone]).
    { destruct Hreplay as (recorded & _ & Ho & _). unfold replayed_decision in Ho. by result_inv. }
    destruct Hdone as (stored' & adopted' & ? & ? & ? & ? & [_ _ Hadopted' _ _ _] & _).
    exfalso. destruct Hready as [_ _ Hl _ _], Hready' as [_ _ Hl' _ Hlog'].
    assert (l' = l) as ->.
    { apply (Ok_inj (E:=MemoryError)). rewrite <-Hl, <-Hl'. done. }
    assert (log' = push_tail (sealed_entry log derived) log) as ->.
    { apply (Ok_inj (E:=MemoryError)). rewrite <-Hold, <-Hlog'. done. }
    destruct (adopted_tail_other l (push_tail (sealed_entry log derived) log) input'
      (sealed_entry log derived) []) as [d Hd]; [by cbn; rewrite Htail| |congruence].
    cbn. pose proof (derive_promoted_record_Ok _ _ _ _ _ Hderive) as (_ & -> & _). done.
Qed.
End reloading.

(** * Witnesses *)

Definition sample_queue : MemoryCandidateLedger :=
  ml_set_candidates {[cand_id sample_candidate := sample_candidate]} candidates_default.

(** A queue of one candidate on a project whose projection is up to date. *)
Definition sample_clean_files : ProjectionFiles :=
  {| file_projection := Some (render_projection []);
     file_marker := Some (stamp_indexed (projection_digest (render_projection [])) (sample_time 8)) |}.
Definition sample_review : MemoryState :=
  with_projection sample_clean_files (sample_memory sample_queue log_default None).

Definition sample_input (kind : MemoryCandidateDecisionKind) (by_whom : GovernedActor)
    : MemoryCandidateDecisionInput :=
  {| input_request_id := lit "decide-1"; input_project_id := lit "demo";
     input_candidate_id := cand_id sample_candidate; input_decision := kind;
     input_actor := by_whom; input_expected_ledger_revision := 0 |}.
Definition sample_io : DecisionIo :=
  {| io_locked := true; io_append := AppendLanded; io_ledger := true; io_projection := (true, true) |}.

Abbreviation sample_deciding input n outcomes st :=
  (decide_memory_candidate sample_storage sample_replay_uuids sample_governed input Declared
     (sample_time n) outcomes st).

Definition sample_promoting : memory_result MemoryCandidateDecisionOutcome * MemoryState :=
  Eval vm_compute in sample_deciding (sample_input Promote operator) 9 sample_io sample_review.
Definition sample_promoting_answer : memory_result MemoryCandidateDecisionOutcome :=
  Eval vm_compute in sample_promoting.1.
Definition sample_outcome : MemoryCandidateDecisionOutcome := Eval vm_compute in
  ok_value sample_promoting_answer (@eq_refl bool true <: is_ok sample_promoting_answer = true).

Lemma sample_promoting_run :
  sample_deciding (sample_input Promote operator) 9 sample_io sample_review
  = (Ok sample_outcome, sample_promoting.2).
Proof. vm_cast_no_check (@eq_refl _ (Ok (E:=MemoryError) sample_outcome, sample_promoting.2)). Qed.

Lemma decision_commits_one_receipt_witness :
  (disk_ledger sample_promoting.2 = disk_ledger sample_review
     ∧ disk_projection sample_promoting.2 = disk_projection sample_review
     ∧ (is_ok (Ok (E:=MemoryError) sample_outcome) = true →
          disk_log sample_promoting.2 = disk_log sample_review)
   ∨ commits_receipt (sample_input Promote operator) sample_review sample_promoting.2)
  ∧ bool_decide (disk_ledger sample_promoting.2 = disk_ledger sample_review) = false.
Proof.
  split; [|vm_compute; reflexivity].
  exact (proj1 (decision_commits_one_receipt sample_storage sample_replay_uuids sample_governed
    (sample_input Promote operator) Declared (sample_time 9) sample_io sample_review
    (Ok sample_outcome) sample_promoting.2 sample_promoting_run)).
Defined.

Lemma sample_promoting_distinct : distinct_records (ms_log sample_promoting.2).
Proof. apply (bool_decide_unpack _). vm_compute. exact I. Qed.

Lemma decided_state_reloads_witness :
  in_step sample_promoting.2 ∧
  (outcome_replayed sample_outcome = false → uncommitted_tail (ms_log sample_promoting.2) = []).
Proof.
  refine (decided_state_reloads sample_storage sample_replay_uuids sample_governed
    (sample_input Promote operator) Declared (sample_time 9) sample_io sample_review
    sample_outcome sample_promoting.2 _ sample_promoting_run sample_promoting_distinct).
  by vm_compute.
Defined.

Lemma decision_is_idempotent_witness :
  sample_deciding (sample_input Promote operator) 30
    {| io_locked := true; io_append := AppendFailed [] false; io_ledger := false;
       io_projection := (false, false) |} sample_promoting.2
  = (Ok (as_replayed sample_outcome), sample_promoting.2).
Proof.
  refine (decision_is_idempotent sample_storage sample_replay_uuids sample_governed sample_governed
    (sample_input Promote operator) Declared Declared (sample_time 9) (sample_time 30) sample_io
    _ sample_review sample_outcome sample_promoting.2 _ sample_promoting_run
    sample_promoting_distinct _ _); [by vm_compute|reflexivity|vm_compute; reflexivity].
Defined.

Lemma sample_later : is_Some (parse_from_rfc3339 (sample_time 30)).
Proof. eexists. vm_compute. reflexivity. Qed.

Lemma interrupted_promotion_is_completed_witness :
  ∃ st3,
    sample_deciding (sample_input Promote operator) 30 sample_io
      (sample_deciding (sample_input Promote operator) 9 (ledger_write_lost sample_io)
         sample_review).2
    = (Ok sample_outcome, st3) ∧ disk_log st3 = disk_log sample_promoting.2.
Proof.
  assert (Hcompleted := interrupted_promotion_is_completed sample_storage sample_replay_uuids
    sample_governed (sample_input Promote operator) Declared (sample_time 9) (sample_time 30)
    sample_io sample_io sample_review sample_outcome sample_promoting.2
    (sample_deciding (sample_input Promote operator) 9 (ledger_write_lost sample_io) sample_review).1
    (sample_deciding (sample_input Promote operator) 9 (ledger_write_lost sample_io) sample_review).2
    ltac:(by vm_compute) eq_refl sample_promoting_run ltac:(vm_compute; reflexivity)
    sample_promoting_distinct eq_refl (surjective_pairing _)
    sample_later eq_refl eq_refl eq_refl).
  destruct Hcompleted as (_ & st3 & Hrun & _ & Hlog & _). exists st3. split; [exact Hrun|exact Hlog].
Defined.

Lemma sample_review_in_step : in_step sample_review.
Proof.
  split; [|vm_cast_no_check (@eq_refl _ (Ok (E:=MemoryError) log_default))|by vm_compute].
  vm_cast_no_check (@eq_refl _ (Ok (E:=MemoryError) (ms_ledger sample_review))).
Qed.

Definition sample_dismiss : MemoryCandidateDecisionInput :=
  sample_input (Dismiss (lit "not reusable")) operator.
Definition sample_dismissing : memory_result MemoryCandidateDecisionOutcome * MemoryState :=
  Eval vm_compute in sample_deciding sample_dismiss 9 sample_io sample_review.
Definition sample_dismissing_answer : memory_result MemoryCandidateDecisionOutcome :=
  Eval vm_compute in sample_dismissing.1.
Definition sample_dismissed : MemoryCandidateDecisionOutcome := Eval vm_compute in
  ok_value sample_dismissing_answer (@eq_refl bool true <: is_ok sample_dismissing_answer = true).

Lemma sample_dismissing_run :
  sample_deciding sample_dismiss 9 sample_io sample_review
  = (Ok sample_dismissed, sample_dismissing.2).
Proof.
  vm_cast_no_check (@eq_refl _ (Ok (E:=MemoryError) sample_dismissed, sample_dismissing.2)).
Qed.

Lemma sample_files_current :
  projection_current (disk_projection sample_review) (projected_records (ms_log sample_review)).
Proof. split; [done|]. eexists. split; [done|]. by split. Qed.

Lemma dismissal_changes_only_the_queue_witness :
  disk_projection sample_dismissing.2 = disk_projection sample_review ∧
  outcome_retrieval_index_dirty sample_dismissed = false.
Proof.
  destruct (dismissal_changes_only_the_queue sample_storage sample_replay_uuids sample_governed
    sample_dismiss (lit "not reusable") Declared (sample_time 9) sample_io sample_review
    sample_dismissed sample_dismissing.2 sample_review_in_step eq_refl sample_files_current
    sample_dismissing_run) as (_ & Hfiles & _ & Hdirty & _).
  split; [exact Hfiles|exact Hdirty].
Defined.

(** An operator with an id of 300 characters. *)
Definition sample_verbose : MemoryCandidateDecisionInput :=
  sample_input Promote {| actor_kind := Operator; actor_id := replicate 300 97 |}.

Lemma sample_verbose_ready :
  ready sample_storage sample_replay_uuids sample_governed sample_verbose sample_review
    (ms_ledger sample_review) sample_expected log_default.
Proof.
  split.
  - vm_compute. reflexivity.
  - vm_compute. reflexivity.
  - apply in_step_ledger, sample_review_in_step.
  - vm_cast_no_check (@eq_refl _ (Ok (E:=MemoryError) sample_expected)).
  - apply in_step_log, sample_review_in_step.
Qed.

Lemma refused_promotion_blocks_the_queue_witness :
  ∃ e st',
    sample_deciding sample_verbose 9 sample_io sample_review = (Err e, st') ∧
    disk_ledger st' = disk_ledger sample_review ∧ disk_log st' ≠ disk_log sample_review.
Proof.
  refine (match refused_promotion_blocks_the_queue sample_storage sample_replay_uuids
    sample_governed sample_verbose Declared (sample_time 9) sample_io sample_review
    (ms_ledger sample_review) sample_expected log_default sample_candidate sample_memory_record 1
    sample_verbose_ready eq_refl _ _ _ eq_refl eq_refl _ eq_refl _ _ _ with
    | ex_intro _ e (ex_intro _ st' (conj Hrun (conj Hledger (conj Hlog _)))) =>
        ex_intro _ e (ex_intro _ st' (conj Hrun (conj Hledger Hlog)))
    end).
  - vm_compute. reflexivity.
  - vm_cast_no_check (@eq_refl _ (Ok (E:=MemoryError) sample_candidate)).
  - vm_compute. reflexivity.
  - vm_cast_no_check (@eq_refl _ (Ok (E:=MemoryError) sample_memory_record)).
  - by vm_compute.
  - vm_compute. reflexivity.
  - vm_compute. discriminate.
Defined.
