(* ===== verification/MemoryQueueProps.v ===== *)
(** The ledger and the review queue together: the memory component implements
    what the ledger asks of it, an accepted run that is answered has its candidate
    in the queue, and a candidate an acceptance failed to record is recorded when
    the request is replayed. *)
From S2P Require Export MemoryDeriveProps LedgerProps.
Local Open Scope Z_scope.

Section queue.
Context `{Host, CandidateJson}.

(** What recording a candidate did when it went through. *)
Lemma ensure_candidate_Ok task locked written c c' :
  is_accepted task = true → ensure_candidate task locked written c = (Ok tt, c') →
  ∃ candidate l stored,
    derive_accepted_run_memory_candidate task = Ok candidate ∧
    load_candidate_ledger (disk_ledger c) = Ok l ∧
    matches_ignoring_status stored candidate = true ∧
    ((ml_candidates l !! cand_id candidate = Some stored ∧ c' = with_ledger l c) ∨
     (stored = candidate ∧ ml_candidates l !! cand_id candidate = None ∧
      has_candidate_of (run_id task) l = false ∧
      let l' := ml_set_candidates (<[cand_id candidate := candidate]> (ml_candidates l)) l in
      c' = with_ledger l' (with_disk_ledger l' (with_ledger l c)))).
Proof using Type.
  unfold ensure_candidate, reload_ledger, write_ledger. intros -> Hrun. cbn [negb] in Hrun.
  apply op_bind_Ok in Hrun as (candidate & ? & Hderive & Hrun). op_inv.
  match goal with Hl : load_candidate_ledger _ = Ok ?l |- _ => exists candidate, l end.
  cbn [ms_ledger with_ledger] in Hrun.
  match goal with |- context [ml_candidates ?l !! cand_id candidate = Some _] =>
    destruct (ml_candidates l !! cand_id candidate) as [stored|] eqn:Hstored end.
  - op_inv. result_inv. bool_inv. exists stored. split; [done|]. split; [done|].
    split; [done|by left].
  - op_inv. result_inv. bool_inv. exists candidate. split; [done|]. split; [done|].
    split; [|by right]. apply matches_ignoring_status_true, set_status_same.
Qed.

Lemma ensure_candidate_run task candidate l c :
  is_accepted task = true → derive_accepted_run_memory_candidate task = Ok candidate →
  load_candidate_ledger (disk_ledger c) = Ok l →
  match ml_candidates l !! cand_id candidate with
  | Some stored => matches_ignoring_status stored candidate
  | None => negb (has_candidate_of (run_id task) l)
  end = true →
  ∃ c', ensure_candidate task true true c = (Ok tt, c').
Proof using Type.
  intros Haccepted Hderive Hload Hstored. unfold ensure_candidate, reload_ledger, write_ledger.
  rewrite Haccepted. cbn [negb].
  rewrite (op_bind_run _ _ c candidate c) by by rewrite Hderive.
  rewrite (op_bind_run _ _ c tt c) by done.
  rewrite (op_bind_run _ _ c tt (with_ledger l c)).
  2: { rewrite (op_bind_run _ _ c (disk_ledger c) c) by done.
       by rewrite (op_bind_run _ _ c l c) by by rewrite Hload. }
  rewrite (op_bind_run _ _ _ l (with_ledger l c)) by done.
  destruct (ml_candidates l !! cand_id candidate) as [stored|].
  - rewrite Hstored. by eexists.
  - apply negb_true_iff in Hstored. rewrite Hstored. by eexists.
Qed.

Lemma ensure_candidate_not_accepted task locked written c :
  is_accepted task = false → ensure_candidate task locked written c = (Ok tt, c).
Proof using Type. unfold ensure_candidate. by intros ->. Qed.

(** The memory component as the ledger sees it; [embed] is the conversion of its
    errors into the ledger's. *)
Definition memory_component (embed : MemoryError → AnyError) (locked written : bool)
    : MemoryCandidates MemoryState :=
  {| ensure_accepted_run_memory_candidate task c :=
       let answer := ensure_candidate task locked written c in (map_err embed answer.1, answer.2);
     ensure_not_accepted task c Htask :=
       f_equal (λ answer : memory_result unit * MemoryState, (map_err embed answer.1, answer.2))
         (ensure_candidate_not_accepted task locked written c Htask) |}.

(** Inserting the candidate of a run that has none keeps the ledger valid. *)
Lemma queued_ledger_valid l task candidate :
  valid_ledger l → derive_accepted_run_memory_candidate task = Ok candidate →
  has_candidate_of (run_id task) l = false →
  valid_ledger (ml_set_candidates (<[cand_id candidate := candidate]> (ml_candidates l)) l).
Proof using Type.
  intros [Hschema Hvalid Htasks] Hderive Hnone.
  pose proof Hderive as (e & _ & Hcandidate & Hok)%derive_Ok.
  assert (Hrun : cand_governed_task_id candidate = run_id task) by by subst candidate.
  assert (Hother : ∀ k c, ml_candidates l !! k = Some c → cand_governed_task_id c ≠ run_id task).
  { intros k c Hc Heq. unfold has_candidate_of in Hnone. apply existsb_false_Forall in Hnone.
    rewrite Forall_forall in Hnone. unfold candidate_values in Hnone.
    specialize (Hnone c). apply bool_decide_eq_false in Hnone; [done|].
    apply list_elem_of_fmap. exists (k, c). split; [done|]. by apply elem_of_btree_items. }
  split; [done|..]; cbn [ml_candidates ml_set_candidates].
  - intros k c [[<- <-]|[_ Hc]]%lookup_insert_Some; [done|by apply Hvalid].
  - intros k1 k2 c1 c2 [[<- <-]|[_ Hc1]]%lookup_insert_Some [[<- <-]|[_ Hc2]]%lookup_insert_Some;
      [done|..|by apply Htasks]; rewrite Hrun; intros Heq.
    + symmetry in Heq. by apply Hother in Hc2.
    + by apply Hother in Hc1.
Qed.

(** A request is answered without a change only when it cancels, for the first time,
    a run that already ended. *)
Lemma answered_inv s l request authentication ids now t :
  decide_mutation s l request authentication ids now = Ok (Answered t) →
  ledger_processed_requests l !! request_request_id request = None ∧
  (∃ actor reason, request_mutation request = MarkRuntimeExited actor reason OperatorCancelled) ∧
  is_settled_execution (run_execution_state t) = true.
Proof using Type.
  intros Hd. destruct (ledger_processed_requests l !! request_request_id request) as [receipt|] eqn:Hk.
  { by destruct (decide_mutation_known _ _ _ _ _ _ _ _ Hk Hd) as (? & ? & _). }
  split; [done|]. destruct (decide_mutation_new _ _ _ _ _ _ _ Hk Hd)
    as (v & _ & _ & _ & _ & [[[= <-] [checks Hcancel]]|(v' & _ & _ & ?)]); [|done].
  unfold answered_cancel in Hcancel. destruct (request_mutation request); try done.
  match goal with kind : GovernedExitKind |- _ => destruct kind; try done end.
  destruct (is_settled_execution _); [|done]. eauto.
Qed.

(** C19: an accepted run that the ledger's mutation entry point answers has its
    candidate in the review queue: the one its records derive, under its id, the
    only one of the run, in memory and on disk, while every candidate that was
    there stays. The one exception is a first request to cancel a run that already
    ended, which is answered without any change: of the ledger, its file or the
    queue. *)
Theorem acceptance_queues_its_candidate s embed locked written_candidate request authentication ids
    now written st (c : MemoryState) t st' c'
    (Hmutate : @mutate_governed_task_authenticated _ _
                 (memory_component embed locked written_candidate)
                 s request authentication ids now written st c = (Ok t, st', c'))
    (Haccepted : is_accepted t = true) :
  (∃ candidate stored l,
      derive_accepted_run_memory_candidate t = Ok candidate ∧
      ml_candidates (ms_ledger c') !! cand_id candidate = Some stored ∧
      matches_ignoring_status stored candidate = true ∧
      load_candidate_ledger (disk_ledger c) = Ok l ∧
      load_candidate_ledger (disk_ledger c') = Ok (ms_ledger c') ∧
      (∀ k other, ml_candidates (ms_ledger c') !! k = Some other →
         cand_governed_task_id other = cand_governed_task_id candidate → k = cand_id candidate) ∧
      ml_candidates l ⊆ ml_candidates (ms_ledger c'))
  ∨ (ledger_processed_requests (st_memory st) !! request_request_id request = None ∧
     (∃ actor reason, request_mutation request = MarkRuntimeExited actor reason OperatorCancelled) ∧
     is_settled_execution (run_execution_state t) = true ∧ st' = st ∧ c' = c).
Proof using Type.
  assert (Hensure : ensure_candidate t locked written_candidate c = (Ok tt, c')
    ∨ (decide_mutation s (st_memory st) request authentication ids now = Ok (Answered t)
       ∧ st' = st ∧ c' = c)).
  { unfold mutate_governed_task_authenticated in Hmutate.
    destruct (decide_mutation s (st_memory st) request authentication ids now) as [o|e] eqn:Hd; [|done].
    assert (Hstep : ∀ u, (map_err embed (ensure_candidate u locked written_candidate c).1 ;; Ok u)
        = Ok t → (ensure_candidate u locked written_candidate c).2 = c' →
        ensure_candidate t locked written_candidate c = (Ok tt, c')).
    { intros u Hu Hc. destruct (ensure_candidate u locked written_candidate c) as [[[]|e] c2] eqn:He;
        cbn in Hu; simplify_eq. by rewrite He. }
    destruct o as [u|u|u candidate]; cbn [commit] in Hmutate.
    - right. by injection Hmutate as -> <- <-.
    - left. cbn in Hmutate. injection Hmutate as Hok <- Hc. by apply (Hstep u).
    - left. destruct written; [|done]. cbn in Hmutate. injection Hmutate as Hok <- Hc.
      by apply (Hstep u). }
  destruct Hensure as [Hensure|(Hd & -> & ->)];
    [left|right; by destruct (answered_inv _ _ _ _ _ _ _ Hd) as (? & ? & ?)].
  apply ensure_candidate_Ok in Hensure as (candidate & l & stored & Hderive & Hload & Hm & Hend);
    [|done].
  pose proof Hload as [_ Hl]%load_candidate_ledger_Ok.
  exists candidate, stored, l. split; [done|].
  destruct Hend as [[Hstored ->]|(-> & Hnone & Hother & ->)]; cbn [ms_ledger
    disk_ledger with_ledger with_disk_ledger ml_candidates ml_set_candidates].
  - do 4 (split; [done|]). split; [|done]. intros k other Hk Heq.
    apply (valid_tasks l Hl k (cand_id candidate) other stored); [done..|].
    apply matches_ignoring_status_id in Hm as [_ ->]. done.
  - pose proof (queued_ledger_valid _ _ _ Hl Hderive Hother) as Hl'.
    split; [by rewrite lookup_insert_eq|]. do 2 (split; [done|]).
    split; [by apply load_valid|]. split.
    + intros k other Hk Heq. eapply (valid_tasks _ Hl' k (cand_id candidate) other candidate);
        [done|cbn [ml_candidates ml_set_candidates]; by rewrite lookup_insert_eq|done].
    + by apply insert_subseteq.
Qed.

(** A candidate an acceptance failed to record is made up by replaying the
    request: whatever the memory component did the first time, as long as its
    ledger file loads and holds no candidate of the run, the committed request
    asked again is answered with the run, leaves the governed ledger as it is and
    ends with the run's candidate pending in the queue, in memory and on disk. *)
Theorem replay_queues_the_missing_candidate `{!HostLaws} s embed request authentication ids now
    written st (c : MemoryState) t fps l
    (Hdecide : decide_mutation s (st_memory st) request authentication ids now = Ok (Replay t))
    (Hrec : recorded t fps) (Haccepted : is_accepted t = true) (Hcommit : subject_is_commit t)
    (Hload : load_candidate_ledger (disk_ledger c) = Ok l)
    (Hfree : has_candidate_of (run_id t) l = false)
    (Hid : ∀ candidate, derive_accepted_run_memory_candidate t = Ok candidate →
             ml_candidates l !! cand_id candidate = None) :
  ∃ c' candidate,
    @mutate_governed_task_authenticated _ _ (memory_component embed true true)
      s request authentication ids now written st c = (Ok t, st, c') ∧
    derive_accepted_run_memory_candidate t = Ok candidate ∧
    cand_status candidate = PendingReview ∧
    ml_candidates (ms_ledger c') !! cand_id candidate = Some candidate ∧
    disk_ledger c' = Some (ms_ledger c').
Proof using Type.
  destruct (proj1 (accepted_run_candidate t fps Hrec Haccepted) Hcommit)
    as (candidate & Hderive & _ & Hpending & Hrun).
  pose proof (Hid _ Hderive) as Hnone.
  destruct (ensure_candidate_run t candidate l c) as [c' Hensure];
    [done..|by rewrite Hnone, Hfree|].
  exists c', candidate. split; [|split; [done|split; [done|]]].
  - unfold mutate_governed_task_authenticated. rewrite Hdecide. cbn. by rewrite Hensure.
  - apply ensure_candidate_Ok in Hensure as (candidate' & l' & stored & Hd & Hl & _ & Hend); [|done].
    rewrite Hderive in Hd. rewrite Hload in Hl. apply Ok_inj in Hd as <-. apply Ok_inj in Hl as <-.
    destruct Hend as [[? _]|(_ & _ & _ & ->)]; [congruence|].
    cbn [ms_ledger disk_ledger with_ledger with_disk_ledger ml_candidates ml_set_candidates].
    by rewrite lookup_insert_eq.
Qed.
End queue.

(** * Witnesses *)

Definition sample_empty_queue : MemoryState := sample_memory candidates_default log_default None.
Definition sample_approval : GovernedTaskMutationRequest :=
  sample_request 6 (sample_decision 5 Approve).
Definition sample_before_approval : GovernedTaskLedger := Eval vm_compute in
  sample_ledger (sample_launch ++ [sample_claim; sample_verification 3 true;
                                   sample_verdict 4 RecommendAccept]).

Definition sample_embed (_ : MemoryError) : AnyError := Message (lit "memory candidate not recorded").

(** The acceptance whose candidate write goes as [written]. *)
Abbreviation sample_accepting l written :=
  (@mutate_governed_task_authenticated _ _ (memory_component sample_embed true written)
     sample_storage sample_approval Declared (sample_ids 6) (sample_time 6) true
     {| st_memory := l; st_disk := l |} sample_empty_queue).

Definition sample_accepted_answer : state_result GovernedTaskRun * LedgerState * MemoryState :=
  Eval vm_compute in sample_accepting sample_before_approval true.
Definition sample_accepted_run : GovernedTaskRun := Eval vm_compute in sample_task sample_governed.

Lemma sample_accepted_ok :
  sample_accepting sample_before_approval true
  = (Ok sample_accepted_run, sample_accepted_answer.1.2, sample_accepted_answer.2).
Proof.
  vm_cast_no_check (@eq_refl _ (Ok (E:=AnyError) sample_accepted_run, sample_accepted_answer.1.2,
    sample_accepted_answer.2)).
Qed.

Lemma acceptance_queues_its_candidate_witness :
  ∃ candidate stored,
    derive_accepted_run_memory_candidate sample_accepted_run = Ok candidate ∧
    ml_candidates (ms_ledger sample_accepted_answer.2) !! cand_id candidate = Some stored.
Proof.
  refine (match acceptance_queues_its_candidate sample_storage sample_embed true true sample_approval
    Declared (sample_ids 6) (sample_time 6) true
    {| st_memory := sample_before_approval; st_disk := sample_before_approval |} sample_empty_queue
    sample_accepted_run sample_accepted_answer.1.2 sample_accepted_answer.2 sample_accepted_ok
    eq_refl with
    | or_introl (ex_intro _ candidate (ex_intro _ stored (ex_intro _ _ (conj Hderive (conj Hstored _))))) =>
        ex_intro _ candidate (ex_intro _ stored (conj Hderive Hstored))
    | or_intror (conj _ (conj (ex_intro _ actor (ex_intro _ reason Hcancel)) _)) => _
    end).
  discriminate Hcancel.
Defined.

Lemma sample_accepted_recorded : ∃ fps, recorded sample_accepted_run fps.
Proof.
  assert (Hr : host_reachable sample_storage (sample_ledger sample_to_acceptance)).
  { apply sample_ledger_host_reachable. vm_compute. reflexivity. }
  pose proof (host_reachable_reloadable sample_storage _ Hr) as Hl.
  destruct (rl_recorded _ _ Hl (lit "task-1") sample_accepted_run) as (fps & Hrec & _);
    [vm_compute; reflexivity|by exists fps].
Qed.

Lemma sample_accepted_commit : subject_is_commit sample_accepted_run.
Proof.
  assert (Hoid : match latest_claim sample_accepted_run with
                 | Some c => is_git_commit_oid (claim_subject_revision c)
                 | None => false
                 end = true) by (vm_compute; reflexivity).
  right. destruct (latest_claim sample_accepted_run) as [c|]; [by exists c|done].
Qed.

(** The candidate write of the acceptance failed; the request is replayed. *)
Lemma replay_queues_the_missing_candidate_witness :
  ∃ c' candidate,
    sample_accepting sample_governed true
    = (Ok sample_accepted_run, {| st_memory := sample_governed; st_disk := sample_governed |}, c') ∧
    ml_candidates (ms_ledger c') !! cand_id candidate = Some candidate.
Proof.
  destruct sample_accepted_recorded as [fps Hrec].
  refine (match replay_queues_the_missing_candidate sample_storage sample_embed sample_approval
    Declared (sample_ids 6) (sample_time 6) true
    {| st_memory := sample_governed; st_disk := sample_governed |} sample_empty_queue
    sample_accepted_run fps candidates_default _ Hrec eq_refl sample_accepted_commit _ _ _ with
    | ex_intro _ c' (ex_intro _ candidate (conj Hrun (conj _ (conj _ (conj Hstored _))))) =>
        ex_intro _ c' (ex_intro _ candidate (conj Hrun Hstored))
    end).
  - vm_compute. reflexivity.
  - vm_compute. reflexivity.
  - vm_compute. reflexivity.
  - intros candidate _. apply lookup_empty.
Defined.
