(* ===== verification/RustText.v ===== *)
(** More of Rust's strings: searching, splitting, ASCII case, integers in decimal
    and UTF-8 decoding, strict and lossy. *)
From S2P Require Export RustStr.
Local Open Scope Z_scope.

(** [s.contains(c)]. *)
Definition contains_char (c : Z) (s : rstring) : bool := existsb (Z.eqb c) s.

(** The text before and after the first occurrence of [sep]. *)
Fixpoint split_once (sep s : rstring) : option (rstring * rstring) :=
  match strip_prefix sep s with
  | Some after => Some ([], after)
  | None =>
      match s with
      | [] => None
      | c :: s' =>
          match split_once sep s' with
          | Some (before, after) => Some (c :: before, after)
          | None => None
          end
      end
  end.

(** [s.contains("..")] and the like. *)
Definition contains_str (sep s : rstring) : bool :=
  match split_once sep s with Some _ => true | None => false end.

(** The longest prefix whose characters satisfy [p]; [drop_while p s] is the rest. *)
Fixpoint take_while (p : Z → bool) (s : rstring) : rstring :=
  match s with
  | [] => []
  | c :: s' => if p c then c :: take_while p s' else []
  end.

(** [s.rsplit_once(c)]. *)
Definition rsplit_once (c : Z) (s : rstring) : option (rstring * rstring) :=
  let p x := negb (x =? c) in
  match drop_while p (reverse s) with
  | _ :: before => Some (reverse before, reverse (take_while p (reverse s)))
  | [] => None
  end.

(** [str::to_ascii_lowercase]. *)
Definition ascii_lower (c : Z) : Z := if is_ascii_upper c then c + 32 else c.
Definition to_ascii_lowercase (s : rstring) : rstring := ascii_lower <$> s.

(** [u8::is_ascii_alphanumeric]. *)
Definition is_ascii_alphanumeric (b : Z) : bool :=
  is_ascii_digit b || is_ascii_lower b || is_ascii_upper b.

(** ** Integers *)

Definition digits_value (s : rstring) : option Z :=
  if is_empty s || negb (forallb is_ascii_digit s) then None
  else Some (foldl (λ n c, 10 * n + (c - 48)) 0 s).

(** [str::parse] of an unsigned type with the given maximum. *)
Definition parse_unsigned (max : Z) (s : rstring) : option Z :=
  n ← digits_value (match s with 43 :: s' => s' | _ => s end) ;
  if n <=? max then Some n else None.

Definition i64_max : Z := 2 ^ 63 - 1.

Definition parse_i64 (s : rstring) : option Z :=
  match s with
  | 45 :: s' => n ← digits_value s' ; if n <=? i64_max + 1 then Some (- n) else None
  | _ => parse_unsigned i64_max s
  end.

(** ** [String::from_utf8] *)

Definition is_continuation (b : Z) : bool := (128 <=? b) && (b <=? 191).
Definition between (low high b : Z) : bool := (low <=? b) && (b <=? high).

Fixpoint utf8_decode (input : list Z) : option rstring :=
  match input with
  | [] => Some []
  | b0 :: rest =>
      if between 0 127 b0 then cons b0 <$> utf8_decode rest
      else match rest with
      | [] => None
      | b1 :: rest =>
          if between 194 223 b0 && is_continuation b1
          then cons ((b0 - 192) * 64 + (b1 - 128)) <$> utf8_decode rest
          else match rest with
          | [] => None
          | b2 :: rest =>
              if ((b0 =? 224) && between 160 191 b1
                  || (between 225 236 b0 || between 238 239 b0) && is_continuation b1
                  || (b0 =? 237) && between 128 159 b1) && is_continuation b2
              then cons ((b0 - 224) * 4096 + (b1 - 128) * 64 + (b2 - 128)) <$> utf8_decode rest
              else match rest with
              | [] => None
              | b3 :: rest =>
                  if ((b0 =? 240) && between 144 191 b1
                      || between 241 243 b0 && is_continuation b1
                      || (b0 =? 244) && between 128 143 b1)
                     && is_continuation b2 && is_continuation b3
                  then cons ((b0 - 240) * 262144 + (b1 - 128) * 4096 + (b2 - 128) * 64
                             + (b3 - 128)) <$> utf8_decode rest
                  else None
              end
          end
      end
  end.

(** [String::from_utf8_lossy]: every longest prefix that cannot be continued to
    a character becomes U+FFFD. *)
Definition valid_second_of_three (b0 b1 : Z) : bool :=
  (b0 =? 224) && between 160 191 b1
  || (between 225 236 b0 || between 238 239 b0) && is_continuation b1
  || (b0 =? 237) && between 128 159 b1.
Definition valid_second_of_four (b0 b1 : Z) : bool :=
  (b0 =? 240) && between 144 191 b1
  || between 241 243 b0 && is_continuation b1
  || (b0 =? 244) && between 128 143 b1.

Fixpoint from_utf8_lossy (input : list Z) : rstring :=
  match input with
  | [] => []
  | b0 :: rest =>
      if between 0 127 b0 then b0 :: from_utf8_lossy rest
      else if between 194 223 b0 then
        match rest with
        | b1 :: rest' =>
            if is_continuation b1
            then (b0 - 192) * 64 + (b1 - 128) :: from_utf8_lossy rest'
            else 65533 :: from_utf8_lossy rest
        | [] => [65533]
        end
      else if between 224 239 b0 then
        match rest with
        | b1 :: rest' =>
            if valid_second_of_three b0 b1 then
              match rest' with
              | b2 :: rest'' =>
                  if is_continuation b2
                  then (b0 - 224) * 4096 + (b1 - 128) * 64 + (b2 - 128)
                         :: from_utf8_lossy rest''
                  else 65533 :: from_utf8_lossy rest'
              | [] => [65533]
              end
            else 65533 :: from_utf8_lossy rest
        | [] => [65533]
        end
      else if between 240 244 b0 then
        match rest with
        | b1 :: rest' =>
            if valid_second_of_four b0 b1 then
              match rest' with
              | b2 :: rest'' =>
                  if is_continuation b2 then
                    match rest'' with
                    | b3 :: rest''' =>
                        if is_continuation b3
                        then (b0 - 240) * 262144 + (b1 - 128) * 4096 + (b2 - 128) * 64
                               + (b3 - 128) :: from_utf8_lossy rest'''
                        else 65533 :: from_utf8_lossy rest''
                    | [] => [65533]
                    end
                  else 65533 :: from_utf8_lossy rest'
              | [] => [65533]
              end
            else 65533 :: from_utf8_lossy rest
        | [] => [65533]
        end
      else 65533 :: from_utf8_lossy rest
  end.

(** * Lemmas *)

Lemma take_while_drop_while p s : take_while p s ++ drop_while p s = s.
Proof. induction s as [|c s IH]; cbn; [done|]. destruct (p c); cbn; [by rewrite IH|done]. Qed.

Lemma take_while_all p s : Forall (λ c, p c = true) s → take_while p s = s.
Proof. induction 1 as [|c s Hc _ IH]; [done|]. cbn. by rewrite Hc, IH. Qed.

Lemma take_while_app p s t :
  Forall (λ c, p c = true) s → take_while p (s ++ t) = s ++ take_while p t.
Proof. induction 1 as [|c s Hc _ IH]; [done|]. cbn. by rewrite Hc, IH. Qed.

Lemma drop_while_app p s t :
  Forall (λ c, p c = true) s → drop_while p (s ++ t) = drop_while p t.
Proof. induction 1 as [|c s Hc _ IH]; [done|]. cbn. by rewrite Hc. Qed.

Lemma split_once_Some sep s before after :
  split_once sep s = Some (before, after) → s = before ++ sep ++ after.
Proof.
  revert before. induction s as [|c s IH]; intros before; cbn [split_once].
  - destruct (strip_prefix sep []) as [t|] eqn:Hp; [|done].
    apply strip_prefix_Some in Hp. intros [= <- <-]. done.
  - destruct (strip_prefix sep (c :: s)) as [t|] eqn:Hp.
    + apply strip_prefix_Some in Hp. by intros [= <- <-].
    + destruct (split_once sep s) as [[b a]|]; [|done]. intros [= <- <-].
      cbn. by rewrite (IH b eq_refl).
Qed.

(** Nothing of the separator's first character comes before it. *)
Lemma split_once_first c sep s after :
  Forall (λ x, x ≠ c) s → split_once (c :: sep) (s ++ (c :: sep) ++ after) = Some (s, after).
Proof.
  induction 1 as [|x s Hx _ IH].
  - cbn [app]. destruct (sep ++ after) eqn:E; cbn [split_once];
      (replace (strip_prefix (c :: sep) (c :: _)) with (Some after);
       [done|symmetry; apply strip_prefix_Some; cbn; by rewrite E]).
  - cbn [app split_once strip_prefix] in *. destruct (Z.eqb_spec c x); [congruence|].
    by rewrite IH.
Qed.

Lemma contains_char_app c s t : contains_char c (s ++ t) = contains_char c s || contains_char c t.
Proof. apply existsb_app. Qed.

Lemma contains_char_false c s : contains_char c s = false ↔ Forall (λ x, x ≠ c) s.
Proof.
  unfold contains_char. rewrite existsb_false_Forall.
  apply Forall_iff; intros x. rewrite Z.eqb_neq. naive_solver.
Qed.

(** Trimming twice is trimming. *)
Definition trimmed (s : rstring) : Prop :=
  (∀ c, head s = Some c → char_is_whitespace c = false)
  ∧ (∀ c, last s = Some c → char_is_whitespace c = false).

Lemma drop_while_head p s c : head (drop_while p s) = Some c → p c = false.
Proof.
  induction s as [|x s IH]; cbn; [done|]. destruct (p x) eqn:Hx; [done|]. by intros [= <-].
Qed.

Lemma drop_while_id p s : (∀ c, head s = Some c → p c = false) → drop_while p s = s.
Proof. destruct s as [|c s]; [done|]. cbn. intros Hc. by rewrite (Hc c). Qed.

Lemma head_reverse {A} (l : list A) : head (reverse l) = last l.
Proof. induction l as [|x l _] using rev_ind; [done|]. by rewrite reverse_snoc, last_snoc. Qed.

Lemma last_reverse {A} (l : list A) : last (reverse l) = head l.
Proof. rewrite <-head_reverse. by rewrite reverse_involutive. Qed.

Lemma last_drop_while p s c : last (drop_while p s) = Some c → last s = Some c.
Proof.
  destruct (drop_while_suffix p s) as (t & Heq & _). intros Hc. rewrite Heq.
  by rewrite last_app, Hc.
Qed.

Lemma trim_trimmed s : trimmed (trim s).
Proof.
  unfold trim, trimmed. split; intros c.
  - rewrite head_reverse. intros Hc. apply last_drop_while in Hc. rewrite last_reverse in Hc.
    by apply drop_while_head in Hc.
  - rewrite last_reverse. apply drop_while_head.
Qed.

Lemma trimmed_trim s : trimmed s → trim s = s.
Proof.
  intros [Hhead Hlast]. unfold trim. rewrite (drop_while_id _ s) by done.
  rewrite drop_while_id; [apply reverse_involutive|]. intros c. rewrite head_reverse. apply Hlast.
Qed.

Lemma trim_trim s : trim (trim s) = trim s.
Proof. apply trimmed_trim, trim_trimmed. Qed.

Lemma ascii_lower_lower c : is_ascii_upper (ascii_lower c) = false.
Proof. unfold ascii_lower, is_ascii_upper. destruct ((65 <=? c) && (c <=? 90)) eqn:E; lia. Qed.

Lemma to_ascii_lowercase_id s :
  Forall (λ c, is_ascii_upper c = false) s → to_ascii_lowercase s = s.
Proof.
  unfold to_ascii_lowercase. induction 1 as [|c s Hc _ IH]; [done|].
  cbn. rewrite IH. unfold ascii_lower. by rewrite Hc.
Qed.
