(* ===== verification/RustTextFacts.v ===== *)
(** Facts about Rust text shared by the components that parse it: decimal numbers
    read back, ASCII text is its own bytes, joined path segments split again. *)
From S2P Require Export RustText RustPath LoopContract.
Local Open Scope Z_scope.

(** * Decimal numbers *)

Definition push_digit (n c : Z) : Z := 10 * n + (c - 48).
Abbreviation ascii_codes := (fmap (λ c, Z.of_nat (Ascii.nat_of_ascii c))).

Lemma pretty_char_digit (x : N) :
  is_ascii_digit (Z.of_nat (Ascii.nat_of_ascii (pretty_N_char (x `mod` 10)))) = true
  ∧ push_digit 0 (Z.of_nat (Ascii.nat_of_ascii (pretty_N_char (x `mod` 10)))) = Z.of_N (x `mod` 10).
Proof.
  pose proof (N.mod_lt x 10 ltac:(done)) as Hlt. revert Hlt.
  generalize (x `mod` 10)%N. intros m Hlt.
  assert (m = 0 ∨ m = 1 ∨ m = 2 ∨ m = 3 ∨ m = 4 ∨ m = 5 ∨ m = 6 ∨ m = 7 ∨ m = 8 ∨ m = 9)%N by lia.
  by destruct_or!; subst.
Qed.

Lemma push_digit_snoc n c : push_digit n c = 10 * n + push_digit 0 c.
Proof. unfold push_digit. lia. Qed.

Lemma pretty_N_go_digits x s :
  ∃ ds, String.list_ascii_of_string (pretty_N_go x s) = ds ++ String.list_ascii_of_string s
    ∧ Forall (λ c, is_ascii_digit c = true) (ascii_codes ds)
    ∧ foldl push_digit 0 (ascii_codes ds) = Z.of_N x
    ∧ (ds = [] → x = 0%N).
Proof.
  revert s. induction (N.lt_wf_0 x) as [x _ IH]; intros s.
  destruct (decide (x = 0%N)) as [->|Hx]; [by exists []|].
  assert (0 < x)%N as Hpos by lia. rewrite pretty_N_go_step by lia.
  destruct (IH (x `div` 10)%N ltac:(by apply N.div_lt)
    (String.String (pretty_N_char (x `mod` 10)) s)) as (ds & Heq & Hall & Hval & _).
  destruct (pretty_char_digit x) as [Hdigit Hlast].
  exists (ds ++ [pretty_N_char (x `mod` 10)]). split_and!.
  - by rewrite Heq, <-app_assoc.
  - rewrite fmap_app. apply Forall_app. split; [done|]. by constructor.
  - rewrite fmap_app, foldl_app. cbn [fmap list_fmap foldl]. rewrite Hval, push_digit_snoc, Hlast.
    pose proof (N.div_mod x 10 ltac:(done)). lia.
  - by intros [_ ?]%app_nil.
Qed.

Lemma show_Z_digits n : 0 ≤ n →
  show_Z n ≠ [] ∧ Forall (λ c, is_ascii_digit c = true) (show_Z n)
  ∧ digits_value (show_Z n) = Some n.
Proof.
  intros Hn. assert (show_Z n ≠ [] ∧ Forall (λ c, is_ascii_digit c = true) (show_Z n)
    ∧ foldl push_digit 0 (show_Z n) = n) as (Hne & Hall & Hval).
  { unfold show_Z, lit. destruct n as [|p|p]; [by repeat constructor| |lia].
    change (pretty (Z.pos p)) with (pretty_N (N.pos p)). unfold pretty_N. rewrite decide_False by done.
    destruct (pretty_N_go_digits (N.pos p) "") as (ds & -> & Hall & Hval & Hnil).
    rewrite app_nil_r. split_and!; [|done|done]. intros Hds%fmap_nil_inv. by apply Hnil in Hds. }
  split_and!; [done..|]. unfold digits_value.
  rewrite (proj2 (forallb_true_Forall _ _)) by done.
  destruct (show_Z n) eqn:E; [done|]. cbn [is_empty negb orb]. by f_equal.
Qed.

(** [str::parse] reads back what [format!] printed. *)
Lemma parse_unsigned_show max n : 0 ≤ n ≤ max → parse_unsigned max (show_Z n) = Some n.
Proof.
  intros Hn. destruct (show_Z_digits n) as (Hne & Hall & Hval); [lia|]. unfold parse_unsigned.
  assert (match show_Z n with 43 :: s' => s' | _ => show_Z n end = show_Z n) as ->.
  { destruct Hall as [|c s Hc _]; [done|]. unfold is_ascii_digit in Hc. bool_inv.
    repeat case_match; subst; try done; lia. }
  rewrite Hval. cbn. by rewrite (proj2 (Z.leb_le _ _)) by lia.
Qed.

Lemma digits_value_nonneg s n : digits_value s = Some n → 0 ≤ n.
Proof.
  unfold digits_value. destruct (_ || _) eqn:Hs; [done|]. intros [= <-]. bool_inv.
  match goal with H : forallb _ _ = true |- _ => apply forallb_true_Forall in H as Hall end.
  cut (∀ m, 0 ≤ m → 0 ≤ foldl push_digit m s); [by intros Hcut; apply Hcut|].
  clear -Hall. induction Hall as [|c s' Hc _ IH]; intros m Hm; [done|]. cbn [foldl].
  unfold is_ascii_digit in Hc. bool_inv. apply IH. unfold push_digit. lia.
Qed.

Lemma parse_unsigned_range max s n : parse_unsigned max s = Some n → 0 ≤ n ≤ max.
Proof.
  unfold parse_unsigned. intros (m & Hm & Hle)%bind_Some. case_match eqn:Hmax; [|done].
  injection Hle as ->. bool_inv. split; [by eapply digits_value_nonneg|done].
Qed.

(** * ASCII text *)

Lemma bytes_cons c s : bytes (c :: s) = utf8_encode c ++ bytes s.
Proof. done. Qed.

(** A text all of whose bytes are ASCII is its own encoding. *)
Lemma bytes_of_ascii p s :
  (∀ b, p b = true → b < 128) → forallb p (bytes s) = true → bytes s = s.
Proof.
  intros Hp. induction s as [|c s IH]; [done|]. rewrite bytes_cons, forallb_app.
  intros [Hc Hs]%andb_true_iff. rewrite IH by done.
  unfold utf8_encode in *. destruct (Z.ltb_spec c 128); [done|]. exfalso.
  assert (128 ≤ c / 64 * 64 + 64) by (pose proof (Z.mod_pos_bound c 64); pose proof (Z.div_mod c 64); lia).
  repeat case_match; cbn [forallb] in Hc; bool_inv; repeat match goal with
    | H : p ?b = true |- _ => apply Hp in H
    end;
  repeat match goal with
    | H : 224 + c / ?n < 128 |- _ => pose proof (Z.div_pos c n ltac:(lia) ltac:(lia)); lia
    | H : 240 + c / ?n < 128 |- _ => pose proof (Z.div_pos c n ltac:(lia) ltac:(lia)); lia
    | H : 192 + c / ?n < 128 |- _ => pose proof (Z.div_pos c n ltac:(lia) ltac:(lia)); lia
    end.
Qed.

Lemma is_ascii_alphanumeric_small b : is_ascii_alphanumeric b = true → 48 ≤ b < 123.
Proof.
  unfold is_ascii_alphanumeric, is_ascii_digit, is_ascii_lower, is_ascii_upper.
  rewrite !orb_true_iff, !andb_true_iff, !Z.leb_le. lia.
Qed.

Lemma is_ascii_digit_small b : is_ascii_digit b = true → 48 ≤ b < 58.
Proof. unfold is_ascii_digit. intros. bool_inv. lia. Qed.

Lemma len_le_app s t : len s ≤ len (s ++ t).
Proof. rewrite len_app. pose proof (len_nonneg t). lia. Qed.

(** * Joined path segments *)

Lemma elem_of_join_with sep l c :
  c ∈ join_with sep l → c ∈ sep ∨ ∃ piece, piece ∈ l ∧ c ∈ piece.
Proof.
  induction l as [|x [|y l] IH]; cbn [join_with].
  - by intros ?%elem_of_nil.
  - intros Hc. right. exists x. by rewrite list_elem_of_singleton.
  - rewrite !elem_of_app. intros [Hc|[Hc|Hc]]; [|by left|].
    + right. exists x. split; [constructor|done].
    + destruct (IH Hc) as [Hsep|(piece & Hpiece & Hin)]; [by left|]. right. exists piece.
      split; [by constructor|done].
Qed.

(** A separator in front of every piece makes a list easier to thin out. *)
Lemma len_join_with_cons x l :
  len (join_with [slash] (x :: l)) = len ((x :: l) ≫= ([slash] ++.)) - 1.
Proof.
  revert x. induction l as [|y l IH]; intros x.
  - cbn [join_with mbind list_bind]. rewrite app_nil_r, len_app. change (len [slash]) with 1. lia.
  - change (join_with [slash] (x :: y :: l)) with (x ++ [slash] ++ join_with [slash] (y :: l)).
    change ((x :: y :: l) ≫= ([slash] ++.)) with (([slash] ++ x) ++ ((y :: l) ≫= ([slash] ++.))).
    rewrite !len_app, IH. lia.
Qed.

Lemma len_bind_sublist {A} (f : A → rstring) l k :
  sublist l k → len (l ≫= f) ≤ len (k ≫= f).
Proof.
  induction 1 as [|x l k _ IH|x l k _ IH]; cbn [mbind list_bind]; rewrite ?len_app;
    try pose proof (len_nonneg (f x)); try lia; done.
Qed.

Lemma len_join_with_sublist l k : sublist l k → len (join_with [slash] l) ≤ len (join_with [slash] k).
Proof.
  intros Hsub. destruct l as [|x l]; [apply len_nonneg|].
  destruct k as [|y k]; [by apply sublist_nil_r in Hsub|].
  rewrite !len_join_with_cons. pose proof (len_bind_sublist ([slash] ++.) _ _ Hsub). lia.
Qed.

Lemma join_with_cons sep x l : l ≠ [] → join_with sep (x :: l) = x ++ sep ++ join_with sep l.
Proof. by destruct l. Qed.

Lemma split_on_ne sep cur s : split_on sep cur s ≠ [].
Proof. revert cur. induction s as [|c s IH]; intros cur; cbn; [done|]. by destruct (c =? sep). Qed.

Lemma join_split_on cur s : join_with [slash] (split_on slash cur s) = reverse cur ++ s.
Proof.
  revert cur. induction s as [|c s IH]; intros cur; cbn [split_on].
  - cbn. by rewrite app_nil_r.
  - destruct (Z.eqb_spec c slash) as [->|Hne].
    + rewrite join_with_cons by apply split_on_ne. by rewrite IH.
    + rewrite IH, reverse_cons, <-app_assoc. done.
Qed.

Lemma split_on_pieces cur s :
  Forall (λ c, c ≠ slash) cur → Forall (Forall (λ c, c ≠ slash)) (split_on slash cur s).
Proof.
  revert cur. induction s as [|c s IH]; intros cur Hcur; cbn [split_on].
  - constructor; [by apply Forall_reverse|done].
  - destruct (Z.eqb_spec c slash) as [|Hne]; [constructor; [by apply Forall_reverse|]|]; apply IH;
      by repeat constructor.
Qed.

(** A path segment: not empty, not [.] or [..], without a separator. *)
Definition segment (piece : rstring) : Prop :=
  piece ≠ [] ∧ piece ≠ lit "." ∧ piece ≠ lit ".." ∧ Forall (λ c, c ≠ slash) piece.

Lemma component_of_segment piece : segment piece → component_of piece = Some (Normal piece).
Proof. intros (? & ? & ? & _). unfold component_of. by rewrite !bool_decide_eq_false_2. Qed.

Lemma split_on_join_segments piece pieces :
  Forall segment (piece :: pieces) →
  split_on slash [] (join_with [slash] (piece :: pieces)) = piece :: pieces.
Proof.
  revert piece. induction pieces as [|p ps IH]; intros piece [Hpiece Hps]%Forall_cons.
  - cbn [join_with]. by rewrite split_on_none by apply Hpiece.
  - change (join_with [slash] (piece :: p :: ps))
      with (piece ++ slash :: join_with [slash] (p :: ps)).
    rewrite split_on_app, IH by done. by rewrite split_on_none by apply Hpiece.
Qed.

Lemma path_components_join pieces :
  Forall segment pieces → path_components (join_with [slash] pieces) = Normal <$> pieces.
Proof.
  destruct pieces as [|piece pieces]; [done|]. intros Hall. unfold path_components.
  rewrite split_on_join_segments by done. pose proof Hall as [Hpiece _]%Forall_cons.
  assert (path_is_absolute (join_with [slash] (piece :: pieces)) = false) as ->.
  { destruct Hpiece as (Hne & _ & _ & Hslash). destruct Hslash as [|c s Hc _]; [done|].
    destruct pieces; cbn; by apply Z.eqb_neq. }
  rewrite bool_decide_eq_false_2 by apply Hpiece.
  clear Hpiece. induction Hall as [|p ps Hp _ IH]; [done|]. cbn [omap list_omap fmap list_fmap].
  by rewrite (component_of_segment p), IH.
Qed.
