(* ===== verification/HandoffTypes.v ===== *)
(** Typed findings handed from one agent to another (src/handoff/types.rs): the
    checks and failures, the admission stamp, subject keys, sourced claims, the
    workflow result and the normal forms of ids, paths, hashes, URLs and digests.

    A [DateTime] is its nanoseconds since the epoch, a [chrono::Duration] a number
    of nanoseconds. JSON payloads are the values [json]. *)
From S2P Require Export RustText RustPath Lifecycle.
Local Open Scope Z_scope.

Definition FILE_SUBJECT_PREFIX : rstring := lit "impulse-subject:".
Definition COMMIT_SUBJECT_TRAILER : rstring := lit "Impulse-Subject:".

Definition second : Z := 1000000000.
Definition DEFAULT_FETCH_MAX_AGE_SECS : Z := 24 * 60 * 60.

Definition MAX_SUBJECT_LEN : Z := 253.
Definition MAX_ID_LEN : Z := 128.
Definition MAX_STATEMENT_BYTES : Z := 8 * 1024.
Definition MAX_CLAIMS : Z := 32.
Definition MAX_ARTIFACT_BYTES : Z := 256 * 1024.
Definition SUBJECT_SCAN_BYTES : Z := 64 * 1024.

(** * Checks and failures *)

Inductive CheckKind : Type :=
  | RequestCheck
  | ClaimsPresent
  | SourceResolves
  | FetchUnusable
  | SubjectMatches
  | StaleRead
  | HandoffExists
  | ArtifactExists
  | AlreadyAccepted.
#[export] Instance CheckKind_eq_dec : EqDecision CheckKind.
Proof. solve_decision. Defined.

Record GateFailure := {
  failure_target : rstring;
  failure_check : CheckKind;
  failure_field : option rstring;
  failure_fix : rstring
}.
#[export] Instance GateFailure_eq_dec : EqDecision GateFailure.
Proof. solve_decision. Defined.

Inductive HandoffError : Type :=
  | InvalidInput (message : rstring)
  | RequestError (field message : rstring)
  | StoreError (action source : rstring)
  | Corrupt (message : rstring).
#[export] Instance HandoffError_eq_dec : EqDecision HandoffError.
Proof. solve_decision. Defined.

Abbreviation handoff_result := (result HandoffError).

(** Its [Display]. *)
Definition show_handoff_error (e : HandoffError) : rstring :=
  match e with
  | InvalidInput message => lit "invalid handoff input: " ++ message
  | RequestError _ message => message
  | StoreError action source =>
      lit "failed to " ++ action ++ lit " the handoff store: " ++ source
  | Corrupt message => lit "handoff store is unreadable: " ++ message
  end.

Definition invalid_input {A} (message : rstring) : handoff_result A := Err (InvalidInput message).
Definition invalid_input_if (c : bool) (message : rstring) : handoff_result unit :=
  reject_if c (InvalidInput message).

(** * The admission stamp *)

Record AdmissionContext := {
  admission_execution_origin : rstring;
  admission_session_id : option rstring;
  admission_fetch_max_age : Z
}.

Definition default_fetch_max_age : Z := DEFAULT_FETCH_MAX_AGE_SECS * second.

(** [blank_to_none]: also [gate::blank]. *)
Definition blank_to_none (value : option rstring) : option rstring :=
  v ← value ;
  if is_empty (trim v) then None else Some (trim v).

Definition admission_direct : AdmissionContext :=
  {| admission_execution_origin := lit "direct"; admission_session_id := None;
     admission_fetch_max_age := default_fetch_max_age |}.

Definition from_tool (execution_origin : rstring) (session_id : option rstring)
    : AdmissionContext :=
  let origin := trim execution_origin in
  {| admission_execution_origin := if is_empty origin then lit "direct" else origin;
     admission_session_id := blank_to_none session_id;
     admission_fetch_max_age := default_fetch_max_age |}.

Definition with_fetch_max_age (fetch_max_age : Z) (a : AdmissionContext) : AdmissionContext :=
  {| admission_execution_origin := admission_execution_origin a;
     admission_session_id := admission_session_id a;
     admission_fetch_max_age := fetch_max_age |}.

Definition with_session (session_id : rstring) (a : AdmissionContext) : AdmissionContext :=
  {| admission_execution_origin := admission_execution_origin a;
     admission_session_id := blank_to_none (Some session_id);
     admission_fetch_max_age := admission_fetch_max_age a |}.

(** [chrono::Duration::try_seconds]: whole milliseconds must fit an [i64]. *)
Definition try_seconds (seconds : Z) : option Z :=
  if (- (i64_max / 1000) <=? seconds) && (seconds <=? i64_max / 1000)
  then Some (seconds * second) else None.

Definition parse_fetch_max_age_secs (raw : option rstring) : Z :=
  match blank_to_none raw with
  | None => default_fetch_max_age
  | Some raw =>
      match parse_i64 raw with
      | Some seconds =>
          if 0 <? seconds then default default_fetch_max_age (try_seconds seconds)
          else default_fetch_max_age
      | None => default_fetch_max_age
      end
  end.

(** * Subject keys, ids and statements *)

(** [SubjectKey::parse]; a subject key is its text. *)
Definition subject_parse (raw : rstring) : handoff_result rstring :=
  let value := trim raw in
  invalid_input_if (is_empty value || (MAX_SUBJECT_LEN <? len value))
    (lit "subject key `" ++ raw ++ lit "` must be 1..=253 characters") ;;
  invalid_input_if (existsb is_ascii_upper value)
    (lit "subject key `" ++ value ++ lit "` must be lowercase") ;;
  let alphabet_ok :=
    forallb (λ b, is_ascii_alphanumeric b || (b =? 46) || (b =? 45)) (bytes value) in
  let edge_ok edge := match edge with Some b => is_ascii_alphanumeric b | None => false end in
  invalid_input_if
    (negb alphabet_ok || negb (edge_ok (head (bytes value)) && edge_ok (last (bytes value)))
     || contains_str (lit "..") value)
    (lit "subject key `" ++ value
       ++ lit "` must be a lowercase domain or token (letters, digits, dots, and hyphens; no leading, trailing, or doubled dots or hyphens)") ;;
  Ok value.

Definition validate_handoff_id (field raw : rstring) : handoff_result rstring :=
  let value := trim raw in
  reject_if
    (is_empty value || (MAX_ID_LEN <? len value)
     || negb (forallb (λ b, is_ascii_alphanumeric b || (b =? 46) || (b =? 95) || (b =? 45))
                (bytes value)))
    (RequestError field
       (field ++ lit " `" ++ raw
          ++ lit "` must be 1..=128 characters of letters, digits, '.', '_', or '-'")) ;;
  Ok value.

Definition validate_statement (raw : rstring) : handoff_result rstring :=
  let value := trim raw in
  invalid_input_if (is_empty value) (lit "claim statement must not be empty") ;;
  invalid_input_if (MAX_STATEMENT_BYTES <? len value)
    (lit "claim statement is " ++ show_Z (len value) ++ lit " bytes; the maximum is 8192") ;;
  Ok value.

(** * Paths *)

(** The part a component adds, or why it is refused. *)
Definition relative_part (field path : rstring) (component : Component)
    : handoff_result (option rstring) :=
  match component with
  | Normal part => Ok (Some part)
  | CurDir => Ok None
  | ParentDir => invalid_input (field ++ lit " `" ++ path ++ lit "` must not contain `..`")
  | RootDir | Prefix =>
      invalid_input
        (field ++ lit " `" ++ path ++ lit "` must be a relative path inside the workspace")
  end.

Fixpoint relative_parts (field path : rstring) (components : list Component)
    : handoff_result (list rstring) :=
  match components with
  | [] => Ok []
  | component :: components =>
      part ← relative_part field path component ;
      parts ← relative_parts field path components ;
      Ok (match part with Some part => part :: parts | None => parts end)
  end.

Definition validate_relative_path (field raw : rstring) : handoff_result rstring :=
  let path := trim raw in
  invalid_input_if (is_empty path) (field ++ lit " must not be empty") ;;
  invalid_input_if (256 <? len path)
    (field ++ lit " `" ++ path ++ lit "` is longer than 256 characters") ;;
  invalid_input_if (contains_char 92 path || contains_char 0 path)
    (field ++ lit " `" ++ path ++ lit "` must be a relative path using `/`") ;;
  parts ← relative_parts field path (path_components path) ;
  invalid_input_if (bool_decide (parts = []))
    (field ++ lit " `" ++ path ++ lit "` must name a file") ;;
  Ok (join_with (lit "/") parts).

(** [path.canonicalize()] and [is_dir] answer for the file system. *)
Definition normalize_workspace (canonicalize : rstring → option rstring)
    (is_dir : rstring → bool) (raw : rstring) : handoff_result rstring :=
  let trimmed := trim raw in
  invalid_input_if (is_empty trimmed) (lit "workspace must not be empty") ;;
  invalid_input_if (contains_char 0 trimmed) (lit "workspace must not contain a NUL byte") ;;
  invalid_input_if (existsb (λ c, bool_decide (c = ParentDir)) (path_components trimmed))
    (lit "workspace must not contain `..`") ;;
  canonical ← ok_or (canonicalize trimmed)
    (InvalidInput (lit "workspace `" ++ trimmed
       ++ lit "` does not exist or could not be resolved")) ;
  invalid_input_if (negb (is_dir canonical))
    (lit "workspace `" ++ canonical ++ lit "` must be a directory") ;;
  Ok canonical.

(** * Commit hashes, URLs and digests *)

Definition validate_commit_hash (raw : rstring) : handoff_result rstring :=
  let hash := trim raw in
  invalid_input_if
    (negb ((7 <=? len hash) && (len hash <=? 40)) || negb (forallb is_ascii_hexdigit (bytes hash))
     || existsb is_ascii_upper hash)
    (lit "commit hash `" ++ raw ++ lit "` must be 7..=40 lowercase hex characters") ;;
  Ok hash.

Definition u16_max : Z := 2 ^ 16 - 1.

Definition split_host_port (hostport : rstring) : handoff_result (rstring * option Z) :=
  invalid_input_if (starts_with (lit "[") hostport)
    (lit "URL host must be a domain name, not an IP literal") ;;
  match rsplit_once 58 hostport with
  | Some (host, port) =>
      invalid_input_if (is_empty host || is_empty port || negb (forallb is_ascii_digit (bytes port)))
        (lit "URL host `" ++ hostport ++ lit "` has no numeric port") ;;
      number ← ok_or (parse_unsigned u16_max port)
        (InvalidInput (lit "URL port `" ++ port ++ lit "` is out of range")) ;
      Ok (host, Some number)
  | None => Ok (hostport, None)
  end.

Definition map_invalid {A} (message : rstring) (m : handoff_result A) : handoff_result A :=
  map_err (λ _, InvalidInput message) m.

(** Where the authority of a URL ends: at [/], [?] or [#]. *)
Definition is_authority_char (c : Z) : bool := negb ((c =? 47) || (c =? 63) || (c =? 35)).

(** The scheme and what follows [://]. *)
Definition url_scheme (raw : rstring) : handoff_result (rstring * rstring) :=
  let message := lit "URL `" ++ raw ++ lit "` must start with http:// or https://" in
  parts ← ok_or (split_once (lit "://") raw) (InvalidInput message) ;
  let scheme := to_ascii_lowercase parts.1 in
  invalid_input_if (bool_decide (scheme ≠ lit "https") && bool_decide (scheme ≠ lit "http"))
    message ;;
  invalid_input_if (is_empty parts.2 || contains_char 32 parts.2)
    (lit "URL `" ++ raw ++ lit "` is not a usable http(s) URL") ;;
  Ok (scheme, parts.2).

Definition port_suffix (scheme : rstring) (port : option Z) : rstring :=
  match port with
  | None => []
  | Some number =>
      if bool_decide (scheme = lit "https") && (number =? 443)
         || bool_decide (scheme = lit "http") && (number =? 80)
      then []
      else lit ":" ++ show_Z number
  end.

(** The path and query: the fragment is dropped, an empty one is [/]. *)
Definition path_and_query (after : rstring) : rstring :=
  let path := take_while (λ c, negb (c =? 35)) after in
  if is_empty path then lit "/" else path.

Definition normalize_url (raw : rstring) : handoff_result (rstring * rstring) :=
  let raw := trim raw in
  parts ← url_scheme raw ;
  let '(scheme, rest) := parts in
  let authority := take_while is_authority_char rest in
  let after := drop_while is_authority_char rest in
  invalid_input_if (is_empty authority) (lit "URL `" ++ raw ++ lit "` has no host") ;;
  invalid_input_if (contains_char 64 authority)
    (lit "URL must not include userinfo (a username or password). Cite the URL without credentials.") ;;
  parts ← split_host_port authority ;
  let '(host, port) := parts in
  subject ← map_invalid
    (lit "URL host `" ++ host ++ lit "` is not a subject key. Use a lowercase domain name.")
    (subject_parse (to_ascii_lowercase host)) ;
  Ok (scheme ++ lit "://" ++ subject ++ port_suffix scheme port ++ path_and_query after, subject).

Definition parse_digest (raw : rstring) : handoff_result rstring :=
  let hex := default (trim raw) (strip_prefix (lit "sha256:") (trim raw)) in
  invalid_input_if
    (negb (len hex =? 64) || negb (forallb is_ascii_hexdigit (bytes hex))
     || existsb is_ascii_upper hex)
    (lit "body_digest must be 64 lowercase hex characters, with an optional `sha256:` prefix") ;;
  Ok (lit "sha256:" ++ hex).

Definition parse_rfc3339 `{Host} (raw : rstring) : handoff_result Z :=
  ok_or (parse_from_rfc3339 (trim raw))
    (InvalidInput (lit "timestamp `" ++ raw ++ lit "` must be an RFC 3339 timestamp")).

(** * Claims *)

Inductive ClaimSource : Type :=
  | FileSource (path : rstring)
  | CommitSource (hash : rstring)
  | UrlSource (url : rstring).
#[export] Instance ClaimSource_eq_dec : EqDecision ClaimSource.
Proof. solve_decision. Defined.

Definition normalize_source (source : ClaimSource) : handoff_result ClaimSource :=
  match source with
  | FileSource path => FileSource <$> validate_relative_path (lit "file source") path
  | CommitSource hash => CommitSource <$> validate_commit_hash hash
  | UrlSource url => normalized ← normalize_url url ; Ok (UrlSource normalized.1)
  end.

Record Claim := {
  finding_id : rstring;
  finding_statement : rstring;
  finding_subject : rstring;
  finding_source : ClaimSource
}.
#[export] Instance Claim_eq_dec : EqDecision Claim.
Proof. solve_decision. Defined.

Definition Claim_try_new (id statement subject : rstring) (source : ClaimSource)
    : handoff_result Claim :=
  id ← validate_handoff_id (lit "claim id") id ;
  statement ← validate_statement statement ;
  subject ← subject_parse subject ;
  source ← normalize_source source ;
  Ok {| finding_id := id; finding_statement := statement; finding_subject := subject;
        finding_source := source |}.

(** [Claim]'s [Deserialize] runs the constructor on the fields it read. *)
Definition reread_claim (c : Claim) : handoff_result Claim :=
  Claim_try_new (finding_id c) (finding_statement c) (finding_subject c) (finding_source c).

(** * The workflow result *)

Inductive WorkflowState : Type := WorkflowPending | WorkflowAccepted | WorkflowRecorded.
#[export] Instance WorkflowState_eq_dec : EqDecision WorkflowState.
Proof. solve_decision. Defined.

Record NextStep := { next_action : rstring; next_detail : rstring }.

Section workflow.
Context {Snapshot : Type}.

Record WorkflowResult := {
  workflow_state : WorkflowState;
  workflow_accepted : bool;
  workflow_snapshot : Snapshot;
  workflow_failures : list GateFailure;
  workflow_next_step : NextStep
}.

Definition workflow_pending (snapshot : Snapshot) (failures : list GateFailure)
    (next_step : NextStep) : handoff_result WorkflowResult :=
  invalid_input_if (bool_decide (failures = []))
    (lit "a pending handoff result requires at least one failure; refusing to report a silent pass") ;;
  Ok {| workflow_state := WorkflowPending; workflow_accepted := false;
        workflow_snapshot := snapshot; workflow_failures := failures;
        workflow_next_step := next_step |}.

Definition workflow_accept (snapshot : Snapshot) (next_step : NextStep) : WorkflowResult :=
  {| workflow_state := WorkflowAccepted; workflow_accepted := true; workflow_snapshot := snapshot;
     workflow_failures := []; workflow_next_step := next_step |}.

Definition workflow_record (snapshot : Snapshot) (next_step : NextStep) : WorkflowResult :=
  {| workflow_state := WorkflowRecorded; workflow_accepted := false; workflow_snapshot := snapshot;
     workflow_failures := []; workflow_next_step := next_step |}.
End workflow.
Arguments WorkflowResult : clear implicits.
