(* ===== verification/HandoffNormal.v ===== *)
(** The normal forms of src/handoff/types.rs: what each parser accepts, and that
    reading its result again gives the same result. For a path or a URL this needs
    the result to be free of surrounding whitespace, which trimming the raw text
    does not ensure. *)
From S2P Require Export RustTextFacts HandoffTypes.
Local Open Scope Z_scope.

Lemma fmap_Ok {A B} (f : A → B) (m : handoff_result A) b :
  f <$> m = Ok b → ∃ a, b = f a ∧ m = Ok a.
Proof. destruct m; [|done]. intros [= <-]. eauto. Qed.

(** * Subjects, ids and statements *)

Lemma subject_parse_again raw s : subject_parse raw = Ok s → subject_parse s = Ok s ∧ s = trim raw.
Proof.
  unfold subject_parse, invalid_input_if. intros Hs. result_inv. rewrite trim_trim.
  repeat match goal with H : ?b = false |- context [?b] => rewrite H end. done.
Qed.

(** Its characters are lowercase letters, digits, dots and hyphens. *)
Definition subject_char (c : Z) : bool :=
  is_ascii_digit c || is_ascii_lower c || (c =? 46) || (c =? 45).

Lemma subject_parse_chars raw s :
  subject_parse raw = Ok s → Forall (λ c, subject_char c = true) s ∧ s ≠ [].
Proof.
  unfold subject_parse, invalid_input_if. intros Hs. result_inv. bool_inv.
  match goal with H : forallb _ (bytes (trim raw)) = true |- _ => rename H into Hall end.
  match goal with H : existsb is_ascii_upper _ = false |- _ => rename H into Hupper end.
  match goal with H : is_empty _ = false |- _ => rename H into Hempty end.
  assert (bytes (trim raw) = trim raw) as Hbytes.
  { eapply bytes_of_ascii; [|exact Hall]. intros b. rewrite !orb_true_iff, !Z.eqb_eq.
    intros [[Hb%is_ascii_alphanumeric_small|Hb]|Hb]; lia. }
  rewrite Hbytes in Hall. split; [|by intros Hnil; rewrite Hnil in Hempty].
  apply forallb_true_Forall in Hall. apply existsb_false_Forall in Hupper.
  apply Forall_forall. intros c Hc. rewrite Forall_forall in Hall, Hupper.
  specialize (Hall c Hc). specialize (Hupper c Hc). cbv beta in *.
  revert Hall. unfold subject_char, is_ascii_alphanumeric. rewrite Hupper. by rewrite orb_false_r.
Qed.

Lemma subject_char_range c : subject_char c = true → 45 ≤ c ≤ 122 ∧ c ≠ 47 ∧ c ≠ 58 ∧ c ≠ 63 ∧ c ≠ 64
  ∧ is_ascii_upper c = false ∧ c ≠ 91.
Proof.
  unfold subject_char, is_ascii_digit, is_ascii_lower, is_ascii_upper.
  rewrite !orb_true_iff, !andb_true_iff, !Z.leb_le, !Z.eqb_eq, andb_false_iff, !Z.leb_gt. lia.
Qed.

Lemma validate_handoff_id_again field raw id :
  validate_handoff_id field raw = Ok id → validate_handoff_id field id = Ok id.
Proof.
  unfold validate_handoff_id. intros Hid. result_inv. rewrite trim_trim.
  repeat match goal with H : ?b = false |- context [?b] => rewrite H end. done.
Qed.

Lemma validate_statement_again raw s : validate_statement raw = Ok s → validate_statement s = Ok s.
Proof.
  unfold validate_statement, invalid_input_if. intros Hs. result_inv. rewrite trim_trim.
  repeat match goal with H : ?b = false |- context [?b] => rewrite H end. done.
Qed.

Lemma validate_commit_hash_again raw h :
  validate_commit_hash raw = Ok h → validate_commit_hash h = Ok h.
Proof.
  unfold validate_commit_hash, invalid_input_if. intros Hh. result_inv. rewrite trim_trim.
  repeat match goal with H : ?b = false |- context [?b] => rewrite H end. done.
Qed.

(** * Paths *)

Lemma relative_parts_Ok field path components parts :
  relative_parts field path components = Ok parts →
  Normal <$> parts = filter (λ c, c ≠ CurDir) components.
Proof.
  revert parts. induction components as [|component components IH]; intros parts;
    cbn [relative_parts].
  - by intros [= <-].
  - intros Hparts. apply bind_Ok in Hparts as (part & Hpart & Hparts).
    apply bind_Ok in Hparts as (rest & Hrest & Hparts). apply Ok_inj in Hparts as <-.
    specialize (IH _ Hrest).
    destruct component; cbn in Hpart; try discriminate; apply Ok_inj in Hpart as <-.
    + rewrite filter_cons_False by (intros Hne; by apply Hne). done.
    + rewrite filter_cons_True by done. cbn. by f_equal.
Qed.

Lemma relative_parts_normal field path parts :
  relative_parts field path (Normal <$> parts) = Ok parts.
Proof. induction parts as [|part parts IH]; [done|]. cbn. rewrite IH. done. Qed.

(** The normal components of a path are pieces of its text. *)
Lemma omap_component_of_pieces pieces parts :
  Forall (Forall (λ c, c ≠ slash)) pieces →
  Normal <$> parts = filter (λ c, c ≠ CurDir) (omap component_of pieces) →
  Forall segment parts ∧ sublist parts pieces.
Proof.
  intros Hpieces. revert parts.
  induction Hpieces as [|piece pieces Hpiece _ IH]; intros parts; cbn [omap list_omap].
  - intros ->%fmap_nil_inv. split; constructor.
  - unfold component_of at 1. repeat case_bool_decide; cbn [from_option].
    1,2: intros [? ?]%IH; split; [done|by constructor].
    + rewrite filter_cons_True by done. destruct parts; [done|]. by intros [= ?].
    + rewrite filter_cons_True by done. destruct parts as [|part parts]; [done|].
      intros Heq. rewrite fmap_cons in Heq. injection Heq as -> Hrest.
      apply IH in Hrest as [Hall Hsub]. split; [by repeat constructor|by constructor].
Qed.

Lemma path_components_parts path parts :
  Normal <$> parts = filter (λ c, c ≠ CurDir) (path_components path) →
  Forall segment parts ∧ sublist parts (split_on slash [] path).
Proof.
  pose proof (split_on_pieces [] path ltac:(constructor)) as Hpieces. unfold path_components.
  destruct (path_is_absolute path).
  - rewrite filter_cons_True by done. destruct parts; [done|]. by intros [= ?].
  - destruct (split_on slash [] path) as [|piece pieces]; [by apply (omap_component_of_pieces [])|].
    case_bool_decide; [|by apply omap_component_of_pieces].
    rewrite filter_cons_False by (intros Hne; by apply Hne). apply Forall_cons in Hpieces as [_ Hp].
    intros [? ?]%omap_component_of_pieces; [|done]. split; [done|by constructor].
Qed.

Record relative_path (path : rstring) : Prop := {
  rp_segments : ∃ parts, parts ≠ [] ∧ Forall segment parts ∧ path = join_with [slash] parts;
  rp_len : len path ≤ 256;
  rp_chars : contains_char 92 path = false ∧ contains_char 0 path = false
}.

Lemma validate_relative_path_Ok field raw path :
  validate_relative_path field raw = Ok path → relative_path path.
Proof.
  unfold validate_relative_path, invalid_input_if. intros Hpath. result_inv. bool_inv.
  match goal with H : relative_parts _ _ _ = Ok ?ps |- _ =>
    apply relative_parts_Ok, path_components_parts in H as [Hsegments Hsub]; rename ps into parts end.
  assert (∀ c, c ≠ slash → contains_char c (trim raw) = false →
    contains_char c (join_with [slash] parts) = false) as Hchars.
  { intros c Hc. rewrite !contains_char_false, !Forall_forall. intros Hraw x Hx.
    apply elem_of_join_with in Hx as [Hx|(piece & Hpiece & Hx)].
    - apply list_elem_of_singleton in Hx. congruence.
    - apply (elem_of_sublist _ _ _ Hpiece) in Hsub.
      by destruct (elem_of_split_on _ _ _ _ _ Hsub Hx) as [?%elem_of_nil|?]; [|apply Hraw]. }
  split; [by exists parts|..|by split; apply Hchars].
  transitivity (len (join_with [slash] (split_on slash [] (trim raw)))).
  - by apply len_join_with_sublist.
  - rewrite join_split_on. cbn. lia.
Qed.

Lemma validate_relative_path_again field raw path :
  validate_relative_path field raw = Ok path → trim path = path →
  validate_relative_path field path = Ok path.
Proof.
  intros [(parts & Hne & Hsegments & ->) Hlen [Hback Hnul]]%validate_relative_path_Ok Htrim.
  unfold validate_relative_path, invalid_input_if. rewrite Htrim, Hback, Hnul.
  rewrite (proj2 (Z.ltb_ge _ _)) by done. rewrite path_components_join by done.
  destruct parts as [|part parts]; [done|].
  destruct (is_empty (join_with [slash] (part :: parts))) eqn:Hempty.
  - apply is_empty_true in Hempty. apply Forall_cons in Hsegments as [(Hpart & _) _].
    destruct parts; cbn in Hempty; [done|]. by apply app_nil in Hempty as [? _].
  - cbn [reject_if]. rewrite !bind_ret_l. cbn [orb]. rewrite relative_parts_normal, !bind_ret_l.
    by rewrite bool_decide_eq_false_2.
Qed.

(** * URLs *)

Definition web_scheme (scheme : rstring) : Prop := scheme = lit "https" ∨ scheme = lit "http".

(** What [normalize_url] produces: a scheme, the subject as the host, a port that is
    not the default one, and a path or query without a fragment. *)
Record canonical_url (url subject : rstring) : Prop := {
  cu_shape : ∃ scheme port c rest,
    url = scheme ++ lit "://" ++ subject ++ port_suffix scheme port ++ c :: rest
    ∧ web_scheme scheme
    ∧ (∀ n, port = Some n → 0 ≤ n ≤ u16_max)
    ∧ (c = 47 ∨ c = 63)
    ∧ Forall (λ x, x ≠ 35 ∧ x ≠ 32) (c :: rest);
  cu_subject : subject_parse subject = Ok subject
}.

Lemma take_while_Forall p s : Forall (λ c, p c = true) (take_while p s).
Proof. induction s as [|c s IH]; cbn; [done|]. destruct (p c) eqn:Hc; by constructor. Qed.

Lemma elem_of_take_while p s c : c ∈ take_while p s → c ∈ s.
Proof. intros Hc. rewrite <-(take_while_drop_while p s). apply elem_of_app. by left. Qed.

Lemma path_and_query_shape after :
  (∀ c, head after = Some c → is_authority_char c = false) →
  contains_char 32 after = false →
  ∃ c rest, path_and_query after = c :: rest ∧ (c = 47 ∨ c = 63)
    ∧ Forall (λ x, x ≠ 35 ∧ x ≠ 32) (c :: rest).
Proof.
  intros Hhead Hspace%contains_char_false. unfold path_and_query. rewrite Forall_forall in Hspace.
  pose proof (take_while_Forall (λ c, negb (c =? 35)) after) as Hall.
  destruct (take_while _ after) as [|c rest] eqn:Htake; cbn [is_empty].
  - exists 47, []. split_and!; [done|by left|]. by repeat constructor.
  - exists c, rest. split_and!; [done|..].
    + destruct after as [|x after]; [done|]. cbn in Htake. case_match; [|done].
      injection Htake as -> _. specialize (Hhead _ eq_refl). unfold is_authority_char in Hhead.
      apply negb_false_iff in Hhead. apply negb_true_iff in H. rewrite H, orb_false_r in Hhead.
      by rewrite orb_true_iff, !Z.eqb_eq in Hhead.
    + apply Forall_forall. intros x Hx. rewrite Forall_forall in Hall. split.
      * specialize (Hall x Hx). cbv beta in Hall. by apply negb_true_iff, Z.eqb_neq in Hall.
      * apply Hspace, (elem_of_take_while (λ c, negb (c =? 35))). by rewrite Htake.
Qed.

Lemma split_host_port_Ok hostport host port :
  split_host_port hostport = Ok (host, port) → ∀ n, port = Some n → 0 ≤ n ≤ u16_max.
Proof.
  unfold split_host_port, invalid_input_if. intros Hport. result_inv.
  destruct (rsplit_once 58 hostport) as [[h p]|]; result_inv; [|by injection Hport as _ <-].
  simplify_eq. intros n [= <-]. by eapply parse_unsigned_range.
Qed.

Lemma url_scheme_Ok raw scheme rest :
  url_scheme raw = Ok (scheme, rest) → web_scheme scheme ∧ contains_char 32 rest = false.
Proof.
  unfold url_scheme, invalid_input_if. intros Hscheme. result_inv. simplify_eq.
  match goal with H : (_ && _)%bool = false |- _ => rename H into Hweb end.
  split; [|by bool_inv]. unfold web_scheme.
  apply andb_false_iff in Hweb. rewrite !bool_decide_eq_false in Hweb.
  destruct Hweb as [Hweb|Hweb]; apply dec_stable in Hweb; auto.
Qed.

Lemma normalize_url_canonical raw url subject :
  normalize_url raw = Ok (url, subject) → canonical_url url subject.
Proof.
  unfold normalize_url. intros Hurl. apply bind_Ok in Hurl as ([scheme rest] & Hscheme & Hurl).
  apply url_scheme_Ok in Hscheme as [Hweb Hspace].
  unfold invalid_input_if, map_invalid in Hurl. result_inv.
  match goal with H : split_host_port _ = Ok ?hp |- _ => destruct hp as [host port]; rename H into Hport end.
  result_inv. simplify_eq.
  match goal with H : subject_parse _ = Ok _ |- _ => apply subject_parse_again in H as [Hsubject _] end.
  destruct (path_and_query_shape (drop_while is_authority_char rest)) as (c & tail & -> & Hc & Hall).
  - apply drop_while_head.
  - apply contains_char_false. apply contains_char_false in Hspace. rewrite Forall_forall in *.
    intros x Hx%drop_while_In. by apply Hspace.
  - split; [|done]. exists scheme, port, c, tail. by pose proof (split_host_port_Ok _ _ _ Hport).
Qed.

Lemma port_suffix_cases scheme port :
  port_suffix scheme port = []
  ∨ ∃ n, port = Some n ∧ port_suffix scheme port = lit ":" ++ show_Z n.
Proof. unfold port_suffix. destruct port as [n|]; [|by left]. case_match; [by left|right; eauto]. Qed.

Lemma rsplit_once_app c s t :
  Forall (λ x, x ≠ c) t → rsplit_once c (s ++ c :: t) = Some (s, t).
Proof.
  intros Ht. unfold rsplit_once.
  assert (Forall (λ x, negb (x =? c) = true) (reverse t)) as Hall.
  { apply Forall_reverse. eapply Forall_impl; [exact Ht|]. cbn. intros x. by rewrite negb_true_iff, Z.eqb_neq. }
  rewrite reverse_app, reverse_cons, <-app_assoc. cbn [app].
  rewrite drop_while_app, take_while_app by done. cbn [drop_while take_while].
  rewrite Z.eqb_refl. cbn [negb]. by rewrite app_nil_r, !reverse_involutive.
Qed.

Lemma rsplit_once_none c s : Forall (λ x, x ≠ c) s → rsplit_once c s = None.
Proof.
  intros Hs. unfold rsplit_once. rewrite (proj2 (drop_while_nil _ _)); [reflexivity|].
  apply Forall_reverse. eapply Forall_impl; [exact Hs|]. cbn. intros x. by rewrite negb_true_iff, Z.eqb_neq.
Qed.

Lemma split_host_port_again scheme port subject :
  subject ≠ [] → Forall (λ c, subject_char c = true) subject →
  (∀ n, port = Some n → 0 ≤ n ≤ u16_max) →
  ∃ port', split_host_port (subject ++ port_suffix scheme port) = Ok (subject, port')
    ∧ port_suffix scheme port' = port_suffix scheme port.
Proof.
  intros Hne Hchars Hport. unfold split_host_port, invalid_input_if.
  assert (∀ t, starts_with (lit "[") (subject ++ t) = false) as ->.
  { intros t. destruct Hchars as [|c s Hc _]; [done|]. apply subject_char_range in Hc.
    unfold starts_with. change (lit "[") with [91]. cbn [app strip_prefix].
    destruct (Z.eqb_spec 91 c); [lia|done]. }
  cbn [reject_if]. rewrite bind_ret_l.
  destruct (port_suffix_cases scheme port) as [Hsuffix|(n & -> & Hsuffix)]; rewrite Hsuffix.
  - rewrite app_nil_r, rsplit_once_none; [by exists None|].
    eapply Forall_impl; [exact Hchars|]. cbn. intros c Hc%subject_char_range. lia.
  - specialize (Hport n eq_refl). destruct (show_Z_digits n) as (Hshow & Hdigits & _); [lia|].
    change (lit ":" ++ show_Z n) with (58 :: show_Z n). rewrite rsplit_once_app.
    + assert (bytes (show_Z n) = show_Z n) as ->.
      { apply ascii_bytes. eapply Forall_impl; [exact Hdigits|]. cbn. intros c Hc%is_ascii_digit_small. lia. }
      rewrite (proj2 (forallb_true_Forall _ _)) by done. rewrite parse_unsigned_show by lia.
      destruct (is_empty subject) eqn:E; [by apply is_empty_true in E|].
      destruct (is_empty (show_Z n)) eqn:E'; [by apply is_empty_true in E'|].
      by exists (Some n).
    + eapply Forall_impl; [exact Hdigits|]. cbn. intros c Hc%is_ascii_digit_small. lia.
Qed.

Lemma path_and_query_again c rest :
  Forall (λ x, x ≠ 35 ∧ x ≠ 32) (c :: rest) → path_and_query (c :: rest) = c :: rest.
Proof.
  intros Hall. unfold path_and_query. rewrite take_while_all; [done|].
  eapply Forall_impl; [exact Hall|]. cbn. intros x [? _]. by apply negb_true_iff, Z.eqb_neq.
Qed.

Lemma port_suffix_chars scheme port :
  (∀ n, port = Some n → 0 ≤ n ≤ u16_max) →
  Forall (λ c, c = 58 ∨ 48 ≤ c < 58) (port_suffix scheme port).
Proof.
  intros Hport. destruct (port_suffix_cases scheme port) as [->|(n & -> & ->)]; [done|].
  specialize (Hport n eq_refl). destruct (show_Z_digits n) as (_ & Hdigits & _); [lia|].
  constructor; [by left|]. eapply Forall_impl; [exact Hdigits|].
  cbn. intros c Hc%is_ascii_digit_small. by right.
Qed.

Lemma web_scheme_facts scheme :
  web_scheme scheme →
  to_ascii_lowercase scheme = scheme ∧ Forall (λ c, c ≠ 58) scheme
  ∧ bool_decide (scheme ≠ lit "https") && bool_decide (scheme ≠ lit "http") = false.
Proof. intros [-> | ->]; split_and!; by repeat constructor. Qed.

(** A canonical URL is read as itself when trimming does not change it. *)
Lemma normalize_url_again url subject :
  canonical_url url subject → trim url = url → normalize_url url = Ok (url, subject).
Proof.
  intros [(scheme & port & c & rest & Hurl & Hweb & Hport & Hc & Hall) Hsubject] Htrim.
  destruct (subject_parse_chars _ _ Hsubject) as [Hchars Hne].
  destruct (web_scheme_facts _ Hweb) as (Hlower & Hcolon & Hknown).
  pose proof (port_suffix_chars scheme port Hport) as Hsuffix.
  set (authority := subject ++ port_suffix scheme port) in *.
  assert (url = scheme ++ lit "://" ++ authority ++ c :: rest) as Hurl'.
  { unfold authority. by rewrite Hurl, <-app_assoc. }
  assert (Forall (λ x, is_authority_char x = true ∧ x ≠ 32 ∧ x ≠ 64) authority) as Hauth.
  { apply Forall_app. split; (eapply Forall_impl; [eassumption|]); cbn; unfold is_authority_char.
    - intros x Hx%subject_char_range. rewrite negb_true_iff, !orb_false_iff, !Z.eqb_neq. lia.
    - intros x Hx. rewrite negb_true_iff, !orb_false_iff, !Z.eqb_neq. lia. }
  assert (is_authority_char c = false) as Hend.
  { unfold is_authority_char. destruct Hc as [-> | ->]; done. }
  assert (url_scheme url = Ok (scheme, authority ++ c :: rest)) as Hscheme.
  { unfold url_scheme, invalid_input_if. rewrite Hurl'. change (lit "://") with (58 :: [47; 47]).
    rewrite split_once_first by done. cbn [ok_or]. rewrite bind_ret_l. cbn [fst snd].
    rewrite Hlower, Hknown. cbn [reject_if]. rewrite bind_ret_l.
    assert (contains_char 32 (authority ++ c :: rest) = false) as ->.
    { apply contains_char_false, Forall_app. split.
      - eapply Forall_impl; [exact Hauth|]. cbn. naive_solver.
      - eapply Forall_impl; [exact Hall|]. cbn. naive_solver. }
    destruct (authority ++ c :: rest) eqn:E; [by apply app_nil in E as [_ ?]|]. done. }
  unfold normalize_url. rewrite Htrim, Hscheme, bind_ret_l.
  assert (Forall (λ x, is_authority_char x = true) authority) as Hauth'.
  { eapply Forall_impl; [exact Hauth|]. cbn. naive_solver. }
  rewrite take_while_app, drop_while_app by done. cbn [take_while drop_while]. rewrite Hend, app_nil_r.
  assert (contains_char 64 authority = false) as ->.
  { apply contains_char_false. eapply Forall_impl; [exact Hauth|]. cbn. naive_solver. }
  assert (is_empty authority = false) as ->.
  { destruct (is_empty authority) eqn:E; [|done]. apply is_empty_true, app_nil in E as [? _]. done. }
  destruct (split_host_port_again scheme port subject Hne Hchars Hport) as (port' & Hsplit & Hsame).
  unfold invalid_input_if. cbn [reject_if]. rewrite !bind_ret_l. fold authority in Hsplit.
  rewrite Hsplit, bind_ret_l, to_ascii_lowercase_id.
  - unfold map_invalid. rewrite Hsubject. cbn [map_err]. rewrite bind_ret_l, Hsame.
    rewrite path_and_query_again by done. by rewrite Hurl.
  - eapply Forall_impl; [exact Hchars|]. cbn. intros x Hx%subject_char_range. naive_solver.
Qed.

(** * Claims *)

Definition source_text (source : ClaimSource) : rstring :=
  match source with FileSource s | CommitSource s | UrlSource s => s end.

Lemma normalize_source_again source source' :
  normalize_source source = Ok source' → trim (source_text source') = source_text source' →
  normalize_source source' = Ok source'.
Proof.
  intros Hsource Htrim. destruct source as [path|hash|url]; cbn [normalize_source] in Hsource.
  - apply fmap_Ok in Hsource as (path' & -> & Hpath). cbn [source_text normalize_source] in *.
    by rewrite (validate_relative_path_again _ _ _ Hpath Htrim).
  - apply fmap_Ok in Hsource as (hash' & -> & Hhash). cbn [source_text normalize_source] in *.
    by rewrite (validate_commit_hash_again _ _ Hhash).
  - result_inv. match goal with H : normalize_url _ = Ok ?p |- _ => destruct p as [url' subject] end.
    cbn [source_text normalize_source fst] in *. erewrite normalize_url_again; [done| |done].
    by eapply normalize_url_canonical.
Qed.

(** [Claim]'s [Deserialize] accepts what [Claim::try_new] built, unchanged. *)
Definition rereads (c : Claim) : Prop := reread_claim c = Ok c.

Lemma Claim_try_new_rereads id statement subject source c :
  Claim_try_new id statement subject source = Ok c →
  trim (source_text (finding_source c)) = source_text (finding_source c) → rereads c.
Proof.
  unfold Claim_try_new. intros Hnew Htrim. result_inv.
  unfold rereads, reread_claim, Claim_try_new. cbn in *.
  erewrite validate_handoff_id_again by done. rewrite bind_ret_l.
  erewrite validate_statement_again by done. rewrite bind_ret_l.
  erewrite (λ s s' H, proj1 (subject_parse_again s s' H)) by done. rewrite bind_ret_l.
  erewrite normalize_source_again by done. done.
Qed.
