(* ===== verification/HandoffStore.v ===== *)
(** The durable handoff ledger (src/handoff/store.rs): recorded fetches, pending or
    accepted handoffs, shared artifacts with their generations, the migration of
    older schemas, and the read-modify-write every operation runs in.

    The ledger file is absent, or its text as [serde_json::from_str] reads it.
    What serde makes of a value, and of a store, is the parameter [GateJson]; the
    constructor it runs on each claim is [reread_claim]. A lock and a write are
    given by their outcomes here; HandoffLock.v models the lock itself. *)
From S2P Require Export HandoffTypes.
Local Open Scope Z_scope.

Definition SCHEMA_VERSION : Z := 3.

(** * The ledger *)

Record RecordedVia := {
  via_execution_origin : rstring;
  via_session_id : option rstring
}.
Definition via_unrecorded : RecordedVia :=
  {| via_execution_origin := lit "unrecorded"; via_session_id := None |}.

Record FetchRecord := {
  fetch_url : rstring;
  fetch_host : rstring;
  fetch_status : Z;
  fetch_body_digest : rstring;
  fetch_fetched_at : Z;
  fetch_sender : rstring;
  fetch_recorded_via : RecordedVia
}.

Inductive HandoffPhase : Type :=
  | PhasePending (failures : list GateFailure)
  | PhaseAccepted (accepted_at : Z).

Record StoredHandoff := {
  handoff_id : rstring;
  handoff_from_agent : rstring;
  handoff_to_agent : rstring;
  handoff_workspace : rstring;
  handoff_claims : list Claim;
  handoff_phase : HandoffPhase;
  handoff_updated_at : Z;
  handoff_recorded_via : RecordedVia
}.

Record ReadMark := { mark_generation : Z; mark_read_at : Z }.

Record SharedArtifact := {
  artifact_generation : Z;
  artifact_content : rstring;
  artifact_last_writer : rstring;
  artifact_last_written_at : Z;
  artifact_reads : gmap rstring ReadMark
}.

Record GateStore := {
  store_schema_version : Z;
  store_fetches : gmap rstring (gmap rstring FetchRecord);
  store_handoffs : gmap rstring StoredHandoff;
  store_artifacts : gmap rstring SharedArtifact
}.

Definition store_default : GateStore :=
  {| store_schema_version := SCHEMA_VERSION; store_fetches := ∅; store_handoffs := ∅;
     store_artifacts := ∅ |}.

Definition set_fetches m (g : GateStore) : GateStore :=
  {| store_schema_version := store_schema_version g; store_fetches := m;
     store_handoffs := store_handoffs g; store_artifacts := store_artifacts g |}.
Definition set_handoffs m (g : GateStore) : GateStore :=
  {| store_schema_version := store_schema_version g; store_fetches := store_fetches g;
     store_handoffs := m; store_artifacts := store_artifacts g |}.
Definition set_artifacts m (g : GateStore) : GateStore :=
  {| store_schema_version := store_schema_version g; store_fetches := store_fetches g;
     store_handoffs := store_handoffs g; store_artifacts := m |}.

(** * The snapshot a result carries *)

Inductive Snapshot : Type :=
  | ToolSnapshot (action : rstring)
  | ToolRequestSnapshot (action : rstring)
  | FetchSnapshot (record : FetchRecord)
  | MissingHandoffSnapshot (id : rstring)
  | HandoffSnapshot (handoff : StoredHandoff)
  | ArtifactSnapshot (artifact_id : rstring) (artifact : SharedArtifact) (phase : WorkflowState)
  | MissingArtifactSnapshot (artifact_id : rstring)
  | RefusedArtifactSnapshot (artifact_id : rstring).

Abbreviation outcome := (WorkflowResult Snapshot).

(** [handoff_snapshot] and [artifact_snapshot]. *)
Definition handoff_snapshot (handoff : StoredHandoff) : Snapshot := HandoffSnapshot handoff.
Definition artifact_snapshot (id : rstring) (artifact : SharedArtifact) (phase : WorkflowState)
    : Snapshot := ArtifactSnapshot id artifact phase.

(** * Access *)

Definition store_fetch (sender url : rstring) (g : GateStore) : option FetchRecord :=
  by_url ← store_fetches g !! sender ; by_url !! url.

(** [self.fetches.values().map(len).sum()]. *)
Definition count_fetches (m : gmap rstring (gmap rstring FetchRecord)) : Z :=
  foldr Z.add 0 ((λ e, Z.of_nat (size e.2)) <$> map_to_list m).

Definition insert_fetch (record : FetchRecord) (g : GateStore) : handoff_result GateStore :=
  let exists_already := bool_decide (is_Some (store_fetch (fetch_sender record) (fetch_url record) g)) in
  invalid_input_if ((256 <=? count_fetches (store_fetches g)) && negb exists_already)
    (lit "the fetch ledger already holds 256 recorded fetches. Submit or drop a recorded fetch before adding another.") ;;
  let by_url := default ∅ (store_fetches g !! fetch_sender record) in
  Ok (set_fetches (<[fetch_sender record := <[fetch_url record := record]> by_url]>
                     (store_fetches g)) g).

Definition insert_handoff (handoff : StoredHandoff) (g : GateStore) : handoff_result GateStore :=
  invalid_input_if
    ((256 <=? Z.of_nat (size (store_handoffs g)))
     && negb (bool_decide (is_Some (store_handoffs g !! handoff_id handoff))))
    (lit "the handoff ledger already holds 256 handoffs") ;;
  Ok (set_handoffs (<[handoff_id handoff := handoff]> (store_handoffs g)) g).

Definition insert_artifact (id : rstring) (artifact : SharedArtifact) (g : GateStore)
    : handoff_result GateStore :=
  invalid_input_if
    ((64 <=? Z.of_nat (size (store_artifacts g)))
     && negb (bool_decide (is_Some (store_artifacts g !! id))))
    (lit "the shared-artifact ledger already holds 64 artifacts") ;;
  invalid_input_if (MAX_ARTIFACT_BYTES <? len (artifact_content artifact))
    (lit "shared artifact `" ++ id ++ lit "` is " ++ show_Z (len (artifact_content artifact))
       ++ lit " bytes; the maximum is 262144") ;;
  Ok (set_artifacts (<[id := artifact]> (store_artifacts g)) g).

(** * Older schemas *)

(** [value.get(key)] and [object.insert(key, value)]; keys are in order. *)
Definition json_get (key : rstring) (value : json) : option json :=
  match value with
  | JObject entries => snd <$> List.find (λ e, bool_decide (e.1 = key)) entries
  | _ => None
  end.
Definition json_str (value : json) : option rstring :=
  match value with JString s => Some s | _ => None end.
(** [as_u64]: an integer literal within range. *)
Definition json_u64 (value : json) : option Z :=
  match value with
  | JNumber text => n ← digits_value text ; if n <=? u64_max then Some n else None
  | _ => None
  end.

Fixpoint entries_insert (key : rstring) (value : json) (entries : list (rstring * json))
    : list (rstring * json) :=
  match entries with
  | [] => [(key, value)]
  | (k, v) :: rest =>
      if bool_decide (k = key) then (key, value) :: rest
      else if str_leb key k then (key, value) :: (k, v) :: rest
      else (k, v) :: entries_insert key value rest
  end.

Abbreviation migration := (result rstring).

Definition as_object (message : rstring) (value : json) : migration (list (rstring * json)) :=
  match value with JObject entries => Ok entries | _ => Err message end.

Definition unrecorded_json : json :=
  JObject [(lit "execution_origin", JString (lit "unrecorded")); (lit "session_id", JNull)].

Definition insert_unrecorded (value : json) : migration json :=
  entries ← as_object (lit "record must be a JSON object") value ;
  Ok (JObject (if bool_decide (is_Some (json_get (lit "recorded_via") value)) then entries
               else entries_insert (lit "recorded_via") unrecorded_json entries)).

(** Every record of a section, its key in the error. *)
Fixpoint stamp_entries (what : rstring) (entries : list (rstring * json))
    : migration (list (rstring * json)) :=
  match entries with
  | [] => Ok []
  | (key, record) :: entries =>
      record ← map_err (λ error, what ++ lit " `" ++ key ++ lit "`: " ++ error)
                 (insert_unrecorded record) ;
      entries ← stamp_entries what entries ;
      Ok ((key, record) :: entries)
  end.

Fixpoint stamp_senders (entries : list (rstring * json)) : migration (list (rstring * json)) :=
  match entries with
  | [] => Ok []
  | (key, entry) :: entries =>
      by_url ← as_object (lit "schema 2 fetches for `" ++ key ++ lit "` must be an object") entry ;
      by_url ← stamp_entries (lit "fetch") by_url ;
      entries ← stamp_senders entries ;
      Ok ((key, JObject by_url) :: entries)
  end.

(** [stamp_recorded_via] on the section of an object, if it is there. *)
Definition stamp_recorded_via (key : rstring) (nested_by_url : bool)
    (object : list (rstring * json)) : migration (list (rstring * json)) :=
  match json_get key (JObject object) with
  | None => Ok object
  | Some section =>
      entries ← as_object (lit "ledger section must be an object") section ;
      entries ← (if nested_by_url then stamp_senders entries
                 else stamp_entries (lit "handoff") entries) ;
      Ok (entries_insert key (JObject entries) object)
  end.

Definition migrate_v2_to_v3 (value : json) : migration json :=
  object ← as_object (lit "schema 2 ledger must be a JSON object") value ;
  object ← stamp_recorded_via (lit "fetches") true object ;
  object ← stamp_recorded_via (lit "handoffs") false object ;
  Ok (JObject (entries_insert (lit "schema_version") (JNumber (show_Z SCHEMA_VERSION)) object)).

Definition nonempty (s : option rstring) : option rstring :=
  s ← s ; if is_empty s then None else Some s.

(** The rows of a schema 1 ledger, grouped by sender. *)
Fixpoint group_fetches (nested : list (rstring * json)) (rows : list (rstring * json))
    : migration (list (rstring * json)) :=
  match rows with
  | [] => Ok nested
  | (key, record) :: rows =>
      sender ← ok_or (nonempty (json_get (lit "sender") record ≫= json_str))
        (lit "schema 1 fetch `" ++ key ++ lit "` has no sender") ;
      let url := default key (nonempty (json_get (lit "url") record ≫= json_str)) in
      by_url ← as_object
        (lit "schema 1 fetch for `" ++ sender ++ lit "` could not be grouped by URL")
        (default (JObject []) (json_get sender (JObject nested))) ;
      group_fetches (entries_insert sender (JObject (entries_insert url record by_url)) nested) rows
  end.

Definition migrate_v1_fetches (value : json) : migration json :=
  rows ← as_object (lit "schema 1 fetches must be an object")
    (default (JObject []) (json_get (lit "fetches") value)) ;
  nested ← group_fetches [] rows ;
  object ← as_object (lit "schema 1 ledger must be a JSON object") value ;
  Ok (JObject (entries_insert (lit "fetches") (JObject nested)
                 (entries_insert (lit "schema_version") (JNumber (show_Z 2)) object))).

(** * Loading *)

(** What serde makes of a store's value, before the constructor of a claim runs. *)
Class GateJson := {
  store_json : GateStore → json;
  parse_store : json → result rstring GateStore
}.

Fixpoint reread_claims (claims : list Claim) : handoff_result (list Claim) :=
  match claims with
  | [] => Ok []
  | c :: claims => c ← reread_claim c ; claims ← reread_claims claims ; Ok (c :: claims)
  end.

Definition reread_handoff (h : StoredHandoff) : handoff_result StoredHandoff :=
  claims ← reread_claims (handoff_claims h) ;
  Ok {| handoff_id := handoff_id h; handoff_from_agent := handoff_from_agent h;
        handoff_to_agent := handoff_to_agent h; handoff_workspace := handoff_workspace h;
        handoff_claims := claims; handoff_phase := handoff_phase h;
        handoff_updated_at := handoff_updated_at h;
        handoff_recorded_via := handoff_recorded_via h |}.

(** The claims of every handoff go through their constructor. *)
Fixpoint reread_handoffs (entries : list (rstring * StoredHandoff))
    (read : gmap rstring StoredHandoff) : handoff_result (gmap rstring StoredHandoff) :=
  match entries with
  | [] => Ok read
  | (id, handoff) :: entries =>
      handoff ← reread_handoff handoff ;
      reread_handoffs entries (<[id := handoff]> read)
  end.

Definition reread_store (g : GateStore) : handoff_result GateStore :=
  handoffs ← reread_handoffs (btree_items str_leb (store_handoffs g)) ∅ ;
  Ok (set_handoffs handoffs g).

(** [GateStore::validate]. *)
Definition validate_store (g : GateStore) : handoff_result unit :=
  reject_if (negb (store_schema_version g =? SCHEMA_VERSION))
    (Corrupt (lit "handoff ledger schema is " ++ show_Z (store_schema_version g)
       ++ lit ", this Impulse reads 3")) ;;
  for_each (λ entry : rstring * StoredHandoff,
    reject_if
      (match handoff_phase entry.2 with PhasePending [] => true | _ => false end)
      (Corrupt (lit "handoff `" ++ entry.1 ++ lit "` is pending with no failures")))
    (btree_items str_leb (store_handoffs g)).

(** The ledger file: absent, not readable, or a text and what parsing it gives. *)
Inductive GateFile : Type :=
  | NoFile
  | UnreadableFile (error : rstring)
  | TextFile (value : result rstring json).

(** The value in the current schema; [path] is the file's displayed path. *)
Definition migrate_value (path : rstring) (value : json) : handoff_result json :=
  match json_get (lit "schema_version") value ≫= json_u64 with
  | Some 3 => Ok value
  | Some 2 =>
      map_err (λ error, Corrupt (path
          ++ lit " is a schema 2 handoff ledger and could not be read as schema 3 (" ++ error
          ++ lit "). Delete it, or add recorded_via to each fetch and handoff, then set schema_version to 3."))
        (migrate_v2_to_v3 value)
  | Some 1 =>
      value ← map_err (λ error, Corrupt (path
          ++ lit " is a schema 1 handoff ledger and could not be read as schema 3 (" ++ error
          ++ lit "). Delete it, or rewrite fetches so each record is kept for its sender and URL, then set schema_version to 3."))
        (migrate_v1_fetches value) ;
      map_err (λ error, Corrupt (path
          ++ lit " migrated from schema 1 but could not be stamped as schema 3 (" ++ error
          ++ lit ")."))
        (migrate_v2_to_v3 value)
  | Some other =>
      Err (Corrupt (lit "handoff ledger schema is " ++ show_Z other
        ++ lit "; this Impulse reads schema 3. Delete " ++ path
        ++ lit " or rewrite it as schema 3 with one fetch record per sender and URL and a recorded_via stamp."))
  | None =>
      Err (Corrupt (path
        ++ lit " has no schema_version. This Impulse reads schema 3. Delete the file, or set schema_version to 3 after keying fetches by sender and URL and adding recorded_via."))
  end.

Section store.
Context `{GateJson}.

(** [GateStore::load]. *)
Definition load_store (path : rstring) (file : GateFile) : handoff_result GateStore :=
  match file with
  | NoFile => Ok store_default
  | UnreadableFile error => Err (StoreError (lit "read") error)
  | TextFile parsed =>
      let not_a_ledger error :=
        Corrupt (path ++ lit " is not a handoff ledger (" ++ error ++ lit ")") in
      value ← map_err not_a_ledger parsed ;
      value ← migrate_value path value ;
      raw ← map_err not_a_ledger (parse_store value) ;
      g ← map_err (λ error, not_a_ledger (show_handoff_error error)) (reread_store raw) ;
      validate_store g ;;
      Ok g
  end.

(** The outcomes of the directory, the lock and the write. *)
Record StoreIo := {
  store_directory : result rstring unit;
  store_locked : handoff_result unit;
  store_written : result rstring unit
}.

(** [with_store]: nothing is written unless the body succeeds. *)
Definition with_store {A} (path : rstring) (io : StoreIo)
    (body : GateStore → handoff_result (A * GateStore)) (file : GateFile)
    : handoff_result A * GateFile :=
  let run :=
    map_err (StoreError (lit "create the impulse directory for")) (store_directory io) ;;
    store_locked io ;;
    g ← load_store path file ;
    answer ← body g ;
    map_err (λ error, Corrupt (lit "failed to write " ++ path ++ lit ": " ++ error))
      (store_written io) ;;
    Ok answer in
  match run with
  | Ok (a, g) => (Ok a, TextFile (Ok (store_json g)))
  | Err e => (Err e, file)
  end.
End store.
