(* ===== verification/HandoffGate.v ===== *)
(** The deterministic checks of a findings handoff (src/handoff/gate.rs): a claim
    passes when its source resolves and the subject the source records (a file's
    line, a commit's trailer, a URL's host) is the claim's.

    What the gate sees of the file system and of git is the parameter [GateWorld],
    one snapshot per submit. *)
From S2P Require Export HandoffStore.
Local Open Scope Z_scope.

(** What running git came to; its output as [from_utf8_lossy] reads it. *)
Inductive GitAnswer : Type :=
  | GitOutput (success : bool) (stdout stderr : rstring)
  | GitTimedOut
  | GitFailed (error : rstring).

Class GateWorld := {
  world_canonicalize : rstring → option rstring;
  world_exists : rstring → bool;
  world_is_dir : rstring → bool;
  world_is_file : rstring → bool;
  (** Opening a path without following a link and reading up to so many bytes. *)
  world_read : rstring → Z → result rstring (list Z);
  world_git : rstring → list rstring → GitAnswer;
  (** [DateTime::to_rfc3339]. *)
  show_instant : Z → rstring
}.

Record RecordedFetch := {
  recorded_sender : rstring;
  recorded_host : rstring;
  recorded_status : Z;
  recorded_fetched_at : Z;
  recorded_session_id : option rstring
}.

Record FetchAdmission := {
  gate_now : Z;
  gate_fetch_max_age : Z;
  gate_session_id : option rstring
}.

(** * Failures *)

Definition resolve_failure (claim : Claim) (field fix_text : rstring) : GateFailure :=
  {| failure_target := finding_id claim; failure_check := SourceResolves;
     failure_field := Some field; failure_fix := fix_text |}.

Definition unusable (claim : Claim) (field fix_text : rstring) : GateFailure :=
  {| failure_target := finding_id claim; failure_check := FetchUnusable;
     failure_field := Some field; failure_fix := fix_text |}.

Definition subject_mismatch (claim : Claim) (source_label found : rstring) : option GateFailure :=
  if bool_decide (finding_subject claim = found) then None
  else Some
    {| failure_target := finding_id claim; failure_check := SubjectMatches;
       failure_field := Some (lit "subject");
       failure_fix :=
         lit "claim `" ++ finding_id claim ++ lit "` is about `" ++ finding_subject claim
         ++ lit "` but its source " ++ source_label ++ lit " records subject `" ++ found
         ++ lit "`. Cite a source about `" ++ finding_subject claim
         ++ lit "`, or change the claim subject to `" ++ found
         ++ lit "` if that is what the claim is about." |}.

(** * The subject a text records *)

(** The first line that starts with [prefix] decides, even when what follows is no
    subject key. *)
Fixpoint recorded_subject_in_lines (prefix : rstring) (lines : list rstring) : option rstring :=
  match lines with
  | [] => None
  | line :: lines =>
      match strip_prefix prefix (trim line) with
      | None => recorded_subject_in_lines prefix lines
      | Some rest =>
          match subject_parse (trim rest) with Ok subject => Some subject | Err _ => None end
      end
  end.
Definition recorded_subject_in_text (text prefix : rstring) : option rstring :=
  recorded_subject_in_lines prefix (str_lines text).

Section gate.
Context `{GateWorld}.

Definition read_recorded_subject (path prefix : rstring) : result rstring (option rstring) :=
  buffer ← map_err (λ error, lit "file could not be read: " ++ error)
             (world_read path SUBJECT_SCAN_BYTES) ;
  text ← ok_or (utf8_decode buffer)
    (lit "file is not UTF-8 in its first 64 KiB, so its recorded subject cannot be read") ;
  Ok (recorded_subject_in_text text prefix).

Definition canonicalize_dir (path : rstring) : option rstring :=
  canonical ← world_canonicalize path ;
  if world_is_dir canonical then Some canonical else None.

(** [Path::starts_with]: whole components. *)
Definition path_starts_with (path base : rstring) : bool :=
  bool_decide (take (length (path_components base)) (path_components path) = path_components base).

(** * Files *)

Definition evaluate_file (claim : Claim) (workspace relative : rstring) : option GateFailure :=
  match canonicalize_dir workspace with
  | None =>
      Some (resolve_failure claim (lit "workspace")
        (lit "payload.workspace `" ++ workspace ++ lit "` does not exist, so file `" ++ relative
         ++ lit "` cannot be resolved. Cite a file inside an existing workspace."))
  | Some root =>
      let candidate := path_join root relative in
      if negb (world_exists candidate) then
        Some (resolve_failure claim (lit "path")
          (lit "payload.path `" ++ relative
           ++ lit "` does not exist under the workspace. Cite a file that exists, and put `impulse-subject: "
           ++ finding_subject claim ++ lit "` in it only if the file is about that subject."))
      else
        match world_canonicalize candidate with
        | None =>
            Some (resolve_failure claim (lit "path")
              (lit "payload.path `" ++ relative
               ++ lit "` could not be resolved inside the workspace"))
        | Some canonical =>
            if negb (path_starts_with canonical root) then
              Some (resolve_failure claim (lit "path")
                (lit "payload.path `" ++ relative
                 ++ lit "` resolves outside the workspace. Cite a file inside the workspace."))
            else if negb (world_is_file canonical) then
              Some (resolve_failure claim (lit "path")
                (lit "payload.path `" ++ relative ++ lit "` is not a regular file"))
            else
              match read_recorded_subject canonical FILE_SUBJECT_PREFIX with
              | Ok (Some found) => subject_mismatch claim (lit "file `" ++ relative ++ lit "`") found
              | Ok None =>
                  Some (resolve_failure claim (lit "path")
                    (lit "payload.path `" ++ relative ++ lit "` has no recorded subject in its first "
                     ++ show_Z SUBJECT_SCAN_BYTES ++ lit " bytes. Add a line `"
                     ++ FILE_SUBJECT_PREFIX ++ lit " " ++ finding_subject claim
                     ++ lit "` only if this file is about that subject, or cite a different source."))
              | Err message => Some (resolve_failure claim (lit "path") message)
              end
        end
  end.

(** * Commits *)

(** At most 180 characters of git's complaint. *)
Definition stderr_tail (stderr : rstring) : rstring :=
  let text := trim stderr in
  if is_empty text then lit "git reported no detail"
  else lit "git reported: " ++ take 180 text.

Definition rev_parse (hash : rstring) : list rstring :=
  [lit "rev-parse"; lit "--verify"; lit "--end-of-options"; hash ++ lit "^{commit}"].
Definition log_message (hash : rstring) : list rstring :=
  [lit "log"; lit "-1"; lit "--format=%B"; hash].

(** The message of a commit that exists, or what to tell the sender. *)
Definition commit_message (workspace hash : rstring) : result rstring rstring :=
  match world_git workspace (rev_parse hash) with
  | GitOutput true _ _ =>
      match world_git workspace (log_message hash) with
      | GitOutput true stdout _ => Ok stdout
      | GitOutput false _ stderr =>
          Err (lit "payload.hash `" ++ hash ++ lit "` exists but its message could not be read. "
               ++ stderr_tail stderr)
      | GitTimedOut =>
          Err (lit "payload.hash `" ++ hash
               ++ lit "` message could not be read: git timed out after 30s")
      | GitFailed error =>
          Err (lit "payload.hash `" ++ hash ++ lit "` message could not be read: " ++ error)
      end
  | GitOutput false _ stderr =>
      Err (lit "payload.hash `" ++ hash ++ lit "` does not exist in `" ++ workspace ++ lit "`. "
           ++ stderr_tail stderr ++ lit ". Cite a commit that exists in this workspace.")
  | GitTimedOut =>
      Err (lit "payload.hash `" ++ hash
           ++ lit "` could not be checked because git exceeded 30s. Retry the submit once git responds.")
  | GitFailed error =>
      Err (lit "payload.hash `" ++ hash
           ++ lit "` could not be checked because git failed to start: " ++ error)
  end.

Definition evaluate_commit (claim : Claim) (workspace hash : rstring) : option GateFailure :=
  if negb (is_ok (validate_commit_hash hash)) then
    Some (resolve_failure claim (lit "hash")
      (lit "payload.hash `" ++ hash ++ lit "` must be 7..=40 lowercase hex characters"))
  else
    match canonicalize_dir workspace with
    | None =>
        Some (resolve_failure claim (lit "workspace")
          (lit "payload.workspace `" ++ workspace ++ lit "` does not exist, so commit `" ++ hash
           ++ lit "` cannot be resolved"))
    | Some _ =>
        match commit_message workspace hash with
        | Err message => Some (resolve_failure claim (lit "hash") message)
        | Ok message =>
            match recorded_subject_in_text message COMMIT_SUBJECT_TRAILER with
            | Some found => subject_mismatch claim (lit "commit `" ++ hash ++ lit "`") found
            | None =>
                Some (resolve_failure claim (lit "hash")
                  (lit "payload.hash `" ++ hash ++ lit "` has no `" ++ COMMIT_SUBJECT_TRAILER
                   ++ lit "` trailer. Record the subject in the commit message as `"
                   ++ COMMIT_SUBJECT_TRAILER ++ lit " " ++ finding_subject claim
                   ++ lit "` only if the commit is about that subject."))
            end
        end
    end.

(** * URLs *)

(** Both absent, or both present and equal. *)
Definition sessions_match (recorded current : option rstring) : bool :=
  bool_decide (blank_to_none recorded = blank_to_none current).

Definition session_label (session : option rstring) : rstring :=
  match blank_to_none session with
  | Some session => lit "session `" ++ session ++ lit "`"
  | None => lit "no session"
  end.

(** [num_seconds] truncates toward zero. *)
Definition num_seconds (duration : Z) : Z := Z.quot duration second.

Definition fetch_usability (claim : Claim) (url : rstring) (fetch : RecordedFetch)
    (admission : FetchAdmission) : option GateFailure :=
  if negb ((200 <=? recorded_status fetch) && (recorded_status fetch <? 300)) then
    Some (unusable claim (lit "status")
      (lit "payload.status " ++ show_Z (recorded_status fetch) ++ lit " for `" ++ url
       ++ lit "` is not a 2xx response. Record the fetch again with a status from 200 to 299. The gate does not fetch the URL and does not rewrite the recorded status."))
  else if gate_fetch_max_age admission <=? 0 then
    Some (unusable claim (lit "fetch_max_age")
      (lit "payload.fetch_max_age is " ++ show_Z (num_seconds (gate_fetch_max_age admission))
       ++ lit "s, which does not admit URL evidence. Configure a positive max age and submit again."))
  else if gate_now admission <? recorded_fetched_at fetch then
    Some (unusable claim (lit "fetched_at")
      (lit "payload.fetched_at `" ++ show_instant (recorded_fetched_at fetch) ++ lit "` for `" ++ url
       ++ lit "` is after the gate clock `" ++ show_instant (gate_now admission)
       ++ lit "`. Record the fetch again with a fetched_at at or before the current time. The gate does not rewrite the timestamp."))
  else
    let age := gate_now admission - recorded_fetched_at fetch in
    if gate_fetch_max_age admission <? age then
      Some (unusable claim (lit "fetched_at")
        (lit "payload.fetched_at `" ++ show_instant (recorded_fetched_at fetch) ++ lit "` for `" ++ url
         ++ lit "` is " ++ show_Z (num_seconds age) ++ lit "s old, which is older than the maximum age of "
         ++ show_Z (num_seconds (gate_fetch_max_age admission))
         ++ lit "s. Record a new fetch. The gate does not fetch the URL."))
    else if negb (sessions_match (recorded_session_id fetch) (gate_session_id admission)) then
      Some (unusable claim (lit "session_id")
        (lit "payload.session_id for `" ++ url ++ lit "` was recorded as "
         ++ session_label (recorded_session_id fetch) ++ lit " and this submit is "
         ++ session_label (gate_session_id admission)
         ++ lit ". Record the fetch again in this session. The gate does not copy another session's fetch."))
    else None.

Definition evaluate_url (claim : Claim) (url sender : rstring) (admission : FetchAdmission)
    (fetch_for : rstring → option RecordedFetch) : option GateFailure :=
  match normalize_url url with
  | Err error =>
      Some (resolve_failure claim (lit "url")
        (lit "payload.url `" ++ url ++ lit "` cannot be resolved: " ++ show_handoff_error error))
  | Ok (_, host) =>
      match fetch_for url with
      | None =>
          Some (resolve_failure claim (lit "url")
            (lit "payload.url `" ++ url ++ lit "` has no recorded fetch by `" ++ sender
             ++ lit "`. Call handoff action `record_fetch` with the HTTP status and body digest before submitting this claim."))
      | Some fetch =>
          if bool_decide (recorded_sender fetch ≠ sender) then
            Some (resolve_failure claim (lit "sender")
              (lit "payload.sender `" ++ url ++ lit "` was fetched by `" ++ recorded_sender fetch
               ++ lit "`, not by the handoff sender `" ++ sender
               ++ lit "`. The sender must record the fetch with action `record_fetch` before submitting."))
          else if bool_decide (recorded_host fetch ≠ host) then
            Some (resolve_failure claim (lit "host")
              (lit "payload.host for `" ++ url ++ lit "` is `" ++ recorded_host fetch
               ++ lit "`, which does not match the URL host `" ++ host
               ++ lit "`. Record the fetch again."))
          else
            match fetch_usability claim url fetch admission with
            | Some failure => Some failure
            | None => subject_mismatch claim
                        (lit "URL `" ++ url ++ lit "` (host `" ++ host ++ lit "`)") host
            end
      end
  end.

Definition evaluate_claim (workspace sender : rstring) (admission : FetchAdmission)
    (fetch_for : rstring → option RecordedFetch) (claim : Claim) : option GateFailure :=
  match finding_source claim with
  | FileSource path => evaluate_file claim workspace path
  | CommitSource hash => evaluate_commit claim workspace hash
  | UrlSource url => evaluate_url claim url sender admission fetch_for
  end.

Definition evaluate_claims (claims : list Claim) (workspace sender : rstring)
    (admission : FetchAdmission) (fetch_for : rstring → option RecordedFetch)
    : list GateFailure :=
  omap (evaluate_claim workspace sender admission fetch_for) claims.
End gate.
