(* ===== verification/Handoff.v ===== *)
(** The findings-handoff workflow (src/handoff/mod.rs): [dispatch_for] and its six
    actions. Each action checks its payload, then runs one read-modify-write of the
    ledger; a failed check is a pending result that names the fix, and a request
    error of any step becomes one.

    [HandoffCall] gathers what a caller passes besides the payload. What serde reads
    of a claim's JSON is the parameter [ClaimFields]; its constructor runs after. *)
From S2P Require Export HandoffGate.
Local Open Scope Z_scope.

(** The fields serde reads of a claim, or its message. *)
Class ClaimFields := claim_fields : json → result rstring (rstring * rstring * rstring * ClaimSource).

(** * Reading a payload *)

Definition require_str (payload : json) (field : rstring) : handoff_result rstring :=
  match json_get field payload with
  | Some (JString value) =>
      reject_if (is_empty (trim value))
        (RequestError field (lit "payload." ++ field ++ lit " must be a non-empty string")) ;;
      Ok value
  | Some _ =>
      Err (RequestError field (lit "payload." ++ field ++ lit " must be a non-empty string"))
  | None => Err (RequestError field (lit "payload." ++ field ++ lit " missing"))
  end.

Definition require_status (payload : json) : handoff_result Z :=
  status ← ok_or (json_get (lit "status") payload ≫= json_u64)
    (RequestError (lit "status") (lit "payload.status missing or not an integer")) ;
  reject_if (negb ((100 <=? status) && (status <=? 599)))
    (RequestError (lit "status")
       (lit "payload.status " ++ show_Z status ++ lit " must be an HTTP status from 100 to 599")) ;;
  Ok status.

Definition require_u64 (payload : json) (field : rstring) : handoff_result Z :=
  ok_or (json_get field payload ≫= json_u64)
    (RequestError field (lit "payload." ++ field ++ lit " must be a non-negative integer")).

Definition tag_field {A} (field : rstring) (m : handoff_result A) : handoff_result A :=
  map_err (λ error,
    match error with
    | InvalidInput message | RequestError _ message => RequestError field message
    | other => other
    end) m.

Definition request_failure (field message : rstring) : GateFailure :=
  {| failure_target := field; failure_check := RequestCheck; failure_field := Some field;
     failure_fix := message |}.

Definition pending_request (action : rstring) (failures : list GateFailure)
    : handoff_result outcome :=
  let retry := if is_empty action then lit "submit" else action in
  let named := join_with (lit ", payload.") (omap failure_field failures) in
  workflow_pending (ToolRequestSnapshot action) failures
    {| next_action := retry;
       next_detail := lit "Fix payload." ++ named ++ lit " and call `" ++ retry
                      ++ lit "` again. The gate does not rewrite arguments." |}.

Definition promote_request (action : rstring) (m : handoff_result outcome)
    : handoff_result outcome :=
  match m with
  | Err (RequestError field message) => pending_request action [request_failure field message]
  | other => other
  end.

Definition unknown_action (action : rstring) : handoff_result outcome :=
  let name := if is_empty action then lit "(missing)" else action in
  workflow_pending (ToolSnapshot name)
    [{| failure_target := name; failure_check := RequestCheck; failure_field := Some (lit "action");
        failure_fix := lit "payload.action `" ++ name
          ++ lit "` is unknown. Use one of: record_fetch, submit, status, read, read_shared, write_shared." |}]
    {| next_action := lit "submit";
       next_detail := lit "Call handoff again with action `submit` for a findings report, or `read_shared` / `write_shared` for a shared artifact." |}.

(** What a call brings besides its payload. *)
Record HandoffCall := {
  call_path : rstring;
  call_now : Z;
  call_workspace : option rstring;
  call_admission : AdmissionContext;
  call_io : StoreIo
}.

Definition recorded_via_from (admission : AdmissionContext) : RecordedVia :=
  {| via_execution_origin := admission_execution_origin admission;
     via_session_id := admission_session_id admission |}.

(** The reads before the read-modify-write; its own errors leave the file alone. *)
Definition prepared {A} (m : handoff_result A)
    (k : A → GateFile → handoff_result outcome * GateFile) (file : GateFile)
    : handoff_result outcome * GateFile :=
  match m with Ok a => k a file | Err e => (Err e, file) end.

Section actions.
Context `{Host, GateJson, GateWorld, ClaimFields}.

(** * Recording a fetch *)

Definition fetched_at_of (payload : json) (now : Z) : handoff_result Z :=
  match json_get (lit "fetched_at") payload with
  | None | Some JNull => Ok now
  | Some (JString raw) => tag_field (lit "fetched_at") (parse_rfc3339 raw)
  | Some _ =>
      Err (RequestError (lit "fetched_at")
             (lit "payload.fetched_at must be an RFC 3339 timestamp"))
  end.

Definition fetch_of_payload (payload : json) (call : HandoffCall) : handoff_result FetchRecord :=
  sender ← require_str payload (lit "sender") ;
  sender ← validate_handoff_id (lit "sender") sender ;
  url ← require_str payload (lit "url") ;
  normalized ← tag_field (lit "url") (normalize_url url) ;
  status ← require_status payload ;
  body_digest ← require_str payload (lit "body_digest") ;
  body_digest ← tag_field (lit "body_digest") (parse_digest body_digest) ;
  fetched_at ← fetched_at_of payload (call_now call) ;
  Ok {| fetch_url := normalized.1; fetch_host := normalized.2; fetch_status := status;
        fetch_body_digest := body_digest; fetch_fetched_at := fetched_at;
        fetch_sender := sender; fetch_recorded_via := recorded_via_from (call_admission call) |}.

Definition record_fetch (payload : json) (call : HandoffCall)
    : GateFile → handoff_result outcome * GateFile :=
  prepared (fetch_of_payload payload call) (λ record,
    with_store (call_path call) (call_io call) (λ g,
      g ← insert_fetch record g ;
      Ok (workflow_record (FetchSnapshot record)
            {| next_action := lit "submit";
               next_detail := lit "Fetch of `" ++ fetch_url record ++ lit "` is recorded for `"
                 ++ fetch_sender record
                 ++ lit "`. Submit the handoff with action `submit`." |}, g))).

(** * Submitting a handoff *)

Definition parse_claim (value : json) (index : Z) : result GateFailure Claim :=
  let target :=
    default (lit "claim[" ++ show_Z index ++ lit "]")
      (nonempty (json_get (lit "id") value ≫= json_str)) in
  reject_if (bool_decide (json_get (lit "source") value = None))
    {| failure_target := target; failure_check := SourceResolves;
       failure_field := Some (lit "source");
       failure_fix := lit "claim `" ++ target
         ++ lit "` is missing `source`. Add a source of kind `file` (path), `commit` (hash), or `url` (url). An unsourced claim cannot be handed off." |} ;;
  map_err (λ error,
    {| failure_target := target; failure_check := RequestCheck;
       failure_field := Some (lit "claims");
       failure_fix := lit "payload.claims could not be read (" ++ error
         ++ lit "). Each claim needs id, statement, subject, and a file, commit, or URL source." |})
    (fields ← claim_fields value ;
     let '(id, statement, subject, source) := fields in
     map_err show_handoff_error (Claim_try_new id statement subject source)).

Fixpoint parse_items (index : Z) (items : list json) : list Claim * list GateFailure :=
  match items with
  | [] => ([], [])
  | item :: items =>
      let '(claims, failures) := parse_items (index + 1) items in
      match parse_claim item index with
      | Ok claim => (claim :: claims, failures)
      | Err failure => (claims, failure :: failures)
      end
  end.

Definition parse_claims (value : option json) (handoff_id : rstring)
    : handoff_result (list Claim * list GateFailure) :=
  match value with
  | None =>
      Err (RequestError (lit "claims")
             (lit "payload.claims missing. Each claim needs a subject and a file, commit, or URL source."))
  | Some (JArray items) =>
      if bool_decide (items = []) then
        Ok ([], [{| failure_target := handoff_id; failure_check := ClaimsPresent;
                    failure_field := Some (lit "claims");
                    failure_fix := lit "payload.claims is empty. Add at least one claim; each claim must name a subject and a file, commit, or URL source." |}])
      else
        reject_if (MAX_CLAIMS <? zlen items)
          (RequestError (lit "claims") (lit "payload.claims can carry at most 32 claims")) ;;
        Ok (parse_items 0 items)
  | Some _ => Err (RequestError (lit "claims") (lit "payload.claims must be an array"))
  end.

Definition failure_detail (id : rstring) (failures : list GateFailure) : rstring :=
  lit "Handoff `" ++ id ++ lit "` is pending and was not accepted. Fix "
  ++ show_Z (zlen failures) ++ lit " failure(s) and submit again: "
  ++ join_with (lit " ") (failure_fix <$> failures).

Definition already_accepted (existing : StoredHandoff) : handoff_result outcome :=
  workflow_pending (handoff_snapshot existing)
    [{| failure_target := handoff_id existing; failure_check := AlreadyAccepted;
        failure_field := Some (lit "id");
        failure_fix := lit "payload.id `" ++ handoff_id existing
          ++ lit "` is already accepted and was not replaced. Read it with action `read`." |}]
    {| next_action := lit "read";
       next_detail := lit "Handoff `" ++ handoff_id existing
         ++ lit "` is already accepted. The new submit was refused." |}.

(** What a submit checks before it opens the ledger. *)
Record Submission := {
  submission_id : rstring;
  submission_from : rstring;
  submission_to : rstring;
  submission_workspace : rstring;
  submission_claims : list Claim;
  submission_failures : list GateFailure
}.

Definition submission_of_payload (payload : json) (call : HandoffCall)
    : handoff_result Submission :=
  id ← require_str payload (lit "id") ;
  id ← validate_handoff_id (lit "id") id ;
  from_agent ← require_str payload (lit "from_agent") ;
  from_agent ← validate_handoff_id (lit "from_agent") from_agent ;
  to_agent ← require_str payload (lit "to_agent") ;
  to_agent ← validate_handoff_id (lit "to_agent") to_agent ;
  workspace ← match call_workspace call with
              | Some path => Ok path
              | None =>
                  raw ← require_str payload (lit "workspace") ;
                  tag_field (lit "workspace")
                    (normalize_workspace world_canonicalize world_is_dir raw)
              end ;
  claims ← parse_claims (json_get (lit "claims") payload) id ;
  Ok {| submission_id := id; submission_from := from_agent; submission_to := to_agent;
        submission_workspace := workspace; submission_claims := claims.1;
        submission_failures := claims.2 |}.

(** The fetch the sender recorded of a URL. *)
Definition recorded_fetch (g : GateStore) (sender url : rstring) : option RecordedFetch :=
  record ← store_fetch sender url g ;
  Some {| recorded_sender := fetch_sender record; recorded_host := fetch_host record;
          recorded_status := fetch_status record; recorded_fetched_at := fetch_fetched_at record;
          recorded_session_id := via_session_id (fetch_recorded_via record) |}.

Definition submission_checks (sub : Submission) (call : HandoffCall) (g : GateStore)
    : list GateFailure :=
  submission_failures sub
  ++ evaluate_claims (submission_claims sub) (submission_workspace sub) (submission_from sub)
       {| gate_now := call_now call;
          gate_fetch_max_age := admission_fetch_max_age (call_admission call);
          gate_session_id := admission_session_id (call_admission call) |}
       (recorded_fetch g (submission_from sub)).

Definition submitted_handoff (sub : Submission) (call : HandoffCall) (failures : list GateFailure)
    : StoredHandoff :=
  {| handoff_id := submission_id sub; handoff_from_agent := submission_from sub;
     handoff_to_agent := submission_to sub; handoff_workspace := submission_workspace sub;
     handoff_claims := submission_claims sub;
     handoff_phase := if bool_decide (failures = []) then PhaseAccepted (call_now call)
                      else PhasePending failures;
     handoff_updated_at := call_now call;
     handoff_recorded_via := recorded_via_from (call_admission call) |}.

Definition is_accepted_handoff (h : StoredHandoff) : bool :=
  match handoff_phase h with PhaseAccepted _ => true | PhasePending _ => false end.

Definition submit_to_store (sub : Submission) (call : HandoffCall) (g : GateStore)
    : handoff_result (outcome * GateStore) :=
  let decide_now :=
    let failures := submission_checks sub call g in
    let handoff := submitted_handoff sub call failures in
    g ← insert_handoff handoff g ;
    if bool_decide (failures = []) then
      Ok (workflow_accept (handoff_snapshot handoff)
            {| next_action := lit "read";
               next_detail := lit "Handoff `" ++ submission_id sub ++ lit "` is accepted. `"
                 ++ submission_to sub ++ lit "` may read it with action `read`." |}, g)
    else
      answer ← workflow_pending (handoff_snapshot handoff) failures
        {| next_action := lit "submit";
           next_detail := failure_detail (submission_id sub) failures |} ;
      Ok (answer, g) in
  match store_handoffs g !! submission_id sub with
  | Some existing =>
      if is_accepted_handoff existing then
        answer ← already_accepted existing ; Ok (answer, g)
      else decide_now
  | None => decide_now
  end.

Definition submit (payload : json) (call : HandoffCall)
    : GateFile → handoff_result outcome * GateFile :=
  prepared (submission_of_payload payload call) (λ sub,
    with_store (call_path call) (call_io call) (submit_to_store sub call)).

(** * Looking at a handoff *)

Inductive HandoffView : Type := ViewStatus | ViewRead.

Definition view_handoff (handoff : StoredHandoff) (view : HandoffView) : handoff_result outcome :=
  match handoff_phase handoff with
  | PhaseAccepted _ =>
      Ok (workflow_accept (handoff_snapshot handoff)
            {| next_action := lit "none";
               next_detail := lit "Handoff `" ++ handoff_id handoff
                 ++ lit "` is accepted. No further gate step is required." |})
  | PhasePending failures =>
      reject_if (bool_decide (failures = []))
        (Corrupt (lit "handoff `" ++ handoff_id handoff ++ lit "` is pending with no failures")) ;;
      let detail :=
        match view with
        | ViewRead =>
            lit "Handoff `" ++ handoff_id handoff
            ++ lit "` is pending and must not be treated as delivered. "
            ++ failure_detail (handoff_id handoff) failures
        | ViewStatus => failure_detail (handoff_id handoff) failures
        end in
      workflow_pending (handoff_snapshot handoff) failures
        {| next_action := lit "submit"; next_detail := detail |}
  end.

Definition load_handoff (payload : json) (call : HandoffCall) (view : HandoffView)
    : GateFile → handoff_result outcome * GateFile :=
  prepared (id ← require_str payload (lit "id") ; validate_handoff_id (lit "handoff id") id) (λ id,
    with_store (call_path call) (call_io call) (λ g,
      answer ← match store_handoffs g !! id with
               | None =>
                   workflow_pending (MissingHandoffSnapshot id)
                     [{| failure_target := id; failure_check := HandoffExists;
                         failure_field := Some (lit "id");
                         failure_fix := lit "payload.id `" ++ id
                           ++ lit "` is not stored. Submit it with action `submit`." |}]
                     {| next_action := lit "submit";
                        next_detail := lit "Submit handoff `" ++ id
                          ++ lit "` with action `submit`." |}
               | Some handoff => view_handoff handoff view
               end ;
      Ok (answer, g))).

(** * Shared artifacts *)

Definition artifact_id_of (payload : json) : handoff_result rstring :=
  raw ← require_str payload (lit "artifact_id") ;
  tag_field (lit "artifact_id") (validate_relative_path (lit "artifact_id") raw).

Definition refuse_missing_artifact (artifact_id : rstring) : handoff_result outcome :=
  workflow_pending (MissingArtifactSnapshot artifact_id)
    [{| failure_target := artifact_id; failure_check := ArtifactExists;
        failure_field := Some (lit "artifact_id");
        failure_fix := lit "payload.artifact_id `" ++ artifact_id
          ++ lit "` does not exist. Create it with action `write_shared` and `based_on_generation` 0." |}]
    {| next_action := lit "write_shared";
       next_detail := lit "Create `" ++ artifact_id
         ++ lit "` with action `write_shared` and `based_on_generation` 0." |}.

(** [artifact.reads.insert(reader, ..)]. *)
Definition marked_read (reader : rstring) (now : Z) (artifact : SharedArtifact) : SharedArtifact :=
  {| artifact_generation := artifact_generation artifact;
     artifact_content := artifact_content artifact;
     artifact_last_writer := artifact_last_writer artifact;
     artifact_last_written_at := artifact_last_written_at artifact;
     artifact_reads :=
       <[reader := {| mark_generation := artifact_generation artifact; mark_read_at := now |}]>
         (artifact_reads artifact) |}.

Definition read_shared_in_store (artifact_id reader : rstring) (now : Z) (g : GateStore)
    : handoff_result (outcome * GateStore) :=
  match store_artifacts g !! artifact_id with
  | None => answer ← refuse_missing_artifact artifact_id ; Ok (answer, g)
  | Some artifact =>
      let artifact := marked_read reader now artifact in
      let generation := show_Z (artifact_generation artifact) in
      Ok (workflow_record (artifact_snapshot artifact_id artifact WorkflowRecorded)
            {| next_action := lit "write_shared";
               next_detail := lit "`" ++ reader ++ lit "` read `" ++ artifact_id
                 ++ lit "` at generation " ++ generation
                 ++ lit ". A later write must set `based_on_generation` to " ++ generation
                 ++ lit "." |},
          set_artifacts (<[artifact_id := artifact]> (store_artifacts g)) g)
  end.

Definition read_shared (payload : json) (call : HandoffCall)
    : GateFile → handoff_result outcome * GateFile :=
  prepared
    (artifact_id ← artifact_id_of payload ;
     reader ← require_str payload (lit "reader") ;
     reader ← validate_handoff_id (lit "reader") reader ;
     Ok (artifact_id, reader)) (λ '(artifact_id, reader),
    with_store (call_path call) (call_io call)
      (read_shared_in_store artifact_id reader (call_now call))).

Definition stale_write_failure (artifact_id writer : rstring) (based_on : Z)
    (artifact : SharedArtifact) (now : Z) : GateFailure :=
  let minutes := Z.max 0 (Z.quot (now - artifact_last_written_at artifact) (60 * second)) in
  let minute_label :=
    if minutes =? 1 then lit "1 minute" else show_Z minutes ++ lit " minutes" in
  let read_label :=
    match artifact_reads artifact !! writer with
    | Some mark =>
        lit "`" ++ writer ++ lit "` last read generation " ++ show_Z (mark_generation mark)
        ++ lit " at " ++ show_instant (mark_read_at mark)
    | None => lit "`" ++ writer ++ lit "` has no recorded read of this artifact"
    end in
  {| failure_target := artifact_id; failure_check := StaleRead;
     failure_field := Some (lit "based_on_generation");
     failure_fix :=
       lit "refusing write of `" ++ artifact_id ++ lit "` by `" ++ writer
       ++ lit "`: this write is based on generation " ++ show_Z based_on ++ lit ", and "
       ++ read_label ++ lit ". `" ++ artifact_last_writer artifact ++ lit "` wrote generation "
       ++ show_Z (artifact_generation artifact) ++ lit " at "
       ++ show_instant (artifact_last_written_at artifact) ++ lit " (" ++ minute_label
       ++ lit " before this write). Re-read `" ++ artifact_id
       ++ lit "` and write against generation " ++ show_Z (artifact_generation artifact)
       ++ lit "." |}.

Definition read_next_step (artifact_id : rstring) (generation : Z) : NextStep :=
  {| next_action := lit "read_shared";
     next_detail := lit "Re-read `" ++ artifact_id
       ++ lit "` with action `read_shared`. The current generation is " ++ show_Z generation
       ++ lit ". Then call `write_shared` with `based_on_generation` " ++ show_Z generation
       ++ lit "." |}.

Definition create_artifact (artifact_id writer : rstring) (based_on : Z) (content : rstring)
    (now : Z) (g : GateStore) : handoff_result (outcome * GateStore) :=
  if negb (based_on =? 0) then
    answer ← workflow_pending (MissingArtifactSnapshot artifact_id)
      [{| failure_target := artifact_id; failure_check := StaleRead;
          failure_field := Some (lit "based_on_generation");
          failure_fix := lit "payload.based_on_generation " ++ show_Z based_on
            ++ lit " is stale because shared artifact `" ++ artifact_id
            ++ lit "` does not exist. Create it with `based_on_generation` 0." |}]
      {| next_action := lit "write_shared";
         next_detail := lit "Create `" ++ artifact_id ++ lit "` with `based_on_generation` 0." |} ;
    Ok (answer, g)
  else
    let artifact :=
      {| artifact_generation := 1; artifact_content := content; artifact_last_writer := writer;
         artifact_last_written_at := now; artifact_reads := ∅ |} in
    g ← insert_artifact artifact_id artifact g ;
    Ok (workflow_accept (artifact_snapshot artifact_id artifact WorkflowAccepted)
          {| next_action := lit "read_shared";
             next_detail := lit "`" ++ writer ++ lit "` created `" ++ artifact_id
               ++ lit "` at generation 1. Another writer must read that generation before writing." |},
        g).

(** The artifact a write leaves; [saturating_add] of the generation. *)
Definition next_artifact (current : SharedArtifact) (writer content : rstring) (now : Z)
    : SharedArtifact :=
  {| artifact_generation := usize_saturating_add (artifact_generation current) 1;
     artifact_content := content; artifact_last_writer := writer;
     artifact_last_written_at := now; artifact_reads := artifact_reads current |}.

Definition write_shared_in_store (artifact_id writer : rstring) (based_on : Z)
    (content : rstring) (now : Z) (g : GateStore) : handoff_result (outcome * GateStore) :=
  match store_artifacts g !! artifact_id with
  | None => create_artifact artifact_id writer based_on content now g
  | Some current =>
      let read_generation := mark_generation <$> artifact_reads current !! writer in
      let fresh :=
        (based_on =? artifact_generation current)
        && bool_decide (read_generation = Some (artifact_generation current)) in
      if negb fresh then
        answer ← workflow_pending (artifact_snapshot artifact_id current WorkflowPending)
          [stale_write_failure artifact_id writer based_on current now]
          (read_next_step artifact_id (artifact_generation current)) ;
        Ok (answer, g)
      else
        let next := next_artifact current writer content now in
        g ← insert_artifact artifact_id next g ;
        Ok (workflow_accept (artifact_snapshot artifact_id next WorkflowAccepted)
              {| next_action := lit "read_shared";
                 next_detail := lit "`" ++ writer ++ lit "` wrote `" ++ artifact_id
                   ++ lit "` at generation " ++ show_Z (artifact_generation next)
                   ++ lit ". Other writers must re-read before they write." |}, g)
  end.

Definition oversized_artifact (artifact_id content : rstring) : handoff_result outcome :=
  workflow_pending (RefusedArtifactSnapshot artifact_id)
    [{| failure_target := artifact_id; failure_check := RequestCheck;
        failure_field := Some (lit "content");
        failure_fix := lit "payload.content is " ++ show_Z (len content)
          ++ lit " bytes; the maximum is 262144. Shorten the artifact and write again." |}]
    {| next_action := lit "write_shared";
       next_detail := lit "Shorten `content` and call `write_shared` again." |}.

Definition write_shared (payload : json) (call : HandoffCall)
    : GateFile → handoff_result outcome * GateFile :=
  prepared
    (artifact_id ← artifact_id_of payload ;
     writer ← require_str payload (lit "writer") ;
     writer ← validate_handoff_id (lit "writer") writer ;
     based_on ← require_u64 payload (lit "based_on_generation") ;
     content ← ok_or (json_get (lit "content") payload ≫= json_str)
       (RequestError (lit "content") (lit "payload.content missing")) ;
     Ok (artifact_id, writer, based_on, content)) (λ '(artifact_id, writer, based_on, content),
    if MAX_ARTIFACT_BYTES <? len content
    then λ file, (oversized_artifact artifact_id content, file)
    else with_store (call_path call) (call_io call)
           (write_shared_in_store artifact_id writer based_on content (call_now call))).

(** * Dispatch *)

Definition is_json_object (payload : json) : bool :=
  match payload with JObject _ => true | _ => false end.

Definition dispatch_for (action : rstring) (payload : json) (call : HandoffCall) (file : GateFile)
    : handoff_result outcome * GateFile :=
  let '(answer, file) :=
    if negb (is_json_object payload) then
      (pending_request action [request_failure (lit "payload") (lit "payload must be a JSON object")],
       file)
    else if bool_decide (action = lit "record_fetch") then record_fetch payload call file
    else if bool_decide (action = lit "submit") then submit payload call file
    else if bool_decide (action = lit "status") then load_handoff payload call ViewStatus file
    else if bool_decide (action = lit "read") then load_handoff payload call ViewRead file
    else if bool_decide (action = lit "read_shared") then read_shared payload call file
    else if bool_decide (action = lit "write_shared") then write_shared payload call file
    else (unknown_action action, file) in
  (promote_request action answer, file).
End actions.
