(* ===== verification/HandoffGateProps.v ===== *)
(** What a claim that passes the gate stands on (src/handoff/gate.rs): the
    specification [claim_backed], which does not mention failures or messages, and
    the equivalence of the gate's code with it. *)
From S2P Require Export HandoffGate.
Local Open Scope Z_scope.

(** * The specification *)

Section backed.
Context `{GateWorld}.

(** Inside the workspace there is a regular file whose first bytes, read as UTF-8,
    record the subject. *)
Definition file_backed (workspace relative subject : rstring) : Prop :=
  ∃ root canonical buffer text,
    canonicalize_dir workspace = Some root
    ∧ world_exists (path_join root relative) = true
    ∧ world_canonicalize (path_join root relative) = Some canonical
    ∧ path_starts_with canonical root = true
    ∧ world_is_file canonical = true
    ∧ world_read canonical SUBJECT_SCAN_BYTES = Ok buffer
    ∧ utf8_decode buffer = Some text
    ∧ recorded_subject_in_text text FILE_SUBJECT_PREFIX = Some subject.

(** The commit is in the workspace's repository and its message has the trailer. *)
Definition commit_backed (workspace hash subject : rstring) : Prop :=
  ∃ root out err message err',
    canonicalize_dir workspace = Some root
    ∧ is_ok (validate_commit_hash hash) = true
    ∧ world_git workspace (rev_parse hash) = GitOutput true out err
    ∧ world_git workspace (log_message hash) = GitOutput true message err'
    ∧ recorded_subject_in_text message COMMIT_SUBJECT_TRAILER = Some subject.

(** The fetch was a success, made before now and not too long ago, in this session. *)
Definition fetch_admitted (fetch : RecordedFetch) (admission : FetchAdmission) : Prop :=
  200 ≤ recorded_status fetch < 300
  ∧ 0 < gate_fetch_max_age admission
  ∧ 0 ≤ gate_now admission - recorded_fetched_at fetch ≤ gate_fetch_max_age admission
  ∧ blank_to_none (recorded_session_id fetch) = blank_to_none (gate_session_id admission).

(** The sender itself fetched the URL, whose host is the subject. *)
Definition url_backed (url sender subject : rstring) (admission : FetchAdmission)
    (fetch_for : rstring → option RecordedFetch) : Prop :=
  ∃ normalized fetch,
    normalize_url url = Ok (normalized, subject)
    ∧ fetch_for url = Some fetch
    ∧ recorded_sender fetch = sender
    ∧ recorded_host fetch = subject
    ∧ fetch_admitted fetch admission.

Definition claim_backed (workspace sender : rstring) (admission : FetchAdmission)
    (fetch_for : rstring → option RecordedFetch) (claim : Claim) : Prop :=
  match finding_source claim with
  | FileSource path => file_backed workspace path (finding_subject claim)
  | CommitSource hash => commit_backed workspace hash (finding_subject claim)
  | UrlSource url => url_backed url sender (finding_subject claim) admission fetch_for
  end.

(** * The code meets it *)

Lemma subject_mismatch_None claim label found :
  subject_mismatch claim label found = None ↔ found = finding_subject claim.
Proof. unfold subject_mismatch. case_bool_decide; naive_solver. Qed.

Lemma read_recorded_subject_Ok path prefix found :
  read_recorded_subject path prefix = Ok found ↔
  ∃ buffer text, world_read path SUBJECT_SCAN_BYTES = Ok buffer ∧ utf8_decode buffer = Some text
    ∧ recorded_subject_in_text text prefix = found.
Proof.
  unfold read_recorded_subject. split.
  - intros Hread. result_inv. eauto.
  - intros (buffer & text & -> & Htext & <-). cbn [map_err]. rewrite bind_ret_l, Htext. done.
Qed.

Lemma evaluate_file_None claim workspace relative :
  evaluate_file claim workspace relative = None
  ↔ file_backed workspace relative (finding_subject claim).
Proof.
  unfold evaluate_file, file_backed. split.
  - destruct (canonicalize_dir workspace) as [root|]; [|done].
    destruct (world_exists _) eqn:Hexists; cbn [negb]; [|done].
    destruct (world_canonicalize (path_join root relative)) as [canonical|] eqn:Hcan; [|done].
    destruct (path_starts_with canonical root) eqn:Hin; cbn [negb]; [|done].
    destruct (world_is_file canonical) eqn:Hfile; cbn [negb]; [|done].
    destruct (read_recorded_subject _ _) as [[found|]|] eqn:Hread; [|done..].
    rewrite subject_mismatch_None. intros <-.
    apply read_recorded_subject_Ok in Hread as (buffer & text & ? & ? & ?).
    by exists root, canonical, buffer, text.
  - intros (root & canonical & buffer & text & -> & -> & -> & -> & -> & Hread & Htext & Hfound).
    cbn [negb]. erewrite (proj2 (read_recorded_subject_Ok _ _ _)) by eauto.
    by apply subject_mismatch_None.
Qed.

Lemma commit_message_Ok workspace hash message :
  commit_message workspace hash = Ok message ↔
  ∃ out err err', world_git workspace (rev_parse hash) = GitOutput true out err
    ∧ world_git workspace (log_message hash) = GitOutput true message err'.
Proof.
  unfold commit_message. split.
  - destruct (world_git workspace (rev_parse hash)) as [[] out err| |] eqn:Hrev; [|done..].
    destruct (world_git workspace (log_message hash)) as [[] message' err'| |]; [|done..].
    intros [= ->]. eauto.
  - by intros (out & err & err' & -> & ->).
Qed.

Lemma evaluate_commit_None claim workspace hash :
  evaluate_commit claim workspace hash = None
  ↔ commit_backed workspace hash (finding_subject claim).
Proof.
  unfold evaluate_commit, commit_backed. split.
  - destruct (is_ok _) eqn:Hhash; cbn [negb]; [|done].
    destruct (canonicalize_dir workspace) as [root|]; [|done].
    destruct (commit_message workspace hash) as [message|] eqn:Hmessage; [|done].
    destruct (recorded_subject_in_text _ _) as [found|] eqn:Hfound; [|done].
    rewrite subject_mismatch_None. intros <-.
    apply commit_message_Ok in Hmessage as (out & err & err' & ? & ?).
    by exists root, out, err, message, err'.
  - intros (root & out & err & message & err' & -> & -> & Hrev & Hlog & Hfound). cbn [negb].
    rewrite (proj2 (commit_message_Ok _ _ message)) by eauto. rewrite Hfound.
    by apply subject_mismatch_None.
Qed.

Lemma fetch_usability_None claim url fetch admission :
  fetch_usability claim url fetch admission = None ↔ fetch_admitted fetch admission.
Proof.
  unfold fetch_usability, fetch_admitted, sessions_match. cbv zeta.
  repeat match goal with
    | |- (if ?b then Some _ else _) = None ↔ _ =>
        destruct b eqn:?; [split; [done|intros ([] & ? & [] & ?); exfalso]|]
    end; bool_inv; try lia; try done.
  split; [|done]. intros _. repeat split; try lia; done.
Qed.

Lemma evaluate_url_None claim url sender admission fetch_for :
  evaluate_url claim url sender admission fetch_for = None
  ↔ url_backed url sender (finding_subject claim) admission fetch_for.
Proof.
  unfold evaluate_url, url_backed. split.
  - destruct (normalize_url url) as [[normalized host]|]; [|done].
    destruct (fetch_for url) as [fetch|]; [|done].
    case_bool_decide; [done|]. case_bool_decide; [done|].
    destruct (fetch_usability _ _ _ _) eqn:Husable; [done|].
    rewrite subject_mismatch_None. intros ->. apply fetch_usability_None in Husable.
    exists normalized, fetch. split_and!; try done.
  - intros (normalized & fetch & -> & -> & Hsender & Hhost & Hfetch).
    rewrite !bool_decide_eq_false_2 by (intros Hne; by apply Hne).
    rewrite (proj2 (fetch_usability_None _ _ _ _)) by done. by apply subject_mismatch_None.
Qed.

Lemma evaluate_claim_None workspace sender admission fetch_for claim :
  evaluate_claim workspace sender admission fetch_for claim = None
  ↔ claim_backed workspace sender admission fetch_for claim.
Proof.
  unfold evaluate_claim, claim_backed. destruct (finding_source claim);
    [apply evaluate_file_None|apply evaluate_commit_None|apply evaluate_url_None].
Qed.

Lemma evaluate_claims_nil claims workspace sender admission fetch_for :
  evaluate_claims claims workspace sender admission fetch_for = []
  ↔ Forall (claim_backed workspace sender admission fetch_for) claims.
Proof.
  unfold evaluate_claims. induction claims as [|claim claims IH]; cbn [omap list_omap].
  - split; [by constructor|done].
  - rewrite Forall_cons, <-IH, <-evaluate_claim_None.
    destruct (evaluate_claim _ _ _ _ claim); naive_solver.
Qed.
End backed.
