(* ===== verification/HandoffMachine.v ===== *)
(** The ledger as a state machine: the steps [gate_step] a call may take, which say
    nothing of payloads, files or messages, and the facts that hold of every
    [dispatch_for] (src/handoff/mod.rs): it leaves the file alone, or loads it,
    takes one step and writes the result. *)
From S2P Require Export Handoff HandoffGateProps HandoffNormal.
Local Open Scope Z_scope.

(** What is relied on of the JSON of a ledger: it is read back, and it shows its
    schema version. *)
Class GateJsonLaws `{GateJson} : Prop := {
  parse_store_json g : parse_store (store_json g) = Ok g;
  store_json_version g :
    store_schema_version g = SCHEMA_VERSION →
    json_get (lit "schema_version") (store_json g) ≫= json_u64 = Some SCHEMA_VERSION
}.

(** * The machine *)

Definition admission_at (call : HandoffCall) : FetchAdmission :=
  {| gate_now := call_now call;
     gate_fetch_max_age := admission_fetch_max_age (call_admission call);
     gate_session_id := admission_session_id (call_admission call) |}.

Definition set_fetch (record : FetchRecord) (g : GateStore) : GateStore :=
  set_fetches (<[fetch_sender record := <[fetch_url record := record]>
                  (default ∅ (store_fetches g !! fetch_sender record))]> (store_fetches g)) g.
Definition set_handoff (h : StoredHandoff) (g : GateStore) : GateStore :=
  set_handoffs (<[handoff_id h := h]> (store_handoffs g)) g.
Definition set_artifact (id : rstring) (a : SharedArtifact) (g : GateStore) : GateStore :=
  set_artifacts (<[id := a]> (store_artifacts g)) g.

(** A claim that its constructor built. *)
Definition constructed (c : Claim) : Prop :=
  ∃ id statement subject source, Claim_try_new id statement subject source = Ok c.

Definition first_artifact (writer content : rstring) (now : Z) : SharedArtifact :=
  {| artifact_generation := 1; artifact_content := content; artifact_last_writer := writer;
     artifact_last_written_at := now; artifact_reads := ∅ |}.

Section machine.
Context `{GateWorld}.

(** Every claim of an accepted handoff is backed, and there is one. *)
Definition acceptable (call : HandoffCall) (g : GateStore) (h : StoredHandoff) : Prop :=
  handoff_claims h ≠ []
  ∧ Forall (claim_backed (handoff_workspace h) (handoff_from_agent h) (admission_at call)
              (recorded_fetch g (handoff_from_agent h))) (handoff_claims h).

Inductive gate_step (call : HandoffCall) (g : GateStore) : GateStore → Prop :=
  | StayStep : gate_step call g g
  | FetchStep record :
      count_fetches (store_fetches g) < 256
        ∨ is_Some (store_fetch (fetch_sender record) (fetch_url record) g) →
      canonical_url (fetch_url record) (fetch_host record) →
      100 ≤ fetch_status record ≤ 599 →
      gate_step call g (set_fetch record g)
  | SubmitStep h :
      Z.of_nat (size (store_handoffs g)) < 256 ∨ is_Some (store_handoffs g !! handoff_id h) →
      (∀ old, store_handoffs g !! handoff_id h = Some old → is_accepted_handoff old = false) →
      handoff_phase h ≠ PhasePending [] →
      Forall constructed (handoff_claims h) →
      (is_accepted_handoff h = true → acceptable call g h) →
      gate_step call g (set_handoff h g)
  | ReadStep id a reader :
      store_artifacts g !! id = Some a →
      gate_step call g (set_artifact id (marked_read reader (call_now call) a) g)
  | CreateStep id writer content :
      store_artifacts g !! id = None →
      Z.of_nat (size (store_artifacts g)) < 64 →
      len content ≤ MAX_ARTIFACT_BYTES →
      gate_step call g (set_artifact id (first_artifact writer content (call_now call)) g)
  | WriteStep id a writer content :
      store_artifacts g !! id = Some a →
      mark_generation <$> artifact_reads a !! writer = Some (artifact_generation a) →
      len content ≤ MAX_ARTIFACT_BYTES →
      gate_step call g (set_artifact id (next_artifact a writer content (call_now call)) g).
End machine.

(** * Each operation is a step *)

Lemma insert_fetch_Ok record g g' :
  insert_fetch record g = Ok g' ↔
  g' = set_fetch record g
  ∧ (count_fetches (store_fetches g) < 256
     ∨ is_Some (store_fetch (fetch_sender record) (fetch_url record) g)).
Proof.
  unfold insert_fetch, invalid_input_if. split.
  - intros Hins. result_inv. split; [done|].
    match goal with H : _ && _ = false |- _ => apply andb_false_iff in H as [?|?] end; bool_inv; auto.
  - intros [-> Hroom].
    destruct (_ && _) eqn:E; [|done]. bool_inv. destruct Hroom; [lia|done].
Qed.

Lemma insert_handoff_Ok h g g' :
  insert_handoff h g = Ok g' ↔
  g' = set_handoff h g
  ∧ (Z.of_nat (size (store_handoffs g)) < 256 ∨ is_Some (store_handoffs g !! handoff_id h)).
Proof.
  unfold insert_handoff, invalid_input_if. split.
  - intros Hins. result_inv. split; [done|].
    match goal with H : _ && _ = false |- _ => apply andb_false_iff in H as [?|?] end; bool_inv; auto.
  - intros [-> Hroom].
    destruct (_ && _) eqn:E; [|done]. bool_inv. destruct Hroom; [lia|done].
Qed.

Lemma insert_artifact_Ok id a g g' :
  insert_artifact id a g = Ok g' ↔
  g' = set_artifact id a g
  ∧ (Z.of_nat (size (store_artifacts g)) < 64 ∨ is_Some (store_artifacts g !! id))
  ∧ len (artifact_content a) ≤ MAX_ARTIFACT_BYTES.
Proof.
  unfold insert_artifact, invalid_input_if. split.
  - intros Hins. result_inv. split; [done|]. bool_inv. split; [|done].
    match goal with H : _ && _ = false |- _ => apply andb_false_iff in H as [?|?] end; bool_inv; auto.
  - intros (-> & Hroom & Hlen). rewrite (proj2 (Z.ltb_ge _ _) Hlen).
    destruct (_ && _) eqn:E; [|done]. bool_inv. destruct Hroom; [lia|done].
Qed.

(** The file after a call. *)
Lemma with_store_inv `{GateJson} {A} path io (body : GateStore → handoff_result (A * GateStore))
    file answer file' :
  with_store path io body file = (answer, file') →
  (∃ e, answer = Err e ∧ file' = file)
  ∨ ∃ g a g', load_store path file = Ok g ∧ body g = Ok (a, g') ∧ answer = Ok a
              ∧ file' = TextFile (Ok (store_json g')).
Proof.
  unfold with_store. set (run := mbind _ _). destruct run as [[a g']|e] eqn:Hrun; intros [= <- <-].
  - right. unfold run in Hrun. result_inv.
    match goal with H : load_store _ _ = Ok ?g, H' : _ = Ok (a, g') |- _ => by exists g, a, g' end.
  - left. eauto.
Qed.

Section refinement.
Context `{Host, GateJson, GateWorld, ClaimFields}.

Lemma parse_claim_constructed item index c : parse_claim item index = Ok c → constructed c.
Proof.
  unfold parse_claim. intros Hparse. result_inv.
  match goal with H : _ = Ok c |- _ => rename H into Hnew end.
  match goal with H : claim_fields item = Ok ?f |- _ => destruct f as [[[id statement] subject] source] end.
  apply map_err_Ok in Hnew. by exists id, statement, subject, source.
Qed.

Lemma parse_items_constructed index items :
  Forall constructed (parse_items index items).1.
Proof.
  revert index. induction items as [|item items IH]; intros index; [constructor|].
  cbn [parse_items]. specialize (IH (index + 1)).
  destruct (parse_items (index + 1) items) as [claims failures]. cbn [fst] in IH.
  destruct (parse_claim item index) eqn:Hparse; [|done].
  constructor; [by eapply parse_claim_constructed|done].
Qed.

(** Without a failure every item became a claim, in order. *)
Lemma parse_items_all index items claims :
  parse_items index items = (claims, []) →
  Forall2 (λ item c, ∃ i, parse_claim item i = Ok c) items claims.
Proof.
  revert index claims. induction items as [|item items IH]; intros index claims; cbn [parse_items].
  - intros [= <-]. constructor.
  - destruct (parse_items (index + 1) items) as [cs fs] eqn:Hrest.
    destruct (parse_claim item index) as [c|] eqn:Hparse; [|done]. intros [= <- ->].
    constructor; [by eexists|by eapply IH].
Qed.

Lemma parse_claims_Ok value id claims failures :
  parse_claims value id = Ok (claims, failures) →
  Forall constructed claims
  ∧ (failures = [] → ∃ items, value = Some (JArray items) ∧ items ≠ []
       ∧ Forall2 (λ item c, ∃ i, parse_claim item i = Ok c) items claims).
Proof.
  unfold parse_claims. destruct value as [[]|]; try done. case_bool_decide as Hnil.
  - intros [= <- <-]. split; [constructor|done].
  - intros Hparse. result_inv. match goal with H : parse_items 0 _ = _ |- _ => rename H into Hitems end.
    pose proof (parse_items_constructed 0 items) as Hall. rewrite Hitems in Hall. split; [done|].
    intros ->. exists items. by apply parse_items_all in Hitems.
Qed.

Lemma submission_of_payload_Ok payload call sub :
  submission_of_payload payload call = Ok sub →
  Forall constructed (submission_claims sub)
  ∧ (submission_failures sub = [] → submission_claims sub ≠ []).
Proof.
  unfold submission_of_payload. intros Hsub. do 7 (apply bind_Ok in Hsub as (? & _ & Hsub)).
  apply bind_Ok in Hsub as ([claims failures] & Hclaims & Hsub). apply Ok_inj in Hsub as <-.
  apply parse_claims_Ok in Hclaims as [Hall Hitems]. cbn. split; [done|].
  intros (items & _ & Hne & Hforall)%Hitems ->. by apply Forall2_nil_inv_r in Hforall.
Qed.

(** Without a failed item, the claims are the payload's, one for each item. *)
Lemma submission_claims_items payload call sub :
  submission_of_payload payload call = Ok sub → submission_failures sub = [] →
  ∃ items, json_get (lit "claims") payload = Some (JArray items)
    ∧ Forall2 (λ item c, ∃ i, parse_claim item i = Ok c) items (submission_claims sub).
Proof.
  unfold submission_of_payload. intros Hsub. do 7 (apply bind_Ok in Hsub as (? & _ & Hsub)).
  apply bind_Ok in Hsub as ([claims failures] & Hclaims & Hsub). apply Ok_inj in Hsub as <-.
  apply parse_claims_Ok in Hclaims as [_ Hitems]. cbn. intros (items & ? & _ & ?)%Hitems. eauto.
Qed.

Lemma submission_checks_nil sub call g :
  submission_checks sub call g = [] ↔
  submission_failures sub = []
  ∧ Forall (claim_backed (submission_workspace sub) (submission_from sub) (admission_at call)
              (recorded_fetch g (submission_from sub))) (submission_claims sub).
Proof. unfold submission_checks. by rewrite app_nil, evaluate_claims_nil. Qed.

Lemma submitted_handoff_accepted sub call failures :
  is_accepted_handoff (submitted_handoff sub call failures) = true ↔ failures = [].
Proof. unfold is_accepted_handoff. cbn. case_bool_decide; naive_solver. Qed.

(** A submit keeps an accepted handoff, or stores the one it checked. *)
Lemma submit_to_store_Ok sub call g answer g' :
  submit_to_store sub call g = Ok (answer, g') →
  (g' = g ∧ ∃ old, store_handoffs g !! submission_id sub = Some old
                   ∧ is_accepted_handoff old = true ∧ already_accepted old = Ok answer)
  ∨ (let h := submitted_handoff sub call (submission_checks sub call g) in
     insert_handoff h g = Ok g'
     ∧ (∀ old, store_handoffs g !! submission_id sub = Some old → is_accepted_handoff old = false)
     ∧ workflow_snapshot answer = HandoffSnapshot h
     ∧ workflow_failures answer = submission_checks sub call g).
Proof.
  unfold submit_to_store. set (decide_now := mbind _ _). cbv zeta. intros Hsubmit.
  assert (decide_now = Ok (answer, g') →
    insert_handoff (submitted_handoff sub call (submission_checks sub call g)) g = Ok g'
    ∧ workflow_snapshot answer = HandoffSnapshot (submitted_handoff sub call (submission_checks sub call g))
    ∧ workflow_failures answer = submission_checks sub call g) as Hdecide.
  { unfold decide_now. intros Hd. apply bind_Ok in Hd as (g1 & Hins & Hd). rewrite Hins.
    case_bool_decide as Hnil.
    - simplify_eq. by rewrite Hnil.
    - unfold workflow_pending, invalid_input_if in Hd. result_inv. simplify_eq. done. }
  destruct (store_handoffs g !! submission_id sub) as [old|]; [|naive_solver].
  destruct (is_accepted_handoff old) eqn:Haccepted; [|naive_solver].
  left. result_inv. naive_solver.
Qed.

Lemma submit_steps payload call sub g answer g' :
  submission_of_payload payload call = Ok sub →
  submit_to_store sub call g = Ok (answer, g') → gate_step call g g'.
Proof.
  intros [Hall Hne]%submission_of_payload_Ok Hsubmit.
  apply submit_to_store_Ok in Hsubmit as [[-> _]|(Hins & Hold & _)]; [constructor|].
  apply insert_handoff_Ok in Hins as [-> Hroom]. apply SubmitStep; try done.
  - cbn. case_bool_decide; naive_solver.
  - rewrite submitted_handoff_accepted, submission_checks_nil. intros [Hnil Hbacked].
    split; [by apply Hne|done].
Qed.

Lemma fetch_of_payload_Ok payload call record :
  fetch_of_payload payload call = Ok record →
  canonical_url (fetch_url record) (fetch_host record) ∧ 100 ≤ fetch_status record ≤ 599.
Proof.
  unfold fetch_of_payload, tag_field, require_status. intros Hfetch. result_inv. cbn.
  match goal with H : normalize_url _ = Ok ?p |- _ => destruct p; apply normalize_url_canonical in H end.
  bool_inv. done.
Qed.

Lemma read_shared_steps id reader call g answer g' :
  read_shared_in_store id reader (call_now call) g = Ok (answer, g') → gate_step call g g'.
Proof.
  unfold read_shared_in_store. destruct (store_artifacts g !! id) as [a|] eqn:Ha.
  - intros [= _ <-]. by apply ReadStep.
  - intros Hread. result_inv. simplify_eq. constructor.
Qed.

Lemma write_shared_steps id writer based_on content call g answer g' :
  write_shared_in_store id writer based_on content (call_now call) g = Ok (answer, g') →
  gate_step call g g'.
Proof.
  unfold write_shared_in_store. destruct (store_artifacts g !! id) as [a|] eqn:Ha.
  - destruct (negb _) eqn:Hfresh; intros Hwrite; result_inv; simplify_eq; [constructor|].
    match goal with H : insert_artifact _ _ _ = Ok _ |- _ => apply insert_artifact_Ok in H as (-> & _ & Hlen) end.
    bool_inv. by apply WriteStep.
  - unfold create_artifact. case_match; intros Hcreate; result_inv; simplify_eq; [constructor|].
    match goal with H : insert_artifact _ _ _ = Ok _ |- _ => apply insert_artifact_Ok in H as (-> & Hroom & Hlen) end.
    apply CreateStep; [done| |done]. rewrite Ha in Hroom. by destruct Hroom as [|[? ?]].
Qed.
End refinement.
