(* ===== verification/HandoffFacts.v ===== *)
(** Facts about the ledger of src/handoff/store.rs: what a load gives of the file a
    call wrote, the well-formedness every step keeps, and the runs of calls. *)
From S2P Require Export HandoffMachine.
Local Open Scope Z_scope.

(** * Reading handoffs again *)

Lemma reread_claims_Ok l k :
  reread_claims l = Ok k ↔ Forall2 (λ c c', reread_claim c = Ok c') l k.
Proof.
  revert k. induction l as [|c l IH]; intros k; cbn [reread_claims].
  - split; [intros [= <-]; constructor|]. by intros ->%Forall2_nil_inv_l.
  - split.
    + intros Hk. result_inv. constructor; [done|by apply IH].
    + intros (c' & k' & Hc & Hk & ->)%Forall2_cons_inv_l. apply IH in Hk. by rewrite Hc, bind_ret_l, Hk.
Qed.

Lemma reread_handoff_spec h h' :
  reread_handoff h = Ok h' ↔
  Forall2 (λ c c', reread_claim c = Ok c') (handoff_claims h) (handoff_claims h')
  ∧ handoff_id h' = handoff_id h ∧ handoff_from_agent h' = handoff_from_agent h
  ∧ handoff_to_agent h' = handoff_to_agent h ∧ handoff_workspace h' = handoff_workspace h
  ∧ handoff_phase h' = handoff_phase h ∧ handoff_updated_at h' = handoff_updated_at h
  ∧ handoff_recorded_via h' = handoff_recorded_via h.
Proof.
  unfold reread_handoff.
  destruct h as [id from to ws claims phase updated via], h' as [id' from' to' ws' claims' phase' updated' via'].
  cbn. split.
  - intros Hh. apply bind_Ok in Hh as (k & Hk & Hh). simplify_eq. apply reread_claims_Ok in Hk. by split_and!.
  - intros (Hk & -> & -> & -> & -> & -> & -> & ->). apply reread_claims_Ok in Hk. by rewrite Hk.
Qed.

Lemma reread_handoffs_lookup entries read m id h' :
  NoDup entries.*1 → (∀ id h, (id, h) ∈ entries → read !! id = None) →
  reread_handoffs entries read = Ok m →
  m !! id = Some h' ↔
  read !! id = Some h' ∨ ∃ h, (id, h) ∈ entries ∧ reread_handoff h = Ok h'.
Proof.
  revert read. induction entries as [|[key h] entries IH]; intros read Hdup Hfresh; cbn [reread_handoffs].
  - intros [= <-]. split; [by left|]. intros [?|(? & ?%elem_of_nil & _)]; done.
  - cbn in Hdup. apply NoDup_cons in Hdup as [Hkey Hdup]. intros Hread.
    apply bind_Ok in Hread as (h1 & Hh1 & Hread).
    rewrite (IH (<[key:=h1]> read)); [|done| |done].
    + destruct (decide (id = key)) as [->|Hne].
      * rewrite lookup_insert_eq, (Hfresh key h) by constructor. split.
        -- intros [[= ->]|(h2 & Hin & _)]; [right; exists h; split; [constructor|done]|].
           destruct Hkey. by apply (list_elem_of_fmap_2 fst) in Hin.
        -- intros [?|(h2 & [[= ->]|Hin]%elem_of_cons & Hh2)]; [done|left; congruence|].
           destruct Hkey. by apply (list_elem_of_fmap_2 fst) in Hin.
      * rewrite lookup_insert_ne by done. setoid_rewrite elem_of_cons. naive_solver.
    + intros id' h2 Hin. rewrite lookup_insert_ne; [eapply Hfresh; by right|].
      intros <-. destruct Hkey. by apply (list_elem_of_fmap_2 fst) in Hin.
Qed.

Lemma reread_handoffs_is_Ok entries read :
  (∀ id h, (id, h) ∈ entries → ∃ h', reread_handoff h = Ok h') →
  ∃ m, reread_handoffs entries read = Ok m.
Proof.
  revert read. induction entries as [|[key h] entries IH]; intros read Hall; cbn [reread_handoffs]; [eauto|].
  destruct (Hall key h) as [h1 ->]; [constructor|]. rewrite bind_ret_l. apply IH.
  intros id h2 Hin. eapply Hall. by right.
Qed.

Lemma btree_items_NoDup {V} (m : gmap rstring V) : NoDup (btree_items str_leb m).*1.
Proof. rewrite btree_items_perm. apply NoDup_fst_map_to_list. Qed.

(** [reread_store] applies the constructor to every claim, and changes nothing else. *)
Lemma reread_store_lookup g g' id h' :
  reread_store g = Ok g' →
  store_handoffs g' !! id = Some h' ↔
  ∃ h, store_handoffs g !! id = Some h ∧ reread_handoff h = Ok h'.
Proof.
  unfold reread_store. intros Hread. apply bind_Ok in Hread as (m & Hm & Hread).
  apply Ok_inj in Hread as <-. cbn.
  erewrite reread_handoffs_lookup; [|by apply btree_items_NoDup|by intros; apply lookup_empty|exact Hm].
  rewrite lookup_empty. setoid_rewrite elem_of_btree_items. naive_solver.
Qed.

Lemma reread_handoffs_all entries read m id h :
  reread_handoffs entries read = Ok m → (id, h) ∈ entries → ∃ h', reread_handoff h = Ok h'.
Proof.
  revert read. induction entries as [|[key h0] entries IH]; intros read; cbn [reread_handoffs].
  - by intros _ ?%elem_of_nil.
  - intros (h1 & Hh1 & Hrest)%bind_Ok [[= -> ->]|Hin]%elem_of_cons; [by exists h1|by eapply IH].
Qed.

(** A ledger that is read again is read whole. *)
Lemma reread_store_keeps g g' id h :
  reread_store g = Ok g' → store_handoffs g !! id = Some h →
  ∃ h', store_handoffs g' !! id = Some h' ∧ reread_handoff h = Ok h'.
Proof.
  intros Hread Hh. pose proof Hread as Hall. unfold reread_store in Hall.
  apply bind_Ok in Hall as (m & Hm & _).
  destruct (reread_handoffs_all _ _ _ id h Hm) as [h' Hh']; [by apply elem_of_btree_items|].
  exists h'. split; [|done]. apply (reread_store_lookup _ _ _ _ Hread). by exists h.
Qed.

(** A ledger whose claims their constructor gives back unchanged is read as it is. *)
Definition stable_claims (g : GateStore) : Prop :=
  map_Forall (λ _ h, Forall rereads (handoff_claims h)) (store_handoffs g).

Lemma stable_reread_handoff h : Forall rereads (handoff_claims h) → reread_handoff h = Ok h.
Proof.
  intros Hall. apply reread_handoff_spec. split_and!; try done.
  induction Hall; by constructor.
Qed.

Lemma stable_reread g : stable_claims g → reread_store g = Ok g.
Proof.
  intros Hstable. destruct (reread_handoffs_is_Ok (btree_items str_leb (store_handoffs g)) ∅) as [m Hm].
  { intros id h Hin%elem_of_btree_items. exists h. by eapply stable_reread_handoff, Hstable. }
  assert (reread_store g = Ok (set_handoffs m g)) as Hread by (unfold reread_store; by rewrite Hm).
  rewrite Hread. f_equal. destruct g as [version fetches handoffs artifacts]. cbn in *.
  unfold set_handoffs. cbn. f_equal. apply map_eq. intros id. apply option_eq. intros h'.
  pose proof (reread_store_lookup _ _ id h' Hread) as Hlookup. cbn in Hlookup. rewrite Hlookup.
  split.
  - intros (h & Hh & Hrh). pose proof Hh as Hsame. apply Hstable, stable_reread_handoff in Hh.
    congruence.
  - intros Hh. exists h'. split; [done|]. by eapply stable_reread_handoff, Hstable.
Qed.

(** * Well-formed ledgers *)

Definition fetch_ok (sender url : rstring) (r : FetchRecord) : Prop :=
  fetch_sender r = sender ∧ fetch_url r = url ∧ canonical_url url (fetch_host r)
  ∧ 100 ≤ fetch_status r ≤ 599.

Definition handoff_ok (id : rstring) (h : StoredHandoff) : Prop :=
  handoff_id h = id ∧ handoff_phase h ≠ PhasePending []
  ∧ Forall constructed (handoff_claims h)
  ∧ (is_accepted_handoff h = true → handoff_claims h ≠ []).

Definition artifact_ok (a : SharedArtifact) : Prop :=
  1 ≤ artifact_generation a ≤ u64_max
  ∧ len (artifact_content a) ≤ MAX_ARTIFACT_BYTES
  ∧ map_Forall (λ _ mark, 1 ≤ mark_generation mark ≤ artifact_generation a) (artifact_reads a).

Record ledger_ok (g : GateStore) : Prop := {
  lo_version : store_schema_version g = SCHEMA_VERSION;
  lo_fetches : map_Forall (λ sender, map_Forall (fetch_ok sender)) (store_fetches g);
  lo_fetch_count : count_fetches (store_fetches g) ≤ 256;
  lo_handoffs : map_Forall handoff_ok (store_handoffs g);
  lo_handoff_count : Z.of_nat (size (store_handoffs g)) ≤ 256;
  lo_artifacts : map_Forall (λ _, artifact_ok) (store_artifacts g);
  lo_artifact_count : Z.of_nat (size (store_artifacts g)) ≤ 64
}.

Lemma ledger_ok_default : ledger_ok store_default.
Proof. split; try done; apply map_Forall_empty. Qed.

(** ** Counting *)

Lemma size_insert_bound {V} (m : gmap rstring V) k v bound :
  Z.of_nat (size m) ≤ bound → Z.of_nat (size m) < bound ∨ is_Some (m !! k) →
  Z.of_nat (size (<[k := v]> m)) ≤ bound.
Proof.
  intros Hle Hroom. destruct (m !! k) as [old|] eqn:Hk.
  - rewrite map_size_insert_Some by done. done.
  - rewrite map_size_insert_None by done. destruct Hroom as [|[? ?]]; [lia|done].
Qed.

Lemma count_fetches_perm (m : gmap rstring (gmap rstring FetchRecord)) l :
  map_to_list m ≡ₚ l →
  count_fetches m = foldr Z.add 0 ((λ e, Z.of_nat (size e.2)) <$> l).
Proof.
  unfold count_fetches. generalize (map_to_list m). clear m. intros k. induction 1; cbn; lia.
Qed.

Lemma count_fetches_insert_new m sender by_url :
  m !! sender = None →
  count_fetches (<[sender := by_url]> m) = Z.of_nat (size by_url) + count_fetches m.
Proof.
  intros Hnew. rewrite (count_fetches_perm _ ((sender, by_url) :: map_to_list m)); [done|].
  by apply map_to_list_insert.
Qed.

Lemma count_fetches_delete m sender by_url :
  m !! sender = Some by_url →
  count_fetches m = Z.of_nat (size by_url) + count_fetches (delete sender m).
Proof.
  intros Hold. rewrite <-(insert_delete_id m sender by_url Hold) at 1.
  by rewrite count_fetches_insert_new by apply lookup_delete_eq.
Qed.

Lemma count_fetches_insert m sender by_url :
  count_fetches (<[sender := by_url]> m)
  = Z.of_nat (size by_url) - Z.of_nat (size (default ∅ (m !! sender))) + count_fetches m.
Proof.
  destruct (m !! sender) as [old|] eqn:Hold; cbn [from_option id].
  - rewrite <-insert_delete_eq, count_fetches_insert_new by apply lookup_delete_eq.
    rewrite (count_fetches_delete m sender old Hold). lia.
  - rewrite count_fetches_insert_new by done. rewrite map_size_empty. lia.
Qed.

Lemma count_fetches_set record g :
  count_fetches (store_fetches g) ≤ 256 →
  count_fetches (store_fetches g) < 256
    ∨ is_Some (store_fetch (fetch_sender record) (fetch_url record) g) →
  count_fetches (store_fetches (set_fetch record g)) ≤ 256.
Proof.
  intros Hle Hroom. cbn [set_fetch set_fetches store_fetches]. rewrite count_fetches_insert.
  unfold store_fetch in Hroom.
  destruct (store_fetches g !! fetch_sender record) as [by_url|] eqn:Hsender; cbn [from_option id].
  - destruct (by_url !! fetch_url record) as [old|] eqn:Hurl.
    + rewrite map_size_insert_Some by done. lia.
    + rewrite map_size_insert_None by done. destruct Hroom as [|[? Hsome]]; [lia|].
      cbn in Hsome. congruence.
  - rewrite map_size_insert_None by apply lookup_empty.
    destruct Hroom as [|[? Hsome]]; [lia|]. done.
Qed.

(** ** Steps keep it *)

Lemma artifact_ok_read a reader now : artifact_ok a → artifact_ok (marked_read reader now a).
Proof.
  intros (Hgen & Hlen & Hreads). split_and!; [apply Hgen..|done|].
  cbn. apply map_Forall_insert_2; [cbn; lia|done].
Qed.

Lemma artifact_ok_next a writer content now :
  artifact_ok a → len content ≤ MAX_ARTIFACT_BYTES → artifact_ok (next_artifact a writer content now).
Proof.
  intros (Hgen & _ & Hreads) Hlen. unfold artifact_ok. cbn [next_artifact artifact_generation
    artifact_content artifact_reads]. unfold usize_saturating_add.
  split_and!; [lia|lia|done|]. eapply map_Forall_impl; [exact Hreads|]. cbn. lia.
Qed.

Lemma ledger_ok_set_artifact id a g :
  ledger_ok g → artifact_ok a →
  Z.of_nat (size (store_artifacts g)) < 64 ∨ is_Some (store_artifacts g !! id) →
  ledger_ok (set_artifact id a g).
Proof.
  intros [] Ha Hroom. split; cbn; try done.
  - by apply map_Forall_insert_2.
  - by apply size_insert_bound.
Qed.

Section steps.
Context `{GateWorld}.

Lemma gate_step_version call g g' :
  gate_step call g g' → store_schema_version g' = store_schema_version g.
Proof. by destruct 1. Qed.

Lemma gate_step_ok call g g' : gate_step call g g' → ledger_ok g → ledger_ok g'.
Proof.
  intros Hstep Hok. destruct Hstep as [|record Hroom Hurl Hstatus|h Hroom _ Hphase Hclaims Haccept
    |id a reader Ha|id writer content _ Hroom Hlen|id a writer content Ha _ Hlen].
  - done.
  - pose proof (count_fetches_set record g (lo_fetch_count _ Hok) Hroom) as Hcount.
    destruct Hok. split; try done. cbn. apply map_Forall_insert_2; [|done].
    apply map_Forall_insert_2; [done|].
    destruct (store_fetches g !! fetch_sender record) as [by_url|] eqn:Hsender;
      [by apply (lo_fetches0 _ _ Hsender)|apply map_Forall_empty].
  - destruct Hok. split; try done; cbn.
    + apply map_Forall_insert_2; [|done]. unfold handoff_ok. split_and!; try done.
      intros Hacc. by apply Haccept.
    + by apply size_insert_bound.
  - apply ledger_ok_set_artifact; [done| |eauto].
    apply artifact_ok_read. by apply (lo_artifacts _ Hok id).
  - apply ledger_ok_set_artifact; [done| |by left].
    split_and!; [done..|]. apply map_Forall_empty.
  - apply ledger_ok_set_artifact; [done| |eauto].
    apply artifact_ok_next; [by apply (lo_artifacts _ Hok id)|done].
Qed.
End steps.

(** ** Loading keeps it *)

Lemma reread_constructed c c' : reread_claim c = Ok c' → constructed c'.
Proof. unfold reread_claim, constructed. eauto. Qed.

Lemma reread_handoff_constructed h h' :
  reread_handoff h = Ok h' → Forall constructed (handoff_claims h').
Proof.
  intros (Hclaims & _)%reread_handoff_spec.
  induction Hclaims; constructor; [by eapply reread_constructed|done].
Qed.

(** A source without white space around it. *)
Definition unpadded (source : ClaimSource) : Prop := trim (source_text source) = source_text source.

(** Reading a claim again leaves what it says, and its source unless that has white
    space around it. *)
Definition claim_settles (c c' : Claim) : Prop :=
  finding_id c' = finding_id c ∧ finding_statement c' = finding_statement c
  ∧ finding_subject c' = finding_subject c
  ∧ rtc (λ source source', normalize_source source = Ok source') (finding_source c) (finding_source c')
  ∧ (unpadded (finding_source c) → finding_source c' = finding_source c).

#[export] Instance claim_settles_refl : Reflexive claim_settles.
Proof. by repeat split. Qed.

Lemma reread_claim_settles c c' c'' :
  claim_settles c c' → constructed c' → reread_claim c' = Ok c'' → claim_settles c c''.
Proof.
  intros (Hid & Hstatement & Hsubject & Hsource & Hsame) (id & statement & subject & source & Hnew) Hread.
  pose proof Hnew as Hparts. unfold Claim_try_new in Hparts. result_inv.
  cbn in Hid, Hstatement, Hsubject, Hsource, Hsame.
  unfold claim_settles. rewrite <- Hid, <- Hstatement, <- Hsubject.
  pose proof Hread as Hagain. unfold reread_claim, Claim_try_new in Hagain. cbn in Hagain.
  erewrite validate_handoff_id_again in Hagain by done. rewrite bind_ret_l in Hagain.
  erewrite validate_statement_again in Hagain by done. rewrite bind_ret_l in Hagain.
  erewrite (λ s s' H, proj1 (subject_parse_again s s' H)) in Hagain by done. rewrite bind_ret_l in Hagain.
  apply bind_Ok in Hagain as (source'' & Hsource'' & Hagain). apply Ok_inj in Hagain as <-. cbn.
  split_and!; try done.
  - by eapply rtc_r.
  - intros Hpath. rewrite <- (Hsame Hpath) in Hpath |- *.
    pose proof (Claim_try_new_rereads _ _ _ _ _ Hnew Hpath) as Hstable. unfold rereads in Hstable.
    rewrite Hstable in Hread. by injection Hread.
Qed.

(** Everything but the sources of its claims stays when a handoff is read again. *)
Record handoff_settles (h h' : StoredHandoff) : Prop := {
  hs_id : handoff_id h' = handoff_id h;
  hs_from : handoff_from_agent h' = handoff_from_agent h;
  hs_to : handoff_to_agent h' = handoff_to_agent h;
  hs_workspace : handoff_workspace h' = handoff_workspace h;
  hs_phase : handoff_phase h' = handoff_phase h;
  hs_updated_at : handoff_updated_at h' = handoff_updated_at h;
  hs_recorded_via : handoff_recorded_via h' = handoff_recorded_via h;
  hs_claims : Forall2 claim_settles (handoff_claims h) (handoff_claims h')
}.

Lemma handoff_settles_refl h : handoff_settles h h.
Proof. by split. Qed.

Lemma reread_handoff_settles h h' h'' :
  handoff_settles h h' → Forall constructed (handoff_claims h') → reread_handoff h' = Ok h'' →
  handoff_settles h h''.
Proof.
  intros [] Hbuilt (Hclaims & ? & ? & ? & ? & ? & ? & ?)%reread_handoff_spec.
  split; try congruence. clear -hs_claims0 Hbuilt Hclaims. revert Hbuilt Hclaims.
  generalize (handoff_claims h''). induction hs_claims0 as [|c c' l l' Hc _ IH]; intros k Hbuilt Hk.
  - apply Forall2_nil_inv_l in Hk as ->. constructor.
  - apply Forall2_cons_inv_l in Hk as (c'' & k' & Hc'' & Hk & ->).
    apply Forall_cons in Hbuilt as [Hb Hbuilt].
    constructor; [by eapply reread_claim_settles|by apply IH].
Qed.

Lemma handoff_settles_same h h' :
  handoff_settles h h' → Forall (λ c, unpadded (finding_source c)) (handoff_claims h) → h' = h.
Proof.
  intros [] Hpaths. destruct h as [? ? ? ? claims], h' as [? ? ? ? claims']. cbn in *. subst.
  f_equal. clear -hs_claims0 Hpaths.
  induction hs_claims0 as [|c c' l l' (Hi & Hst & Hsu & _ & Hso) _ IH]; [done|].
  apply Forall_cons in Hpaths as [Hp Hpaths]. rewrite (IH Hpaths). f_equal.
  destruct c, c'. cbn in *. specialize (Hso Hp). by subst.
Qed.

Lemma reread_handoff_ok id h h' : reread_handoff h = Ok h' → handoff_ok id h → handoff_ok id h'.
Proof.
  intros (Hclaims & Hid & _ & _ & _ & Hphase & _)%reread_handoff_spec (? & ? & _ & Hne).
  unfold handoff_ok, is_accepted_handoff in *. rewrite Hid, Hphase. split_and!; try done.
  - clear -Hclaims. induction Hclaims as [|c c' l k Hc _ IH]; [done|].
    constructor; [by eapply reread_constructed|done].
  - intros Hacc Hnil. rewrite Hnil in Hclaims. apply Forall2_nil_inv_r in Hclaims. by apply Hne.
Qed.

Lemma reread_store_ok g g' : reread_store g = Ok g' → ledger_ok g → ledger_ok g'.
Proof.
  intros Hread Hok. pose proof Hread as Hsame. unfold reread_store in Hsame.
  apply bind_Ok in Hsame as (m & _ & Hsame). apply Ok_inj in Hsame as <-. destruct Hok.
  split; try done.
  - intros id h' Hh'. apply (reread_store_lookup _ _ _ _ Hread) in Hh' as (h & Hh & Hrh).
    eapply reread_handoff_ok; [exact Hrh|]. by apply lo_handoffs0.
  - etrans; [|exact lo_handoff_count0]. cbn. rewrite <-!size_dom. apply Nat2Z.inj_le, subseteq_size.
    intros id. rewrite !elem_of_dom. intros [h' Hh'].
    by apply (reread_store_lookup _ _ id h' Hread) in Hh' as (h & Hh & _).
Qed.

Lemma validate_store_ok g : ledger_ok g → validate_store g = Ok tt.
Proof.
  intros Hok. unfold validate_store. rewrite (lo_version _ Hok). cbn [reject_if].
  change (SCHEMA_VERSION =? SCHEMA_VERSION) with true. cbn [negb reject_if]. rewrite bind_ret_l.
  apply for_each_Ok, Forall_forall. intros [id h] Hin%elem_of_btree_items.
  apply (lo_handoffs _ Hok) in Hin as (_ & Hphase & _). apply reject_if_Ok. cbn.
  by destruct (handoff_phase h) as [[]|].
Qed.

Section loading.
Context `{GateJson, !GateJsonLaws}.

Lemma load_written path g :
  store_schema_version g = SCHEMA_VERSION →
  load_store path (TextFile (Ok (store_json g)))
  = g' ← map_err (λ e, Corrupt (path ++ lit " is not a handoff ledger (" ++ show_handoff_error e ++ lit ")"))
           (reread_store g) ;
    validate_store g' ;; Ok g'.
Proof using Type*.
  intros Hversion. unfold load_store. cbn [map_err]. rewrite bind_ret_l.
  unfold migrate_value. rewrite store_json_version by done. change SCHEMA_VERSION with 3. cbv iota beta.
  rewrite bind_ret_l, parse_store_json. cbn [map_err]. by rewrite bind_ret_l.
Qed.

Lemma load_stable path g :
  ledger_ok g → stable_claims g → load_store path (TextFile (Ok (store_json g))) = Ok g.
Proof using Type*.
  intros Hok Hstable. rewrite load_written by apply Hok. rewrite stable_reread by done.
  cbn [map_err]. rewrite bind_ret_l. by rewrite validate_store_ok.
Qed.

(** The path of the file only shows in messages. *)
Lemma map_err_relabel {E F F' A} (f : E → F) (f' : E → F') (m : result E A) a :
  map_err f m = Ok a → map_err f' m = Ok a.
Proof. rewrite !map_err_Ok. done. Qed.

Lemma migrate_value_path path path' value v :
  migrate_value path value = Ok v → migrate_value path' value = Ok v.
Proof.
  unfold migrate_value. repeat case_match; intros Hmigrate; try done.
  - by eapply map_err_relabel.
  - apply bind_Ok in Hmigrate as (v1 & Hv1 & Hmigrate).
    erewrite map_err_relabel by exact Hv1. rewrite bind_ret_l. by eapply map_err_relabel.
Qed.

Lemma load_store_path path path' file g :
  load_store path file = Ok g → load_store path' file = Ok g.
Proof.
  destruct file as [|error|parsed]; [done..|]. unfold load_store. intros Hload.
  apply bind_Ok in Hload as (value & Hvalue & Hload).
  apply bind_Ok in Hload as (current & Hcurrent & Hload).
  apply bind_Ok in Hload as (raw & Hraw & Hload).
  apply bind_Ok in Hload as (g1 & Hread & Hload).
  erewrite map_err_relabel by exact Hvalue. rewrite bind_ret_l.
  erewrite migrate_value_path by exact Hcurrent. rewrite bind_ret_l.
  erewrite map_err_relabel by exact Hraw. rewrite bind_ret_l.
  erewrite map_err_relabel by exact Hread. by rewrite bind_ret_l.
Qed.

(** ** The files calls leave *)

Definition file_ok (file : GateFile) : Prop :=
  file = NoFile ∨ ∃ g, ledger_ok g ∧ file = TextFile (Ok (store_json g)).

Lemma load_file_ok path file g : file_ok file → load_store path file = Ok g → ledger_ok g.
Proof using Type*.
  intros [-> | (g0 & Hok & ->)].
  - intros [= <-]. apply ledger_ok_default.
  - rewrite load_written by apply Hok. intros Hload. result_inv.
    match goal with H : reread_store _ = Ok _ |- _ => by eapply reread_store_ok in H end.
Qed.

(** Whatever the file holds, the claims a load gives were built again. *)
Lemma load_constructed path file g id h :
  load_store path file = Ok g → store_handoffs g !! id = Some h → Forall constructed (handoff_claims h).
Proof.
  destruct file as [|error|parsed]; [by intros [= <-]|done|]. unfold load_store. intros Hload Hh.
  result_inv. match goal with Hr : reread_store _ = Ok _ |- _ =>
    apply (reread_store_lookup _ _ _ _ Hr) in Hh as (h0 & _ & Hh) end.
  by eapply reread_handoff_constructed.
Qed.

Lemma validate_store_version g : validate_store g = Ok tt → store_schema_version g = SCHEMA_VERSION.
Proof. unfold validate_store. intros Hvalid. result_inv. by bool_inv. Qed.

Lemma load_version path file g : load_store path file = Ok g → store_schema_version g = SCHEMA_VERSION.
Proof.
  destruct file as [|error|parsed]; [by intros [= <-]|done|]. unfold load_store. intros Hload.
  result_inv. by apply validate_store_version.
Qed.

(** A load of what was written: the claims are read again, nothing else changes. *)
Lemma load_written_inv path g g' :
  store_schema_version g = SCHEMA_VERSION →
  load_store path (TextFile (Ok (store_json g))) = Ok g' → reread_store g = Ok g'.
Proof using Type*. intros Hversion. rewrite load_written by done. intros Hload. by result_inv. Qed.

Lemma reread_store_rest g g' :
  reread_store g = Ok g' →
  store_fetches g' = store_fetches g ∧ store_artifacts g' = store_artifacts g
  ∧ store_schema_version g' = store_schema_version g.
Proof.
  unfold reread_store. intros Hread. apply bind_Ok in Hread as (m & _ & Hread).
  by apply Ok_inj in Hread as <-.
Qed.
End loading.
