(* ===== verification/HandoffDispatch.v ===== *)
(** Every call of [dispatch_for] (src/handoff/mod.rs): what it answers, what it may
    do to the file, and runs of calls one after the other. *)
From S2P Require Export HandoffFacts.
Local Open Scope Z_scope.

(** * Answers *)

(** The state, the flag and the failures agree: a pass has no failure and a pending
    result names at least one. *)
Definition coherent (o : outcome) : Prop :=
  match workflow_state o with
  | WorkflowPending => workflow_accepted o = false ∧ workflow_failures o ≠ []
  | WorkflowAccepted => workflow_accepted o = true ∧ workflow_failures o = []
  | WorkflowRecorded => workflow_accepted o = false ∧ workflow_failures o = []
  end.

Definition coherent_answer (m : handoff_result outcome) : Prop :=
  ∀ o, m = Ok o → coherent o.

Lemma pending_coherent snapshot failures next o :
  workflow_pending snapshot failures next = Ok o → coherent o.
Proof.
  unfold workflow_pending, invalid_input_if. intros Ho. result_inv. bool_inv. done.
Qed.

Lemma accept_coherent snapshot next : coherent (workflow_accept snapshot next).
Proof. done. Qed.

Lemma record_coherent snapshot next : coherent (workflow_record snapshot next).
Proof. done. Qed.

#[export] Hint Resolve pending_coherent accept_coherent record_coherent : handoff.

(** An error of a request: the only one a caller never sees. *)
Definition is_request_error (e : HandoffError) : bool :=
  match e with RequestError _ _ => true | _ => false end.

Lemma promote_request_answer action raw :
  coherent_answer raw →
  coherent_answer (promote_request action raw)
  ∧ ∀ e, promote_request action raw = Err e → is_request_error e = false.
Proof.
  intros Hraw. destruct raw as [o|[]]; cbn [promote_request]; try by split; [|intros e [= <-]].
  split; [|done]. intros o. apply pending_coherent.
Qed.

(** * What an operation does to the file *)

(** It leaves the file, or takes one step from the ledger it loaded. *)
Definition one_step `{GateJson, GateWorld} (call : HandoffCall) (file file' : GateFile) : Prop :=
  file' = file
  ∨ ∃ g g', load_store (call_path call) file = Ok g ∧ gate_step call g g'
            ∧ file' = TextFile (Ok (store_json g')).

(** An operation whose answers are coherent, whose effect is one step, and which
    leaves the file when it fails. *)
Definition well_behaved `{GateJson, GateWorld} (call : HandoffCall)
    (operation : GateFile → handoff_result outcome * GateFile) : Prop :=
  ∀ file raw file', operation file = (raw, file') →
    coherent_answer raw ∧ one_step call file file' ∧ (is_ok raw = false → file' = file).

Section operations.
Context `{Host, GateJson, GateWorld, ClaimFields}.

Lemma prepared_well_behaved {A} call (m : handoff_result A) k :
  (∀ a, m = Ok a → well_behaved call (k a)) → well_behaved call (prepared m k).
Proof.
  intros Hk file raw file'. unfold prepared. destruct m as [a|e]; [by apply Hk|].
  intros [= <- <-]. split_and!; [done|by left|done].
Qed.

Lemma with_store_well_behaved call body :
  (∀ g o g', body g = Ok (o, g') → coherent o ∧ gate_step call g g') →
  well_behaved call (with_store (call_path call) (call_io call) body).
Proof.
  intros Hbody file raw file' [(e & -> & ->)|(g & o & g' & Hload & Hrun & -> & ->)]%with_store_inv.
  - split_and!; [done|by left|done].
  - apply Hbody in Hrun as [Hcoherent Hstep]. split_and!; [by intros ? [= <-]| |done].
    right. eauto.
Qed.

Lemma record_fetch_well_behaved payload call : well_behaved call (record_fetch payload call).
Proof.
  apply prepared_well_behaved. intros record [Hurl Hstatus]%fetch_of_payload_Ok.
  apply with_store_well_behaved. intros g o g' Hbody. result_inv. simplify_eq.
  match goal with H : insert_fetch _ _ = Ok _ |- _ => apply insert_fetch_Ok in H as [-> Hroom] end.
  split; [done|by apply FetchStep].
Qed.

Lemma submit_coherent sub call g o g' : submit_to_store sub call g = Ok (o, g') → coherent o.
Proof.
  unfold submit_to_store. set (decide_now := mbind _ _). cbv zeta.
  assert (decide_now = Ok (o, g') → coherent o) as Hdecide.
  { unfold decide_now. intros Hd. apply bind_Ok in Hd as (g1 & _ & Hd).
    case_bool_decide; result_inv; simplify_eq; eauto with handoff. }
  repeat case_match; intros Hsubmit; result_inv; simplify_eq; eauto with handoff.
Qed.

Lemma submit_well_behaved payload call : well_behaved call (submit payload call).
Proof.
  apply prepared_well_behaved. intros sub Hsub. apply with_store_well_behaved.
  intros g o g' Hbody. split; [by eapply submit_coherent|by eapply submit_steps].
Qed.

Lemma view_coherent h view o : view_handoff h view = Ok o → coherent o.
Proof.
  unfold view_handoff. destruct (handoff_phase h); intros Hview; result_inv; eauto with handoff.
Qed.

Lemma load_handoff_well_behaved payload call view : well_behaved call (load_handoff payload call view).
Proof.
  apply prepared_well_behaved. intros id _. apply with_store_well_behaved.
  intros g o g' Hbody. apply bind_Ok in Hbody as (o' & Ho & Hbody). simplify_eq.
  split; [|constructor]. destruct (store_handoffs g' !! id); [by eapply view_coherent|].
  eauto with handoff.
Qed.

Lemma read_shared_well_behaved payload call : well_behaved call (read_shared payload call).
Proof.
  apply prepared_well_behaved. intros [id reader] _. apply with_store_well_behaved.
  intros g o g' Hbody. split; [|by eapply read_shared_steps].
  unfold read_shared_in_store in Hbody. case_match; result_inv; simplify_eq; eauto with handoff.
Qed.

Lemma write_shared_coherent id writer based_on content now g o g' :
  write_shared_in_store id writer based_on content now g = Ok (o, g') → coherent o.
Proof.
  unfold write_shared_in_store, create_artifact.
  repeat case_match; intros Hbody; result_inv; simplify_eq; eauto with handoff.
Qed.

Lemma write_shared_well_behaved payload call : well_behaved call (write_shared payload call).
Proof.
  apply prepared_well_behaved. intros [[[id writer] based_on] content] _. case_match.
  - intros file raw file' [= <- <-]. split_and!; [|by left|done].
    intros o. apply pending_coherent.
  - apply with_store_well_behaved. intros g o g' Hbody.
    split; [by eapply write_shared_coherent|by eapply write_shared_steps].
Qed.

(** An answer that needs no ledger. *)
Lemma answered_well_behaved call raw : coherent_answer raw → well_behaved call (λ file, (raw, file)).
Proof. intros Hraw file ? ? [= <- <-]. split_and!; [done|by left|done]. Qed.

Lemma dispatch_well_behaved action payload call file answer file' :
  dispatch_for action payload call file = (answer, file') →
  ∃ raw, answer = promote_request action raw ∧ coherent_answer raw
    ∧ one_step call file file' ∧ (is_ok raw = false → file' = file).
Proof.
  unfold dispatch_for. intros Hdispatch.
  match type of Hdispatch with (let '(_, _) := ?m in _) = _ => destruct m as [raw file1] eqn:Hop end.
  simplify_eq. exists raw. split; [done|]. revert Hop. repeat case_match;
    [apply (answered_well_behaved call (pending_request _ _)); intros o; apply pending_coherent
    |apply record_fetch_well_behaved|apply submit_well_behaved|apply load_handoff_well_behaved
    |apply load_handoff_well_behaved|apply read_shared_well_behaved|apply write_shared_well_behaved
    |apply (answered_well_behaved call (unknown_action _)); intros o; apply pending_coherent].
Qed.
End operations.

(** * Runs *)

Section runs.
Context `{Host, GateJson, ClaimFields}.

(** One call: the world it sees, its action, payload and settings. *)
Record OneCall := {
  one_world : GateWorld;
  one_action : rstring;
  one_payload : json;
  one_call : HandoffCall
}.

Definition run_call (c : OneCall) (file : GateFile) : handoff_result outcome * GateFile :=
  let _ := one_world c in dispatch_for (one_action c) (one_payload c) (one_call c) file.

(** The calls of every process, in the order they held the lock. *)
Definition run_calls (calls : list OneCall) (file : GateFile) : GateFile :=
  foldl (λ file c, (run_call c file).2) file calls.
End runs.

Section run_facts.
Context `{Host, GateJson, !GateJsonLaws, ClaimFields}.

Lemma run_call_one_step c file :
  let _ := one_world c in one_step (one_call c) file (run_call c file).2.
Proof using Type*.
  cbv zeta. unfold run_call. destruct (dispatch_for _ _ _ _) as [answer file'] eqn:Hd.
  by apply dispatch_well_behaved in Hd as (? & _ & _ & Hstep & _).
Qed.

Lemma run_call_file_ok c file : file_ok file → file_ok (run_call c file).2.
Proof using Type*.
  intros Hok. destruct (run_call_one_step c file) as [-> | (g & g' & Hload & Hstep & ->)]; [done|].
  right. exists g'. split; [|done]. eapply gate_step_ok; [exact Hstep|]. by eapply load_file_ok.
Qed.

Lemma run_calls_file_ok calls file : file_ok file → file_ok (run_calls calls file).
Proof using Type*.
  revert file. induction calls as [|c calls IH]; intros file Hok; [done|].
  cbn [run_calls foldl]. by apply IH, run_call_file_ok.
Qed.

(** What every ledger loaded from a file satisfies, a call keeps, when the ledger's
    steps and its reload do. *)
Lemma run_calls_keep (P : GateStore → Prop) :
  (∀ (w : GateWorld) call g g', gate_step call g g' → P g → P g') →
  (∀ g g', reread_store g = Ok g' → P g → P g') →
  ∀ calls file, (∀ path g, load_store path file = Ok g → P g) →
  ∀ path g, load_store path (run_calls calls file) = Ok g → P g.
Proof using Type*.
  intros Hstep Hread calls. induction calls as [|c calls IH]; intros file Hfile; [done|].
  cbn [run_calls foldl]. apply IH. intros path g Hload.
  destruct (run_call_one_step c file) as [Hsame|(g0 & g1 & Hload0 & Hgate & Hwritten)].
  - rewrite Hsame in Hload. by eapply Hfile.
  - rewrite Hwritten in Hload. apply load_written_inv in Hload.
    + eapply Hread; [exact Hload|]. eapply Hstep; [exact Hgate|]. by eapply Hfile.
    + rewrite (gate_step_version _ _ _ Hgate). by eapply load_version.
Qed.
End run_facts.
