(* ===== verification/HandoffMigration.v ===== *)
(** Older handoff ledgers (src/handoff/store.rs): what the migrations of schemas 1 and
    2 make of the JSON of a ledger. *)
From S2P Require Export HandoffStore.
Local Open Scope Z_scope.

(** * Objects *)

Lemma json_get_cons key k v entries :
  json_get key (JObject ((k, v) :: entries))
  = if bool_decide (k = key) then Some v else json_get key (JObject entries).
Proof. unfold json_get. cbn [List.find fst]. by case_bool_decide. Qed.

Lemma json_get_insert key key' v entries :
  json_get key' (JObject (entries_insert key v entries))
  = if bool_decide (key = key') then Some v else json_get key' (JObject entries).
Proof.
  induction entries as [|[k w] entries IH]; cbn [entries_insert].
  - by rewrite json_get_cons.
  - destruct (decide (k = key)) as [->|Hk].
    + rewrite bool_decide_eq_true_2, !json_get_cons by done. by case_bool_decide.
    + rewrite (bool_decide_eq_false_2 (k = key)) by done.
      destruct (str_leb key k); rewrite !json_get_cons; [done|]. rewrite IH.
      repeat case_bool_decide; congruence.
Qed.

Lemma as_object_Ok message value entries :
  as_object message value = Ok entries → value = JObject entries.
Proof. destruct value; cbn; intros Ho; by simplify_eq. Qed.

(** * The stamp *)

(** A record is stamped, and its other fields are kept. *)
Definition stamped (r r' : json) : Prop :=
  is_Some (json_get (lit "recorded_via") r')
  ∧ (∀ field, field ≠ lit "recorded_via" ∨ is_Some (json_get field r) →
       json_get field r' = json_get field r).

Lemma insert_unrecorded_stamped r r' : insert_unrecorded r = Ok r' → stamped r r'.
Proof.
  unfold insert_unrecorded. intros Hr. apply bind_Ok in Hr as (entries & ->%as_object_Ok & Hr).
  apply Ok_inj in Hr as <-. case_bool_decide as Hvia; [by split|]. split.
  - rewrite json_get_insert, bool_decide_eq_true_2 by done. eauto.
  - intros field Hfield. rewrite json_get_insert, bool_decide_eq_false_2; [done|].
    intros <-. by destruct Hfield.
Qed.

(** What becomes of a value under a key. *)
Definition at_key (R : json → json → Prop) (before after : option json) : Prop :=
  match before, after with
  | None, None => True
  | Some r, Some r' => R r r'
  | _, _ => False
  end.

Lemma stamp_entries_spec what entries entries' key :
  stamp_entries what entries = Ok entries' →
  at_key stamped (json_get key (JObject entries)) (json_get key (JObject entries')).
Proof.
  revert entries'. induction entries as [|[k r] entries IH]; intros entries'; cbn [stamp_entries].
  - by intros [= <-].
  - intros Hstamp. result_inv. rewrite !json_get_cons. case_bool_decide; [|by apply IH].
    by apply insert_unrecorded_stamped.
Qed.

(** Every record of a section of fetches or of handoffs. *)
Definition stamped_handoffs (section section' : json) : Prop :=
  ∀ key, at_key stamped (json_get key section) (json_get key section').
Definition stamped_fetches (section section' : json) : Prop :=
  ∀ key, at_key stamped_handoffs (json_get key section) (json_get key section').

Lemma stamp_senders_spec entries entries' key :
  stamp_senders entries = Ok entries' →
  at_key stamped_handoffs (json_get key (JObject entries)) (json_get key (JObject entries')).
Proof.
  revert entries'. induction entries as [|[k r] entries IH]; intros entries'; cbn [stamp_senders].
  - by intros [= <-].
  - intros Hstamp. apply bind_Ok in Hstamp as (by_url & ->%as_object_Ok & Hstamp).
    apply bind_Ok in Hstamp as (by_url' & Hby & Hstamp).
    apply bind_Ok in Hstamp as (rest & Hrest & Hstamp). apply Ok_inj in Hstamp as <-.
    rewrite !json_get_cons. case_bool_decide; [|by apply IH].
    intros key'. by eapply stamp_entries_spec.
Qed.

Lemma stamp_recorded_via_spec key nested object object' key' :
  stamp_recorded_via key nested object = Ok object' →
  if bool_decide (key' = key)
  then at_key (if nested then stamped_fetches else stamped_handoffs)
         (json_get key (JObject object)) (json_get key (JObject object'))
  else json_get key' (JObject object') = json_get key' (JObject object).
Proof.
  unfold stamp_recorded_via. destruct (json_get key (JObject object)) as [section|] eqn:Hsection.
  - intros Hstamp. apply bind_Ok in Hstamp as (entries & ->%as_object_Ok & Hstamp).
    apply bind_Ok in Hstamp as (entries' & Hentries & Hstamp). apply Ok_inj in Hstamp as <-.
    rewrite !json_get_insert. case_bool_decide as Hkey.
    + rewrite bool_decide_eq_true_2 by done. destruct nested; intros k;
        [by apply stamp_senders_spec|by eapply stamp_entries_spec].
    + by rewrite bool_decide_eq_false_2 by congruence.
  - intros [= <-]. case_bool_decide; [by rewrite Hsection|done].
Qed.

(** ** Schema 2 *)

Record stamped_ledger (value value' : json) : Prop := {
  sl_version : json_get (lit "schema_version") value' ≫= json_u64 = Some SCHEMA_VERSION;
  sl_fetches : at_key stamped_fetches (json_get (lit "fetches") value) (json_get (lit "fetches") value');
  sl_handoffs : at_key stamped_handoffs (json_get (lit "handoffs") value) (json_get (lit "handoffs") value');
  sl_rest key : key ≠ lit "schema_version" → key ≠ lit "fetches" → key ≠ lit "handoffs" →
    json_get key value' = json_get key value
}.

Lemma migrate_v2_to_v3_spec value value' :
  migrate_v2_to_v3 value = Ok value' → stamped_ledger value value'.
Proof.
  unfold migrate_v2_to_v3. intros Hv. apply bind_Ok in Hv as (object & ->%as_object_Ok & Hv).
  apply bind_Ok in Hv as (object1 & H1 & Hv). apply bind_Ok in Hv as (object2 & H2 & Hv).
  apply Ok_inj in Hv as <-.
  assert (∀ key, key ≠ lit "schema_version" →
    json_get key (JObject (entries_insert (lit "schema_version") (JNumber (show_Z SCHEMA_VERSION)) object2))
    = json_get key (JObject object2)) as Hne.
  { intros key Hkey. by rewrite json_get_insert, bool_decide_eq_false_2. }
  split.
  - rewrite json_get_insert, bool_decide_eq_true_2 by done. by vm_compute.
  - rewrite Hne by done. pose proof (stamp_recorded_via_spec _ _ _ _ (lit "fetches") H1) as Hf.
    pose proof (stamp_recorded_via_spec _ _ _ _ (lit "fetches") H2) as Hf2.
    rewrite bool_decide_eq_true_2 in Hf by done. rewrite bool_decide_eq_false_2 in Hf2 by done.
    by rewrite Hf2.
  - rewrite Hne by done. pose proof (stamp_recorded_via_spec _ _ _ _ (lit "handoffs") H1) as Hh.
    pose proof (stamp_recorded_via_spec _ _ _ _ (lit "handoffs") H2) as Hh2.
    rewrite bool_decide_eq_false_2 in Hh by done. rewrite bool_decide_eq_true_2 in Hh2 by done.
    by rewrite <-Hh.
  - intros key Hs Hf Hh. rewrite Hne by done.
    pose proof (stamp_recorded_via_spec _ _ _ _ key H1) as Hk.
    pose proof (stamp_recorded_via_spec _ _ _ _ key H2) as Hk2.
    rewrite bool_decide_eq_false_2 in Hk by done. rewrite bool_decide_eq_false_2 in Hk2 by done.
    congruence.
Qed.

(** A schema 2 ledger that migrates has the current schema; every fetch and every
    handoff it had is there under the same keys, stamped with how it was recorded,
    its other fields and any earlier stamp kept; nothing is added, everything else is
    as it was; and a migrated ledger needs no further migration. *)
Theorem schema_2_ledger_is_stamped path value value' :
  json_get (lit "schema_version") value ≫= json_u64 = Some 2 →
  migrate_value path value = Ok value' →
  stamped_ledger value value' ∧ migrate_value path value' = Ok value'.
Proof.
  unfold migrate_value at 1. intros ->. intros Hmigrate%map_err_Ok.
  apply migrate_v2_to_v3_spec in Hmigrate. split; [done|].
  unfold migrate_value. by rewrite (sl_version _ _ Hmigrate).
Qed.

(** ** Schema 1 *)

(** The row of a schema 1 ledger that a record of the grouped fetches comes from. *)
Definition row_of (rows : list (rstring * json)) (sender url : rstring) (record : json) : Prop :=
  ∃ key, (key, record) ∈ rows
    ∧ nonempty (json_get (lit "sender") record ≫= json_str) = Some sender
    ∧ default key (nonempty (json_get (lit "url") record ≫= json_str)) = url.

Lemma group_fetches_spec nested rows grouped sender url record :
  group_fetches nested rows = Ok grouped →
  json_get sender (JObject grouped) ≫= json_get url = Some record →
  json_get sender (JObject nested) ≫= json_get url = Some record ∨ row_of rows sender url record.
Proof.
  revert nested. induction rows as [|[key r] rows IH]; intros nested; cbn [group_fetches].
  - intros [= <-]. by left.
  - intros Hgroup Hget. apply bind_Ok in Hgroup as (sender' & Hsender%ok_or_Ok & Hgroup).
    apply bind_Ok in Hgroup as (by_url & Hby & Hgroup).
    destruct (IH _ Hgroup Hget) as [Hnested|(k & Hin & ? & ?)];
      [|right; exists k; split; [by right|done]].
    rewrite json_get_insert in Hnested. case_bool_decide as Heq; [|by left]. subst sender'.
    cbn [mbind option_bind] in Hnested. rewrite json_get_insert in Hnested.
    case_bool_decide as Hurl.
    + injection Hnested as ->. right. exists key. split; [constructor|done].
    + left. apply as_object_Ok in Hby.
      destruct (json_get sender (JObject nested)) as [section|]; cbn in Hby.
      * cbn [mbind option_bind]. by rewrite Hby.
      * injection Hby as <-. done.
Qed.

(** The record of a sender and a URL in grouped fetches. *)
Definition fetch_at (sender url : rstring) (section : option json) : option json :=
  (section ≫= json_get sender) ≫= json_get url.

Lemma group_fetches_keeps nested rows grouped sender url :
  group_fetches nested rows = Ok grouped →
  is_Some (fetch_at sender url (Some (JObject nested))) →
  is_Some (fetch_at sender url (Some (JObject grouped))).
Proof.
  revert nested. induction rows as [|[key r] rows IH]; intros nested; cbn [group_fetches].
  - by intros [= <-].
  - intros Hgroup Hget. apply bind_Ok in Hgroup as (sender' & _ & Hgroup).
    apply bind_Ok in Hgroup as (by_url & Hby%as_object_Ok & Hgroup).
    apply (IH _ Hgroup). unfold fetch_at in *. cbn [mbind option_bind] in *.
    rewrite json_get_insert. case_bool_decide; [subst sender'|done]. cbn [mbind option_bind].
    rewrite json_get_insert. case_bool_decide; [done|].
    destruct (json_get sender (JObject nested)) as [section|]; [|by destruct Hget].
    cbn in Hby, Hget. by subst section.
Qed.

Lemma group_fetches_complete nested rows grouped sender url record :
  group_fetches nested rows = Ok grouped → row_of rows sender url record →
  is_Some (fetch_at sender url (Some (JObject grouped))).
Proof.
  revert nested. induction rows as [|[key r] rows IH]; intros nested; cbn [group_fetches].
  - by intros _ (? & ?%elem_of_nil & _).
  - intros Hgroup (k & Hin & Hsender & Hurl).
    apply bind_Ok in Hgroup as (sender' & Hsender'%ok_or_Ok & Hgroup).
    apply bind_Ok in Hgroup as (by_url & _ & Hgroup).
    apply elem_of_cons in Hin as [Heq|Hin]; [|by eapply IH; [|exists k]].
    simplify_eq. eapply group_fetches_keeps; [exact Hgroup|]. unfold fetch_at. cbn [mbind option_bind].
    rewrite json_get_insert, bool_decide_eq_true_2 by congruence. cbn [mbind option_bind].
    rewrite json_get_insert, bool_decide_eq_true_2 by done. eauto.
Qed.

(** A schema 1 ledger that migrates keeps one record for each sender and URL its
    rows name, and gains none: each record of the current ledger is a row of the old
    one with that sender and that URL, stamped. *)
Theorem schema_1_fetches_are_grouped path value value' sender url :
  json_get (lit "schema_version") value ≫= json_u64 = Some 1 →
  migrate_value path value = Ok value' →
  let rows_of record := ∃ rows, json_get (lit "fetches") value = Some (JObject rows)
                                ∧ row_of rows sender url record in
  match fetch_at sender url (json_get (lit "fetches") value') with
  | Some record' => ∃ record, rows_of record ∧ stamped record record'
  | None => ∀ record, ¬ rows_of record
  end.
Proof.
  unfold migrate_value. intros ->. intros Hmigrate. cbv zeta.
  apply bind_Ok in Hmigrate as (v2 & Hv1%map_err_Ok & Hv2%map_err_Ok).
  apply migrate_v2_to_v3_spec in Hv2 as [_ Hfetches _ _].
  unfold migrate_v1_fetches in Hv1. apply bind_Ok in Hv1 as (rows & Hrows%as_object_Ok & Hv1).
  apply bind_Ok in Hv1 as (nested & Hnested & Hv1).
  apply bind_Ok in Hv1 as (object & Hobject%as_object_Ok & Hv1). apply Ok_inj in Hv1 as <-.
  rewrite json_get_insert, bool_decide_eq_true_2 in Hfetches by done.
  assert (∀ record, (∃ rs, json_get (lit "fetches") value = Some (JObject rs) ∧ row_of rs sender url record)
    ↔ row_of rows sender url record) as Hsource.
  { intros record. destruct (json_get (lit "fetches") value) as [section|]; cbn in Hrows.
    - subst section. naive_solver.
    - injection Hrows as <-. split; [naive_solver|]. by intros (? & ?%elem_of_nil & _). }
  destruct (json_get (lit "fetches") value') as [after|]; [|done].
  pose proof (Hfetches sender) as Hsender. unfold fetch_at. cbn [mbind option_bind].
  destruct (fetch_at sender url (Some (JObject nested))) as [record|] eqn:Hbefore;
    unfold fetch_at in Hbefore; cbn [mbind option_bind] in Hbefore;
    destruct (json_get sender (JObject nested)) as [by_url|] eqn:Hby;
    destruct (json_get sender after) as [by_url'|]; try done; cbn [at_key mbind option_bind] in *;
    try specialize (Hsender url); rewrite ?Hbefore in Hsender.
  - destruct (json_get url by_url') as [record'|]; [|done].
    exists record. split; [|done]. apply Hsource.
    destruct (group_fetches_spec [] rows nested sender url record Hnested) as [Hnil|Hrow];
      [by rewrite Hby|done|done].
  - destruct (json_get url by_url'); [done|]. intros record Hrow%Hsource.
    apply (group_fetches_complete _ _ _ _ _ _ Hnested) in Hrow.
    unfold fetch_at in Hrow. cbn [mbind option_bind] in Hrow. rewrite Hby in Hrow.
    cbn [mbind option_bind] in Hrow. rewrite Hbefore in Hrow. by destruct Hrow.
  - intros record Hrow%Hsource. apply (group_fetches_complete _ _ _ _ _ _ Hnested) in Hrow.
    unfold fetch_at in Hrow. cbn [mbind option_bind] in Hrow. rewrite Hby in Hrow. by destruct Hrow.
Qed.

(** * Instances *)

Definition sample_fetch_json (extra : list (rstring * json)) : json :=
  JObject (extra ++ [(lit "sender", JString (lit "scout")); (lit "url", JString (lit "https://a.b/"))]).

Definition sample_v2 : json :=
  JObject [(lit "fetches", JObject [(lit "scout", JObject [(lit "https://a.b/", sample_fetch_json [])])]);
           (lit "handoffs", JObject [(lit "h1", sample_fetch_json [(lit "recorded_via", JNull)])]);
           (lit "schema_version", JNumber (lit "2"))].

Lemma schema_2_ledger_is_stamped_witness : ∃ value',
  stamped_ledger sample_v2 value' ∧ migrate_value [] value' = Ok value'.
Proof.
  destruct (migrate_value [] sample_v2) as [value'|] eqn:Hmigrate; [|exfalso; by vm_compute in Hmigrate].
  exists value'. apply (schema_2_ledger_is_stamped [] sample_v2 value'); [by vm_compute|done].
Defined.

Definition sample_v1 : json :=
  JObject [(lit "fetches", JObject [(lit "https://a.b/", sample_fetch_json [])]);
           (lit "schema_version", JNumber (lit "1"))].

Lemma schema_1_fetches_are_grouped_witness : ∃ value',
  migrate_value [] sample_v1 = Ok value'
  ∧ match fetch_at (lit "scout") (lit "https://a.b/") (json_get (lit "fetches") value') with
    | Some record' => ∃ record,
        (∃ rows, json_get (lit "fetches") sample_v1 = Some (JObject rows)
                 ∧ row_of rows (lit "scout") (lit "https://a.b/") record)
        ∧ stamped record record'
    | None => ∀ record, ¬ ∃ rows, json_get (lit "fetches") sample_v1 = Some (JObject rows)
                 ∧ row_of rows (lit "scout") (lit "https://a.b/") record
    end.
Proof.
  destruct (migrate_value [] sample_v1) as [value'|] eqn:Hmigrate; [|exfalso; by vm_compute in Hmigrate].
  exists value'. split; [done|].
  apply (schema_1_fetches_are_grouped [] sample_v1 value' (lit "scout") (lit "https://a.b/"));
    [by vm_compute|done].
Defined.
