(* ===== verification/HandoffSample.v ===== *)
(** A concrete world for the findings handoff: an encoding of ledgers as JSON, a
    reader of claims, a small workspace, and calls to instantiate the theorems on. *)
From S2P Require Export HandoffDispatch Sample.
Local Open Scope Z_scope.

(** * Ledgers as JSON *)

#[export] Instance RecordedVia_eq_dec : EqDecision RecordedVia.
Proof. solve_decision. Defined.
#[export] Instance FetchRecord_eq_dec : EqDecision FetchRecord.
Proof. solve_decision. Defined.
#[export] Instance HandoffPhase_eq_dec : EqDecision HandoffPhase.
Proof. solve_decision. Defined.
#[export] Instance StoredHandoff_eq_dec : EqDecision StoredHandoff.
Proof. solve_decision. Defined.
#[export] Instance ReadMark_eq_dec : EqDecision ReadMark.
Proof. solve_decision. Defined.
#[export] Instance SharedArtifact_eq_dec : EqDecision SharedArtifact.
Proof. solve_decision. Defined.
#[export] Instance GateStore_eq_dec : EqDecision GateStore.
Proof. solve_decision. Defined.

Definition check_number (k : CheckKind) : nat :=
  match k with
  | RequestCheck => 0 | ClaimsPresent => 1 | SourceResolves => 2 | FetchUnusable => 3
  | SubjectMatches => 4 | StaleRead => 5 | HandoffExists => 6 | ArtifactExists => 7
  | AlreadyAccepted => 8
  end.
Definition check_of_number (n : nat) : CheckKind :=
  nth n [RequestCheck; ClaimsPresent; SourceResolves; FetchUnusable; SubjectMatches; StaleRead;
         HandoffExists; ArtifactExists; AlreadyAccepted] RequestCheck.

#[export] Instance CheckKind_countable : Countable CheckKind.
Proof. apply (inj_countable' check_number check_of_number). by intros []. Defined.
#[export] Instance GateFailure_countable : Countable GateFailure.
Proof.
  apply (inj_countable' (λ f, (failure_target f, failure_check f, failure_field f, failure_fix f))
    (λ '(t, c, fi, x), Build_GateFailure t c fi x)). by intros [].
Defined.
#[export] Instance RecordedVia_countable : Countable RecordedVia.
Proof.
  apply (inj_countable' (λ v, (via_execution_origin v, via_session_id v))
    (λ '(o, s), Build_RecordedVia o s)). by intros [].
Defined.
#[export] Instance FetchRecord_countable : Countable FetchRecord.
Proof.
  apply (inj_countable' (λ f, (fetch_url f, fetch_host f, fetch_status f, fetch_body_digest f,
      fetch_fetched_at f, fetch_sender f, fetch_recorded_via f))
    (λ '(u, h, s, d, t, a, v), Build_FetchRecord u h s d t a v)). by intros [].
Defined.
#[export] Instance HandoffPhase_countable : Countable HandoffPhase.
Proof.
  apply (inj_countable' (λ p, match p with PhasePending fs => inl fs | PhaseAccepted t => inr t end)
    (λ s, match s with inl fs => PhasePending fs | inr t => PhaseAccepted t end)). by intros [].
Defined.
#[export] Instance ClaimSource_countable : Countable ClaimSource.
Proof.
  apply (inj_countable'
    (λ s, match s with FileSource t => (0, t) | CommitSource t => (1, t) | UrlSource t => (2, t) end)
    (λ '(n, t), match n with 0 => FileSource t | 1 => CommitSource t | _ => UrlSource t end)).
  by intros [].
Defined.
#[export] Instance Claim_countable : Countable Claim.
Proof.
  apply (inj_countable' (λ c, (finding_id c, finding_statement c, finding_subject c, finding_source c))
    (λ '(i, t, s, o), Build_Claim i t s o)). by intros [].
Defined.
#[export] Instance StoredHandoff_countable : Countable StoredHandoff.
Proof.
  apply (inj_countable' (λ h, (handoff_id h, handoff_from_agent h, handoff_to_agent h,
      handoff_workspace h, handoff_claims h, handoff_phase h, handoff_updated_at h,
      handoff_recorded_via h))
    (λ '(i, f, t, w, c, p, u, v), Build_StoredHandoff i f t w c p u v)). by intros [].
Defined.
#[export] Instance ReadMark_countable : Countable ReadMark.
Proof.
  apply (inj_countable' (λ m, (mark_generation m, mark_read_at m)) (λ '(g, t), Build_ReadMark g t)).
  by intros [].
Defined.
#[export] Instance SharedArtifact_countable : Countable SharedArtifact.
Proof.
  apply (inj_countable' (λ a, (artifact_generation a, artifact_content a, artifact_last_writer a,
      artifact_last_written_at a, artifact_reads a))
    (λ '(g, c, w, t, r), Build_SharedArtifact g c w t r)). by intros [].
Defined.
#[export] Instance GateStore_countable : Countable GateStore.
Proof.
  apply (inj_countable' (λ g, (store_schema_version g, store_fetches g, store_handoffs g,
      store_artifacts g))
    (λ '(v, f, h, a), Build_GateStore v f h a)). by intros [].
Defined.

(** The schema version in clear, the rest as one number. *)
#[export] Instance sample_gate_json : GateJson := {|
  store_json g :=
    JObject [(lit "schema_version", JNumber (show_Z (store_schema_version g)));
             (lit "ledger", JString [Z.pos (encode g)])];
  parse_store value :=
    match json_get (lit "ledger") value with
    | Some (JString [Z.pos p]) => ok_or (decode p) (lit "not a ledger")
    | _ => Err (lit "missing field")
    end
|}.

#[export] Instance sample_gate_json_laws : GateJsonLaws.
Proof.
  split.
  - intros g. change (ok_or (decode (encode g)) (lit "not a ledger") = Ok g). by rewrite decode_encode.
  - intros g Hversion. unfold store_json, sample_gate_json. rewrite Hversion. by vm_compute.
Qed.

(** * The workspace *)

Definition sample_workspace : rstring := lit "/work".
Definition sample_notes : rstring := lit "/work/notes.md".

#[export] Instance sample_world : GateWorld := {|
  world_canonicalize p :=
    if bool_decide (p = sample_workspace ∨ p = sample_notes) then Some p else None;
  world_exists p := bool_decide (p = sample_workspace ∨ p = sample_notes);
  world_is_dir p := bool_decide (p = sample_workspace);
  world_is_file p := bool_decide (p = sample_notes);
  world_read p n :=
    if bool_decide (p = sample_notes)
    then Ok (bytes (lit "impulse-subject: example.com")) else Err (lit "no such file");
  world_git _ _ := GitFailed (lit "git is not installed");
  show_instant t := show_Z t
|}.

Definition string_field (field : rstring) (value : json) : result rstring rstring :=
  ok_or (json_get field value ≫= json_str) (lit "missing field `" ++ field ++ lit "`").

#[export] Instance sample_claim_fields : ClaimFields := λ value,
  id ← string_field (lit "id") value ;
  statement ← string_field (lit "statement") value ;
  subject ← string_field (lit "subject") value ;
  source ← ok_or (json_get (lit "source") value) (lit "missing field `source`") ;
  source ← match json_get (lit "path") source ≫= json_str, json_get (lit "url") source ≫= json_str with
           | Some path, _ => Ok (FileSource path)
           | None, Some url => Ok (UrlSource url)
           | None, None => Err (lit "unknown source")
           end ;
  Ok (id, statement, subject, source).

(** * Calls *)

Definition sample_store_io : StoreIo :=
  {| store_directory := Ok tt; store_locked := Ok tt; store_written := Ok tt |}.

Definition call_at (now : Z) : HandoffCall :=
  {| call_path := lit "/work/.impulse/handoff.json"; call_now := now;
     call_workspace := Some sample_workspace; call_admission := admission_direct;
     call_io := sample_store_io |}.

Definition field (name : string) (value : string) : rstring * json :=
  (lit name, JString (lit value)).

Definition sample_finding (source : json) : json :=
  JObject [field "id" "c1"; field "statement" "The site has moved."; field "subject" "example.com";
           (lit "source", source)].

Definition submit_payload (source : json) : json :=
  JObject [(lit "claims", JArray [sample_finding source]); field "from_agent" "scout";
           field "id" "handoff-1"; field "to_agent" "builder"].

Definition file_source (path : string) : json := JObject [field "path" path].
Definition url_source (url : string) : json := JObject [field "url" url].

Definition fetch_payload : json :=
  JObject [(lit "body_digest", JString (replicate 64 (48 : Z))); field "sender" "scout";
           (lit "status", JNumber (lit "200")); field "url" "HTTPS://Example.com:443/a#top"].

(** ** A body run on a ledger that loads *)

Lemma with_store_loaded {A} path io (body : GateStore → handoff_result (A * GateStore)) file g a g' :
  io = sample_store_io → load_store path file = Ok g → body g = Ok (a, g') →
  with_store path io body file = (Ok a, TextFile (Ok (store_json g'))).
Proof. intros -> Hload Hbody. unfold with_store. cbn. by rewrite Hload, bind_ret_l, Hbody. Qed.

(** ** An accepted submit *)

Definition sample_submit : json := submit_payload (file_source "notes.md").
Definition sample_submission : Submission := Eval vm_compute in
  match submission_of_payload sample_submit (call_at 5) with
  | Ok sub => sub
  | Err _ => {| submission_id := []; submission_from := []; submission_to := [];
                submission_workspace := []; submission_claims := []; submission_failures := [] |}
  end.
Definition sample_handoff : StoredHandoff := Eval vm_compute in
  submitted_handoff sample_submission (call_at 5) [].
Definition sample_gate_ledger : GateStore := set_handoff sample_handoff store_default.
Definition sample_answer : outcome := Eval vm_compute in
  match submit_to_store sample_submission (call_at 5) store_default with
  | Ok (o, _) => o
  | Err _ => workflow_accept (ToolSnapshot []) {| next_action := []; next_detail := [] |}
  end.

Abbreviation sample_file := (TextFile (Ok (store_json sample_gate_ledger))).

Lemma sample_submission_eq : submission_of_payload sample_submit (call_at 5) = Ok sample_submission.
Proof. vm_cast_no_check (@eq_refl (handoff_result Submission) (Ok sample_submission)). Qed.

Lemma sample_submit_eq :
  submit_to_store sample_submission (call_at 5) store_default = Ok (sample_answer, sample_gate_ledger).
Proof. vm_cast_no_check (@eq_refl (handoff_result (outcome * GateStore)) (Ok (sample_answer, sample_gate_ledger))). Qed.

Lemma sample_submit_run :
  submit sample_submit (call_at 5) NoFile = (Ok sample_answer, sample_file).
Proof.
  unfold submit, prepared. rewrite sample_submission_eq.
  by apply with_store_loaded with store_default; [..|apply sample_submit_eq].
Qed.

Lemma sample_stable : stable_claims sample_gate_ledger.
Proof.
  intros id h Hh. unfold sample_gate_ledger in Hh.
  cbn [set_handoff set_handoffs store_handoffs store_default] in Hh. apply lookup_insert_Some in Hh as [[_ <-]|[_ Hh]].
  - repeat constructor; by vm_compute.
  - by rewrite lookup_empty in Hh.
Qed.

Lemma sample_reads_back path : load_store path sample_file = Ok sample_gate_ledger.
Proof.
  rewrite load_written by done. rewrite stable_reread by apply sample_stable.
  cbn [map_err]. rewrite bind_ret_l.
  assert (validate_store sample_gate_ledger = Ok tt) as ->; [by vm_compute|done].
Qed.

(** ** A shared artifact *)

Definition sample_artifact : SharedArtifact := first_artifact (lit "scout") (lit "findings") 5.
Definition sample_shared : GateStore := set_artifact (lit "notes") sample_artifact store_default.
