(* ===== verification/HandoffProps.v ===== *)
(** What the findings-handoff workflow guarantees (src/handoff): one ledger step per
    call, answers that never pass silently, well-formed ledgers, accepted handoffs
    that are backed and final, and shared artifacts without lost updates. *)
From S2P Require Export HandoffSample.
Local Open Scope Z_scope.

(** * One call *)

Section calls.
Context `{Host, GateJson, GateWorld, ClaimFields}.

(** C22: A call with any action and payload leaves the ledger file as it is, or loads
    it, takes one step of the ledger machine and writes the result; a call that
    fails leaves the file as it is. *)
Theorem handoff_call_takes_one_step action payload call file :
  one_step call file (dispatch_for action payload call file).2
  ∧ (is_ok (dispatch_for action payload call file).1 = true
     ∨ (dispatch_for action payload call file).2 = file).
Proof.
  destruct (dispatch_for action payload call file) as [answer file'] eqn:Hdispatch.
  apply dispatch_well_behaved in Hdispatch as (raw & -> & _ & Hstep & Hfail). split; [done|].
  destruct raw as [o|e]; [by left|]. right. by apply Hfail.
Qed.


(** C21: A submit that answers accepted has stored the handoff as accepted; the
    payload's claims are a non-empty array, every item became one claim, and every
    claim is backed by its source: a file or commit of the workspace that records
    the claim's subject, or the sender's own recent successful fetch in this
    session of a URL whose host is the subject. *)
Theorem accepted_submit_is_backed payload call file answer file' :
  submit payload call file = (Ok answer, file') →
  workflow_state answer = WorkflowAccepted →
  ∃ sub g items,
    load_store (call_path call) file = Ok g
    ∧ submission_of_payload payload call = Ok sub
    ∧ file' = TextFile (Ok (store_json (set_handoff (submitted_handoff sub call []) g)))
    ∧ json_get (lit "claims") payload = Some (JArray items)
    ∧ Forall2 (λ item c, ∃ i, parse_claim item i = Ok c) items (submission_claims sub)
    ∧ acceptable call g (submitted_handoff sub call []).
Proof.
  intros Hsubmit Hstate. unfold submit, prepared in Hsubmit.
  destruct (submission_of_payload payload call) as [sub|] eqn:Hsub; [|done].
  apply with_store_inv in Hsubmit as [(e & ? & _)|(g & o & g' & Hload & Hrun & Ho & ->)]; [done|].
  injection Ho as <-. pose proof (submit_coherent _ _ _ _ _ Hrun) as Hcoherent.
  unfold coherent in Hcoherent. rewrite Hstate in Hcoherent. destruct Hcoherent as [_ Hnone].
  apply submit_to_store_Ok in Hrun as [(_ & old & _ & _ & Hold)|(Hins & _ & _ & Hfailures)].
  - unfold already_accepted, workflow_pending in Hold. result_inv. done.
  - rewrite Hnone in Hfailures. rewrite <-Hfailures in Hins. apply insert_handoff_Ok in Hins as [-> _].
    symmetry in Hfailures. apply submission_checks_nil in Hfailures as [Hparsed Hbacked].
    destruct (submission_of_payload_Ok _ _ _ Hsub) as [_ Hne].
    destruct (submission_claims_items _ _ _ Hsub Hparsed) as (items & Hclaims & Hall).
    exists sub, g, items. split_and!; try done. by split; [apply Hne|].
Qed.
End calls.

(** * Runs of calls *)

Section runs.
Context `{Host, GateJson, !GateJsonLaws, ClaimFields}.

(** C23: Whatever calls ran since there was no ledger file, a ledger that a later call
    loads is well formed: it has the current schema, records sit under their own
    sender, URL, id, within the capacities of the ledger, no handoff is pending
    without a failure, an accepted one has claims, every claim came from its
    constructor, and no artifact has a read of a generation above its own. *)
Theorem reachable_handoff_ledger_is_well_formed calls path g :
  load_store path (run_calls calls NoFile) = Ok g → ledger_ok g.
Proof using Type*. intros Hload. eapply load_file_ok; [|exact Hload]. apply run_calls_file_ok. by left. Qed.

(** ** Accepted handoffs *)

Lemma gate_step_accepted `{GateWorld} call g g' id h :
  gate_step call g g' → store_handoffs g !! id = Some h → is_accepted_handoff h = true →
  store_handoffs g' !! id = Some h.
Proof.
  intros Hstep Hh Haccepted. destruct Hstep as [| |h' _ Hold _ _ _| | |]; try done. cbn.
  destruct (decide (handoff_id h' = id)) as [<-|]; [|by rewrite lookup_insert_ne].
  apply Hold in Hh. congruence.
Qed.

(** C24: An accepted handoff is final: after any calls, of any processes, in the order
    in which they held the lock, a ledger that loads still holds it with the same
    parties, time and decision and the same claims: their ids, statements and
    subjects are unchanged, and so is each source, unless it has white space around
    it; such a source is what normalizing it some number of times more gives. *)
Theorem accepted_handoff_is_final path file g id h calls path' g' :
  load_store path file = Ok g →
  store_handoffs g !! id = Some h →
  is_accepted_handoff h = true →
  load_store path' (run_calls calls file) = Ok g' →
  ∃ h', store_handoffs g' !! id = Some h' ∧ handoff_settles h h' ∧
    (Forall (λ c, unpadded (finding_source c)) (handoff_claims h) → h' = h).
Proof using Type*.
  intros Hload Hh Haccepted Hlater.
  cut (∃ h', store_handoffs g' !! id = Some h' ∧ handoff_settles h h' ∧
             Forall constructed (handoff_claims h')).
  { intros (h' & Hh' & Hs & _). exists h'. split_and!; [done..|]. by apply handoff_settles_same. }
  revert Hlater. apply (run_calls_keep (λ g, ∃ h', store_handoffs g !! id = Some h' ∧
    handoff_settles h h' ∧ Forall constructed (handoff_claims h'))).
  - intros w call g0 g1 Hstep (h' & Hh' & Hs & Hb). exists h'. split; [|done].
    eapply gate_step_accepted; [done..|]. unfold is_accepted_handoff in *. by rewrite (hs_phase _ _ Hs).
  - intros g0 g1 Hread (h' & Hh' & Hs & Hb).
    destruct (reread_store_keeps _ _ _ _ Hread Hh') as (h'' & Hh'' & Hrh). exists h''.
    split_and!; [done|by eapply reread_handoff_settles|by eapply reread_handoff_constructed].
  - intros path0 g0 Hload0. pose proof Hload0 as Hagain. apply (load_store_path _ path) in Hagain.
    assert (g0 = g) as -> by congruence. exists h.
    split_and!; [done|apply handoff_settles_refl|by eapply load_constructed].
Qed.

(** ** Shared artifacts *)

(** The artifact went on from generation [n] and content [content], if it did. *)
Definition later_artifact (n : Z) (content : rstring) (a : SharedArtifact) : Prop :=
  n ≤ artifact_generation a ∧ (artifact_generation a = n → artifact_content a = content).

Lemma gate_step_artifact `{GateWorld} call g g' id a n content :
  gate_step call g g' → n < u64_max →
  store_artifacts g !! id = Some a → later_artifact n content a →
  ∃ a', store_artifacts g' !! id = Some a' ∧ later_artifact n content a'.
Proof.
  intros Hstep Hn Ha [Hle Hcontent].
  assert (∀ id' new, (id' = id → later_artifact n content new) →
    ∃ a', store_artifacts (set_artifact id' new g) !! id = Some a' ∧ later_artifact n content a') as Hset.
  { intros id' new Hlater. cbn. destruct (decide (id' = id)) as [<-|].
    - exists new. rewrite lookup_insert_eq. auto.
    - exists a. by rewrite lookup_insert_ne. }
  destruct Hstep as [| | |id' a' reader Ha'|id' writer content' Ha' _ _|id' a' writer content' Ha' _ _];
    try (by exists a); apply Hset; intros ->; [|congruence|]; simplify_eq.
  - done.
  - unfold later_artifact. cbn. unfold usize_saturating_add. lia.
Qed.

(** A generation names one content: whatever calls ran since a ledger held an
    artifact at some generation, its generation has not gone down, and if it is the
    same then so is the content, so that a write based on the generation a reader saw
    overwrites exactly what that reader saw. *)
Theorem generation_names_one_content path file g id a calls path' g' :
  load_store path file = Ok g →
  store_artifacts g !! id = Some a →
  artifact_generation a < u64_max →
  load_store path' (run_calls calls file) = Ok g' →
  ∃ a', store_artifacts g' !! id = Some a'
    ∧ artifact_generation a ≤ artifact_generation a'
    ∧ (artifact_generation a' = artifact_generation a → artifact_content a' = artifact_content a).
Proof using Type*.
  intros Hload Ha Hmax.
  apply (run_calls_keep (λ g, ∃ a', store_artifacts g !! id = Some a'
    ∧ later_artifact (artifact_generation a) (artifact_content a) a')).
  - intros w call g0 g1 Hstep (a0 & Ha0 & Hlater). by eapply gate_step_artifact.
  - intros g0 g1 Hread (a0 & Ha0 & Hlater). exists a0.
    by destruct (reread_store_rest _ _ Hread) as (_ & -> & _).
  - intros path0 g0 Hload0. apply (load_store_path _ path) in Hload0.
    assert (g0 = g) as -> by congruence. exists a. split; [done|]. split; [lia|done].
Qed.
End runs.

(** * Instances *)

Lemma accepted_submit_is_backed_witness :
  acceptable (call_at 5) store_default (submitted_handoff sample_submission (call_at 5) []).
Proof.
  destruct (accepted_submit_is_backed sample_submit (call_at 5) NoFile sample_answer sample_file
    sample_submit_run eq_refl) as (sub & g & items & Hload & Hsub & _ & _ & _ & Hacceptable).
  rewrite sample_submission_eq in Hsub. apply Ok_inj in Hsub as <-. by injection Hload as <-.
Defined.

Definition sample_one_call (action : string) (payload : json) (now : Z) : OneCall :=
  {| one_world := sample_world; one_action := lit action; one_payload := payload;
     one_call := call_at now |}.

Lemma run_submit payload now file o file' :
  is_json_object payload = true → submit payload (call_at now) file = (Ok o, file') →
  (run_call (sample_one_call "submit" payload now) file).2 = file'.
Proof.
  intros Hobject Hsubmit. unfold run_call, dispatch_for.
  cbn [sample_one_call one_world one_action one_payload one_call]. rewrite Hobject. cbn [negb].
  rewrite bool_decide_eq_false_2, bool_decide_eq_true_2 by done.
  by rewrite Hsubmit.
Qed.

Lemma reachable_handoff_ledger_is_well_formed_witness : ledger_ok sample_gate_ledger.
Proof.
  apply (reachable_handoff_ledger_is_well_formed [sample_one_call "submit" sample_submit 5] []).
  cbn [run_calls foldl]. rewrite (run_submit sample_submit 5 _ _ _ eq_refl sample_submit_run).
  apply sample_reads_back.
Defined.

(** A second submit under the same id, with another source. *)
Definition sample_resubmit : json := submit_payload (url_source "https://example.com/a").

Lemma sample_resubmit_run :
  (run_call (sample_one_call "submit" sample_resubmit 9) sample_file).2 = sample_file.
Proof.
  destruct (submission_of_payload sample_resubmit (call_at 9)) as [sub|] eqn:Hsub;
    [|exfalso; by vm_compute in Hsub].
  destruct (already_accepted sample_handoff) as [o|] eqn:Ho; [|exfalso; by vm_compute in Ho].
  assert (submission_id sub = lit "handoff-1") as Hid.
  { vm_compute in Hsub. by injection Hsub as <-. }
  apply (run_submit _ _ _ o); [done|]. unfold submit, prepared. rewrite Hsub.
  apply with_store_loaded with sample_gate_ledger; [done|apply sample_reads_back|].
  unfold submit_to_store. rewrite Hid. change (lit "handoff-1") with (handoff_id sample_handoff).
  cbn [sample_gate_ledger set_handoff set_handoffs store_handoffs store_default].
  rewrite lookup_insert_eq. change (is_accepted_handoff sample_handoff) with true.
  cbv iota. by rewrite Ho.
Qed.

Lemma accepted_handoff_is_final_witness :
  store_handoffs sample_gate_ledger !! lit "handoff-1" = Some sample_handoff.
Proof.
  destruct (accepted_handoff_is_final [] sample_file sample_gate_ledger (lit "handoff-1") sample_handoff
    [sample_one_call "submit" sample_resubmit 9] [] sample_gate_ledger) as (h' & Hh' & _ & Hsame).
  - apply sample_reads_back.
  - by vm_compute.
  - done.
  - cbn [run_calls foldl]. rewrite sample_resubmit_run. apply sample_reads_back.
  - rewrite Hsame in Hh'; [exact Hh'|]. by repeat constructor.
Defined.

(** ** A shared artifact, read after it was created *)

Abbreviation shared_file := (TextFile (Ok (store_json sample_shared))).

Lemma sample_shared_reads_back path : load_store path shared_file = Ok sample_shared.
Proof. rewrite load_written by done. rewrite stable_reread; [done|]. apply map_Forall_empty. Qed.

Definition sample_read : json := JObject [field "artifact_id" "notes"; field "reader" "builder"].
Definition sample_marked : GateStore :=
  set_artifact (lit "notes") (marked_read (lit "builder") 9 sample_artifact) sample_shared.

Lemma sample_read_run :
  (run_call (sample_one_call "read_shared" sample_read 9) shared_file).2
  = TextFile (Ok (store_json sample_marked)).
Proof.
  unfold run_call, dispatch_for. cbn [sample_one_call one_world one_action one_payload one_call].
  change (is_json_object sample_read) with true. cbn [negb].
  do 4 (rewrite bool_decide_eq_false_2 by done). rewrite bool_decide_eq_true_2 by done.
  unfold read_shared, prepared.
  assert (artifact_id_of sample_read = Ok (lit "notes")) as -> by (by vm_compute).
  rewrite bind_ret_l.
  assert (require_str sample_read (lit "reader") = Ok (lit "builder")) as -> by (by vm_compute).
  rewrite bind_ret_l.
  assert (validate_handoff_id (lit "reader") (lit "builder") = Ok (lit "builder")) as -> by (by vm_compute).
  rewrite bind_ret_l.
  erewrite (with_store_loaded _ _ _ _ sample_shared); [|done|apply sample_shared_reads_back|]; [done|].
  unfold read_shared_in_store. cbn [sample_shared set_artifact set_artifacts store_artifacts].
  by rewrite lookup_insert_eq.
Qed.

Lemma generation_names_one_content_witness : ∃ a',
  store_artifacts sample_marked !! lit "notes" = Some a'
  ∧ artifact_generation sample_artifact ≤ artifact_generation a'
  ∧ (artifact_generation a' = artifact_generation sample_artifact →
       artifact_content a' = artifact_content sample_artifact).
Proof.
  apply (generation_names_one_content [] shared_file sample_shared (lit "notes") sample_artifact
    [sample_one_call "read_shared" sample_read 9] []).
  - apply sample_shared_reads_back.
  - by vm_compute.
  - done.
  - cbn [run_calls foldl]. rewrite sample_read_run, load_written by done.
    rewrite stable_reread; [done|]. apply map_Forall_empty.
Defined.
