(* ===== verification/HandoffLedgerProps.v ===== *)
(** The ledger of src/handoff/store.rs across calls: what was written is read back
    unless a claim's source has whitespace at its ends, a recorded fetch serves the
    claims that cite it, a landed write closes its generation, and older schemas are
    brought to the current one. *)
From S2P Require Export HandoffSample.
Local Open Scope Z_scope.

(** * The gate *)

Section gate_spec.
Context `{GateWorld}.

(** C26: The gate finds nothing wrong with some claims exactly when every one of them is
    backed by its source, and it reports one failure for each that is not. *)
Theorem gate_passes_exactly_backed_claims claims workspace sender admission fetch_for :
  (evaluate_claims claims workspace sender admission fetch_for = []
   ↔ Forall (claim_backed workspace sender admission fetch_for) claims)
  ∧ ∃ refused, sublist refused claims
      ∧ length (evaluate_claims claims workspace sender admission fetch_for) = length refused
      ∧ Forall (λ c, ¬ claim_backed workspace sender admission fetch_for c) refused
      ∧ (∀ c, c ∈ claims → c ∈ refused ∨ claim_backed workspace sender admission fetch_for c).
Proof.
  split; [apply evaluate_claims_nil|]. unfold evaluate_claims.
  induction claims as [|c claims (refused & Hsub & Hlen & Hrefused & Hrest)].
  { exists []. split_and!; [constructor|done|constructor|by intros ? ?%elem_of_nil]. }
  cbn [omap list_omap]. destruct (evaluate_claim _ _ _ _ c) as [failure|] eqn:Hc.
  - exists (c :: refused). split_and!; [by constructor|by rewrite !length_cons, Hlen| |].
    + constructor; [|done]. rewrite <-evaluate_claim_None. congruence.
    + intros c' [->|Hin]%elem_of_cons; [left; constructor|].
      destruct (Hrest c' Hin); [left; by constructor|by right].
  - exists refused. split_and!; [by constructor|done|done|].
    intros c' [->|Hin]%elem_of_cons; [right; by apply evaluate_claim_None|auto].
Qed.
End gate_spec.

(** A claim its constructor accepted is given back unchanged when it is constructed
    again from its own fields, provided its source has no whitespace at its ends:
    ids, statements, subjects, relative paths, commit hashes and URLs are normal
    forms. *)
Theorem constructed_claim_is_a_normal_form id statement subject source c :
  Claim_try_new id statement subject source = Ok c →
  trim (source_text (finding_source c)) = source_text (finding_source c) →
  Claim_try_new (finding_id c) (finding_statement c) (finding_subject c) (finding_source c) = Ok c.
Proof. apply Claim_try_new_rereads. Qed.

(** * Writing and reading the ledger *)

Section ledger.
Context `{Host, GateJson, !GateJsonLaws, GateWorld, ClaimFields}.

(** Every claim of the ledger has a source without whitespace at its ends. *)
Definition unpadded_sources (g : GateStore) : Prop :=
  map_Forall (λ _ h, Forall (λ c, trim (source_text (finding_source c)) = source_text (finding_source c))
                       (handoff_claims h)) (store_handoffs g).

Lemma unpadded_stable g : ledger_ok g → unpadded_sources g → stable_claims g.
Proof.
  intros Hok Hunpadded id h Hh. destruct (lo_handoffs _ Hok _ _ Hh) as (_ & _ & Hconstructed & _).
  specialize (Hunpadded _ _ Hh). cbv beta in Hunpadded. rewrite Forall_forall in *.
  intros c Hc. destruct (Hconstructed c Hc) as (i & s & sub & source & Hnew).
  by apply (Claim_try_new_rereads _ _ _ _ _ Hnew), Hunpadded.
Qed.

(** The ledger a step leaves is read back as it was written, and takes part in the
    next call, as long as no claim's source has whitespace at its ends. *)
Theorem stepped_ledger_is_read_back call g g' path :
  ledger_ok g → gate_step call g g' → unpadded_sources g' →
  load_store path (TextFile (Ok (store_json g'))) = Ok g' ∧ ledger_ok g'.
Proof using Type*.
  intros Hok Hstep Hunpadded. assert (ledger_ok g') as Hok' by (by eapply gate_step_ok).
  split; [|done]. apply load_stable; [done|]. by apply unpadded_stable.
Qed.

Lemma blank_path_refused id statement subject p :
  trim p = [] → ∃ e, Claim_try_new id statement subject (FileSource p) = Err e.
Proof.
  intros Hp. unfold Claim_try_new. destruct (validate_handoff_id _ _) as [i|]; [|by eexists].
  rewrite bind_ret_l. destruct (validate_statement _) as [s|]; [|by eexists].
  rewrite bind_ret_l. destruct (subject_parse _) as [s'|]; [|by eexists].
  rewrite bind_ret_l. cbn [normalize_source]. unfold validate_relative_path. rewrite Hp. by eexists.
Qed.

Lemma blank_path_unreadable g id h c p :
  store_handoffs g !! id = Some h → c ∈ handoff_claims h →
  finding_source c = FileSource p → trim p = [] →
  ∃ e, reread_store g = Err e.
Proof.
  intros Hh Hc Hsource Hp. destruct (reread_store g) as [g'|e] eqn:Hread; [|eauto]. exfalso.
  assert (∃ m, reread_handoffs (btree_items str_leb (store_handoffs g)) ∅ = Ok m) as [m Hm].
  { unfold reread_store in Hread. apply bind_Ok in Hread as (m & Hm & _). eauto. }
  assert (∀ entries read m, (id, h) ∈ entries → reread_handoffs entries read = Ok m →
    ∃ h', reread_handoff h = Ok h') as Hall.
  { clear. induction entries as [|[key h1] entries IH]; intros read m; [by intros ?%elem_of_nil|].
    intros [Heq|Hin]%elem_of_cons Hread; cbn [reread_handoffs] in Hread;
      apply bind_Ok in Hread as (h2 & Hh2 & Hread); simplify_eq; eauto. }
  destruct (Hall _ _ _ (proj2 (elem_of_btree_items _ _ _ _) Hh) Hm) as [h' Hh'].
  apply reread_handoff_spec in Hh' as [Hclaims _].
  apply list_elem_of_lookup in Hc as [i Hi].
  destruct (Forall2_lookup_l _ _ _ _ _ Hclaims Hi) as (c' & _ & Hc').
  unfold reread_claim in Hc'. rewrite Hsource in Hc'.
  destruct (blank_path_refused (finding_id c) (finding_statement c) (finding_subject c) p Hp) as [e He].
  congruence.
Qed.

(** C27: A submit with a file source whose normal form is blank, such as the one of the
    path ["./ /"], is stored like any other, and from then on the ledger cannot be
    loaded: whatever calls follow, each leaves the file as it is. *)
Theorem blank_source_locks_the_ledger payload call sub file o file' c p :
  submission_of_payload payload call = Ok sub →
  c ∈ submission_claims sub → finding_source c = FileSource p → trim p = [] →
  (∀ g old, load_store (call_path call) file = Ok g →
     store_handoffs g !! submission_id sub = Some old → is_accepted_handoff old = false) →
  submit payload call file = (Ok o, file') →
  (∀ path, is_ok (load_store path file') = false)
  ∧ ∀ calls, run_calls calls file' = file'.
Proof using Type*.
  intros Hsub Hc Hsource Hp Hopen Hsubmit. unfold submit, prepared in Hsubmit. rewrite Hsub in Hsubmit.
  apply with_store_inv in Hsubmit as [(e & ? & _)|(g & o' & g' & Hload & Hrun & _ & ->)]; [done|].
  apply submit_to_store_Ok in Hrun as [(_ & old & Hold & Hacc & _)|(Hins & _)].
  { rewrite (Hopen g old Hload Hold) in Hacc. done. }
  apply insert_handoff_Ok in Hins as [-> _]. set (h := submitted_handoff _ _ _).
  assert (∀ path, is_ok (load_store path (TextFile (Ok (store_json (set_handoff h g))))) = false) as Hlocked.
  { intros path. rewrite load_written by (cbn; by eapply load_version).
    destruct (blank_path_unreadable (set_handoff h g) (submission_id sub) h c p) as [e ->]; try done.
    cbn. by rewrite lookup_insert_eq. }
  split; [done|]. intros calls. induction calls as [|later calls IH]; [done|].
  cbn [run_calls foldl]. destruct (run_call_one_step later (TextFile (Ok (store_json (set_handoff h g)))))
    as [-> | (g1 & g2 & Hload1 & _)]; [done|].
  specialize (Hlocked (call_path (one_call later))). by rewrite Hload1 in Hlocked.
Qed.
End ledger.

(** * From a recorded fetch to a claim *)

Section fetched.
Context `{Host, GateJson, !GateJsonLaws, GateWorld, ClaimFields}.

Lemma recorded_fetch_set record g :
  recorded_fetch (set_fetch record g) (fetch_sender record) (fetch_url record)
  = Some {| recorded_sender := fetch_sender record; recorded_host := fetch_host record;
            recorded_status := fetch_status record; recorded_fetched_at := fetch_fetched_at record;
            recorded_session_id := via_session_id (fetch_recorded_via record) |}.
Proof.
  unfold recorded_fetch, store_fetch. cbn [set_fetch set_fetches store_fetches].
  rewrite lookup_insert_eq. cbn [mbind option_bind]. by rewrite lookup_insert_eq.
Qed.

(** A recorded fetch serves the claims that cite it: in the ledger read back after
    the call, a claim whose source is the fetched URL and whose subject is its host
    passes the gate for the same sender, if the status was 2xx, the URL has no
    whitespace at its ends, the session is the same, and the fetch is neither in the
    future nor older than the maximum age. *)
Theorem recorded_fetch_backs_its_claims payload call later file o file' path g record workspace claim :
  fetch_of_payload payload call = Ok record →
  record_fetch payload call file = (Ok o, file') →
  load_store path file' = Ok g →
  200 ≤ fetch_status record < 300 →
  0 < admission_fetch_max_age (call_admission later) →
  0 ≤ call_now later - fetch_fetched_at record ≤ admission_fetch_max_age (call_admission later) →
  blank_to_none (admission_session_id (call_admission call))
    = blank_to_none (admission_session_id (call_admission later)) →
  trim (fetch_url record) = fetch_url record →
  finding_source claim = UrlSource (fetch_url record) →
  finding_subject claim = fetch_host record →
  evaluate_claims [claim] workspace (fetch_sender record) (admission_at later)
    (recorded_fetch g (fetch_sender record)) = [].
Proof using Type*.
  intros Hrecord Hcall Hload Hstatus Hmax Hage Hsession Htrim Hsource Hsubject.
  unfold record_fetch, prepared in Hcall. rewrite Hrecord in Hcall.
  assert (via_session_id (fetch_recorded_via record) = admission_session_id (call_admission call)) as Hvia.
  { unfold fetch_of_payload in Hrecord. by result_inv. }
  apply fetch_of_payload_Ok in Hrecord as [Hurl _].
  apply with_store_inv in Hcall as [(e & ? & _)|(g0 & o' & g1 & Hload0 & Hrun & _ & ->)]; [done|].
  apply bind_Ok in Hrun as (g2 & Hins & Hrun). simplify_eq.
  apply insert_fetch_Ok in Hins as [-> _].
  apply load_written_inv in Hload; [|cbn; by eapply load_version].
  destruct (reread_store_rest _ _ Hload) as (Hfetches & _ & _).
  apply evaluate_claims_nil. constructor; [|done]. unfold claim_backed. rewrite Hsource, Hsubject.
  eexists _, _. split; [by apply normalize_url_again|]. split.
  { unfold recorded_fetch, store_fetch. rewrite Hfetches. apply recorded_fetch_set. }
  split_and!; [done..|]. unfold fetch_admitted. cbn. by rewrite Hvia.
Qed.
End fetched.

(** * Shared artifacts *)

Section artifacts.
Context `{GateWorld}.

(** Nobody has read the artifact at its present generation. *)
Definition unread (a : SharedArtifact) : Prop :=
  ∀ reader, mark_generation <$> artifact_reads a !! reader ≠ Some (artifact_generation a).

Lemma accepted_write_unread id writer based_on content now g o g' :
  ledger_ok g →
  (∀ a, store_artifacts g !! id = Some a → artifact_generation a < u64_max) →
  write_shared_in_store id writer based_on content now g = Ok (o, g') →
  workflow_state o = WorkflowAccepted →
  ∃ a, store_artifacts g' !! id = Some a ∧ unread a.
Proof.
  intros Hok Hroom Hwrite Hstate. unfold write_shared_in_store, create_artifact in Hwrite.
  destruct (store_artifacts g !! id) as [a|] eqn:Ha; case_match; unfold workflow_pending in Hwrite;
    result_inv; simplify_eq; try done;
    match goal with H : insert_artifact _ _ _ = Ok _ |- _ => apply insert_artifact_Ok in H as [-> _] end;
    cbn [set_artifact set_artifacts store_artifacts]; rewrite lookup_insert_eq; eexists; (split; [done|]);
    intros reader; cbn [next_artifact artifact_reads artifact_generation]; [|done].
  destruct (lo_artifacts _ Hok _ _ Ha) as (_ & _ & Hreads). specialize (Hroom a eq_refl).
  destruct (artifact_reads a !! reader) as [mark|] eqn:Hmark; [|done].
  apply Hreads in Hmark. cbn. unfold usize_saturating_add. intros [= Heq]. lia.
Qed.

Lemma unread_write_refused id writer based_on content now g a :
  store_artifacts g !! id = Some a → unread a →
  ∃ o, write_shared_in_store id writer based_on content now g = Ok (o, g)
    ∧ workflow_state o = WorkflowPending ∧ failure_check <$> workflow_failures o = [StaleRead].
Proof.
  intros Ha Hunread. unfold write_shared_in_store. rewrite Ha. cbv zeta.
  rewrite (bool_decide_eq_false_2 (_ = Some _)) by apply Hunread. rewrite andb_false_r. cbn [negb].
  unfold workflow_pending, invalid_input_if. rewrite bool_decide_eq_false_2 by done.
  cbn [reject_if]. rewrite !bind_ret_l. eauto.
Qed.

(** A landed write closes the generation it was based on: until somebody reads the
    artifact again, every other write, by any writer, based on any generation and
    with any content, is refused as stale and changes nothing. *)
Theorem landed_write_closes_its_generation id writer based_on content now g o g' :
  ledger_ok g →
  (∀ a, store_artifacts g !! id = Some a → artifact_generation a < u64_max) →
  write_shared_in_store id writer based_on content now g = Ok (o, g') →
  workflow_state o = WorkflowAccepted →
  ∀ writer' based_on' content' now', ∃ o',
    write_shared_in_store id writer' based_on' content' now' g' = Ok (o', g')
    ∧ workflow_state o' = WorkflowPending
    ∧ failure_check <$> workflow_failures o' = [StaleRead].
Proof.
  intros Hok Hroom Hwrite Hstate writer' based_on' content' now'.
  destruct (accepted_write_unread _ _ _ _ _ _ _ _ Hok Hroom Hwrite Hstate) as (a & Ha & Hunread).
  by eapply unread_write_refused.
Qed.

(** A writer that reads the current generation and writes on it lands: its content
    is stored one generation later, under its name, unless it is too long. *)
Theorem read_then_write_lands id reader g o1 g1 now now' content a :
  store_artifacts g !! id = Some a →
  len content ≤ MAX_ARTIFACT_BYTES →
  read_shared_in_store id reader now g = Ok (o1, g1) →
  ∃ o2 g2, write_shared_in_store id reader (artifact_generation a) content now' g1 = Ok (o2, g2)
    ∧ workflow_state o2 = WorkflowAccepted
    ∧ ∃ a', store_artifacts g2 !! id = Some a' ∧ artifact_content a' = content
        ∧ artifact_last_writer a' = reader
        ∧ artifact_generation a' = Z.min u64_max (artifact_generation a + 1).
Proof.
  intros Ha Hlen. unfold read_shared_in_store. rewrite Ha. intros [= _ <-].
  unfold write_shared_in_store. cbn [set_artifacts store_artifacts]. rewrite lookup_insert_eq.
  cbn [marked_read artifact_reads artifact_generation]. rewrite lookup_insert_eq, Z.eqb_refl.
  rewrite bool_decide_eq_true_2 by done. cbn [andb negb].
  match goal with |- context [insert_artifact id ?next ?store] =>
    destruct (insert_artifact id next store) as [g2|e] eqn:Hins end.
  - apply insert_artifact_Ok in Hins as [-> _]. rewrite bind_ret_l. eexists _, _. split_and!; [done..|].
    eexists. cbn [set_artifact set_artifacts store_artifacts]. by rewrite lookup_insert_eq.
  - exfalso. match type of Hins with insert_artifact _ ?next ?store = _ =>
      assert (insert_artifact id next store = Ok (set_artifact id next store)) as Hok end.
    { apply insert_artifact_Ok. split_and!; [done| |done]. right. cbn.
      by rewrite lookup_insert_eq. }
    congruence.
Qed.
End artifacts.

(** * Instances *)

Lemma constructed_claim_is_a_normal_form_witness : ∃ c,
  Claim_try_new (lit " c1 ") (lit "So.") (lit "example.com") (FileSource (lit "./docs//a.md ")) = Ok c
  ∧ Claim_try_new (finding_id c) (finding_statement c) (finding_subject c) (finding_source c) = Ok c.
Proof.
  eexists. split; [vm_compute; reflexivity|].
  apply (constructed_claim_is_a_normal_form (lit " c1 ") (lit "So.") (lit "example.com")
    (FileSource (lit "./docs//a.md "))); by vm_compute.
Defined.

Lemma stepped_ledger_is_read_back_witness :
  load_store [] sample_file = Ok sample_gate_ledger ∧ ledger_ok sample_gate_ledger.
Proof.
  apply (stepped_ledger_is_read_back (call_at 5) store_default).
  - apply ledger_ok_default.
  - eapply submit_steps; [apply sample_submission_eq|apply sample_submit_eq].
  - intros id h Hh. unfold sample_gate_ledger in Hh.
    cbn [set_handoff set_handoffs store_handoffs store_default] in Hh.
    apply lookup_insert_Some in Hh as [[_ <-]|[_ Hh]]; [by repeat constructor|].
    by rewrite lookup_empty in Hh.
Defined.

(** ** The path ["./ /"] *)

Definition blank_submit : json := submit_payload (file_source "./ /").

Lemma blank_source_locks_the_ledger_witness : ∃ file',
  (submit blank_submit (call_at 5) NoFile).2 = file'
  ∧ (∀ path, is_ok (load_store path file') = false)
  ∧ ∀ calls, run_calls calls file' = file'.
Proof.
  destruct (submission_of_payload blank_submit (call_at 5)) as [sub|] eqn:Hsub;
    [|exfalso; by vm_compute in Hsub].
  assert (∃ c, c ∈ submission_claims sub ∧ finding_source c = FileSource (lit " ")) as (c & Hc & Hsource).
  { vm_compute in Hsub. injection Hsub as <-. eexists. split; [constructor|]. by vm_compute. }
  destruct (submit_to_store sub (call_at 5) store_default) as [[o g']|] eqn:Hrun.
  - exists (TextFile (Ok (store_json g'))).
    assert (submit blank_submit (call_at 5) NoFile = (Ok o, TextFile (Ok (store_json g')))) as Hsubmit.
    { unfold submit, prepared. rewrite Hsub. by apply with_store_loaded with store_default. }
    split; [by rewrite Hsubmit|].
    apply (blank_source_locks_the_ledger blank_submit (call_at 5) sub NoFile o _ c (lit " "));
      [done|done|done|by vm_compute| |done].
    intros g old [= <-]. cbn [store_handoffs store_default]. by rewrite lookup_empty.
  - exfalso. vm_compute in Hsub. injection Hsub as <-. by vm_compute in Hrun.
Defined.

(** ** A fetch and the claim that cites it *)

Definition sample_fetch : FetchRecord := Eval vm_compute in
  match fetch_of_payload fetch_payload (call_at 5) with
  | Ok record => record
  | Err _ => {| fetch_url := []; fetch_host := []; fetch_status := 0; fetch_body_digest := [];
                fetch_fetched_at := 0; fetch_sender := []; fetch_recorded_via := via_unrecorded |}
  end.
Definition sample_url_claim : Claim :=
  {| finding_id := lit "c1"; finding_statement := lit "The site has moved.";
     finding_subject := lit "example.com"; finding_source := UrlSource (lit "https://example.com/a") |}.

Lemma recorded_fetch_backs_its_claims_witness :
  evaluate_claims [sample_url_claim] [] (lit "scout") (admission_at (call_at 9))
    (recorded_fetch (set_fetch sample_fetch store_default) (lit "scout")) = [].
Proof.
  assert (fetch_of_payload fetch_payload (call_at 5) = Ok sample_fetch) as Hrecord.
  { vm_cast_no_check (@eq_refl (handoff_result FetchRecord) (Ok sample_fetch)). }
  assert (∃ o, record_fetch fetch_payload (call_at 5) NoFile
    = (Ok o, TextFile (Ok (store_json (set_fetch sample_fetch store_default))))) as [o Hcall].
  { eexists. unfold record_fetch, prepared. rewrite Hrecord.
    apply with_store_loaded with store_default; [done|done|].
    rewrite (proj2 (insert_fetch_Ok sample_fetch store_default
      (set_fetch sample_fetch store_default))); [rewrite bind_ret_l; reflexivity|].
    split; [done|]. left. by vm_compute. }
  apply (recorded_fetch_backs_its_claims fetch_payload (call_at 5) (call_at 9) NoFile o
    (TextFile (Ok (store_json (set_fetch sample_fetch store_default)))) [] _ sample_fetch);
    [exact Hrecord|exact Hcall|clear Hcall..].
  - rewrite load_written by done. rewrite stable_reread; [done|]. apply map_Forall_empty.
  - by vm_compute.
  - by vm_compute.
  - by vm_compute.
  - reflexivity.
  - by vm_compute.
  - by vm_compute.
  - by vm_compute.
Defined.

(** ** A write that lands *)

Lemma sample_shared_ok : ledger_ok sample_shared.
Proof.
  apply ledger_ok_set_artifact; [apply ledger_ok_default| |by left].
  by split_and!.
Qed.

Lemma landed_write_closes_its_generation_witness : ∃ o,
  write_shared_in_store (lit "notes") (lit "builder") 1 (lit "other") 9 sample_shared
    = Ok (o, sample_shared)
  ∧ workflow_state o = WorkflowPending ∧ failure_check <$> workflow_failures o = [StaleRead].
Proof.
  destruct (write_shared_in_store (lit "notes") (lit "scout") 0 (lit "findings") 5 store_default)
    as [[o g]|] eqn:Hwrite; [|exfalso; by vm_compute in Hwrite].
  assert (g = sample_shared) as ->.
  { unfold write_shared_in_store in Hwrite. cbn [store_default store_artifacts] in Hwrite.
    rewrite lookup_empty in Hwrite. unfold create_artifact in Hwrite. cbn [negb Z.eqb] in Hwrite.
    apply bind_Ok in Hwrite as (g1 & Hins & Hwrite). apply insert_artifact_Ok in Hins as [-> _].
    by injection Hwrite as _ <-. }
  apply (landed_write_closes_its_generation (lit "notes") (lit "scout") 0 (lit "findings") 5
    store_default o sample_shared).
  - apply ledger_ok_default.
  - intros a. cbn. by rewrite lookup_empty.
  - done.
  - vm_compute in Hwrite. by injection Hwrite as <-.
Defined.

Lemma read_then_write_lands_witness : ∃ g1 o2 g2,
  write_shared_in_store (lit "notes") (lit "builder") 1 (lit "more") 9 g1 = Ok (o2, g2)
  ∧ workflow_state o2 = WorkflowAccepted
  ∧ ∃ a', store_artifacts g2 !! lit "notes" = Some a' ∧ artifact_content a' = lit "more"
      ∧ artifact_last_writer a' = lit "builder" ∧ artifact_generation a' = Z.min u64_max (1 + 1).
Proof.
  destruct (read_shared_in_store (lit "notes") (lit "builder") 7 sample_shared) as [[o1 g1]|] eqn:Hread;
    [|exfalso; by vm_compute in Hread].
  exists g1.
  apply (read_then_write_lands (lit "notes") (lit "builder") sample_shared o1 g1 7 9 (lit "more")
    sample_artifact); [|by vm_compute|exact Hread].
  cbn [sample_shared set_artifact set_artifacts store_artifacts]. apply lookup_insert_eq.
Defined.
