(* ===== verification/HandoffLock.v ===== *)
(** The lock of the handoff ledger (src/handoff/store.rs, [LedgerLock]): a lock file
    made with [create_new], whose body names its owner, and which another process
    removes when it finds no live owner in it.

    Every system call is one action of one process, so a list of actions is an
    interleaving. A path names an inode: a process that made the file writes its
    body to that inode even when the path has been removed or made again. A process
    is a pid with one thread in the lock; a pid that is gone is not used again. The
    token of the file of inode [i] is [token_of i], drawn when the body is written. *)
From S2P Require Export RustTextFacts.
Local Open Scope Z_scope.

Definition LOCK_WAIT_ATTEMPTS : nat := 50.
Definition u32_max : Z := 2 ^ 32 - 1.
Definition i32_max : Z := 2 ^ 31 - 1.

(** * The body of the lock file *)

Record LockOwner := { owner_pid : Z; owner_token : rstring }.

Definition encode_owner (owner : LockOwner) : rstring :=
  lit "pid=" ++ show_Z (owner_pid owner) ++ [10] ++ lit "token=" ++ owner_token owner ++ [10].

Definition parse_lock_line (read : option Z * option rstring) (line : rstring)
    : option Z * option rstring :=
  match strip_prefix (lit "pid=") line with
  | Some value => (parse_unsigned u32_max value, read.2)
  | None =>
      match strip_prefix (lit "token=") line with
      | Some value => if is_empty value then read else (read.1, Some value)
      | None => read
      end
  end.

Definition parse_lock (text : rstring) : option LockOwner :=
  let '(pid, token) := foldl parse_lock_line (None, None) (str_lines text) in
  pid ← pid ; token ← token ; Some {| owner_pid := pid; owner_token := token |}.

(** * Processes *)

(** Where a process is, with the attempts it has left. *)
Inductive LockPc : Type :=
  | Outside
  | Trying (attempts : nat)
  | Created (inode : nat)
  | Looking (attempts : nat)
  | Seen (attempts : nat) (text : rstring)
  | Judged (attempts : nat) (text : rstring)
  | Removing (attempts : nat)
  | Holding (inode : nat)
  | Dropping (inode : nat)
  | Refused
  | Failed.
#[export] Instance LockPc_eq_dec : EqDecision LockPc.
Proof. solve_decision. Defined.

Record LockWorld := {
  lock_path : option nat;
  lock_files : gmap nat rstring;
  lock_next_inode : nat;
  lock_pcs : gmap Z LockPc
}.

Definition move (p : Z) (pc : LockPc) (s : LockWorld) : LockWorld :=
  {| lock_path := lock_path s; lock_files := lock_files s;
     lock_next_inode := lock_next_inode s; lock_pcs := <[p := pc]> (lock_pcs s) |}.
Definition set_path (path : option nat) (s : LockWorld) : LockWorld :=
  {| lock_path := path; lock_files := lock_files s;
     lock_next_inode := lock_next_inode s; lock_pcs := lock_pcs s |}.
Definition set_body (inode : nat) (text : rstring) (s : LockWorld) : LockWorld :=
  {| lock_path := lock_path s; lock_files := <[inode := text]> (lock_files s);
     lock_next_inode := lock_next_inode s; lock_pcs := lock_pcs s |}.
(** [create_new] on a free path. *)
Definition create_file (s : LockWorld) : LockWorld :=
  {| lock_path := Some (lock_next_inode s);
     lock_files := <[lock_next_inode s := []]> (lock_files s);
     lock_next_inode := S (lock_next_inode s); lock_pcs := lock_pcs s |}.
Definition end_process (p : Z) (s : LockWorld) : LockWorld :=
  {| lock_path := lock_path s; lock_files := lock_files s;
     lock_next_inode := lock_next_inode s; lock_pcs := delete p (lock_pcs s) |}.

(** [fs::read_to_string] of the path. *)
Definition lock_text (s : LockWorld) : option rstring := i ← lock_path s ; lock_files s !! i.

(** [kill(pid, 0)] finds the process. *)
Definition process_is_alive (pid : Z) (s : LockWorld) : bool :=
  (pid <=? i32_max) && (0 <? pid) && bool_decide (is_Some (lock_pcs s !! pid)).

(** * Actions *)

Inductive LockAction : Type :=
  | Enter
  | Create
  | WriteBody (written : bool)
  | GiveUp
  | ReadLock
  | Judge
  | Compare
  | Remove
  | Release
  | Unlink
  | Crash.
#[export] Instance LockAction_eq_dec : EqDecision LockAction.
Proof. solve_decision. Defined.

Section lock.
Context (token_of : nat → rstring).

Definition owner_of (p : Z) (inode : nat) : LockOwner :=
  {| owner_pid := p; owner_token := token_of inode |}.

(** [LedgerLock::acquire]. *)
Definition acquire_act (p : Z) (pc : LockPc) (a : LockAction) (s : LockWorld) : option LockWorld :=
  match pc, a with
  | Trying (S attempts), Create =>
      Some (match lock_path s with
            | None => move p (Created (lock_next_inode s)) (create_file s)
            | Some _ => move p (Looking attempts) s
            end)
  | Trying O, GiveUp => Some (move p Refused s)
  | Created inode, WriteBody true =>
      Some (move p (Holding inode) (set_body inode (encode_owner (owner_of p inode)) s))
  | Created inode, WriteBody false => Some (move p Failed (set_path None s))
  | _, _ => None
  end.

(** [reclaim_dead_owner] and [remove_if_unchanged]. *)
Definition reclaim_act (p : Z) (pc : LockPc) (a : LockAction) (s : LockWorld) : option LockWorld :=
  match pc, a with
  | Looking attempts, ReadLock =>
      Some (match lock_text s with
            | Some text => move p (Seen attempts text) s
            | None => move p (Trying attempts) s
            end)
  | Seen attempts text, Judge =>
      Some (match parse_lock text with
            | Some owner =>
                if process_is_alive (owner_pid owner) s then move p (Trying attempts) s
                else move p (Judged attempts text) s
            | None => move p (Judged attempts text) s
            end)
  | Judged attempts text, Compare =>
      Some (if bool_decide (lock_text s = Some text) then move p (Removing attempts) s
            else move p (Trying attempts) s)
  | Removing attempts, Remove => Some (move p (Trying attempts) (set_path None s))
  | _, _ => None
  end.

(** [LedgerLock::drop]. *)
Definition drop_act (p : Z) (pc : LockPc) (a : LockAction) (s : LockWorld) : option LockWorld :=
  match pc, a with
  | Holding inode, Release =>
      Some (match lock_text s ≫= parse_lock with
            | Some owner =>
                if bool_decide (owner_token owner = token_of inode) then move p (Dropping inode) s
                else move p Outside s
            | None => move p Outside s
            end)
  | Dropping _, Unlink => Some (move p Outside (set_path None s))
  | _, _ => None
  end.

Definition first_some {A} (a b : option A) : option A := match a with Some _ => a | None => b end.

(** One action of process [p], if it may take it. *)
Definition lock_act (p : Z) (a : LockAction) (s : LockWorld) : option LockWorld :=
  pc ← lock_pcs s !! p ;
  match a with
  | Crash => Some (end_process p s)
  | Enter =>
      match pc with
      | Outside | Refused | Failed => Some (move p (Trying LOCK_WAIT_ATTEMPTS) s)
      | _ => None
      end
  | _ => first_some (acquire_act p pc a s) (first_some (reclaim_act p pc a s) (drop_act p pc a s))
  end.

Fixpoint run_lock (trace : list (Z * LockAction)) (s : LockWorld) : option LockWorld :=
  match trace with
  | [] => Some s
  | (p, a) :: trace => s ← lock_act p a s ; run_lock trace s
  end.
End lock.

(** Nobody in the lock, and no lock file. *)
Definition lock_start (pids : list Z) : LockWorld :=
  {| lock_path := None; lock_files := ∅; lock_next_inode := 0;
     lock_pcs := list_to_map ((λ p, (p, Outside)) <$> pids) |}.
