(* ===== verification/HandoffLockProps.v ===== *)
(** The lock of the handoff ledger (src/handoff/store.rs): taking it never waits on
    another process for long, a dead owner's lock is taken over, and it excludes as
    long as nobody looks at it before its body is written; without that it does
    not. *)
From S2P Require Export HandoffLock.
Local Open Scope Z_scope.

(** * The body of the file is read back *)

Lemma str_lines_two a b :
  Forall (λ c, c ≠ 10) a → Forall (λ c, c ≠ 10) b →
  str_lines (a ++ [10] ++ b ++ [10]) = [strip_trailing_cr a; strip_trailing_cr b].
Proof.
  intros Ha Hb. unfold str_lines. cbn [app]. rewrite !split_on_app.
  by rewrite !split_on_none by done.
Qed.

Lemma strip_cr_id a : last a ≠ Some 13 → strip_trailing_cr a = a.
Proof.
  intros Ha. unfold strip_trailing_cr. destruct (reverse a) as [|c r] eqn:Hr; [done|].
  assert (last a = Some c) as Hlast by (by rewrite <-head_reverse, Hr).
  rewrite Hlast in Ha. repeat case_match; subst; done.
Qed.

(** A token is a uuid in hexadecimal digits. *)
Definition hex_token (token : rstring) : Prop :=
  token ≠ [] ∧ Forall (λ c, is_ascii_hexdigit c = true) token.

Lemma hexdigit_small c : is_ascii_hexdigit c = true → 48 ≤ c.
Proof.
  unfold is_ascii_hexdigit, is_ascii_digit, is_lower_hex_letter.
  rewrite !orb_true_iff, !andb_true_iff, !Z.leb_le. lia.
Qed.

Lemma parse_encode_owner owner :
  0 ≤ owner_pid owner ≤ u32_max → hex_token (owner_token owner) →
  parse_lock (encode_owner owner) = Some owner.
Proof.
  destruct owner as [pid token]. cbn [owner_pid owner_token]. intros Hpid [Hne Htoken].
  destruct (show_Z_digits pid) as (Hshow & Hdigits & _); [lia|].
  assert (Forall (λ c, 48 ≤ c) (show_Z pid)) as Hd.
  { eapply Forall_impl; [exact Hdigits|]. cbn. intros c Hc%is_ascii_digit_small. lia. }
  assert (Forall (λ c, 48 ≤ c) token) as Ht.
  { eapply Forall_impl; [exact Htoken|]. apply hexdigit_small. }
  assert (∀ prefix s, s ≠ [] → Forall (λ c, 48 ≤ c) s → last (prefix ++ s) ≠ Some 13) as Hlast.
  { intros prefix s Hs Hall. rewrite last_app. destruct (last s) as [c|] eqn:Hc.
    - apply last_elem_of in Hc. rewrite Forall_forall in Hall. apply Hall in Hc. intros [= ->]. lia.
    - by apply last_None in Hc. }
  unfold parse_lock, encode_owner. cbn [owner_pid owner_token].
  replace (lit "pid=" ++ show_Z pid ++ [10] ++ lit "token=" ++ token ++ [10])
    with ((lit "pid=" ++ show_Z pid) ++ [10] ++ (lit "token=" ++ token) ++ [10])
    by (by rewrite <-!app_assoc).
  rewrite str_lines_two.
  - rewrite !strip_cr_id by (by apply Hlast). cbn [foldl]. unfold parse_lock_line at 2.
    rewrite strip_prefix_app, parse_unsigned_show by done. cbn [snd].
    unfold parse_lock_line. change (strip_prefix (lit "pid=") (lit "token=" ++ token)) with (@None rstring).
    rewrite strip_prefix_app. destruct (is_empty token) eqn:E; [by apply is_empty_true in E|]. done.
  - apply Forall_app. split; [by repeat constructor|]. eapply Forall_impl; [exact Hd|]. cbn. lia.
  - apply Forall_app. split; [by repeat constructor|]. eapply Forall_impl; [exact Ht|]. cbn. lia.
Qed.

(** The actions of a process, by where it is. *)
Ltac lock_act_inv Hact :=
  unfold lock_act in Hact; apply bind_Some in Hact as (?pc & ?Hpc & Hact);
  match goal with a : LockAction |- _ => destruct a end;
  match type of Hpc with _ = Some ?pc => destruct pc as [|[|?attempts]|?inode|?attempts|?attempts ?text
    |?attempts ?text|?attempts|?inode|?inode| |] end;
  cbn [acquire_act reclaim_act drop_act first_some] in Hact;
  try discriminate Hact; repeat case_match; try discriminate Hact;
  apply (inj Some) in Hact; subst.
Ltac lock_simpl :=
  cbn [move set_path set_body create_file end_process lock_pcs lock_path lock_files lock_next_inode].

Section lock_facts.
Context (token_of : nat → rstring).

(** * Termination *)

(** What a process may still do before it has the lock or gave up. *)
Definition acquire_measure (pc : LockPc) : nat :=
  match pc with
  | Trying n => 5 * n + 1
  | Looking n => 5 * n + 5
  | Seen n _ => 5 * n + 4
  | Judged n _ => 5 * n + 3
  | Removing n => 5 * n + 2
  | Created _ => 1
  | _ => 0
  end.

Definition acquire_action (a : LockAction) : Prop :=
  match a with
  | Create | WriteBody _ | GiveUp | ReadLock | Judge | Compare | Remove => True
  | _ => False
  end.

(** It has the lock, or an answer for its caller. *)
Definition acquired (pc : LockPc) : Prop := acquire_measure pc = 0%nat.

Lemma lock_act_other p a s s' q :
  lock_act token_of p a s = Some s' → q ≠ p → lock_pcs s' !! q = lock_pcs s !! q.
Proof.
  intros Hact Hq. lock_act_inv Hact; lock_simpl;
    first [by rewrite lookup_insert_ne|by rewrite lookup_delete_ne].
Qed.

Lemma acquire_act_decreases p a s s' pc :
  lock_act token_of p a s = Some s' → lock_pcs s !! p = Some pc → acquire_action a →
  ∃ pc', lock_pcs s' !! p = Some pc' ∧ (acquire_measure pc' < acquire_measure pc)%nat.
Proof.
  intros Hact Hpc' Ha. lock_act_inv Hact; try done; simplify_eq;
    lock_simpl; rewrite lookup_insert_eq; eexists; (split; [done|]); cbn [acquire_measure]; lia.
Qed.

Lemma acquire_act_enabled p s pc :
  lock_pcs s !! p = Some pc → ¬ acquired pc →
  ∃ a s', acquire_action a ∧ lock_act token_of p a s = Some s'.
Proof.
  intros Hpc Hmeasure. unfold acquired in Hmeasure. unfold lock_act. rewrite Hpc.
  cbn [mbind option_bind].
  destruct pc as [|[]|?|?|? ?|? ?|?|?|?| |]; try done;
    [exists GiveUp|exists Create|exists (WriteBody true)|exists ReadLock|exists Judge
    |exists Compare|exists Remove]; eexists; (split; [done|]); reflexivity.
Qed.

Definition actions_of (p : Z) (trace : list (Z * LockAction)) : list LockAction :=
  snd <$> filter (λ e, e.1 = p) trace.

Lemma actions_of_cons p q a trace :
  actions_of p ((q, a) :: trace) = if decide (q = p) then a :: actions_of p trace else actions_of p trace.
Proof. unfold actions_of. rewrite filter_cons. cbn [fst]. by destruct (decide (q = p)). Qed.

Lemma run_lock_measure p trace s s' pc :
  run_lock token_of trace s = Some s' → lock_pcs s !! p = Some pc →
  Forall acquire_action (actions_of p trace) →
  ∃ pc', lock_pcs s' !! p = Some pc'
    ∧ (length (actions_of p trace) + acquire_measure pc' ≤ acquire_measure pc)%nat.
Proof.
  revert s pc. induction trace as [|[q a] trace IH]; intros s pc; cbn [run_lock].
  - intros [= <-] Hpc _. exists pc. split; [done|]. cbn. lia.
  - intros (s1 & Hact & Hrun)%bind_Some Hpc. rewrite actions_of_cons. case_decide as Hq.
    + subst q. intros [Ha Hall]%Forall_cons.
      destruct (acquire_act_decreases _ _ _ _ _ Hact Hpc Ha) as (pc1 & Hpc1 & Hlt).
      destruct (IH _ _ Hrun Hpc1 Hall) as (pc' & Hpc' & Hle). exists pc'. split; [done|]. cbn. lia.
    + intros Hall. eapply IH; [exact Hrun| |done].
      by rewrite (lock_act_other _ _ _ _ _ Hact).
Qed.

(** C28: Taking the lock ends, whatever the other processes do meanwhile: from the start
    of an acquisition a process takes at most 251 actions, and as long as it has
    neither the lock nor an answer its next action is never blocked. *)
Theorem acquiring_the_lock_ends p trace s s' :
  lock_pcs s !! p = Some (Trying LOCK_WAIT_ATTEMPTS) →
  run_lock token_of trace s = Some s' →
  Forall acquire_action (actions_of p trace) →
  (length (actions_of p trace) ≤ 251)%nat
  ∧ ∃ pc, lock_pcs s' !! p = Some pc
      ∧ (acquired pc ∨ ∃ a s'', acquire_action a ∧ lock_act token_of p a s' = Some s'').
Proof.
  intros Hpc Hrun Hall. destruct (run_lock_measure _ _ _ _ _ Hrun Hpc Hall) as (pc & Hpc' & Hle).
  change (acquire_measure (Trying LOCK_WAIT_ATTEMPTS)) with 251%nat in Hle.
  split; [lia|]. exists pc. split; [done|].
  destruct (decide (acquire_measure pc = 0%nat)); [by left|right]. by eapply acquire_act_enabled.
Qed.

(** * A dead owner *)

Lemma run_lock_step p a trace s s1 s' :
  lock_act token_of p a s = Some s1 → run_lock token_of trace s1 = Some s' →
  run_lock token_of ((p, a) :: trace) s = Some s'.
Proof. intros Hact Hrun. cbn [run_lock]. by rewrite Hact. Qed.

Lemma lock_text_move p pc s : lock_text (move p pc s) = lock_text s.
Proof. done. Qed.

(** What an action does where the process is. *)
Lemma acquire_step p a s pc s' :
  lock_pcs s !! p = Some pc → acquire_action a →
  first_some (acquire_act token_of p pc a s) (reclaim_act p pc a s) = Some s' →
  lock_act token_of p a s = Some s'.
Proof.
  intros Hpc Ha Hact. unfold lock_act. rewrite Hpc. cbn [mbind option_bind].
  destruct a; try done; destruct (acquire_act token_of p pc _ s); cbn [first_some] in *;
    try done; by rewrite Hact.
Qed.

Lemma alive_here p s :
  0 < p ≤ i32_max → is_Some (lock_pcs s !! p) → process_is_alive p s = true.
Proof.
  intros Hp Hpc. unfold process_is_alive.
  by rewrite (proj2 (Z.leb_le _ _)), (proj2 (Z.ltb_lt _ _)), bool_decide_eq_true_2 by (done || lia).
Qed.

Lemma dead_after_move owner p pc s :
  is_Some (lock_pcs s !! p) →
  process_is_alive (owner_pid owner) (move p pc s) = process_is_alive (owner_pid owner) s.
Proof.
  intros Hp. unfold process_is_alive. f_equal. apply bool_decide_ext. cbn [move lock_pcs].
  destruct (decide (p = owner_pid owner)) as [<-|]; [|by rewrite lookup_insert_ne].
  by rewrite lookup_insert_eq.
Qed.

(** A lock whose owner is gone is taken over: a process with two attempts left that
    runs by itself removes the file, makes its own and holds the lock. *)
Theorem dead_owner_is_reclaimed s p attempts inode owner :
  lock_pcs s !! p = Some (Trying (S (S attempts))) →
  lock_path s = Some inode →
  lock_files s !! inode = Some (encode_owner owner) →
  0 ≤ owner_pid owner ≤ u32_max → hex_token (owner_token owner) →
  process_is_alive (owner_pid owner) s = false →
  ∃ s', run_lock token_of
          ((λ a, (p, a)) <$> [Create; ReadLock; Judge; Compare; Remove; Create; WriteBody true]) s
        = Some s'
    ∧ lock_pcs s' !! p = Some (Holding (lock_next_inode s))
    ∧ lock_text s' = Some (encode_owner (owner_of token_of p (lock_next_inode s))).
Proof.
  intros Hpc Hpath Hbody Hpid Htoken Hdead.
  pose proof (parse_encode_owner owner Hpid Htoken) as Hparse.
  set (text := encode_owner owner) in *.
  assert (lock_text s = Some text) as Htext by (unfold lock_text; by rewrite Hpath).
  eexists. split; [|split].
  - cbn [fmap list_fmap].
    eapply run_lock_step; [eapply acquire_step; [exact Hpc|done|cbn; by rewrite Hpath]|].
    eapply run_lock_step; [eapply acquire_step; [apply lookup_insert_eq|done|]|].
    { cbn [acquire_act reclaim_act first_some]. by rewrite lock_text_move, Htext. }
    eapply run_lock_step; [eapply acquire_step; [apply lookup_insert_eq|done|]|].
    { cbn [acquire_act reclaim_act first_some]. rewrite Hparse.
      by rewrite !dead_after_move, Hdead by (cbn [move lock_pcs]; rewrite ?lookup_insert_eq; eauto). }
    eapply run_lock_step; [eapply acquire_step; [apply lookup_insert_eq|done|]|].
    { cbn [acquire_act reclaim_act first_some]. rewrite !lock_text_move, Htext.
      by rewrite bool_decide_eq_true_2. }
    eapply run_lock_step; [eapply acquire_step; [apply lookup_insert_eq|done|done]|].
    eapply run_lock_step; [eapply acquire_step; [apply lookup_insert_eq|done|done]|].
    eapply run_lock_step; [eapply acquire_step; [apply lookup_insert_eq|done|done]|].
    reflexivity.
  - lock_simpl. apply lookup_insert_eq.
  - unfold lock_text. lock_simpl. cbn [mbind option_bind]. by rewrite lookup_insert_eq.
Qed.
End lock_facts.

(** * Exclusion *)

(** The file a process made and has not given back. *)
Definition held_file (pc : LockPc) : option nat :=
  match pc with Created i | Holding i | Dropping i => Some i | _ => None end.

Definition held (s : LockWorld) (p : Z) : option nat := lock_pcs s !! p ≫= held_file.

(** Waiting, without a lock file to remove. *)
Definition harmless (pc : LockPc) : bool :=
  match pc with
  | Outside | Trying _ | Looking _ | Refused | Failed => true
  | _ => false
  end.

Section exclusion.
Context (token_of : nat → rstring).

Definition body_of (p : Z) (pc : LockPc) : option rstring :=
  match pc with
  | Created _ => Some []
  | Holding i | Dropping i => Some (encode_owner (owner_of token_of p i))
  | _ => None
  end.

(** The lock file belongs to the one process that holds it, and says so once its body
    is written; nobody is about to remove it for another. *)
Record lock_inv (s : LockWorld) : Prop := {
  li_path p i : held s p = Some i → lock_path s = Some i;
  li_one p q i : held s p = Some i → held s q = Some i → p = q;
  li_owned i : lock_path s = Some i → ∃ p, held s p = Some i;
  li_body p pc i : lock_pcs s !! p = Some pc → held_file pc = Some i →
    lock_files s !! i = body_of p pc;
  li_others p pc : lock_pcs s !! p = Some pc →
    is_Some (held_file pc) ∨ harmless pc = true
    ∨ ∃ n q i, pc = Seen n (encode_owner (owner_of token_of q i)) ∧ is_Some (lock_pcs s !! q);
  li_pids p : is_Some (lock_pcs s !! p) → 0 < p ≤ i32_max
}.

Lemma held_move p pc s q :
  held (move p pc s) q = if decide (p = q) then held_file pc else held s q.
Proof.
  unfold held. cbn [move lock_pcs]. case_decide; subst.
  - by rewrite lookup_insert_eq.
  - by rewrite lookup_insert_ne.
Qed.

Lemma held_at s p pc : lock_pcs s !! p = Some pc → held s p = held_file pc.
Proof. unfold held. by intros ->. Qed.

(** A process that holds nothing moves to where it holds nothing. *)
Lemma lock_inv_move s p pc pc' :
  lock_inv s → lock_pcs s !! p = Some pc → held_file pc = None → held_file pc' = None →
  harmless pc' = true
    ∨ (∃ n q i, pc' = Seen n (encode_owner (owner_of token_of q i)) ∧ is_Some (lock_pcs s !! q)) →
  lock_inv (move p pc' s).
Proof.
  intros [Hpath Hone Howned Hbody Hothers Hpids] Hp Hpc Hpc' Hnew.
  assert (∀ q, held (move p pc' s) q = held s q) as Hheld.
  { intros q. rewrite held_move. case_decide; [subst q|done]. by rewrite Hpc', (held_at _ _ _ Hp). }
  assert (∀ q, is_Some (lock_pcs s !! q) → is_Some (lock_pcs (move p pc' s) !! q)) as Hsome.
  { intros q Hq. cbn [move lock_pcs]. destruct (decide (p = q)) as [<-|]; [rewrite lookup_insert_eq; eauto|].
    by rewrite lookup_insert_ne. }
  split.
  - intros q i. rewrite Hheld. apply Hpath.
  - intros q r i. rewrite !Hheld. apply Hone.
  - intros i Hi. destruct (Howned i Hi) as [q Hq]. exists q. by rewrite Hheld.
  - intros q qc i. cbn [move lock_pcs lock_files]. destruct (decide (p = q)) as [<-|].
    + rewrite lookup_insert_eq. intros [= <-]. congruence.
    + rewrite lookup_insert_ne by done. apply Hbody.
  - intros q qc. cbn [move lock_pcs]. destruct (decide (p = q)) as [<-|].
    + rewrite lookup_insert_eq. intros [= <-]. right.
      destruct Hnew as [|(k & r & j & Heq & Hr)]; [by left|].
      right. exists k, r, j. split; [done|]. by apply Hsome.
    + rewrite lookup_insert_ne by done. intros Hq.
      destruct (Hothers q qc Hq) as [|[|(k & r & j & Heq & Hr)]]; [by left|by right; left|].
      right. right. exists k, r, j. split; [done|]. by apply Hsome.
  - intros q. cbn [move lock_pcs]. destruct (decide (p = q)) as [<-|].
    + intros _. apply Hpids. eauto.
    + rewrite lookup_insert_ne by done. apply Hpids.
Qed.

(** Nobody holds the lock when there is no file. *)
Lemma lock_inv_free s : lock_inv s → lock_path s = None → ∀ p, held s p = None.
Proof.
  intros Hinv Hpath p. destruct (held s p) as [i|] eqn:Hp; [|done].
  apply (li_path s Hinv) in Hp. congruence.
Qed.

(** The lock passes to [p], alone, at inode [i] of body [body_of p pc']. *)
Lemma lock_inv_take s s' p pc pc' i :
  lock_inv s → lock_pcs s !! p = Some pc → held_file pc' = Some i →
  (∀ q, q ≠ p → held s q = None) →
  lock_path s' = Some i → lock_files s' !! i = body_of p pc' → lock_pcs s' = <[p := pc']> (lock_pcs s) →
  lock_inv s'.
Proof.
  intros [Hpath Hone Howned Hbody Hothers Hpids] Hp Hpc' Halone Hpath' Hbody' Hpcs.
  assert (∀ q, held s' q = if decide (p = q) then Some i else None) as Hheld.
  { intros q. unfold held. rewrite Hpcs. case_decide as Hq; [subst q; by rewrite lookup_insert_eq|].
    rewrite lookup_insert_ne by done. by apply Halone. }
  assert (∀ q, is_Some (lock_pcs s !! q) ↔ is_Some (lock_pcs s' !! q)) as Hsome.
  { intros q. rewrite Hpcs. destruct (decide (p = q)) as [<-|]; [|by rewrite lookup_insert_ne].
    rewrite lookup_insert_eq, Hp. by split; eauto. }
  split.
  - intros q j. rewrite Hheld. case_decide; [|done]. by intros [= <-].
  - intros q r j. rewrite !Hheld. do 2 case_decide; congruence.
  - intros j. rewrite Hpath'. intros [= <-]. exists p. rewrite Hheld. by rewrite decide_True.
  - intros q qc j Hq Hj. pose proof (Hheld q) as Hh. rewrite (held_at _ _ _ Hq), Hj in Hh.
    case_decide as Heq; [|done]. subst q. injection Hh as ->. rewrite Hpcs, lookup_insert_eq in Hq.
    by injection Hq as <-.
  - intros q qc. setoid_rewrite <-Hsome. rewrite Hpcs. destruct (decide (p = q)) as [<-|].
    + rewrite lookup_insert_eq. intros [= <-]. left. eauto.
    + rewrite lookup_insert_ne by done. apply Hothers.
  - intros q. rewrite <-Hsome. apply Hpids.
Qed.

(** The holder gives the lock back. *)
Lemma lock_inv_drop s p pc pc' i :
  lock_inv s → lock_pcs s !! p = Some pc → held_file pc = Some i → harmless pc' = true →
  lock_inv (move p pc' (set_path None s)).
Proof.
  intros [Hpath Hone Howned Hbody Hothers Hpids] Hp Hpc Hpc'.
  assert (held s p = Some i) as Hheldp by (by rewrite (held_at _ _ _ Hp)).
  assert (held_file pc' = None) as Hnone by (by destruct pc').
  assert (∀ q, held (move p pc' (set_path None s)) q = None) as Hheld.
  { intros q. rewrite held_move. case_decide; [done|]. change (held (set_path None s) q) with (held s q).
    destruct (held s q) as [j|] eqn:Hq; [|done]. exfalso.
    pose proof (Hpath q j Hq). pose proof (Hpath p i Hheldp). simplify_eq.
    by apply (Hone p q j) in Hq. }
  assert (∀ q, is_Some (lock_pcs s !! q) ↔ is_Some (<[p := pc']> (lock_pcs s) !! q)) as Hsome.
  { intros q. destruct (decide (p = q)) as [<-|]; [|by rewrite lookup_insert_ne].
    rewrite lookup_insert_eq, Hp. by split; eauto. }
  split.
  - intros q j. by rewrite Hheld.
  - intros q r j. by rewrite Hheld.
  - done.
  - intros q qc j Hq Hj. pose proof (Hheld q) as Hh. by rewrite (held_at _ _ _ Hq), Hj in Hh.
  - intros q qc. cbn [move set_path lock_pcs]. setoid_rewrite <-Hsome. destruct (decide (p = q)) as [<-|].
    + rewrite lookup_insert_eq. intros [= <-]. right. by left.
    + rewrite lookup_insert_ne by done. apply Hothers.
  - intros q. cbn [move set_path lock_pcs]. rewrite <-Hsome. apply Hpids.
Qed.

(** ** Every action keeps it *)

Context (token_hex : ∀ i, hex_token (token_of i)).

Lemma owner_read_back p i :
  0 < p ≤ i32_max → parse_lock (encode_owner (owner_of token_of p i)) = Some (owner_of token_of p i).
Proof using Type*.
  intros Hp. apply parse_encode_owner; [|apply token_hex]. cbn. unfold i32_max, u32_max in *. lia.
Qed.

Lemma alone s p i q : lock_inv s → held s p = Some i → q ≠ p → held s q = None.
Proof using Type.
  intros Hinv Hp Hq. destruct (held s q) as [j|] eqn:Hj; [|done]. exfalso. apply Hq.
  pose proof (li_path s Hinv _ _ Hp). pose proof (li_path s Hinv _ _ Hj).
  assert (j = i) as -> by congruence. by apply (li_one s Hinv q p i).
Qed.

(** A text that is not empty names a process that is there. *)
Lemma text_names_owner s text :
  lock_inv s → lock_text s = Some text → text ≠ [] →
  ∃ q i, text = encode_owner (owner_of token_of q i) ∧ is_Some (lock_pcs s !! q).
Proof using Type.
  intros Hinv Htext Hne. unfold lock_text in Htext. apply bind_Some in Htext as (i & Hi & Htext).
  destruct (li_owned s Hinv i Hi) as [q Hq]. pose proof Hq as Hpc. unfold held in Hpc.
  apply bind_Some in Hpc as (pc & Hpc & Hheld).
  pose proof (li_body s Hinv q pc i Hpc Hheld) as Hbody. rewrite Htext in Hbody.
  destruct pc; try done; cbn in Hbody; simplify_eq; eauto.
Qed.

Lemma held_text s p pc i :
  lock_inv s → lock_pcs s !! p = Some pc → held_file pc = Some i → lock_text s = body_of p pc.
Proof using Type.
  intros Hinv Hp Hpc. unfold lock_text. rewrite (li_path s Hinv p i).
  - by apply (li_body s Hinv).
  - by rewrite (held_at _ _ _ Hp).
Qed.

Lemma create_inv s p attempts :
  lock_inv s → lock_pcs s !! p = Some (Trying attempts) → lock_path s = None →
  lock_inv (move p (Created (lock_next_inode s)) (create_file s)).
Proof using Type.
  intros Hinv Hp Hpath.
  apply (lock_inv_take s _ p (Trying attempts) (Created (lock_next_inode s)) (lock_next_inode s));
    [exact Hinv|exact Hp|done| |done| |done].
  - intros q _. by apply lock_inv_free.
  - lock_simpl. by rewrite lookup_insert_eq.
Qed.

Lemma write_inv s p i :
  lock_inv s → lock_pcs s !! p = Some (Created i) →
  lock_inv (move p (Holding i) (set_body i (encode_owner (owner_of token_of p i)) s)).
Proof using Type.
  intros Hinv Hp. assert (held s p = Some i) as Hheld by (by rewrite (held_at _ _ _ Hp)).
  apply (lock_inv_take s _ p (Created i) (Holding i) i); [exact Hinv|exact Hp|done| | | |done].
  - intros q Hq. by eapply alone.
  - by apply (li_path s Hinv p).
  - lock_simpl. by rewrite lookup_insert_eq.
Qed.

Lemma read_inv s p attempts :
  lock_inv s → lock_pcs s !! p = Some (Looking attempts) → lock_text s ≠ Some [] →
  lock_inv (match lock_text s with
            | Some text => move p (Seen attempts text) s
            | None => move p (Trying attempts) s
            end).
Proof using Type.
  intros Hinv Hp Hwritten. destruct (lock_text s) as [text|] eqn:Htext;
    eapply lock_inv_move; try done; [|by left].
  right. destruct (text_names_owner s text Hinv Htext) as (q & i & -> & Hq); [congruence|eauto].
Qed.

Lemma judge_inv s p attempts text :
  lock_inv s → lock_pcs s !! p = Some (Seen attempts text) →
  lock_inv (match parse_lock text with
            | Some owner =>
                if process_is_alive (owner_pid owner) s then move p (Trying attempts) s
                else move p (Judged attempts text) s
            | None => move p (Judged attempts text) s
            end).
Proof using Type*.
  intros Hinv Hp. destruct (li_others s Hinv _ _ Hp) as [[? ?]|[?|(n & q & i & Heq & Hq)]]; [done..|].
  injection Heq as <- ->. pose proof (li_pids s Hinv q Hq) as Hpid.
  rewrite owner_read_back by done. cbn [owner_of owner_pid]. unfold process_is_alive.
  rewrite (proj2 (Z.leb_le _ _)), (proj2 (Z.ltb_lt _ _)), bool_decide_eq_true_2 by (done || lia).
  cbn [andb]. eapply lock_inv_move; try done. by left.
Qed.

Lemma release_inv s p i :
  lock_inv s → lock_pcs s !! p = Some (Holding i) →
  lock_inv (match lock_text s ≫= parse_lock with
            | Some owner =>
                if bool_decide (owner_token owner = token_of i) then move p (Dropping i) s
                else move p Outside s
            | None => move p Outside s
            end).
Proof using Type*.
  intros Hinv Hp. assert (held s p = Some i) as Hheld by (by rewrite (held_at _ _ _ Hp)).
  rewrite (held_text _ _ _ _ Hinv Hp eq_refl). cbn [body_of mbind option_bind].
  rewrite owner_read_back by (apply (li_pids s Hinv); eauto).
  rewrite bool_decide_eq_true_2 by done.
  apply (lock_inv_take s _ p (Holding i) (Dropping i) i); [exact Hinv|exact Hp|done| | | |done].
  - intros q Hq. by eapply alone.
  - by apply (li_path s Hinv p).
  - by apply (li_body s Hinv p (Holding i) i).
Qed.

(** An action of a run without crashes, in which nobody reads the lock file between its
    creation and the write of its body. *)
Definition calm_action (a : LockAction) (s : LockWorld) : Prop :=
  a ≠ Crash ∧ (a = ReadLock → lock_text s ≠ Some []).

Lemma lock_act_keeps p a s s' :
  lock_act token_of p a s = Some s' → calm_action a s → lock_inv s → lock_inv s'.
Proof using Type*.
  intros Hact [Hcrash Hread] Hinv. unfold lock_act in Hact. apply bind_Some in Hact as (pc & Hp & Hact).
  destruct (li_others s Hinv _ _ Hp) as [[i Hi]|[Hharm|(n & q & i & -> & Hq)]].
  - destruct pc; try done; destruct a as [| |[]| | | | | | | |]; try done; apply (inj Some) in Hact; subst;
      [by apply write_inv|by eapply lock_inv_drop|by apply release_inv|by eapply lock_inv_drop].
  - destruct pc as [|[]|?|?|? ?|? ?|?|?|?| |], a as [| |[]| | | | | | | |]; try done;
      apply (inj Some) in Hact; subst; try (eapply lock_inv_move; [done..|by left]).
    + destruct (lock_path s) eqn:Hpath; [eapply lock_inv_move; [done..|by left]|by eapply create_inv].
    + apply read_inv; [done..|by apply Hread].
  - destruct a as [| |[]| | | | | | | |]; try done; apply (inj Some) in Hact; subst. by apply judge_inv.
Qed.

Fixpoint calm_run (trace : list (Z * LockAction)) (s : LockWorld) : Prop :=
  match trace with
  | [] => True
  | (p, a) :: trace =>
      calm_action a s ∧ match lock_act token_of p a s with Some s1 => calm_run trace s1 | None => True end
  end.

Lemma run_lock_keeps trace s s' :
  run_lock token_of trace s = Some s' → calm_run trace s → lock_inv s → lock_inv s'.
Proof using Type*.
  revert s. induction trace as [|[p a] trace IH]; intros s; cbn [run_lock calm_run].
  - by intros [= <-].
  - intros (s1 & Hact & Hrun)%bind_Some [Hcalm Hrest] Hinv. rewrite Hact in Hrest.
    eapply IH; [exact Hrun|done|]. by eapply lock_act_keeps.
Qed.

Lemma lock_start_pcs pids p pc : lock_pcs (lock_start pids) !! p = Some pc → pc = Outside ∧ p ∈ pids.
Proof using Type.
  cbn [lock_start lock_pcs]. intros Hp. apply elem_of_list_to_map_2, list_elem_of_fmap in Hp
    as (q & [= -> ->] & Hq). done.
Qed.

Lemma lock_inv_start pids : Forall (λ p, 0 < p ≤ i32_max) pids → lock_inv (lock_start pids).
Proof using Type.
  intros Hpids. assert (∀ p, held (lock_start pids) p = None) as Hheld.
  { intros p. unfold held. destruct (lock_pcs (lock_start pids) !! p) eqn:Hp; [|done].
    by apply lock_start_pcs in Hp as [-> _]. }
  split.
  - intros p i. by rewrite Hheld.
  - intros p q i. by rewrite Hheld.
  - done.
  - intros p pc i Hp. by apply lock_start_pcs in Hp as [-> _].
  - intros p pc Hp. apply lock_start_pcs in Hp as [-> _]. right. by left.
  - intros p [pc Hp]. apply lock_start_pcs in Hp as [_ Hp]. rewrite Forall_forall in Hpids. by apply Hpids.
Qed.

(** C29: The lock excludes: in every interleaving without crashes in which nobody reads
    the lock file between its creation and the write of its body, at most one
    process holds the lock, the lock file is its own, and it names it. *)
Theorem lock_excludes_when_bodies_are_seen pids trace s :
  Forall (λ p, 0 < p ≤ i32_max) pids →
  calm_run trace (lock_start pids) →
  run_lock token_of trace (lock_start pids) = Some s →
  ∀ p i, lock_pcs s !! p = Some (Holding i) →
    lock_path s = Some i
    ∧ lock_text s = Some (encode_owner (owner_of token_of p i))
    ∧ ∀ q j, lock_pcs s !! q = Some (Holding j) → q = p.
Proof using Type*.
  intros Hpids Hcalm Hrun p i Hp.
  pose proof (run_lock_keeps _ _ _ Hrun Hcalm (lock_inv_start _ Hpids)) as Hinv.
  assert (held s p = Some i) as Hheld by (by rewrite (held_at _ _ _ Hp)).
  split_and!.
  - by apply (li_path s Hinv p).
  - apply (held_text _ _ _ _ Hinv Hp eq_refl).
  - intros q j Hq. destruct (decide (q = p)) as [|Hne]; [done|]. exfalso.
    pose proof (alone _ _ _ _ Hinv Hheld Hne) as Hnone. by rewrite (held_at _ _ _ Hq) in Hnone.
Qed.
End exclusion.

(** * And when it does not *)

(** [p] has made the lock file and not yet written its body when [q] asks for the
    lock: [q] finds the file, reads it, sees no owner, removes it and makes its own. *)
Definition hasty_trace (p q : Z) : list (Z * LockAction) :=
  [(q, Create); (q, ReadLock); (q, Judge); (q, Compare); (q, Remove);
   (p, WriteBody true); (q, Create); (q, WriteBody true)].

(** C30: Any two live processes can hold the lock at once: whenever one has made the
    lock file and not yet written its body while another has two attempts left, the
    other may look at the file, find no owner in it, remove it and make its own,
    after which both hold the lock. Nobody crashed, no call failed, and nobody else
    moved, whatever they were doing. *)
Theorem lock_admits_two_live_holders token_of s p q i attempts
    (Hp : lock_pcs s !! p = Some (Created i))
    (Hpath : lock_path s = Some i) (Hbody : lock_files s !! i = Some [])
    (Hq : lock_pcs s !! q = Some (Trying (S (S attempts))))
    (Hlive : 0 < p ≤ i32_max ∧ 0 < q ≤ i32_max) : ∃ s',
  run_lock token_of (hasty_trace p q) s = Some s'
  ∧ lock_pcs s' !! p = Some (Holding i)
  ∧ lock_pcs s' !! q = Some (Holding (lock_next_inode s))
  ∧ process_is_alive p s' = true ∧ process_is_alive q s' = true
  ∧ lock_text s' = Some (encode_owner (owner_of token_of q (lock_next_inode s)))
  ∧ ∀ r, r ≠ p → r ≠ q → lock_pcs s' !! r = lock_pcs s !! r.
Proof.
  assert (p ≠ q) as Hne by (intros ->; congruence).
  assert (lock_text s = Some []) as Htext by (unfold lock_text; by rewrite Hpath).
  eexists. split; [|split; [|split; [|split; [|split; [|split]]]]].
  - eapply run_lock_step; [eapply acquire_step; [exact Hq|done|cbn; by rewrite Hpath]|].
    eapply run_lock_step; [eapply acquire_step; [apply lookup_insert_eq|done|]|].
    { cbn [acquire_act reclaim_act first_some]. by rewrite lock_text_move, Htext. }
    eapply run_lock_step; [eapply acquire_step; [apply lookup_insert_eq|done|]|].
    { cbn [acquire_act reclaim_act first_some]. change (parse_lock []) with (@None LockOwner).
      cbn iota. reflexivity. }
    eapply run_lock_step; [eapply acquire_step; [apply lookup_insert_eq|done|]|].
    { cbn [acquire_act reclaim_act first_some]. rewrite !lock_text_move, Htext.
      by rewrite bool_decide_eq_true_2. }
    eapply run_lock_step; [eapply acquire_step; [apply lookup_insert_eq|done|done]|].
    eapply run_lock_step; [eapply (acquire_step _ p _ _ (Created i)); [|done|done]|].
    { lock_simpl. rewrite !lookup_insert_ne by done. exact Hp. }
    eapply run_lock_step; [eapply (acquire_step _ q _ _ (Trying (S attempts))); [|done|done]|].
    { lock_simpl. rewrite lookup_insert_ne by done. apply lookup_insert_eq. }
    eapply run_lock_step; [eapply acquire_step; [apply lookup_insert_eq|done|done]|].
    reflexivity.
  - lock_simpl. rewrite !lookup_insert_ne by done. apply lookup_insert_eq.
  - lock_simpl. apply lookup_insert_eq.
  - apply alive_here; [apply Hlive|]. lock_simpl. rewrite !lookup_insert_ne by done. by rewrite lookup_insert_eq.
  - apply alive_here; [apply Hlive|]. lock_simpl. by rewrite lookup_insert_eq.
  - unfold lock_text. lock_simpl. cbn [mbind option_bind]. by rewrite lookup_insert_eq.
  - intros r Hrp Hrq. lock_simpl. by rewrite !lookup_insert_ne by done.
Qed.

(** * Instances *)

Definition sample_token (i : nat) : rstring := lit "c0ffee".
Lemma sample_token_hex i : hex_token (sample_token i).
Proof. split; [done|]. by repeat constructor. Qed.

Definition contended_trace : list (Z * LockAction) :=
  [(1, Enter); (1, Create); (2, Create); (2, ReadLock)].
Definition contended : LockWorld :=
  move 2 (Trying LOCK_WAIT_ATTEMPTS) (lock_start [1; 2]).

Lemma acquiring_the_lock_ends_witness : ∃ s',
  run_lock sample_token contended_trace contended = Some s'
  ∧ (length (actions_of 2 contended_trace) ≤ 251)%nat
  ∧ ∃ pc, lock_pcs s' !! 2 = Some pc
      ∧ (acquired pc ∨ ∃ a s'', acquire_action a ∧ lock_act sample_token 2 a s' = Some s'').
Proof.
  eexists. split; [reflexivity|].
  apply (acquiring_the_lock_ends sample_token 2 contended_trace contended);
    [done|reflexivity|by repeat constructor].
Defined.

(** The file of a process that is gone. *)
Definition dead_owner : LockOwner := {| owner_pid := 7; owner_token := lit "dead" |}.
Definition abandoned : LockWorld :=
  {| lock_path := Some 0%nat; lock_files := {[ 0%nat := encode_owner dead_owner ]};
     lock_next_inode := 1; lock_pcs := {[ 2 := Trying LOCK_WAIT_ATTEMPTS ]} |}.

Lemma dead_owner_is_reclaimed_witness : ∃ s',
  run_lock sample_token
    ((λ a, (2, a)) <$> [Create; ReadLock; Judge; Compare; Remove; Create; WriteBody true]) abandoned
  = Some s'
  ∧ lock_pcs s' !! 2 = Some (Holding 1)
  ∧ lock_text s' = Some (encode_owner (owner_of sample_token 2 1)).
Proof.
  apply (dead_owner_is_reclaimed sample_token abandoned 2 48 0 dead_owner);
    [done|done|done|done| |done].
  split; [done|]. by repeat constructor.
Defined.

Definition polite_trace : list (Z * LockAction) :=
  [(1, Enter); (1, Create); (1, WriteBody true); (2, Enter); (2, Create); (2, ReadLock); (2, Judge)].

Lemma lock_excludes_when_bodies_are_seen_witness : ∃ s,
  run_lock sample_token polite_trace (lock_start [1; 2]) = Some s
  ∧ lock_path s = Some 0%nat
  ∧ lock_text s = Some (encode_owner (owner_of sample_token 1 0))
  ∧ ∀ q j, lock_pcs s !! q = Some (Holding j) → q = 1.
Proof.
  eexists. split; [reflexivity|].
  apply (lock_excludes_when_bodies_are_seen sample_token sample_token_hex [1; 2] polite_trace).
  - by repeat constructor.
  - vm_compute. repeat split; discriminate.
  - reflexivity.
  - reflexivity.
Defined.

(** Process 1 has made the file of inode 0; a third process waits for its turn. *)
Definition unwritten : LockWorld :=
  {| lock_path := Some 0%nat; lock_files := {[ 0%nat := [] ]}; lock_next_inode := 1;
     lock_pcs := {[ 1 := Created 0; 2 := Trying LOCK_WAIT_ATTEMPTS; 3 := Outside ]} |}.

Lemma lock_admits_two_live_holders_witness :
  run_lock sample_token [(1, Enter); (2, Enter); (1, Create)] (lock_start [1; 2; 3]) = Some unwritten
  ∧ ∃ s', run_lock sample_token (hasty_trace 1 2) unwritten = Some s'
  ∧ lock_pcs s' !! 1 = Some (Holding 0) ∧ lock_pcs s' !! 2 = Some (Holding 1)
  ∧ process_is_alive 1 s' = true ∧ process_is_alive 2 s' = true.
Proof.
  split; [reflexivity|].
  refine (match lock_admits_two_live_holders sample_token unwritten 1 2 0 48
    eq_refl eq_refl eq_refl eq_refl _ with
    | ex_intro _ s' (conj Hrun (conj H1 (conj H2 (conj L1 (conj L2 _))))) =>
        ex_intro _ s' (conj Hrun (conj H1 (conj H2 (conj L1 L2))))
    end).
  split; split; by vm_compute.
Defined.
