(* ===== verification/ActorProvenance.v ===== *)
(** The provenance of a socket connection: the capability token of a daemon run
    (impulse-ops/src/operator_capability.rs), the class a connection has earned,
    and the mutations that class may apply (src/daemon/actor_provenance.rs).

    The system's random device, the environment variable and the published file
    are arguments: the bytes read from the device, the variable's value and the
    file's text, [None] where reading them fails. *)
From S2P Require Export Ledger RustText.
Local Open Scope Z_scope.

(** * The token *)

Definition OPERATOR_CAPABILITY_HEX_LEN : Z := 64.
Definition CAPABILITY_BYTES : Z := 32.

Definition parse_token (raw : rstring) : option rstring :=
  let token := trim raw in
  if negb (len token =? OPERATOR_CAPABILITY_HEX_LEN)
     || negb (forallb is_lower_hex_byte (bytes token))
  then None else Some token.

(** The environment's token where it is well formed, else the file's. *)
Definition resolve_for_socket (variable file : option rstring) : option rstring :=
  match variable ≫= parse_token with
  | Some token => Some token
  | None => file ≫= parse_token
  end.

Inductive ActorProvenanceError : Type :=
  | OperatorClassRequired (request : rstring)
  | PeerUidMismatch (peer_uid daemon_uid : Z)
  | PeerCredentialsUnavailable
  | CapabilityRejected
  | CapabilityUnavailable
  | MalformedCapability.
#[export] Instance ActorProvenanceError_eq_dec : EqDecision ActorProvenanceError.
Proof. solve_decision. Defined.

Record OperatorCapability := { capability_token : rstring }.

(** [{byte:02x}]. *)
Definition lower_hex_digit (n : Z) : Z := if n <? 10 then 48 + n else 87 + n.
Definition hex_byte (b : Z) : rstring := [lower_hex_digit (b / 16); lower_hex_digit (b mod 16)].

(** [generate]: [device] is what opening the random device and reading from it
    gives; [read_exact] fails on fewer than [CAPABILITY_BYTES] bytes. *)
Definition generate (device : option (list Z)) : option OperatorCapability :=
  entropy ← device;
  if zlen entropy <? CAPABILITY_BYTES then None
  else Some {| capability_token := take (Z.to_nat CAPABILITY_BYTES) entropy ≫= hex_byte |}.

Definition capability_parse (token : rstring) : result ActorProvenanceError OperatorCapability :=
  match parse_token token with
  | Some token => Ok {| capability_token := token |}
  | None => Err MalformedCapability
  end.

(** The text [write_capability_file] leaves in the file. *)
Definition capability_file (capability : OperatorCapability) : rstring :=
  capability_token capability ++ [10].

(** The loop over the zipped bytes. *)
Fixpoint xor_difference (difference : Z) (expected presented : list Z) : Z :=
  match expected, presented with
  | l :: expected, r :: presented =>
      xor_difference (Z.lor difference (Z.lxor l r)) expected presented
  | _, _ => difference
  end.

Definition matches (capability : OperatorCapability) (presented : rstring) : bool :=
  let expected := bytes (capability_token capability) in
  let presented := bytes (trim presented) in
  if negb (zlen expected =? zlen presented) then false
  else xor_difference 0 expected presented =? 0.

(** * A connection's class *)

(** [OperatorClass] is the source's [ConnectionClass::Operator]. *)
Inductive ConnectionClass : Type := NonOperator | OperatorClass.
#[export] Instance ConnectionClass_eq_dec : EqDecision ConnectionClass.
Proof. solve_decision. Defined.

Definition is_operator (class : ConnectionClass) : bool :=
  match class with OperatorClass => true | NonOperator => false end.

Definition operator_authentication (class : ConnectionClass) : OperatorAuthentication :=
  match class with OperatorClass => CapabilityAuthenticated | NonOperator => Declared end.

Record ConnectionProvenance := {
  peer_uid : option Z;
  daemon_uid : Z;
  connection_class : ConnectionClass
}.

Definition provenance_new (peer_uid : option Z) (daemon_uid : Z) : ConnectionProvenance :=
  {| peer_uid := peer_uid; daemon_uid := daemon_uid; connection_class := NonOperator |}.

(** [present_capability]: the answer and the connection afterwards. *)
Definition present_capability (presented : rstring) (expected : option OperatorCapability)
    (c : ConnectionProvenance)
    : result ActorProvenanceError ConnectionClass * ConnectionProvenance :=
  match peer_uid c with
  | None => (Err PeerCredentialsUnavailable, c)
  | Some uid =>
      if negb (uid =? daemon_uid c) then (Err (PeerUidMismatch uid (daemon_uid c)), c)
      else
        match expected with
        | None => (Err CapabilityUnavailable, c)
        | Some expected =>
            if negb (matches expected presented) then (Err CapabilityRejected, c)
            else (Ok OperatorClass,
                  {| peer_uid := peer_uid c; daemon_uid := daemon_uid c;
                     connection_class := OperatorClass |})
        end
  end.

(** * What a class may do *)

(** The request name a non-operator connection is refused under, if it is. *)
Definition gated_request (mutation : GovernedTaskMutation) (task_is_profiled : bool)
    : option rstring :=
  let then_some name := if task_is_profiled then Some name else None in
  match mutation with
  | RecordOperatorDecision _ => Some (lit "RecordOperatorDecision")
  | MarkRunning _ => then_some (lit "MarkRunning")
  | MarkLaunchFailed _ _ => then_some (lit "MarkLaunchFailed")
  | MarkRuntimeExited _ _ _ => then_some (lit "MarkRuntimeExited")
  | NoteProducerReservationInterrupted _ _ =>
      Some (lit "NoteProducerReservationInterrupted")
  | MaterializeStagedWorktree _ => Some (lit "MaterializeStagedWorktree")
  | DiscardStagedWorktree _ _ => Some (lit "DiscardStagedWorktree")
  | RecordPromotion _ => Some (lit "RecordPromotion")
  | TakeOverWorker _ _ => Some (lit "TakeOverWorker")
  | SubmitClaim _ | RecordVerification _ | RecordSupervisorVerdict _ => None
  end.

Definition authorize_governed_mutation (mutation : GovernedTaskMutation)
    (task_is_profiled : bool) (class : ConnectionClass)
    : result ActorProvenanceError unit :=
  if is_operator class then Ok tt
  else
    match gated_request mutation task_is_profiled with
    | Some request => Err (OperatorClassRequired request)
    | None => Ok tt
    end.

Definition mutation_authorization_needs_profile (mutation : GovernedTaskMutation) : bool :=
  match mutation with
  | MarkRunning _ | MarkLaunchFailed _ _ | MarkRuntimeExited _ _ _ => true
  | _ => false
  end.

(** [require_operator_class] and [require_staged_registration_class]
    (src/daemon/governed_wiring.rs). *)
Definition require_operator_class (class : ConnectionClass) (request : rstring)
    : result ActorProvenanceError unit :=
  if is_operator class then Ok tt else Err (OperatorClassRequired request).

Definition require_staged_registration_class (registration : GovernedTaskRegistration)
    (class : ConnectionClass) : result ActorProvenanceError unit :=
  if negb (requires_staged_worktree (reg_world_scope registration)) then Ok tt
  else require_operator_class class (lit "RegisterGovernedTask with a staged world scope").
