(* ===== verification/ActorProvenanceProps.v ===== *)
(** Operator capabilities: the comparison is equality, a published token is the
    one a client resolves, and a connection's class rises only on it. *)
From S2P Require Export ActorProvenance RustTextFacts LedgerProps RunProps.
Local Open Scope Z_scope.

(** * The token *)

Lemma is_lower_hex_byte_range b :
  is_lower_hex_byte b = true → 48 ≤ b ≤ 57 ∨ 97 ≤ b ≤ 102.
Proof.
  unfold is_lower_hex_byte, is_ascii_digit, is_lower_hex_letter.
  rewrite orb_true_iff, !andb_true_iff, !Z.leb_le. lia.
Qed.

Lemma hex_not_white b : is_lower_hex_byte b = true → char_is_whitespace b = false.
Proof.
  intros Hb%is_lower_hex_byte_range. unfold char_is_whitespace.
  repeat first [rewrite orb_false_iff; split | rewrite andb_false_iff];
    rewrite ?Z.leb_gt, ?Z.eqb_neq; lia.
Qed.

(** A well-formed token. *)
Record is_token (token : rstring) : Prop := {
  token_digits : Forall (λ b, is_lower_hex_byte b = true) token;
  token_length : length token = 64%nat
}.

Lemma token_bytes token :
  Forall (λ b, is_lower_hex_byte b = true) token → bytes token = token.
Proof.
  intros Ht. apply ascii_bytes. eapply Forall_impl; [done|].
  intros b Hb%is_lower_hex_byte_range. lia.
Qed.

Lemma hex_bytes s : forallb is_lower_hex_byte (bytes s) = true → bytes s = s.
Proof.
  apply bytes_of_ascii. intros b Hb%is_lower_hex_byte_range. lia.
Qed.

Lemma trim_hex token : Forall (λ b, is_lower_hex_byte b = true) token → trim token = token.
Proof.
  intros Ht. apply trim_not_white. eapply Forall_impl; [done|]. apply hex_not_white.
Qed.

Lemma trim_hex_line token :
  Forall (λ b, is_lower_hex_byte b = true) token → token ≠ [] → trim (token ++ [10]) = token.
Proof.
  intros Ht Hne. destruct token as [|b token]; [done|].
  pose proof (hex_not_white b (Forall_inv Ht)) as Hb.
  unfold trim. cbn [app drop_while]. rewrite Hb. rewrite app_comm_cons, reverse_snoc.
  cbn [drop_while]. change (char_is_whitespace 10) with true. cbn iota.
  pose proof (trim_hex (b :: token) Ht) as Htrim. unfold trim in Htrim.
  cbn [drop_while] in Htrim. by rewrite Hb in Htrim.
Qed.

Lemma parse_token_Some raw token : parse_token raw = Some token ↔ trim raw = token ∧ is_token token.
Proof.
  unfold parse_token, len, zlen, OPERATOR_CAPABILITY_HEX_LEN. split.
  - destruct (_ || _) eqn:Hc; [done|]. intros [= <-].
    apply orb_false_iff in Hc as [Hl Hh]. rewrite negb_false_iff in Hl, Hh.
    rewrite hex_bytes in Hl, Hh by done. split; [done|]. split; [|lia].
    by apply forallb_true_Forall.
  - intros (-> & Hd & Hl). rewrite !token_bytes, Hl by done. cbn.
    apply forallb_true_Forall in Hd. by rewrite Hd.
Qed.

(** * The comparison *)

Lemma xor_difference_zero d e p :
  length e = length p → xor_difference d e p = 0 ↔ d = 0 ∧ e = p.
Proof.
  revert d p. induction e as [|b e IH]; intros d [|b' p] Hl; try done.
  { cbn [xor_difference]. naive_solver. }
  injection Hl as Hl. cbn [xor_difference]. rewrite IH, Z.lor_eq_0_iff, Z.lxor_eq_0_iff by done.
  naive_solver.
Qed.

Lemma matches_iff capability presented :
  is_token (capability_token capability) →
  matches capability presented = true ↔ trim presented = capability_token capability.
Proof.
  intros [Ht _]. unfold matches. rewrite token_bytes by done.
  destruct (Z.eqb_spec (zlen (capability_token capability)) (zlen (bytes (trim presented))))
    as [Hl|Hl]; cbn [negb].
  - unfold zlen in Hl. apply Nat2Z.inj in Hl. rewrite Z.eqb_eq, xor_difference_zero by done.
    split.
    + intros [_ Heq]. rewrite hex_bytes in Heq; [done|]. rewrite <- Heq.
      by apply forallb_true_Forall.
    + intros ->. by rewrite token_bytes.
  - split; [done|]. intros Heq. by rewrite Heq, token_bytes in Hl.
Qed.

(** ** Entropy *)

Lemma lower_hex_digit_hex n : 0 ≤ n < 16 → is_lower_hex_byte (lower_hex_digit n) = true.
Proof. apply hex_digit_lower. Qed.

Lemma lower_hex_digit_inj n m : 0 ≤ n < 16 → 0 ≤ m < 16 →
  lower_hex_digit n = lower_hex_digit m → n = m.
Proof.
  unfold lower_hex_digit. destruct (Z.ltb_spec n 10), (Z.ltb_spec m 10); lia.
Qed.

Definition is_byte (b : Z) : Prop := 0 ≤ b < 256.

Lemma byte_nibbles b : is_byte b → 0 ≤ b / 16 < 16 ∧ 0 ≤ b mod 16 < 16.
Proof.
  unfold is_byte. pose proof (Z.mod_pos_bound b 16). pose proof (Z.div_mod b 16). lia.
Qed.

Lemma hex_text_cons b entropy :
  (b :: entropy) ≫= hex_byte
  = lower_hex_digit (b / 16) :: lower_hex_digit (b mod 16) :: (entropy ≫= hex_byte).
Proof. done. Qed.

Lemma hex_text entropy :
  Forall is_byte entropy →
  Forall (λ b, is_lower_hex_byte b = true) (entropy ≫= hex_byte) ∧
  length (entropy ≫= hex_byte) = (2 * length entropy)%nat.
Proof.
  induction 1 as [|b entropy Hb _ [IH1 IH2]]; [by split|].
  destruct (byte_nibbles b Hb). rewrite hex_text_cons. split.
  - eauto using lower_hex_digit_hex.
  - cbn [length]. lia.
Qed.

Lemma hex_text_inj entropy entropy' :
  Forall is_byte entropy → Forall is_byte entropy' →
  entropy ≫= hex_byte = entropy' ≫= hex_byte → entropy = entropy'.
Proof.
  intros He. revert entropy'.
  induction He as [|b entropy Hb _ IH]; intros [|b' entropy'] He' Heq; try done.
  apply Forall_cons in He' as [Hb' He']. rewrite !hex_text_cons in Heq.
  injection Heq as H1 H2 Heq. destruct (byte_nibbles b Hb), (byte_nibbles b' Hb').
  apply lower_hex_digit_inj in H1; [|done..]. apply lower_hex_digit_inj in H2; [|done..].
  rewrite (Z.div_mod b 16), (Z.div_mod b' 16), H1, H2 by lia. f_equal. by apply IH.
Qed.

Lemma generate_Some device entropy :
  device = Some entropy → CAPABILITY_BYTES ≤ zlen entropy → Forall is_byte entropy →
  ∃ token, generate device = Some {| capability_token := token |} ∧ is_token token ∧
           token = take 32 entropy ≫= hex_byte.
Proof.
  intros -> Hl Hb. unfold generate, CAPABILITY_BYTES in *. cbn [mbind option_bind].
  rewrite (proj2 (Z.ltb_ge _ _)) by done. eexists; split_and!; [done| |done].
  change (Z.to_nat 32) with 32%nat.
  destruct (hex_text (take 32 entropy)) as [Hd Hlen]; [by apply Forall_take|].
  split; [done|]. rewrite Hlen, length_take. unfold zlen in Hl. lia.
Qed.

(** * The class of a connection *)

(** The connection after presenting each of [tokens] in turn. *)
Definition present_all (expected : option OperatorCapability) (tokens : list rstring)
    (c : ConnectionProvenance) : ConnectionProvenance :=
  foldl (λ c token, snd (present_capability token expected c)) c tokens.

(** A presentation that succeeds, to a connection with these credentials. *)
Definition accepts (expected : option OperatorCapability) (peer : option Z) (uid : Z)
    (token : rstring) : bool :=
  bool_decide (peer = Some uid)
  && match expected with Some capability => matches capability token | None => false end.

Lemma present_capability_spec token expected c :
  snd (present_capability token expected c) =
    if accepts expected (peer_uid c) (daemon_uid c) token
    then {| peer_uid := peer_uid c; daemon_uid := daemon_uid c;
            connection_class := OperatorClass |}
    else c.
Proof.
  unfold present_capability, accepts. destruct c as [[peer|] uid class]; cbn; [|done].
  destruct (Z.eqb_spec peer uid) as [->|Hne]; cbn.
  - rewrite bool_decide_true by done. destruct expected as [capability|]; cbn; [|done].
    by destruct (matches capability token).
  - by rewrite bool_decide_false by congruence.
Qed.

Lemma present_all_class expected tokens c :
  let p := present_all expected tokens c in
  peer_uid p = peer_uid c ∧ daemon_uid p = daemon_uid c ∧
  (connection_class p = OperatorClass ↔
   connection_class c = OperatorClass ∨
   existsb (accepts expected (peer_uid c) (daemon_uid c)) tokens = true).
Proof.
  revert c. induction tokens as [|token tokens IH]; intros c; cbn [present_all foldl].
  { split_and!; [done..|]. cbn. naive_solver. }
  specialize (IH (snd (present_capability token expected c))).
  rewrite present_capability_spec in *. cbn [existsb].
  destruct (accepts _ _ _ token); cbn in *; [|exact IH].
  unfold present_all in IH. destruct IH as (-> & -> & ->). naive_solver.
Qed.

(** * The theorems *)

(** The byte loop that compares a presented token in time independent of
    where it differs decides exactly equality with the daemon's token, after
    trimming what was presented. *)
Theorem comparison_is_equality capability presented :
  is_token (capability_token capability) →
  matches capability presented = bool_decide (trim presented = capability_token capability).
Proof.
  intros Ht. apply eq_true_iff_eq. by rewrite matches_iff, bool_decide_eq_true.
Qed.

(** The daemon draws 32 bytes of entropy into a token of 64 lowercase
    hexadecimal digits; a client that reads the published file resolves exactly
    that token, the daemon accepts it, and only the same 32 bytes give it. *)
Theorem published_capability_is_resolved entropy :
  CAPABILITY_BYTES ≤ zlen entropy → Forall is_byte entropy →
  ∃ capability, generate (Some entropy) = Some capability ∧
    is_token (capability_token capability) ∧
    resolve_for_socket None (Some (capability_file capability))
      = Some (capability_token capability) ∧
    capability_parse (capability_file capability) = Ok capability ∧
    matches capability (capability_file capability) = true ∧
    ∀ other, Forall is_byte other → generate (Some other) = Some capability →
      take 32 other = take 32 entropy.
Proof.
  intros Hl Hb. destruct (generate_Some (Some entropy) entropy) as (token & Hg & Ht & Heq);
    [done..|]. pose proof Ht as [Hd Hn].
  assert (trim (token ++ [10]) = token) as Htrim
    by (apply trim_hex_line; [done|by intros ->]).
  assert (parse_token (token ++ [10]) = Some token) as Hp by (by apply parse_token_Some).
  exists {| capability_token := token |}. unfold capability_file. cbn [capability_token].
  split_and!; [done|done| | | |].
  - unfold resolve_for_socket. cbn. by rewrite Hp.
  - unfold capability_parse. by rewrite Hp.
  - by apply matches_iff.
  - intros other Ho Hgo. unfold generate in Hgo. cbn in Hgo. case_match; [done|].
    injection Hgo as Hgo. subst token. eapply hex_text_inj; [by apply Forall_take..|exact Hgo].
Qed.

(** Whatever a connection presents, and in whatever order, it is of operator
    class exactly when its peer runs under the daemon's own uid and one of the
    presented tokens was the daemon run's; a rejected presentation neither
    raises nor lowers it. *)
Theorem class_rises_iff expected tokens peer uid :
  (∀ capability, expected = Some capability → is_token (capability_token capability)) →
  connection_class (present_all expected tokens (provenance_new peer uid)) = OperatorClass ↔
  peer = Some uid ∧
  ∃ capability token, expected = Some capability ∧ token ∈ tokens ∧
    trim token = capability_token capability.
Proof.
  intros Htoken.
  destruct (present_all_class expected tokens (provenance_new peer uid)) as (_ & _ & ->).
  cbn. unfold accepts. split.
  - intros [?|(token & Hin & Ha)%existsb_exists]; [done|]. apply list_elem_of_In in Hin.
    apply andb_true_iff in Ha as [Hp%bool_decide_eq_true Hm]. split; [done|].
    destruct expected as [capability|]; [|done]. exists capability, token.
    split_and!; [done..|]. by apply matches_iff; [apply Htoken|].
  - intros (-> & capability & token & -> & Hin & Heq). right.
    apply existsb_exists. exists token. split; [by apply list_elem_of_In|].
    rewrite bool_decide_true by done. by apply matches_iff; [apply Htoken|].
Qed.

(** * A concrete capability *)

Definition sample_entropy : list Z := (λ n : nat, (Z.of_nat n * 37 + 11) mod 256) <$> seq 0 32.
Definition sample_capability : OperatorCapability :=
  {| capability_token := sample_entropy ≫= hex_byte |}.

Lemma sample_entropy_bytes : Forall is_byte sample_entropy.
Proof.
  apply Forall_fmap, Forall_forall. intros n _. apply Z.mod_pos_bound. lia.
Qed.

Lemma sample_capability_token : is_token (capability_token sample_capability).
Proof.
  by destruct (generate_Some (Some sample_entropy) sample_entropy eq_refl)
    as (token & [= <-] & Ht & _); [done|apply sample_entropy_bytes|].
Qed.

Lemma comparison_is_equality_witness :
  matches sample_capability (lit "  not this one ") = false.
Proof.
  rewrite comparison_is_equality by apply sample_capability_token. by vm_compute.
Defined.

Lemma published_capability_is_resolved_witness :
  ∃ capability, generate (Some sample_entropy) = Some capability ∧
    matches capability (capability_file capability) = true.
Proof.
  destruct (published_capability_is_resolved sample_entropy) as (capability & Hg & _ & _ & _ & Hm & _).
  - done.
  - apply sample_entropy_bytes.
  - by exists capability.
Defined.

Lemma class_rises_iff_witness :
  connection_class
    (present_all (Some sample_capability)
       [lit "nonsense"; capability_file sample_capability; lit "nonsense"]
       (provenance_new (Some 501) 501)) = OperatorClass.
Proof.
  apply class_rises_iff.
  - intros capability [= <-]. apply sample_capability_token.
  - split; [done|]. exists sample_capability, (capability_file sample_capability).
    split_and!; [done|by apply list_elem_of_here || set_solver|by vm_compute].
Defined.
