(* ===== verification/ConnectionGate.v ===== *)
(** The daemon's socket boundary for governed tasks: reading one bounded line
    (src/daemon/mod.rs), the field check and the governed-task requests of
    src/daemon/handlers.rs, a whole connection, and the interleaving of several.

    A connection's input is the list of bytes its peer sends before it closes
    the stream. Parsing a request is serde_json's, so [request_of_line] is a
    parameter. Of [DaemonRequest] the model has the capability presentation and
    the reads and mutations of governed tasks. *)
From S2P Require Export ActorProvenance.
Local Open Scope Z_scope.

(** * Reading a line *)

Definition MAX_REQUEST_SIZE : Z := 10 * 1024 * 1024.

Inductive BoundedLine : Type := Line (text : rstring) | Eof | TooLarge.

(** [read_until] through [take(limit)]: what it reads, the delimiter included,
    and what is left of the stream. *)
Fixpoint read_until (delimiter limit : Z) (stream : list Z) : list Z * list Z :=
  match stream with
  | [] => ([], [])
  | b :: stream' =>
      if limit <=? 0 then ([], stream)
      else if b =? delimiter then ([b], stream')
      else let '(buf, rest) := read_until delimiter (limit - 1) stream' in (b :: buf, rest)
  end.

(** [buf.pop()] of a buffer that ends in [b]. *)
Definition pop_if (b : Z) (buf : list Z) : option (list Z) :=
  match reverse buf with
  | last :: before => if last =? b then Some (reverse before) else None
  | [] => None
  end.

Definition bounded_line (max_bytes : Z) (buf : list Z) : BoundedLine :=
  match buf with
  | [] => Eof
  | _ :: _ =>
      let line := match pop_if 10 buf with
                  | Some buf => from_option id buf (pop_if 13 buf)
                  | None => buf
                  end in
      if max_bytes <? zlen line then TooLarge else Line (from_utf8_lossy line)
  end.

(** The line and the bytes still unread. *)
Definition read_bounded_line (max_bytes : Z) (stream : list Z) : BoundedLine * list Z :=
  let '(buf, rest) := read_until 10 (max_bytes + 1) stream in
  (bounded_line max_bytes buf, rest).

(** * Requests *)

(** [validate_request_fields] on the reads of governed tasks; a mutation's
    project id is compared with the project's own. *)
Definition is_bidi_control (c : Z) : bool := between 8234 8238 c || between 8294 8297 c.
Definition is_rejected_char (c : Z) : bool :=
  char_is_control c && negb (c =? 10) && negb (c =? 13) && negb (c =? 9) || is_bidi_control c.

Inductive HandlerError : Type :=
  | ProvenanceError (error : ActorProvenanceError)
  | TaskError (error : AnyError)
  | ControlChars (field : rstring)
  | RequestTooLarge
  | UnparsableRequest.
Abbreviation handler_result := (result HandlerError).

Definition reject_control_chars (input field : rstring) : handler_result unit :=
  reject_if (existsb is_rejected_char input) (ControlChars field).

Inductive DaemonRequest : Type :=
  | PresentOperatorCapability (token : rstring)
  | GetGovernedTask (project_id task_id : rstring)
  | ListGovernedTasks (project_id : rstring)
  | MutateGovernedTask (request : GovernedTaskMutationRequest).

Inductive DaemonResponse : Type :=
  | RespondClass (class : ConnectionClass)
  | RespondTask (task : GovernedTaskRun)
  | RespondLookup (task : option GovernedTaskRun)
  | RespondTasks (tasks : list GovernedTaskRun)
  | RespondError (error : HandlerError).

Definition respond {A} (f : A → DaemonResponse) (answer : handler_result A) : DaemonResponse :=
  match answer with Ok a => f a | Err e => RespondError e end.

Definition validate_request_fields (request : DaemonRequest) : handler_result unit :=
  match request with
  | GetGovernedTask project_id _ | ListGovernedTasks project_id =>
      reject_control_chars project_id (lit "project_id")
  | _ => Ok tt
  end.

Definition is_producer_evidence (mutation : GovernedTaskMutation) : bool :=
  match mutation with
  | SubmitClaim _ | RecordVerification _ | RecordSupervisorVerdict _ => true
  | _ => false
  end.

Definition is_profiled (task : GovernedTaskRun) : bool :=
  bool_decide (is_Some (run_verification_profile task)).

Section handlers.
Context `{Host} (s : Storage).

(** The class check of a mutation, on the ledger the profile is read from. *)
Definition authorize_request (view : GovernedTaskLedger) (class : ConnectionClass)
    (request : GovernedTaskMutationRequest) : handler_result unit :=
  profiled ←
    (if mutation_authorization_needs_profile (request_mutation request) then
       task ← map_err TaskError
         (get_governed_task s view (request_project_id request) (request_task_id request)) ;
       Ok (from_option is_profiled false task)
     else Ok false) ;
  map_err ProvenanceError
    (authorize_governed_mutation (request_mutation request) profiled class).

(** A profiled task takes no claim, verification or verdict from a client; this
    is a second read of the ledger. *)
Definition refuse_client_evidence (view : GovernedTaskLedger)
    (request : GovernedTaskMutationRequest) : handler_result unit :=
  if is_producer_evidence (request_mutation request) then
    found ← map_err TaskError
      (get_governed_task s view (request_project_id request) (request_task_id request)) ;
    task ← ok_or found
      (TaskError (Message (lit "governed task `" ++ request_task_id request
                             ++ lit "` was not found"))) ;
    reject_if (is_profiled task)
      (TaskError (Message (lit "profiled governed tasks require daemon-owned claim, verification, and Supervisor producer requests")))
  else Ok tt.

(** What the host supplies while a request is handled: the record ids and the
    clock of the mutation, whether the ledger's file and the answer were
    written, and whether a shutdown was requested meanwhile. *)
Record RequestHost := {
  host_ids : FreshIds;
  host_now : rstring;
  host_ledger_written : bool;
  host_answer_written : bool;
  host_shutdown : bool
}.

(** [handle_governed_task_request] while nothing else runs. *)
Definition handle_governed_task_request {C} `{MemoryCandidates C} (class : ConnectionClass)
    (h : RequestHost) (request : DaemonRequest) (st : LedgerState) (c : C)
    : DaemonResponse * LedgerState * C :=
  let memory := st_memory st in
  match request with
  | PresentOperatorCapability _ =>
      (RespondError (TaskError (Message (lit "Internal routing error: not a governed task request"))),
       st, c)
  | GetGovernedTask project_id task_id =>
      (respond RespondLookup (map_err TaskError (get_governed_task s memory project_id task_id)),
       st, c)
  | ListGovernedTasks project_id =>
      (respond RespondTasks (map_err TaskError (list_governed_tasks s memory project_id)), st, c)
  | MutateGovernedTask request =>
      match (authorize_request memory class request ;; refuse_client_evidence memory request) with
      | Err e => (RespondError e, st, c)
      | Ok _ =>
          let '(answer, st, c) :=
            mutate_governed_task_authenticated s request (operator_authentication class)
              (host_ids h) (host_now h) (host_ledger_written h) st c in
          (respond RespondTask (map_err TaskError answer), st, c)
      end
  end.

Definition process_request {C} `{MemoryCandidates C} (class : ConnectionClass)
    (h : RequestHost) (request : DaemonRequest) (st : LedgerState) (c : C)
    : DaemonResponse * LedgerState * C :=
  match validate_request_fields request with
  | Err e => (RespondError e, st, c)
  | Ok _ =>
      match request with
      | PresentOperatorCapability _ =>
          (RespondError (TaskError (Message (lit "PresentOperatorCapability is handled at the connection boundary and cannot be dispatched as a stateless request"))),
           st, c)
      | _ => handle_governed_task_request class h request st c
      end
  end.

(** * A connection *)

Record Session (C : Type) := {
  session_provenance : ConnectionProvenance;
  session_ledger : LedgerState;
  session_candidates : C
}.
Arguments session_provenance {C}.
Arguments session_ledger {C}.
Arguments session_candidates {C}.

(** One request: a presentation is answered at the connection, the rest is
    dispatched under the class the connection has by then. *)
Definition serve_request {C} `{MemoryCandidates C} (expected : option OperatorCapability)
    (h : RequestHost) (request : DaemonRequest) (x : Session C)
    : DaemonResponse * Session C :=
  match request with
  | PresentOperatorCapability token =>
      let '(answer, provenance) := present_capability token expected (session_provenance x) in
      (respond RespondClass (map_err ProvenanceError answer),
       {| session_provenance := provenance; session_ledger := session_ledger x;
          session_candidates := session_candidates x |})
  | _ =>
      let '(answer, st, c) :=
        process_request (connection_class (session_provenance x)) h request
          (session_ledger x) (session_candidates x) in
      (answer, {| session_provenance := session_provenance x; session_ledger := st;
                  session_candidates := c |})
  end.

(** One iteration of [handle_connection] on a line; [None] closes the
    connection. A presentation and an unparsable line do not look at the
    shutdown flag. *)
Definition serve_line {C} `{MemoryCandidates C}
    (request_of_line : rstring → option DaemonRequest) (expected : option OperatorCapability)
    (h : RequestHost) (line : BoundedLine) (x : Session C)
    : list DaemonResponse * option (Session C) * Session C :=
  match line with
  | Eof => ([], None, x)
  | TooLarge => ([RespondError RequestTooLarge], None, x)
  | Line text =>
      match request_of_line text with
      | None =>
          ([RespondError UnparsableRequest], if host_answer_written h then Some x else None, x)
      | Some request =>
          let '(answer, x') := serve_request expected h request x in
          let stops :=
            match request with PresentOperatorCapability _ => false | _ => host_shutdown h end in
          ([answer], if host_answer_written h && negb stops then Some x' else None, x')
      end
  end.

(** [handle_connection]: the answers in order and the state when the connection
    closes; [hosts n] is the host during the [n]th line. [None] is fuel that ran
    out. *)
Fixpoint handle_connection {C} `{MemoryCandidates C}
    (request_of_line : rstring → option DaemonRequest) (expected : option OperatorCapability)
    (hosts : nat → RequestHost) (fuel n : nat) (stream : list Z) (x : Session C)
    : option (list DaemonResponse * Session C) :=
  match fuel with
  | O => None
  | S fuel =>
      let '(line, rest) := read_bounded_line MAX_REQUEST_SIZE stream in
      match serve_line request_of_line expected (hosts n) line x with
      | (answers, None, x') => Some (answers, x')
      | (answers, Some x', _) =>
          '(more, x'') ← handle_connection request_of_line expected hosts fuel (S n) rest x' ;
          Some (answers ++ more, x'')
      end
  end.
End handlers.
Arguments session_provenance {C}.
Arguments session_ledger {C}.
Arguments session_candidates {C}.

(** * Several connections at once

    The two checks of a mutation and the ledger call that applies it are three
    separate reads of the shared ledger; other connections, registrations and
    the daemon's own producers run in between. *)

(** Where a connection is with a mutation, dispatched under [class]. *)
Inductive InFlight : Type :=
  | Idle
  | Authorized (class : ConnectionClass) (request : GovernedTaskMutationRequest)
  | Cleared (class : ConnectionClass) (request : GovernedTaskMutationRequest).

Record Connection := {
  connection_provenance : ConnectionProvenance;
  connection_in_flight : InFlight
}.

Record Daemon := {
  daemon_ledger : GovernedTaskLedger;
  daemon_connections : gmap Z Connection
}.

Inductive DaemonEvent : Type :=
  | Connect (id : Z) (peer : option Z)
  | Disconnect (id : Z)
  | Present (id : Z) (token : rstring)
  | Authorize (id : Z) (request : GovernedTaskMutationRequest)
  | Clear (id : Z)
  | Apply (id : Z) (ids : FreshIds) (now : rstring) (written : bool)
  | Register (registration : GovernedTaskRegistration) (ids : FreshIds) (now : rstring)
      (written : bool)
  (** A mutation a producer or the wiring submits through
      [mutate_governed_task]; none of them records a decision. *)
  | Produce (request : GovernedTaskMutationRequest) (ids : FreshIds) (now : rstring)
      (written : bool).

Definition is_operator_decision (mutation : GovernedTaskMutation) : bool :=
  match mutation with RecordOperatorDecision _ => true | _ => false end.

Definition set_connection (id : Z) (c : Connection) (d : Daemon) : Daemon :=
  {| daemon_ledger := daemon_ledger d;
     daemon_connections := <[id := c]> (daemon_connections d) |}.

(** A decision of the ledger that reaches its file replaces the ledger. *)
Definition after_decision (written : bool) (decision : state_result LedgerOutcome) (d : Daemon)
    : Daemon :=
  match decision with
  | Ok o =>
      if written then {| daemon_ledger := outcome_ledger o (daemon_ledger d);
                         daemon_connections := daemon_connections d |}
      else d
  | Err _ => d
  end.

Section daemon.
Context `{Host} (s : Storage) (expected : option OperatorCapability) (uid : Z).

(** A daemon run begins with the ledger its file holds, which an earlier run, or
    anybody else, may have written; it serves only a file that loads. *)
Definition daemon_start (uuids : rstring → Z → FreshIds) (file : GovernedTaskLedger)
    : state_result Daemon :=
  loaded ← load_ledger s uuids file ;
  Ok {| daemon_ledger := loaded; daemon_connections := ∅ |}.

(** An event that a connection is not ready for, or that is refused, leaves the
    ledger alone. A connection reads its next line, and so closes, only between
    requests. *)
Definition daemon_event (d : Daemon) (e : DaemonEvent) : Daemon :=
  match e with
  | Connect id peer =>
      match daemon_connections d !! id with
      | Some _ => d
      | None =>
          set_connection id {| connection_provenance := provenance_new peer uid;
                               connection_in_flight := Idle |} d
      end
  | Disconnect id =>
      match daemon_connections d !! id with
      | Some {| connection_in_flight := Idle |} =>
          {| daemon_ledger := daemon_ledger d;
             daemon_connections := delete id (daemon_connections d) |}
      | _ => d
      end
  | Present id token =>
      match daemon_connections d !! id with
      | Some {| connection_provenance := p; connection_in_flight := Idle |} =>
          set_connection id
            {| connection_provenance := snd (present_capability token expected p);
               connection_in_flight := Idle |} d
      | _ => d
      end
  | Authorize id request =>
      match daemon_connections d !! id with
      | Some {| connection_provenance := p; connection_in_flight := Idle |} =>
          match authorize_request s (daemon_ledger d) (connection_class p) request with
          | Ok _ =>
              set_connection id
                {| connection_provenance := p;
                   connection_in_flight := Authorized (connection_class p) request |} d
          | Err _ => d
          end
      | _ => d
      end
  | Clear id =>
      match daemon_connections d !! id with
      | Some {| connection_provenance := p; connection_in_flight := Authorized class request |} =>
          let next :=
            match refuse_client_evidence s (daemon_ledger d) request with
            | Ok _ => Cleared class request
            | Err _ => Idle
            end in
          set_connection id {| connection_provenance := p; connection_in_flight := next |} d
      | _ => d
      end
  | Apply id ids now written =>
      match daemon_connections d !! id with
      | Some {| connection_provenance := p; connection_in_flight := Cleared class request |} =>
          after_decision written
            (decide_mutation s (daemon_ledger d) request (operator_authentication class) ids now)
            (set_connection id {| connection_provenance := p; connection_in_flight := Idle |} d)
      | _ => d
      end
  | Register registration ids now written =>
      after_decision written (decide_registration s (daemon_ledger d) registration ids now) d
  | Produce request ids now written =>
      if is_operator_decision (request_mutation request) then d
      else after_decision written
             (decide_mutation s (daemon_ledger d) request Declared ids now) d
  end.

Definition run_daemon (d : Daemon) (events : list DaemonEvent) : Daemon :=
  foldl daemon_event d events.
End daemon.
