(* ===== verification/ConnectionGateProps.v ===== *)
(** The socket boundary: what a line reader takes off the stream, that every
    connection is served to its end, and what a connection without the daemon
    run's capability can and cannot do to the ledger. *)
From S2P Require Export ConnectionGate ActorProvenanceProps.
Local Open Scope Z_scope.

(** * Lines *)

(** What one read takes off the stream. *)
Lemma read_until_spec d limit stream buf rest :
  0 ≤ limit → read_until d limit stream = (buf, rest) →
  stream = buf ++ rest ∧ zlen buf ≤ limit ∧
  ((d ∉ buf ∧ (rest = [] ∨ zlen buf = limit)) ∨ ∃ body, buf = body ++ [d] ∧ d ∉ body).
Proof.
  revert limit buf. induction stream as [|b stream IH]; intros limit buf Hl Hr.
  { injection Hr as <- <-. split_and!; [done|done|left; set_solver]. }
  cbn [read_until] in Hr. destruct (Z.leb_spec limit 0) as [Hz|Hpos].
  { injection Hr as <- <-. assert (limit = 0) as -> by lia.
    split_and!; [done|done|left; set_solver]. }
  destruct (Z.eqb_spec b d) as [->|Hne].
  { injection Hr as <- <-. rewrite zlen_cons, zlen_nil.
    split_and!; [done|lia|right]. exists []. set_solver. }
  destruct (read_until d (limit - 1) stream) as [buf' rest'] eqn:Hrec.
  injection Hr as <- <-. destruct (IH (limit - 1) buf') as (-> & Hlen & Hcases); [lia|done|].
  rewrite zlen_cons. split_and!; [done|lia|].
  destruct Hcases as [[Hn Hend]|(body & -> & Hn)].
  - left. split; [set_solver|]. destruct Hend as [?|?]; [by left|right; lia].
  - right. exists (b :: body). set_solver.
Qed.

Lemma pop_if_snoc b c buf : pop_if b (buf ++ [c]) = if c =? b then Some buf else None.
Proof. unfold pop_if. rewrite reverse_snoc. by rewrite reverse_involutive. Qed.

Lemma pop_if_Some b buf rest : pop_if b buf = Some rest → buf = rest ++ [b].
Proof.
  destruct buf as [|c buf _] using rev_ind; [done|]. rewrite pop_if_snoc.
  by destruct (Z.eqb_spec c b) as [->|]; [intros [= ->]|].
Qed.

Lemma pop_if_absent b buf : b ∉ buf → pop_if b buf = None.
Proof.
  destruct buf as [|c buf _] using rev_ind; [done|]. rewrite pop_if_snoc, elem_of_app.
  destruct (Z.eqb_spec c b) as [->|]; [set_solver|done].
Qed.

(** The bytes a line was read from: the line and how it ended. *)
Definition ends_line (body ending rest : list Z) : Prop :=
  ending = [10] ∧ last body ≠ Some 13 ∨ ending = [13; 10] ∨ ending = [] ∧ rest = [].

(** Reading a request takes at most one byte more than the limit off the
    stream, whatever the peer sends; it ends the connection exactly on an empty
    stream, answers a line exactly as the bytes before the first newline (less
    one carriage return, or all that is left at the end of the stream) when they
    fit the limit, and refuses exactly a stream whose first [max + 1] bytes hold
    no newline. *)
Theorem bounded_line_is_first_line max stream :
  0 ≤ max →
  let '(line, rest) := read_bounded_line max stream in
  ∃ taken, stream = taken ++ rest ∧ zlen taken ≤ max + 1 ∧
  match line with
  | Eof => stream = []
  | Line text => ∃ body ending, taken = body ++ ending ∧ taken ≠ [] ∧ 10 ∉ body ∧
      zlen body ≤ max ∧ text = from_utf8_lossy body ∧ ends_line body ending rest
  | TooLarge => max < zlen stream ∧ 10 ∉ take (Z.to_nat (max + 1)) stream
  end.
Proof.
  intros Hmax. unfold read_bounded_line.
  destruct (read_until 10 (max + 1) stream) as [buf rest] eqn:Hr.
  apply read_until_spec in Hr as (Hs & Hl & Hcases); [|lia].
  exists buf. split_and!; [done..|].
  destruct Hcases as [[Hn Hend]|(body & Hb & Hn)].
  - destruct buf as [|b buf'] eqn:Hbuf.
    { cbn. rewrite zlen_nil in Hend. destruct Hend as [->|]; [done|lia]. }
    rewrite <- Hbuf in *. assert (buf ≠ []) by (by rewrite Hbuf). clear Hbuf.
    assert (bounded_line max buf
            = if max <? zlen buf then TooLarge else Line (from_utf8_lossy buf)) as ->.
    { unfold bounded_line. rewrite pop_if_absent by done. by destruct buf. }
    destruct (Z.ltb_spec max (zlen buf)) as [Hover|Hfits].
    + rewrite Hs, zlen_app. pose proof (zlen_nonneg rest). split; [lia|].
      rewrite take_app_le by (unfold zlen in *; lia).
      intros Hin. apply Hn. rewrite <- (take_drop (Z.to_nat (max + 1)) buf). set_solver.
    + exists buf, []. rewrite app_nil_r. split_and!; [done..|]. right; right.
      split; [done|]. destruct Hend; [done|lia].
  - assert (zlen body ≤ max) as Hbody by (rewrite Hb, zlen_app, zlen_cons, zlen_nil in Hl; lia).
    assert (bounded_line max buf = Line (from_utf8_lossy (from_option id body (pop_if 13 body))))
      as ->.
    { unfold bounded_line. rewrite Hb, pop_if_snoc. cbn [Z.eqb Pos.eqb].
      rewrite (proj2 (Z.ltb_ge _ _)); [by destruct body|].
      destruct (pop_if 13 body) as [less|] eqn:Hp; [|done]. apply pop_if_Some in Hp.
      rewrite Hp, zlen_app in Hbody. change (zlen [13]) with 1 in Hbody. cbn [from_option id]. lia. }
    destruct (pop_if 13 body) as [less|] eqn:Hp; cbn [from_option id].
    + apply pop_if_Some in Hp. exists less, [13; 10]. rewrite Hb, Hp in *.
      rewrite zlen_app in Hbody. change (zlen [13]) with 1 in Hbody.
      split_and!; [by rewrite <- app_assoc|by destruct less|set_solver|lia|done|].
      right; by left.
    + exists body, [10]. rewrite Hb. split_and!; [done|by destruct body|done..|]. left. split; [done|].
      destruct body as [|c body _] using rev_ind; [done|].
      rewrite pop_if_snoc in Hp. rewrite last_snoc. intros [= ->]. done.
Qed.

Lemma read_bounded_line_progress max stream line rest :
  0 ≤ max → read_bounded_line max stream = (line, rest) → line ≠ Eof →
  (length rest < length stream)%nat.
Proof.
  intros Hmax Hr Hne. unfold read_bounded_line in Hr.
  destruct (read_until 10 (max + 1) stream) as [buf rest'] eqn:Hu.
  injection Hr as <- <-. apply read_until_spec in Hu as (-> & _); [|lia].
  destruct buf; [done|]. cbn. rewrite length_app. lia.
Qed.

(** * Sessions *)

Section sessions.
Context `{Host} (s : Storage) {C : Type} `{MemoryCandidates C}.
Context (request_of_line : rstring → option DaemonRequest) (expected : option OperatorCapability).
Implicit Types (l : GovernedTaskLedger) (t : GovernedTaskRun) (x : Session C).

Lemma serve_line_continues h line x answers x' y :
  serve_line s request_of_line expected h line x = (answers, Some x', y) → line ≠ Eof.
Proof. by destruct line. Qed.

(** A connection is served to its end: with one unit of fuel for every byte
    its peer sends and one more, [handle_connection] returns, whatever the
    requests are and however the host answers. *)
Theorem connection_is_served hosts n stream x :
  is_Some (handle_connection s request_of_line expected hosts (S (length stream)) n stream x).
Proof.
  remember (S (length stream)) as fuel eqn:Hf.
  assert (length stream < fuel)%nat as Hlt by lia. clear Hf.
  revert n stream x Hlt. induction fuel as [|fuel IH]; intros n stream x Hlt; [lia|].
  cbn [handle_connection].
  destruct (read_bounded_line MAX_REQUEST_SIZE stream) as [line rest] eqn:Hr.
  destruct (serve_line _ _ _ _ _ _) as [[answers [x'|]] y] eqn:Hs; [|by eexists].
  apply serve_line_continues in Hs.
  assert (length rest < length stream)%nat
    by (eapply read_bounded_line_progress, Hs; [|exact Hr]; done).
  destruct (IH (S n) rest x') as [[more x''] ->]; [lia|]. by eexists.
Qed.

(** ** What a class can do to a run *)

(** What only an operator connection may change. *)
Record same_authority t t' : Prop := {
  same_decisions : run_operator_decisions t' = run_operator_decisions t;
  same_promotions : run_promotions t' = run_promotions t;
  same_worktree : run_staged_worktree t' = run_staged_worktree t;
  same_lease : lease_generation t' = lease_generation t;
  same_profiled : is_profiled t' = is_profiled t
}.
#[local] Instance same_authority_preorder : PreOrder same_authority.
Proof. split; [by split|]. intros ??? [] []. split; congruence. Qed.

Lemma ungated_advance m authentication ids now t t' :
  gated_request m false = None → advance_run m authentication ids now t = Ok t' →
  same_authority t t'.
Proof.
  intros Hg Ha. assert (run_step t t') as Hs by (by repeat eexists).
  pose proof (step_identity _ _ Hs) as Hi. pose proof (advance_lease _ _ _ _ _ _ Ha) as Hl.
  split.
  1-3: destruct m; try discriminate Hg; by advance_inv Ha.
  - rewrite Hl. destruct m; try discriminate Hg; cbn; lia.
  - unfold is_profiled. by rewrite (same_profile _ _ Hi).
Qed.

Lemma authorize_nonoperator view request :
  authorize_request s view NonOperator request = Ok tt →
  gated_request (request_mutation request) false = None ∧
  ∀ t, ledger_tasks view !! request_task_id request = Some t → is_profiled t = true →
    is_producer_evidence (request_mutation request) = true.
Proof.
  unfold authorize_request, authorize_governed_mutation, get_governed_task. intros Ha.
  result_inv. cbn [is_operator] in *.
  destruct (mutation_authorization_needs_profile (request_mutation request)) eqn:Hn;
    result_inv; destruct (gated_request _ _) eqn:Hg in Ha; try discriminate Ha;
    destruct (request_mutation request); try discriminate Hn; try discriminate Hg;
    (split; [done|]); intros t Ht Hp; try done;
    rewrite Ht in Hg; cbn in Hg; by rewrite Hp in Hg.
Qed.

Lemma refuse_evidence_unprofiled view request t :
  refuse_client_evidence s view request = Ok tt →
  is_producer_evidence (request_mutation request) = true →
  ledger_tasks view !! request_task_id request = Some t → is_profiled t = false.
Proof.
  unfold refuse_client_evidence, get_governed_task. intros Hr He Ht. rewrite He in Hr.
  result_inv. congruence.
Qed.

Lemma steps_profiled t t' : rtc run_step t t' → is_profiled t' = is_profiled t.
Proof.
  induction 1 as [|t u t' Hs _ IH]; [done|]. rewrite IH. unfold is_profiled.
  by rewrite (same_profile _ _ (step_identity _ _ Hs)).
Qed.

(** A mutation that passed both checks for a non-operator connection, on
    whatever the ledger had become by each of its three reads: it leaves what
    only an operator may change, and leaves a profiled run that was registered
    at the first read entirely. *)
Lemma unauthenticated_mutation view1 view2 l request authentication ids now o k u :
  keyed view1 → rtc (ledger_step s) view1 view2 → rtc (ledger_step s) view2 l →
  authorize_request s view1 NonOperator request = Ok tt →
  refuse_client_evidence s view2 request = Ok tt →
  decide_mutation s l request authentication ids now = Ok o →
  ledger_tasks l !! k = Some u →
  ∃ u', ledger_tasks (outcome_ledger o l) !! k = Some u' ∧ same_authority u u' ∧
    (is_profiled u = true → is_Some (ledger_tasks view1 !! k) → u' = u).
Proof.
  intros Hkeyed H12 H2l Ha Hr Hd Hu.
  destruct (authorize_nonoperator _ _ Ha) as [Hg Hev].
  pose proof (ledger_steps_keyed _ _ _ Hkeyed H12) as Hkeyed2.
  pose proof (ledger_steps_keyed _ _ _ Hkeyed2 H2l) as Hkeyedl.
  destruct (outcome_cases s l _ _ _ _ _ Hkeyedl Hd) as [->|(t & t' & Ht & Hadv & Hid & _ & ->)];
    [by exists u|].
  rewrite record_run_tasks, Hid.
  destruct (decide (request_task_id request = k)) as [<-|Hne];
    [|rewrite lookup_insert_ne by done; by exists u].
  rewrite Hu in Ht. injection Ht as <-. rewrite lookup_insert_eq. exists t'.
  split; [done|]. split; [by eapply ungated_advance|]. intros Hp [t1 Ht1].
  destruct (le_run _ _ (ledger_steps_extend _ _ _ Hkeyed H12) _ _ Ht1) as (t2 & Ht2 & Hs12).
  destruct (le_run _ _ (ledger_steps_extend _ _ _ Hkeyed2 H2l) _ _ Ht2) as (t3 & Ht3 & Hs23).
  rewrite Hu in Ht3. injection Ht3 as <-.
  rewrite (steps_profiled _ _ Hs23) in Hp.
  assert (is_profiled t2 = false) as Hn.
  { eapply refuse_evidence_unprofiled; [done| |done]. apply (Hev t1); [done|].
    by rewrite <- (steps_profiled _ _ Hs12). }
  congruence.
Qed.

(** No run of [l] has lost or gained anything only an operator may change, and
    the profiled ones are as they were. *)
Definition spared l l' : Prop :=
  ∀ k u, ledger_tasks l !! k = Some u →
    ∃ u', ledger_tasks l' !! k = Some u' ∧ same_authority u u' ∧
      (is_profiled u = true → u' = u).

#[local] Instance spared_preorder : PreOrder spared.
Proof.
  split; [by intros l k u Hu; exists u|].
  intros l1 l2 l3 H12 H23 k u (u2 & Hu2 & Hs2 & He2)%H12.
  destruct (H23 k u2 Hu2) as (u3 & Hu3 & Hs3 & He3). exists u3. split_and!; [done| |].
  - by transitivity u2.
  - intros Hp. rewrite He3, He2; [done..|]. by rewrite (same_profiled _ _ Hs2).
Qed.

Lemma mutate_memory request authentication ids now written st c answer st' c' :
  mutate_governed_task_authenticated s request authentication ids now written st c
    = (answer, st', c') →
  st_memory st' = st_memory st ∨
  ∃ o, decide_mutation s (st_memory st) request authentication ids now = Ok o ∧
       st_memory st' = outcome_ledger o (st_memory st).
Proof.
  unfold mutate_governed_task_authenticated.
  destruct (decide_mutation _ _ _ _ _ _) as [o|] eqn:Hd; [|by intros [= _ <- _]; left].
  intros Hm. destruct o as [task|task|task candidate]; cbn [commit] in Hm.
  - injection Hm as _ <- _. by left.
  - destruct (ensure_accepted_run_memory_candidate _ _). injection Hm as _ <- _. by left.
  - destruct written; [|injection Hm as _ <- _; by left].
    destruct (ensure_accepted_run_memory_candidate _ _). injection Hm as _ <- _.
    right. by exists (Updated task candidate).
Qed.

(** A request changes the ledger only by a mutation that passed both checks. *)
Lemma process_request_memory class h request st c answer st' c' :
  process_request s class h request st c = (answer, st', c') →
  st_memory st' = st_memory st ∨
  ∃ mutation o,
    authorize_request s (st_memory st) class mutation = Ok tt ∧
    refuse_client_evidence s (st_memory st) mutation = Ok tt ∧
    decide_mutation s (st_memory st) mutation (operator_authentication class) (host_ids h)
      (host_now h) = Ok o ∧
    st_memory st' = outcome_ledger o (st_memory st).
Proof.
  unfold process_request.
  destruct (validate_request_fields request); [|by intros [= _ <- _]; left].
  destruct request as [token|project_id task_id|project_id|mutation];
    cbn [handle_governed_task_request]; try by intros [= _ <- _]; left.
  destruct (authorize_request _ _ _ _) as [[]|] eqn:Ha; [|by intros [= _ <- _]; left].
  cbn [mbind result_bind]. destruct (refuse_client_evidence _ _ _) as [[]|] eqn:Hr;
    [|by intros [= _ <- _]; left].
  destruct (mutate_governed_task_authenticated _ _ _ _ _ _ _ _) as [[reply st1] c1] eqn:Hm.
  intros [= _ <- _]. apply mutate_memory in Hm as [->|(o & Hd & ->)]; [by left|right].
  by exists mutation, o.
Qed.

Lemma process_request_keyed class h request st c answer st' c' :
  keyed (st_memory st) →
  process_request s class h request st c = (answer, st', c') → keyed (st_memory st').
Proof.
  intros Hkeyed [->|(mutation & o & _ & _ & Hd & ->)]%process_request_memory; [done|].
  eapply ledger_step_keyed; [done|]. by eapply step_mutate.
Qed.

Lemma process_request_spares h request st c answer st' c' :
  keyed (st_memory st) →
  process_request s NonOperator h request st c = (answer, st', c') →
  spared (st_memory st) (st_memory st').
Proof.
  intros Hkeyed [->|(mutation & o & Ha & Hr & Hd & ->)]%process_request_memory; [done|].
  intros k u Hu.
  destruct (unauthenticated_mutation (st_memory st) (st_memory st) (st_memory st) mutation
              _ _ _ o k u Hkeyed (rtc_refl _ _) (rtc_refl _ _) Ha Hr Hd Hu)
    as (u' & Hu' & Hs & He). exists u'. eauto.
Qed.

(** A line keeps runs under their keys and never lowers the class; while the
    connection stays non-operator it spares the ledger. *)
Definition serves x x' : Prop :=
  keyed (st_memory (session_ledger x')) ∧
  (connection_class (session_provenance x') = NonOperator →
   connection_class (session_provenance x) = NonOperator ∧
   spared (st_memory (session_ledger x)) (st_memory (session_ledger x'))).

Lemma serve_request_serves h request x answer x' :
  keyed (st_memory (session_ledger x)) →
  serve_request s expected h request x = (answer, x') → serves x x'.
Proof.
  intros Hkeyed Hs. destruct request as [token|project_id task_id|project_id|request].
  { cbn [serve_request] in Hs.
    destruct (present_capability token expected (session_provenance x)) as [reply p] eqn:Hp.
    injection Hs as _ <-. unfold serves. cbn [session_provenance session_ledger].
    pose proof (present_capability_spec token expected (session_provenance x)) as Hspec.
    rewrite Hp in Hspec. cbn [snd] in Hspec. subst p.
    by destruct (accepts _ _ _ _). }
  all: unfold serve_request in Hs;
    destruct (process_request _ _ _ _ _ _) as [[reply st] c] eqn:Hreq;
    injection Hs as _ <-; unfold serves; cbn [session_provenance session_ledger];
    (split; [by eapply process_request_keyed|]); intros Hclass; rewrite Hclass in Hreq;
    (split; [done|]); by eapply process_request_spares.
Qed.

Lemma serve_line_serves h line x answers continues x' :
  keyed (st_memory (session_ledger x)) →
  serve_line s request_of_line expected h line x = (answers, continues, x') →
  serves x x' ∧ ∀ y, continues = Some y → y = x'.
Proof.
  intros Hkeyed Hs. destruct line as [text| |]; cbn [serve_line] in Hs;
    [|by injection Hs as _ <- <-..].
  destruct (request_of_line text) as [request|].
  - destruct (serve_request _ _ _ _ _) as [reply y] eqn:Hr.
    set (stops := match request with PresentOperatorCapability _ => _ | _ => _ end) in Hs.
    injection Hs as _ <- <-.
    split; [by eapply serve_request_serves|by intros z; destruct (_ && _); intros [= <-]].
  - injection Hs as _ <- <-. split; [done|].
    by intros z; destruct (host_answer_written h); intros [= <-].
Qed.

(** A connection that is alone with the ledger and never earns operator class,
    whatever reads, mutations and presentations it sends and however many, leaves
    every profiled run exactly as it was and takes from no other run, and adds to
    none, a decision, a promotion, a staged worktree or a lease. *)
Theorem lone_connection_spares_runs hosts fuel n stream x answers x' k u :
  keyed (st_memory (session_ledger x)) →
  handle_connection s request_of_line expected hosts fuel n stream x = Some (answers, x') →
  connection_class (session_provenance x') = NonOperator →
  ledger_tasks (st_memory (session_ledger x)) !! k = Some u →
  ∃ u', ledger_tasks (st_memory (session_ledger x')) !! k = Some u' ∧
    same_authority u u' ∧ (is_profiled u = true → u' = u).
Proof.
  intros Hkeyed Hrun Hclass. revert k u.
  cut (connection_class (session_provenance x) = NonOperator ∧
       spared (st_memory (session_ledger x)) (st_memory (session_ledger x'))); [by intros []|].
  revert n stream x answers Hkeyed Hrun.
  induction fuel as [|fuel IH]; intros n stream x answers Hkeyed Hrun; [done|].
  cbn [handle_connection] in Hrun.
  destruct (read_bounded_line MAX_REQUEST_SIZE stream) as [line rest].
  destruct (serve_line _ _ _ _ _ _) as [[reply continues] y] eqn:Hs.
  apply serve_line_serves in Hs as [[Hkeyedy Hy] Hcont]; [|done].
  destruct continues as [x1|]; [|injection Hrun as _ <-; auto].
  rewrite (Hcont x1) in Hrun by done.
  destruct (handle_connection _ _ _ _ _ _ _ _) as [[more z]|] eqn:Hrest; [|done].
  cbn in Hrun. injection Hrun as _ ->.
  destruct (IH _ _ _ _ Hkeyedy Hrest) as [Hyc Hyz]. destruct (Hy Hyc) as [Hxc Hxy].
  split; [done|]. by transitivity (st_memory (session_ledger y)).
Qed.
End sessions.

(** * Several connections at once *)

Section daemon_wide.
Context `{Host} (s : Storage) (expected : option OperatorCapability) (uid : Z).
Implicit Types (d : Daemon) (events : list DaemonEvent) (l : GovernedTaskLedger).

Abbreviation after_events := (run_daemon s expected uid).
Abbreviation after_event := (daemon_event s expected uid).

(** Every event moves the ledger by a step, or not at all. *)
Lemma after_decision_ledger written decision d :
  (∀ o, decision = Ok o → ledger_step s (daemon_ledger d) (outcome_ledger o (daemon_ledger d))) →
  rtc (ledger_step s) (daemon_ledger d) (daemon_ledger (after_decision written decision d)).
Proof.
  intros Hstep. unfold after_decision. destruct decision as [o|]; [|done].
  destruct written; [|done]. by apply rtc_once, Hstep.
Qed.

Lemma after_decision_connections written decision d :
  daemon_connections (after_decision written decision d) = daemon_connections d.
Proof. unfold after_decision. destruct decision; [|done]. by destruct written. Qed.

Lemma after_event_steps d e :
  rtc (ledger_step s) (daemon_ledger d) (daemon_ledger (after_event d e)).
Proof.
  destruct e as [id peer|id|id token|id request|id|id ids now written
                |registration ids now written|request ids now written]; cbn [daemon_event].
  - by destruct (daemon_connections d !! id).
  - by destruct (daemon_connections d !! id) as [[p []]|].
  - by destruct (daemon_connections d !! id) as [[p []]|].
  - destruct (daemon_connections d !! id) as [[p []]|]; try done.
    by destruct (authorize_request _ _ _ _).
  - by destruct (daemon_connections d !! id) as [[p []]|].
  - destruct (daemon_connections d !! id) as [[p [| |class request]]|]; try done.
    match goal with |- rtc _ _ (daemon_ledger (after_decision _ _ ?d')) =>
      change (daemon_ledger d) with (daemon_ledger d') end.
    apply after_decision_ledger. intros o Ho. by eapply step_mutate.
  - apply after_decision_ledger. intros o Ho. by eapply step_register.
  - destruct (is_operator_decision _); [done|].
    apply after_decision_ledger. intros o Ho. by eapply step_mutate.
Qed.

Lemma after_events_steps d events :
  rtc (ledger_step s) (daemon_ledger d) (daemon_ledger (after_events d events)).
Proof.
  induction events as [|e events IH] using rev_ind; [done|].
  unfold run_daemon in *. rewrite foldl_snoc.
  etransitivity; [exact IH|apply after_event_steps].
Qed.

Lemma started_keyed uuids file d : daemon_start s uuids file = Ok d → keyed (daemon_ledger d).
Proof. unfold daemon_start. intros Hd. result_inv. by eapply loaded_keyed. Qed.

(** ** A connection in flight, since the ledger [base] *)

(** The checks a mutation passed were made on ledgers between [base] and [l], in
    their order, under the class the connection still has. *)
Definition in_flight_since base l (c : Connection) : Prop :=
  match connection_in_flight c with
  | Idle => True
  | Authorized class request =>
      class = connection_class (connection_provenance c) ∧
      ∃ view, rtc (ledger_step s) base view ∧ rtc (ledger_step s) view l ∧
        authorize_request s view class request = Ok tt
  | Cleared class request =>
      class = connection_class (connection_provenance c) ∧
      ∃ view1 view2, rtc (ledger_step s) base view1 ∧ rtc (ledger_step s) view1 view2 ∧
        rtc (ledger_step s) view2 l ∧
        authorize_request s view1 class request = Ok tt ∧
        refuse_client_evidence s view2 request = Ok tt
  end.

Lemma in_flight_later base l l' c :
  in_flight_since base l c → rtc (ledger_step s) l l' → in_flight_since base l' c.
Proof.
  unfold in_flight_since. destruct (connection_in_flight c); [done|..]; intros [-> Hf] Hl;
    (split; [done|]).
  - destruct Hf as (view & ? & ? & ?). exists view. split_and!; [done|by etransitivity|done].
  - destruct Hf as (v1 & v2 & ? & ? & ? & ?). exists v1, v2.
    split_and!; [done|done|by etransitivity|naive_solver..].
Qed.

Definition flights_since base d id : Prop :=
  ∀ c, daemon_connections d !! id = Some c → in_flight_since base (daemon_ledger d) c.

Lemma set_connection_flights base d id id' c :
  flights_since base d id → (id' = id → in_flight_since base (daemon_ledger d) c) →
  flights_since base (set_connection id' c d) id.
Proof.
  intros Hd Hc c'. cbn [set_connection daemon_connections daemon_ledger].
  intros [[-> <-]|[_ Hc']]%lookup_insert_Some; auto.
Qed.

Lemma after_decision_flights base written decision d id :
  (∀ o, decision = Ok o → ledger_step s (daemon_ledger d) (outcome_ledger o (daemon_ledger d))) →
  flights_since base d id → flights_since base (after_decision written decision d) id.
Proof.
  intros Hstep Hd c. rewrite after_decision_connections. intros Hc%Hd.
  eapply in_flight_later; [done|]. by apply after_decision_ledger.
Qed.

Lemma after_event_flights base d e id :
  rtc (ledger_step s) base (daemon_ledger d) →
  flights_since base d id → flights_since base (after_event d e) id.
Proof.
  intros Hbase Hd. destruct e as [i peer|i|i token|i request|i|i ids now written
                |registration ids now written|request ids now written]; cbn [daemon_event].
  - destruct (daemon_connections d !! i); [done|]. by apply set_connection_flights.
  - destruct (daemon_connections d !! i) as [[p []]|]; try done.
    intros c. cbn. intros [_ Hc]%lookup_delete_Some. by apply Hd.
  - destruct (daemon_connections d !! i) as [[p []]|]; try done. by apply set_connection_flights.
  - destruct (daemon_connections d !! i) as [[p []]|] eqn:Hi; try done.
    destruct (authorize_request _ _ _ _) as [[]|] eqn:Ha; [|done].
    apply set_connection_flights; [done|]. intros _. split; [done|]. by exists (daemon_ledger d).
  - destruct (daemon_connections d !! i) as [[p [|class request|]]|] eqn:Hi; try done.
    apply set_connection_flights; [done|]. intros ->. apply Hd in Hi.
    destruct (refuse_client_evidence _ _ _) as [[]|] eqn:Hr; [|done].
    destruct Hi as [Hclass (view & ? & ? & ?)]. split; [done|]. by exists view, (daemon_ledger d).
  - destruct (daemon_connections d !! i) as [[p [| |class request]]|] eqn:Hi; try done.
    apply after_decision_flights; [intros o Ho; by eapply step_mutate|].
    by apply set_connection_flights.
  - apply after_decision_flights; [intros o Ho; by eapply step_register|done].
  - destruct (is_operator_decision _); [done|].
    apply after_decision_flights; [intros o Ho; by eapply step_mutate|done].
Qed.

Lemma after_events_flights base d events id :
  rtc (ledger_step s) base (daemon_ledger d) → flights_since base d id →
  flights_since base (after_events d events) id.
Proof.
  intros Hbase Hd. induction events as [|e events IH] using rev_ind; [done|].
  unfold run_daemon in *. rewrite foldl_snoc. apply after_event_flights; [|done].
  etransitivity; [exact Hbase|apply after_events_steps].
Qed.

(** The connection waits for its next request, or is not there. *)
Definition at_rest d id : Prop :=
  ∀ c, daemon_connections d !! id = Some c → connection_in_flight c = Idle.

(** The connection has not earned operator class. *)
Definition unauthenticated d id : Prop :=
  ∀ c, daemon_connections d !! id = Some c →
    connection_class (connection_provenance c) = NonOperator.

(** C7: what a connection without operator class can do, whatever other connections,
    registrations and producers do before, between and inside its requests, from
    whatever ledger the daemon loaded. When a mutation of it is applied, no run
    loses or gains a decision, a promotion, a staged worktree or a lease, and no
    profiled run changes at all that was registered before the connection sent
    that request. *)
Theorem unauthenticated_connection_spares_runs uuids file d before during id ids now written k u :
  daemon_start s uuids file = Ok d →
  let sent := run_daemon s expected uid d before in
  let ready := run_daemon s expected uid sent during in
  at_rest sent id → unauthenticated ready id →
  ledger_tasks (daemon_ledger ready) !! k = Some u →
  ∃ u', ledger_tasks (daemon_ledger
            (daemon_event s expected uid ready (Apply id ids now written))) !! k = Some u' ∧
    same_authority u u' ∧
    (is_profiled u = true → is_Some (ledger_tasks (daemon_ledger sent) !! k) → u' = u).
Proof.
  intros Hstart sent ready Hrest Hclass Hu.
  assert (keyed (daemon_ledger sent)) as Hkeyed
    by (eapply ledger_steps_keyed; [by eapply started_keyed|apply after_events_steps]).
  assert (flights_since (daemon_ledger sent) ready id) as Hflights.
  { apply after_events_flights; [done|]. intros c Hc. unfold in_flight_since. by rewrite (Hrest c Hc). }
  cbn [daemon_event]. destruct (daemon_connections ready !! id) as [[p [| |class request]]|] eqn:Hid;
    try by (exists u).
  specialize (Hclass _ Hid). cbn in Hclass.
  destruct (Hflights _ Hid) as [Hc (v1 & v2 & H01 & H12 & H2l & Ha & Hr)].
  cbn [connection_provenance] in Hc. rewrite Hclass in Hc. subst class.
  unfold after_decision. destruct (decide_mutation _ _ _ _ _ _) as [o|] eqn:Hd; [|by exists u].
  destruct written; [|by exists u]. cbn [daemon_ledger set_connection].
  destruct (unauthenticated_mutation s v1 v2 (daemon_ledger ready) request
              (operator_authentication NonOperator) ids now o k u) as (u' & ? & ? & He);
    [by eapply ledger_steps_keyed|done..|].
  exists u'. split_and!; [done..|]. intros Hp [t Ht]. apply He; [done|].
  destruct (le_run _ _ (ledger_steps_extend _ _ _ Hkeyed H01) _ _ Ht) as (t1 & ? & _). by exists t1.
Qed.

(** Some connection of the daemon's own uid presented the run's token. *)
Definition presented events : Prop :=
  ∃ id token, Connect id (Some uid) ∈ events ∧ Present id token ∈ events ∧
    accepts expected (Some uid) uid token = true.

Lemma presented_app events more : presented events → presented (events ++ more).
Proof. intros (id & token & ? & ? & ?). exists id, token. set_solver. Qed.

(** A connection's credentials come from its [Connect]; operator class, its own
    or a mutation's, was earned. *)
Record connection_wf events (id : Z) (c : Connection) : Prop := {
  cw_connected : Connect id (peer_uid (connection_provenance c)) ∈ events;
  cw_uid : daemon_uid (connection_provenance c) = uid;
  cw_class : connection_class (connection_provenance c) = OperatorClass → presented events;
  cw_in_flight class request :
    connection_in_flight c = Authorized class request ∨
    connection_in_flight c = Cleared class request →
    (class = OperatorClass → presented events) ∧
    (class = NonOperator → gated_request (request_mutation request) false = None)
}.

(** A run that is accepted was already in the ledger [l0] the daemon loaded, or its
    last decision is an operator's approval stamped with the capability, which
    somebody presented. *)
Definition accepted_by_operator events (t : GovernedTaskRun) : Prop :=
  ∃ earlier o, run_operator_decisions t = earlier ++ [o] ∧
    actor_kind (decision_actor o) = Operator ∧ decision_decision o = Approve ∧
    decision_authentication o = CapabilityAuthenticated ∧ presented events.
Definition acceptance_accounted l0 events k (t : GovernedTaskRun) : Prop :=
  run_review_state t = Accepted →
  (∃ t0, ledger_tasks l0 !! k = Some t0 ∧ run_review_state t0 = Accepted) ∨
  accepted_by_operator events t.

Record daemon_wf l0 events d : Prop := {
  dw_keyed : keyed (daemon_ledger d);
  dw_connections id c : daemon_connections d !! id = Some c → connection_wf events id c;
  dw_accepted k t :
    ledger_tasks (daemon_ledger d) !! k = Some t → acceptance_accounted l0 events k t
}.

Lemma connection_wf_app events more id c :
  connection_wf events id c → connection_wf (events ++ more) id c.
Proof.
  intros [Hc Hu Hcl Hf]. split; [set_solver|done|intros ?; apply presented_app; auto|].
  intros class request Hi. destruct (Hf class request Hi) as [Ho Hn].
  split; [intros ?; apply presented_app; auto|done].
Qed.

Lemma acceptance_app l0 events more k t :
  acceptance_accounted l0 events k t → acceptance_accounted l0 (events ++ more) k t.
Proof.
  intros Ha [?|(earlier & o & ? & ? & ? & ? & ?)]%Ha; [by left|right].
  exists earlier, o. split_and!; [done..|by apply presented_app].
Qed.

(** A mutation accepts a run only by an operator's approval. *)
Lemma advance_accepts m authentication ids now t t' :
  advance_run m authentication ids now t = Ok t' → run_review_state t' = Accepted →
  (run_review_state t = Accepted ∧ run_operator_decisions t' = run_operator_decisions t) ∨
  is_operator_decision m = true ∧
  ∃ o, run_operator_decisions t' = run_operator_decisions t ++ [o] ∧
    actor_kind (decision_actor o) = Operator ∧ decision_decision o = Approve ∧
    decision_authentication o = authentication.
Proof.
  intros Ha Hr.
  destruct (is_operator_decision m) eqn:Hm.
  - right. split; [done|]. destruct m; try discriminate Hm. advance_inv Ha.
    unfold require_actor in *. result_inv. bool_inv. eexists. split; [reflexivity|].
    cbn [decision_actor decision_decision decision_authentication]. split_and!; [done| |done].
    revert Hr. run_simpl. by destruct (decision_input_decision _).
  - left. destruct m; try discriminate Hm; advance_inv Ha; try done.
    all: exfalso; revert Hr; unfold review_state_of_verdict; by repeat case_match.
Qed.

(** A settled mutation keeps the invariant when its decision, if it records one, is
    the daemon run's. *)
Lemma settle_mutation_wf l0 events d request authentication ids now written :
  daemon_wf l0 events d →
  (is_operator_decision (request_mutation request) = true →
   authentication = CapabilityAuthenticated ∧ presented events) →
  daemon_wf l0 events
    (after_decision written (decide_mutation s (daemon_ledger d) request authentication ids now) d).
Proof.
  intros Hwf Hauth. unfold after_decision. destruct (decide_mutation _ _ _ _ _ _) as [o|] eqn:Hd; [|done].
  destruct written; [|done]. destruct Hwf as [Hkeyed Hc Hacc].
  assert (ledger_step s (daemon_ledger d) (outcome_ledger o (daemon_ledger d))) as Hstep
    by (by eapply step_mutate).
  split; cbn [daemon_ledger daemon_connections]; [by eapply ledger_step_keyed|done|].
  intros k t Ht.
  destruct (outcome_cases s _ _ _ _ _ _ Hkeyed Hd) as [Heq|(u & u' & Hu & Hadv & Hid & _ & Heq)];
    rewrite Heq in Ht; [by apply Hacc|].
  rewrite record_run_tasks, Hid in Ht.
  apply lookup_insert_Some in Ht as [[<- <-]|[_ Ht]]; [|by apply Hacc].
  intros Hr. destruct (advance_accepts _ _ _ _ _ _ Hadv Hr)
    as [[Hru Hdec]|(Hm & x & Hdec & Hactor & Hkind & Hstamp)].
  - destruct (Hacc _ _ Hu Hru) as [?|(earlier & x & Hx & ?)]; [by left|right].
    exists earlier, x. by rewrite Hdec.
  - right. destruct (Hauth Hm) as [Heq' Hp]. exists (run_operator_decisions u), x.
    split_and!; [done..|congruence|done].
Qed.

Lemma settle_registration_wf l0 events d registration ids now written :
  daemon_wf l0 events d →
  daemon_wf l0 events
    (after_decision written (decide_registration s (daemon_ledger d) registration ids now) d).
Proof.
  intros Hwf. unfold after_decision. destruct (decide_registration _ _ _ _ _) as [o|] eqn:Hd; [|done].
  destruct written; [|done]. destruct Hwf as [Hkeyed Hc Hacc].
  assert (ledger_step s (daemon_ledger d) (outcome_ledger o (daemon_ledger d))) as Hstep
    by (by eapply step_register).
  split; cbn [daemon_ledger daemon_connections]; [by eapply ledger_step_keyed|done|].
  apply decide_registration_inv in Hd as [[u ->]|(root & u & _ & _ & _ & -> & _ & _ & ->)]; [done|].
  intros k t Ht. cbn [outcome_ledger] in Ht. rewrite record_run_tasks in Ht.
  apply lookup_insert_Some in Ht as [[_ <-]|[_ Ht]]; [|by apply Hacc].
  intros Hr. discriminate Hr.
Qed.

Lemma set_connection_wf l0 events d id c :
  daemon_wf l0 events d → connection_wf events id c → daemon_wf l0 events (set_connection id c d).
Proof.
  intros [Hl Hc Hdec] Hn. split; cbn [daemon_ledger daemon_connections set_connection]; [done| |done].
  intros id' c' [[<- <-]|[_ Hc']]%lookup_insert_Some; auto.
Qed.

Lemma daemon_wf_app l0 events more d : daemon_wf l0 events d → daemon_wf l0 (events ++ more) d.
Proof.
  intros [Hl Hc Hdec]. split; [done| |].
  - intros id c ?%Hc. by apply connection_wf_app.
  - intros k t ?%Hdec. by apply acceptance_app.
Qed.

(** Rewriting the connection [id] as it would be after an event on it. *)
Lemma idle_wf events id c i :
  connection_wf events id c → (∀ class request, i ≠ Authorized class request) →
  (∀ class request, i ≠ Cleared class request) →
  connection_wf events id
    {| connection_provenance := connection_provenance c; connection_in_flight := i |}.
Proof.
  intros [Hc Hu Hcl _] Ha Hcleared. split; [done..|]. cbn.
  intros class request [Hi|Hi]; [by destruct (Ha class request)|by destruct (Hcleared class request)].
Qed.

Lemma event_wf l0 events d e :
  daemon_wf l0 events d → daemon_wf l0 (events ++ [e]) (daemon_event s expected uid d e).
Proof.
  intros Hwf%(daemon_wf_app _ _ [e]). pose proof (dw_connections _ _ _ Hwf) as Hcs.
  assert (e ∈ events ++ [e]) as He by set_solver.
  set (trace := events ++ [e]) in *. clearbody trace.
  destruct e as [id peer|id|id token|id request|id|id ids now written
                |registration ids now written|request ids now written]; cbn [daemon_event].
  - destruct (daemon_connections d !! id); [done|].
    apply set_connection_wf; [done|]. split; cbn; [done..|by intros ?? []].
  - destruct (daemon_connections d !! id) as [[p []]|]; try done.
    destruct Hwf as [Hl Hc Hd]. split; cbn; [done| |done].
    intros id' c [_ Hc']%lookup_delete_Some. auto.
  - destruct (daemon_connections d !! id) as [[p []]|] eqn:Hid; try done.
    apply set_connection_wf; [done|]. destruct (Hcs _ _ Hid) as [Hc Hu Hcl Hf].
    cbn [connection_provenance connection_in_flight] in *. rewrite present_capability_spec.
    destruct (accepts _ _ _ _) eqn:Ha; [|by split]. split; cbn; [done|done| |by intros ?? []].
    intros _. rewrite Hu in Ha. pose proof Ha as Hpeer.
    apply andb_true_iff in Hpeer as [Hp%bool_decide_eq_true _]. rewrite Hp in Hc, Ha.
    by exists id, token.
  - destruct (daemon_connections d !! id) as [[p []]|] eqn:Hid; try done.
    destruct (authorize_request _ _ _ _) as [[]|] eqn:Ha; [|done].
    apply set_connection_wf; [done|]. destruct (Hcs _ _ Hid) as [Hc Hu Hcl Hf].
    split; [done..|]. cbn. intros class r [[= <- <-]|[=]]. split; [done|].
    intros Hn. rewrite Hn in Ha. by apply authorize_nonoperator in Ha as [? _].
  - destruct (daemon_connections d !! id) as [[p [|class request|]]|] eqn:Hid; try done.
    apply set_connection_wf; [done|]. destruct (Hcs _ _ Hid) as [Hc Hu Hcl Hf].
    split; [done..|]. cbn. intros class' r Hi. apply Hf. left. cbn.
    destruct (refuse_client_evidence _ _ _); destruct Hi as [[=]|[=]]; by subst.
  - destruct (daemon_connections d !! id) as [[p [| |class request]]|] eqn:Hid; try done.
    pose proof (Hcs _ _ Hid) as Hc. destruct (cw_in_flight _ _ _ Hc class request) as [Ho Hn];
      [by right|]. apply (settle_mutation_wf l0 trace (set_connection id _ d)).
    + apply set_connection_wf; [done|]. by apply (idle_wf _ _ _ Idle) in Hc.
    + intros Hm. destruct class; [|by split; [|apply Ho]].
      specialize (Hn eq_refl). by destruct (request_mutation request).
  - by apply settle_registration_wf.
  - destruct (is_operator_decision _) eqn:Hm; [done|]. apply settle_mutation_wf; [done|].
    by rewrite Hm.
Qed.

Lemma run_daemon_wf uuids file d events :
  daemon_start s uuids file = Ok d →
  daemon_wf (daemon_ledger d) events (run_daemon s expected uid d events).
Proof.
  intros Hstart. induction events as [|e events IH] using rev_ind.
  - split; [by eapply started_keyed|..].
    + unfold daemon_start in Hstart. result_inv. intros id c Hc. cbn in Hc.
      by rewrite lookup_empty in Hc.
    + intros k t Ht Hr. left. by exists t.
  - unfold run_daemon in *. rewrite foldl_snoc. by apply event_wf.
Qed.

(** C6: a daemon run starts with whatever ledger its file holds, as long as it
    loads. However connections, registrations and the daemon's own producers
    interleave from there, between the two checks of a mutation and its
    application too, a run that is accepted either was accepted in the loaded
    ledger already, or was accepted by an operator's approval, its last decision,
    that carries the stamp of the capability, and a peer running under the
    daemon's own uid presented the token of this daemon run. *)
Theorem acceptance_needs_the_capability uuids file d events k t :
  daemon_start s uuids file = Ok d →
  ledger_tasks (daemon_ledger (run_daemon s expected uid d events)) !! k = Some t →
  run_review_state t = Accepted →
  (∃ t0, ledger_tasks (daemon_ledger d) !! k = Some t0 ∧ run_review_state t0 = Accepted) ∨
  (∃ earlier o, run_operator_decisions t = earlier ++ [o] ∧
     actor_kind (decision_actor o) = Operator ∧ decision_decision o = Approve ∧
     decision_authentication o = CapabilityAuthenticated) ∧
  ∃ id token, Connect id (Some uid) ∈ events ∧ Present id token ∈ events ∧
    accepts expected (Some uid) uid token = true.
Proof.
  intros Hstart Ht Hr.
  destruct (dw_accepted _ _ _ (run_daemon_wf _ _ _ events Hstart) k t Ht Hr)
    as [?|(earlier & o & ? & ? & ? & ? & Hp)]; [by left|right].
  split; [by exists earlier, o|exact Hp].
Qed.

(** ** The race of a registration with a launch mark *)




End daemon_wide.

(** * Concrete runs *)

Definition sample_mark : GovernedTaskMutationRequest := sample_request 1 (MarkRunning daemon).

(** A daemon with no ledger file yet, and one with a registered run. *)
Definition sample_uuids (_ : rstring) (n : Z) : FreshIds := sample_ids n.
Definition sample_daemon_of (l : GovernedTaskLedger) : Daemon :=
  {| daemon_ledger := l; daemon_connections := ∅ |}.

Lemma sample_daemon_starts :
  daemon_start sample_storage sample_uuids ledger_default = Ok (sample_daemon_of ledger_default).
Proof. by vm_compute. Qed.

Abbreviation sample_run_daemon := (run_daemon sample_storage (Some sample_capability) 501).
Abbreviation sample_daemon := (sample_run_daemon (sample_daemon_of ledger_default)).

(** A peer that never presented anything marks a task before anybody registered it. *)
Definition sample_profiled : GovernedTaskRegistration := sample_registration Authoritative.


(** A run whose evidence the daemon produced and an operator approved over a
    connection. *)
Definition sample_produced (n : Z) (m : GovernedTaskMutation) : DaemonEvent :=
  Produce (sample_request n m) (sample_ids n) (sample_time n) true.
Definition sample_operator_approval : list DaemonEvent :=
  [Connect 7 (Some 501);
   Register (sample_registration StagedAuthoritative) (sample_ids 0) (sample_time 0) true;
   sample_produced 1 sample_materialize; sample_produced 2 (MarkRunning daemon);
   sample_produced 3 sample_claim; sample_produced 4 (sample_verification 3 true);
   sample_produced 5 (sample_verdict 4 RecommendAccept);
   Present 7 (capability_file sample_capability);
   Authorize 7 (sample_request 6 (sample_decision 5 Approve)); Clear 7;
   Apply 7 (sample_ids 6) (sample_time 6) true].

Example sample_operator_approval_accepts :
  run_review_state <$> (ledger_tasks (daemon_ledger (sample_daemon sample_operator_approval)) !! lit "task-1")
  = Some Accepted.
Proof. by vm_compute. Qed.

Lemma acceptance_needs_the_capability_witness :
  ∃ id token, Connect id (Some 501) ∈ sample_operator_approval ∧ Present id token ∈ sample_operator_approval ∧
    accepts (Some sample_capability) (Some 501) 501 token = true.
Proof.
  pose proof sample_operator_approval_accepts as Hr.
  destruct (ledger_tasks (daemon_ledger (sample_daemon sample_operator_approval)) !! lit "task-1")
    as [t|] eqn:Ht; [|discriminate Hr].
  injection Hr as Hr.
  destruct (acceptance_needs_the_capability sample_storage (Some sample_capability) 501
              sample_uuids ledger_default (sample_daemon_of ledger_default)
              sample_operator_approval (lit "task-1") t sample_daemon_starts Ht Hr)
    as [(t0 & Ht0 & _)|[_ Hp]]; [discriminate Ht0|exact Hp].
Defined.

Lemma bounded_line_is_first_line_witness :
  read_bounded_line 4 (lit "ping" ++ [10] ++ lit "pong") = (Line (lit "ping"), lit "pong") ∧
  ∃ taken, lit "ping" ++ [10] ++ lit "pong" = taken ++ lit "pong" ∧ zlen taken ≤ 4 + 1.
Proof.
  assert (read_bounded_line 4 (lit "ping" ++ [10] ++ lit "pong")
          = (Line (lit "ping"), lit "pong")) as Hr by (by vm_compute).
  split; [exact Hr|].
  pose proof (bounded_line_is_first_line 4 (lit "ping" ++ [10] ++ lit "pong") ltac:(lia)) as Hs.
  rewrite Hr in Hs. destruct Hs as (taken & ? & ? & _). by exists taken.
Defined.

(** A peer of another user that presents the right token and marks the run. *)
Definition sample_parse (text : rstring) : option DaemonRequest :=
  match strip_prefix (lit "present ") text with
  | Some token => Some (PresentOperatorCapability token)
  | None =>
      if bool_decide (text = lit "mark") then Some (MutateGovernedTask sample_mark)
      else if bool_decide (text = lit "list") then Some (ListGovernedTasks (lit "demo"))
      else None
  end.
Definition sample_requests : list Z :=
  lit "present " ++ capability_file sample_capability ++ lit "mark" ++ [10] ++ lit "?" ++ [10]
    ++ lit "list".
Definition sample_request_host (n : nat) : RequestHost :=
  {| host_ids := sample_ids (Z.of_nat n); host_now := sample_time (Z.of_nat n);
     host_ledger_written := true; host_answer_written := true; host_shutdown := false |}.
Definition sample_session : Session unit :=
  {| session_provenance := provenance_new (Some 1000) 501;
     session_ledger := {| st_memory := sample_registered; st_disk := sample_registered |};
     session_candidates := tt |}.
Definition sample_served : option (list DaemonResponse * Session unit) :=
  handle_connection sample_storage sample_parse (Some sample_capability) sample_request_host
    (S (length sample_requests)) 0 sample_requests sample_session.

Example sample_served_answers :
  (λ '(answers, x),
     (length answers, connection_class (session_provenance x), answers !! 0%nat, answers !! 1%nat))
    <$> sample_served =
  Some (4%nat, NonOperator, Some (RespondError (ProvenanceError (PeerUidMismatch 1000 501))),
        Some (RespondError (ProvenanceError (OperatorClassRequired (lit "MarkRunning"))))).
Proof. by vm_compute. Qed.

Example sample_registered_profiled :
  is_profiled <$> (ledger_tasks sample_registered !! lit "task-1") = Some true.
Proof. by vm_compute. Qed.

Lemma lone_connection_spares_runs_witness :
  ∃ answers x' u, sample_served = Some (answers, x') ∧
    ledger_tasks sample_registered !! lit "task-1" = Some u ∧
    ledger_tasks (st_memory (session_ledger x')) !! lit "task-1" = Some u.
Proof.
  destruct sample_served as [[answers x']|] eqn:Hrun;
    [|pose proof sample_served_answers as Hs; rewrite Hrun in Hs; discriminate Hs].
  pose proof sample_served_answers as Hs. rewrite Hrun in Hs. injection Hs as _ Hclass _ _.
  pose proof sample_registered_profiled as Hp.
  destruct (ledger_tasks sample_registered !! lit "task-1") as [u|] eqn:Hu; [|discriminate Hp].
  injection Hp as Hp.
  destruct (lone_connection_spares_runs sample_storage sample_parse
              (Some sample_capability) sample_request_host (S (length sample_requests)) 0
              sample_requests sample_session answers x' (lit "task-1") u
              (ledger_wf_keyed _ _ (ledger_reachable_wf _ _ (sample_ledger_reachable []))) Hrun Hclass Hu)
    as (u' & Hu' & _ & He).
  exists answers, x', u. rewrite Hu', (He Hp). auto.
Qed.

(** A claim a client sends for a profiled run while the daemon marks it running. *)
Definition sample_client_claim : list DaemonEvent :=
  [Authorize 1 (sample_request 2 sample_claim); sample_produced 1 (MarkRunning daemon); Clear 1].
Definition sample_before_claim : list DaemonEvent :=
  [Connect 1 (Some 1000); Register sample_profiled (sample_ids 0) (sample_time 0) true].

Definition sample_marked_run : GovernedTaskRun :=
  sample_task (daemon_ledger (sample_daemon (sample_before_claim ++ sample_client_claim))).

Lemma unauthenticated_connection_spares_runs_witness :
  run_execution_state sample_marked_run = Running ∧
  ∃ u', ledger_tasks (daemon_ledger (sample_daemon
      (sample_before_claim ++ sample_client_claim ++ [Apply 1 (sample_ids 2) (sample_time 2) true])))
      !! lit "task-1" = Some u' ∧ u' = sample_marked_run.
Proof.
  split; [by vm_compute|].
  destruct (unauthenticated_connection_spares_runs sample_storage (Some sample_capability) 501
    sample_uuids ledger_default (sample_daemon_of ledger_default) sample_before_claim
    sample_client_claim 1 (sample_ids 2) (sample_time 2) true (lit "task-1") sample_marked_run)
    as (u' & Hu' & _ & He).
  - exact sample_daemon_starts.
  - intros c Hc. vm_compute in Hc. injection Hc as <-. reflexivity.
  - intros c Hc. vm_compute in Hc. injection Hc as <-. reflexivity.
  - by apply sample_task_lookup; vm_compute.
  - exists u'. split; [exact Hu'|]. apply He; [by vm_compute|].
    apply (bool_decide_unpack _). by vm_compute.
Defined.
