(* ===== verification/Basis.v ===== *)
(** The stale-basis predicate (src/basis.rs): the sources a run planned against,
    each with the version it had, and whether they still have it.

    Reading a file, resolving a ref with git and looking up a JSON pointer are
    the world's: [BasisWorld] is what they answer at one moment. *)
From S2P Require Export Lifecycle RustText.
Local Open Scope Z_scope.

(** * The world a basis reads *)

(** A JSON value, as [registry_value] tells them apart: a string, or the
    compact text of anything else. *)
Inductive JsonValue : Type := JsonText (s : rstring) | JsonOther (printed : rstring).

(** [git rev-parse] as it exited: its success and its two outputs. *)
Record GitOutput := { git_success : bool; git_stdout : list Z; git_stderr : list Z }.

Record BasisWorld := {
  (** [std::fs::read]: the bytes, or the text of the error. *)
  world_read : rstring → result rstring (list Z);
  (** [git -C repo rev-parse --verify rev], or why it could not be started. *)
  world_rev_parse : rstring → rstring → result rstring GitOutput;
  (** [serde_json::from_str] of a text and [pointer] of the value: the text of
      the parse error, or what is at the pointer. *)
  world_pointer : rstring → rstring → result rstring (option JsonValue)
}.

(** [read_to_string]. *)
Definition world_read_to_string (w : BasisWorld) (path : rstring) : result rstring rstring :=
  content ← world_read w path ;
  ok_or (utf8_decode content) (lit "stream did not contain valid UTF-8").

(** * Errors, declarations, sources *)

Definition DEFAULT_BASIS_CAP : Z := 32.

Inductive BasisError : Type :=
  | EmptyBasis
  | BasisOverCap (count cap : Z)
  | DuplicateSource (name : rstring)
  | Unreadable (name reason : rstring).
Abbreviation basis_result := (result BasisError).

Definition show_basis_error (e : BasisError) : rstring :=
  match e with
  | EmptyBasis =>
      lit "empty basis: a run that reads nothing before acting has no plan to settle"
  | BasisOverCap count cap =>
      lit "basis of " ++ show_Z count ++ lit " sources exceeds the cap of " ++ show_Z cap
        ++ lit ": a WorkItem that reads this much is carrying a snapshot of the machine instead of a plan " ++ [8212]
        ++ lit " split it into narrower items"
  | DuplicateSource name =>
      lit "duplicate basis source `" ++ name
        ++ lit "`: the basis is a set, one version handle per source"
  | Unreadable name reason => lit "cannot read basis source `" ++ name ++ lit "`: " ++ reason
  end.

Inductive BasisDeclaration : Type :=
  | DeclareFile (path : rstring)
  | DeclareGit (repo refname : rstring)
  | DeclareRegistry (path json_pointer : rstring)
  | DeclareLedger (path : rstring)
  | DeclareUnverifiable (description : rstring).

Inductive BasisSource : Type :=
  | FileHash (path sha256 : rstring)
  | GitRef (repo refname commit : rstring)
  | RegistryEntry (path json_pointer updated_at : rstring)
  | LedgerSection (path : rstring) (line_count : Z) (content_sha256 : rstring)
  | Unverifiable (description : rstring).
#[export] Instance BasisSource_eq_dec : EqDecision BasisSource.
Proof. solve_decision. Defined.

(** [BasisSource::id]. *)
Definition source_id (x : BasisSource) : rstring :=
  match x with
  | FileHash path _ => lit "file:" ++ path
  | GitRef repo refname _ => lit "git:" ++ repo ++ lit "#" ++ refname
  | RegistryEntry path json_pointer _ => lit "registry:" ++ path ++ json_pointer
  | LedgerSection path _ _ => lit "ledger:" ++ path
  | Unverifiable description => lit "unverifiable:" ++ description
  end.

Definition encode_ledger (line_count : Z) (content_sha256 : rstring) : rstring :=
  show_Z line_count ++ lit ":" ++ content_sha256.

Definition planned_version (x : BasisSource) : option rstring :=
  match x with
  | FileHash _ sha256 => Some sha256
  | GitRef _ _ commit => Some commit
  | RegistryEntry _ _ updated_at => Some updated_at
  | LedgerSection _ line_count content_sha256 => Some (encode_ledger line_count content_sha256)
  | Unverifiable _ => None
  end.

(** * Reading a version handle *)

Section basis.
Context `{Host} (w : BasisWorld).

Definition file_sha256 (path : rstring) : basis_result rstring :=
  content ← map_err (Unreadable path) (world_read w path) ;
  Ok (sha256_hex content).

Definition git_commit (repo refname : rstring) : basis_result rstring :=
  let name := repo ++ lit "#" ++ refname in
  output ← map_err (Unreadable name) (world_rev_parse w repo (refname ++ lit "^{commit}")) ;
  if negb (git_success output)
  then Err (Unreadable name (trim (from_utf8_lossy (git_stderr output))))
  else Ok (trim (from_utf8_lossy (git_stdout output))).

Definition registry_value (path json_pointer : rstring) : basis_result rstring :=
  text ← map_err (Unreadable path) (world_read_to_string w path) ;
  value ← map_err (Unreadable path) (world_pointer w text json_pointer) ;
  found ← ok_or value (Unreadable (path ++ json_pointer) (lit "json pointer not found")) ;
  Ok (match found with JsonText s => s | JsonOther printed => printed end).

Definition ledger_handle (path : rstring) : basis_result (Z * rstring) :=
  text ← map_err (Unreadable path) (world_read_to_string w path) ;
  Ok (zlen (str_lines text), sha256_hex (bytes text)).

Definition capture_one (declaration : BasisDeclaration) : basis_result BasisSource :=
  match declaration with
  | DeclareFile path => sha256 ← file_sha256 path ; Ok (FileHash path sha256)
  | DeclareGit repo refname =>
      commit ← git_commit repo refname ; Ok (GitRef repo refname commit)
  | DeclareRegistry path json_pointer =>
      updated_at ← registry_value path json_pointer ;
      Ok (RegistryEntry path json_pointer updated_at)
  | DeclareLedger path =>
      '(line_count, content_sha256) ← ledger_handle path ;
      Ok (LedgerSection path line_count content_sha256)
  | DeclareUnverifiable description => Ok (Unverifiable description)
  end.

(** [BasisSource::read_current]. *)
Definition read_current (x : BasisSource) : basis_result (option rstring) :=
  match x with
  | FileHash path _ => Some <$> file_sha256 path
  | GitRef repo refname _ => Some <$> git_commit repo refname
  | RegistryEntry path json_pointer _ => Some <$> registry_value path json_pointer
  | LedgerSection path _ _ =>
      '(line_count, content) ← ledger_handle path ; Ok (Some (encode_ledger line_count content))
  | Unverifiable _ => Ok None
  end.

(** * The predicate *)

Record Mismatch := {
  mismatch_source : rstring;
  mismatch_planned : rstring;
  mismatch_found : rstring
}.
#[export] Instance Mismatch_eq_dec : EqDecision Mismatch.
Proof. solve_decision. Defined.

Inductive Freshness : Type :=
  | FreshnessMatch
  | FreshnessMismatch (m : Mismatch)
  | FreshnessUnverifiable.

(** [BasisSource::check]: a source that cannot be read again has moved. *)
Definition check_source (x : BasisSource) : Freshness :=
  match planned_version x with
  | None => FreshnessUnverifiable
  | Some planned =>
      let compare found :=
        if bool_decide (found = planned) then FreshnessMatch
        else FreshnessMismatch {| mismatch_source := source_id x; mismatch_planned := planned;
                                  mismatch_found := found |} in
      match read_current x with
      | Ok (Some found) => compare found
      | Ok None => FreshnessUnverifiable
      | Err e => compare (lit "<unreadable: " ++ show_basis_error e ++ lit ">")
      end
  end.

(** [BasisFresh] and [BasisStale] are the source's [Fresh] and [Stale]. *)
Inductive BasisVerdict : Type :=
  | BasisFresh (unverifiable : list rstring)
  | BasisStale (mismatches : list Mismatch) (unverifiable : list rstring).

Definition basis_settles (v : BasisVerdict) : bool :=
  match v with BasisFresh _ => true | BasisStale _ _ => false end.
Definition verdict_mismatches (v : BasisVerdict) : list Mismatch :=
  match v with BasisFresh _ => [] | BasisStale mismatches _ => mismatches end.
Definition verdict_unverifiable (v : BasisVerdict) : list rstring :=
  match v with BasisFresh unverifiable | BasisStale _ unverifiable => unverifiable end.

(** [Mismatch]'s [Display] and [BasisVerdict::report]. *)
Definition show_mismatch (m : Mismatch) : rstring :=
  mismatch_source m ++ lit " planned=" ++ mismatch_planned m ++ lit " found="
    ++ mismatch_found m.
Definition basis_report (v : BasisVerdict) : rstring :=
  (match v with
   | BasisFresh _ => lit "basis fresh: settlement may proceed" ++ [10]
   | BasisStale mismatches _ =>
       lit "basis stale: settlement held, " ++ show_Z (zlen mismatches)
         ++ lit " source(s) moved since plan" ++ [10]
         ++ (mismatches ≫= λ m, lit "  moved: " ++ show_mismatch m ++ [10])
   end)
  ++ (verdict_unverifiable v ≫= λ a, lit "  assumption (unverifiable): " ++ a ++ [10]).

Record BasisSet := { basis_sources : list BasisSource; basis_cap : Z }.

(** The loop of [verify] over the sources. *)
Definition sort_freshness (x : BasisSource) (acc : list Mismatch * list rstring)
    : list Mismatch * list rstring :=
  match check_source x with
  | FreshnessMatch => acc
  | FreshnessMismatch m => (acc.1 ++ [m], acc.2)
  | FreshnessUnverifiable => (acc.1, acc.2 ++ [source_id x])
  end.

Definition verify (b : BasisSet) : BasisVerdict :=
  let '(mismatches, unverifiable) :=
    foldl (λ acc x, sort_freshness x acc) ([], []) (basis_sources b) in
  match mismatches with
  | [] => BasisFresh unverifiable
  | _ :: _ => BasisStale mismatches unverifiable
  end.
End basis.

(** * Building a basis *)

(** The first source whose id an earlier one has. *)
Fixpoint first_duplicate (seen : gset rstring) (ids : list rstring) : option rstring :=
  match ids with
  | [] => None
  | id :: ids => if bool_decide (id ∈ seen) then Some id else first_duplicate ({[id]} ∪ seen) ids
  end.

(** [from_sources_with_cap], which rehydration runs too. *)
Definition from_sources_with_cap (sources : list BasisSource) (cap : Z)
    : basis_result BasisSet :=
  reject_if (bool_decide (sources = [])) EmptyBasis ;;
  reject_if (cap <? zlen sources) (BasisOverCap (zlen sources) cap) ;;
  match first_duplicate ∅ (source_id <$> sources) with
  | Some name => Err (DuplicateSource name)
  | None => Ok {| basis_sources := sources; basis_cap := cap |}
  end.

Definition capture_with_cap `{Host} (w : BasisWorld) (declarations : list BasisDeclaration)
    (cap : Z) : basis_result BasisSet :=
  sources ← mapM (capture_one w) declarations ;
  from_sources_with_cap sources cap.

Definition capture `{Host} (w : BasisWorld) (declarations : list BasisDeclaration)
    : basis_result BasisSet :=
  capture_with_cap w declarations DEFAULT_BASIS_CAP.
