(* ===== verification/BasisProps.v ===== *)
(** The stale-basis predicate: a captured basis is fresh exactly when every source
    still reads as it did, or is one whose version was the text with which its
    reading fails now. *)
From S2P Require Export Basis RustTextFacts Sample.
Local Open Scope Z_scope.

(** * Building a basis *)

Lemma mapM_Ok {E A B} (f : A → result E B) l k :
  mapM f l = Ok k ↔ Forall2 (λ x y, f x = Ok y) l k.
Proof.
  revert k. induction l as [|x l IH]; intros k; cbn.
  - split; [intros [= <-]; constructor|by intros ->%Forall2_nil_inv_l].
  - rewrite bind_Ok. setoid_rewrite bind_Ok. setoid_rewrite IH. split.
    + intros (y & Hy & k' & Hk & [= <-]). by constructor.
    + intros (y & k' & Hy & Hk & ->)%Forall2_cons_inv_l. eauto.
Qed.

Lemma first_duplicate_None seen ids :
  first_duplicate seen ids = None ↔ NoDup ids ∧ ∀ id, id ∈ ids → id ∉ seen.
Proof.
  revert seen. induction ids as [|id ids IH]; intros seen; cbn.
  - split; [|done]. intros _. split; [constructor|]. intros id []%not_elem_of_nil.
  - case_bool_decide as Hin; [split; [done|]; intros [_ Hn]; by destruct (Hn id); [left|]|].
    rewrite IH, NoDup_cons. set_solver.
Qed.

Lemma from_sources_Ok sources cap b :
  from_sources_with_cap sources cap = Ok b ↔
  b = {| basis_sources := sources; basis_cap := cap |} ∧ sources ≠ [] ∧ zlen sources ≤ cap ∧
  NoDup (source_id <$> sources).
Proof.
  unfold from_sources_with_cap. rewrite bind_Ok. setoid_rewrite bind_Ok.
  setoid_rewrite reject_if_Ok. setoid_rewrite bool_decide_eq_false. setoid_rewrite Z.ltb_ge.
  pose proof (first_duplicate_None ∅ (source_id <$> sources)) as Hd.
  destruct (first_duplicate _ _); split.
  - by intros (_ & _ & _ & _ & [=]).
  - intros (_ & _ & _ & Hnd). destruct Hd as [_ Hd]. discriminate Hd. split; [done|set_solver].
  - intros (_ & Hne & _ & Hcap & [= <-]). split_and!; [done..|]. by apply Hd.
  - intros (-> & Hne & Hcap & _). exists tt. split; [done|]. by exists tt.
Qed.

(** * Verdicts *)

Lemma omap_nil {A B} (f : A → option B) l : omap f l = [] ↔ ∀ x, x ∈ l → f x = None.
Proof.
  induction l as [|x l IH]; cbn; [split; [intros _ x []%not_elem_of_nil|done]|].
  setoid_rewrite elem_of_cons. destruct (f x) eqn:Hx; [split; [done|]|rewrite IH]; naive_solver.
Qed.

Definition unreadable_text (e : BasisError) : rstring :=
  lit "<unreadable: " ++ show_basis_error e ++ lit ">".

Section verdicts.
Context `{Host} (w : BasisWorld).
Implicit Types (x : BasisSource) (b : BasisSet).

(** What a source reads as now, an error told as its text. *)
Definition reread x : rstring :=
  match read_current w x with
  | Ok (Some found) => found
  | Ok None => []
  | Err e => unreadable_text e
  end.

Lemma read_current_handle x p : planned_version x = Some p → read_current w x ≠ Ok None.
Proof.
  destruct x; try done; intros _; cbn [read_current]; unfold fmap, result_fmap;
    [case_match; congruence..|]. rewrite bind_Ok. by intros ([] & _ & [=]).
Qed.

Lemma check_source_spec x :
  check_source w x =
    match planned_version x with
    | None => FreshnessUnverifiable
    | Some planned =>
        if bool_decide (reread x = planned) then FreshnessMatch
        else FreshnessMismatch {| mismatch_source := source_id x; mismatch_planned := planned;
                                  mismatch_found := reread x |}
    end.
Proof.
  unfold check_source, reread. destruct (planned_version x) as [planned|] eqn:Hp; [|done].
  pose proof (read_current_handle x planned Hp). by destruct (read_current w x) as [[found|]|e].
Qed.

(** The sources that moved, and the assumptions. *)
Definition moved_source x : option Mismatch :=
  planned ← planned_version x;
  if bool_decide (reread x = planned) then None
  else Some {| mismatch_source := source_id x; mismatch_planned := planned;
               mismatch_found := reread x |}.
Definition assumption x : option rstring :=
  match planned_version x with None => Some (source_id x) | Some _ => None end.

Lemma verify_loop sources acc :
  foldl (λ acc x, sort_freshness w x acc) acc sources =
    (acc.1 ++ omap moved_source sources, acc.2 ++ omap assumption sources).
Proof.
  revert acc. induction sources as [|x sources IH]; intros [m u]; cbn [foldl].
  { cbn. by rewrite !app_nil_r. }
  rewrite IH. unfold sort_freshness. rewrite check_source_spec. cbn [omap list_omap].
  unfold moved_source at 2, assumption at 2.
  destruct (planned_version x); cbn; [case_bool_decide; cbn|]; by rewrite <- ?app_assoc.
Qed.

Lemma verify_spec b :
  verify w b =
    match omap moved_source (basis_sources b) with
    | [] => BasisFresh (omap assumption (basis_sources b))
    | m :: ms => BasisStale (m :: ms) (omap assumption (basis_sources b))
    end.
Proof. unfold verify. rewrite verify_loop. cbn [fst snd app]. by destruct (omap moved_source _). Qed.

Lemma verify_settles b :
  basis_settles (verify w b) = true ↔
  ∀ x planned, x ∈ basis_sources b → planned_version x = Some planned → reread x = planned.
Proof.
  transitivity (omap moved_source (basis_sources b) = []).
  { rewrite verify_spec. by destruct (omap moved_source _). }
  rewrite omap_nil. unfold moved_source. split.
  - intros Hall x planned Hin Hp. specialize (Hall x Hin). rewrite Hp in Hall. cbn in Hall.
    by case_bool_decide.
  - intros Hall x Hin. destruct (planned_version x) as [planned|] eqn:Hp; [|done]. cbn.
    by rewrite bool_decide_true by eauto.
Qed.
End verdicts.

(** * A captured basis, later *)

Lemma take_while_stop (p : Z → bool) s c t :
  Forall (λ b, p b = true) s → p c = false → take_while p (s ++ c :: t) = s.
Proof.
  induction 1 as [|b s Hb _ IH]; intros Hc; cbn; [by rewrite Hc|]. by rewrite Hb, IH.
Qed.

Lemma encode_ledger_inj n m a b :
  0 ≤ n → 0 ≤ m → encode_ledger n a = encode_ledger m b → n = m ∧ a = b.
Proof.
  intros Hn Hm Heq. unfold encode_ledger in Heq.
  destruct (show_Z_digits n Hn) as (_ & Hdn & Hvn), (show_Z_digits m Hm) as (_ & Hdm & Hvm).
  assert (show_Z n = show_Z m) as Hs.
  { apply (f_equal (take_while is_ascii_digit)) in Heq.
    change (lit ":" ++ a) with (58 :: a) in Heq. change (lit ":" ++ b) with (58 :: b) in Heq.
    by rewrite !take_while_stop in Heq. }
  split; [congruence|]. rewrite Hs in Heq. by apply app_inv_head in Heq as [= ->].
Qed.

Section captured.
Context `{Host} `{!HostLaws}.
Implicit Types (w : BasisWorld) (d : BasisDeclaration) (x : BasisSource).

Lemma digest_is_plain input e : sha256_hex input ≠ unreadable_text e.
Proof using Type*.
  intros Heq. pose proof (sha256_hex_digits input) as Hd. rewrite Heq in Hd.
  unfold unreadable_text in Hd. change (lit "<unreadable: ") with (60 :: lit "unreadable: ") in Hd.
  rewrite <- app_comm_cons, bytes_cons in Hd. discriminate Hd.
Qed.

Lemma ledger_is_plain n s e : 0 ≤ n → encode_ledger n s ≠ unreadable_text e.
Proof.
  intros Hn Heq. destruct (show_Z_digits n Hn) as (Hne & Hd & _). unfold encode_ledger in Heq.
  destruct (show_Z n) as [|c z]; [done|]. injection Heq as -> _.
  by apply Forall_inv in Hd.
Qed.

Lemma ledger_handle_nonneg w path n sha : ledger_handle w path = Ok (n, sha) → 0 ≤ n.
Proof.
  unfold ledger_handle. intros Hl. result_inv. injection Hl as <- _. apply zlen_nonneg.
Qed.

(** A source that cannot be read in [w], and whose version in [w0] was the very text
    that stands for this failure. A digest is never such a text; what git prints and
    what a registry holds may be. *)
Definition masked_failure w0 w d : Prop :=
  match d with
  | DeclareGit _ _ | DeclareRegistry _ _ =>
      ∃ x e, capture_one w0 d = Ok x ∧ capture_one w d = Err e ∧
        planned_version x = Some (unreadable_text e)
  | _ => False
  end.

(** A captured source reads in another world as it was planned exactly when
    capturing it there gives the same source, or its failure is masked. *)
Lemma reread_captured w0 w d x planned :
  capture_one w0 d = Ok x → planned_version x = Some planned →
  reread w x = planned ↔ capture_one w d = Ok x ∨ masked_failure w0 w d.
Proof using Type*.
  intros Hc Hp. unfold reread, masked_failure. rewrite Hc.
  destruct d as [path|repo refname|path ptr|path|description]; cbn [capture_one] in *; result_inv;
    cbn [planned_version read_current] in *; try injection Hp as <-; [..|done].
  - match goal with Hf : file_sha256 w0 path = Ok ?a |- _ =>
      assert (∀ e, a ≠ unreadable_text e) as Hn
        by (intros e; unfold file_sha256 in Hf; result_inv; apply digest_is_plain) end.
    destruct (file_sha256 w path); cbn; naive_solver.
  - destruct (git_commit w repo refname); cbn; naive_solver.
  - destruct (registry_value w path ptr); cbn; naive_solver.
  - match goal with Hf : ledger_handle w0 path = Ok ?a |- _ => destruct a as [n sha]; rename Hf into Hl end.
    injection Hc as <-. injection Hp as <-. cbn [read_current].
    apply ledger_handle_nonneg in Hl.
    destruct (ledger_handle w path) as [[n' sha']|e] eqn:Hl'; cbn.
    + apply ledger_handle_nonneg in Hl'. split; [|by intros [[= -> ->]|[]]].
      intros Heq. left. by apply encode_ledger_inj in Heq as [-> ->].
    + split; [|by intros []]. intros Heq. by destruct (ledger_is_plain n sha e).
Qed.

(** What a declaration is named by, once captured. *)
Definition declared_assumption d : option rstring :=
  match d with
  | DeclareUnverifiable description => Some (lit "unverifiable:" ++ description)
  | _ => None
  end.

Lemma captured_assumption w0 d x :
  capture_one w0 d = Ok x → assumption x = declared_assumption d.
Proof.
  intros Hc. destruct d; cbn [capture_one] in Hc; result_inv; [done..| |done].
  destruct x0. by injection Hc as <-.
Qed.

Lemma omap_Forall2 {A B D} (R : A → B → Prop) (f : A → option D) (g : B → option D) l k :
  (∀ a b, R a b → g b = f a) → Forall2 R l k → omap g k = omap f l.
Proof. intros Hfg. induction 1 as [|a b l k Hab _ IH]; cbn; [done|]. by rewrite (Hfg a b Hab), IH. Qed.

(** C37: a basis captured in one world is fresh in another exactly when every
    declared source, re-captured there, is the source it was, or else is a git ref
    or registry entry that cannot be read there and whose captured version was the
    text the verdict puts in place of that failure. So a file or ledger that
    changed, disappeared or cannot be read always holds the settlement; for a ref or
    an entry the predicate does not fail closed. Every source with no version handle
    is in the verdict as an assumption, whatever the verdict. *)
Theorem captured_basis_is_fresh_iff w0 w declarations cap b :
  capture_with_cap w0 declarations cap = Ok b →
  (basis_settles (verify w b) = true ↔
   ∀ d, d ∈ declarations → capture_one w d = capture_one w0 d ∨ masked_failure w0 w d) ∧
  verdict_unverifiable (verify w b) = omap declared_assumption declarations.
Proof using Type*.
  intros Hc. unfold capture_with_cap in Hc. result_inv.
  match goal with Hm : mapM _ _ = Ok ?k |- _ => apply mapM_Ok in Hm; rename k into sources, Hm into Hall end.
  apply from_sources_Ok in Hc as (-> & _). split.
  - rewrite verify_settles. cbn [basis_sources]. split.
    + intros Hread d [i Hi]%list_elem_of_lookup.
      destruct (Forall2_lookup_l _ _ _ _ _ Hall Hi) as (x & Hx & Hcap).
      rewrite Hcap. destruct (planned_version x) as [planned|] eqn:Hp.
      * apply (reread_captured w0 w d x planned); [done|done|].
        apply Hread; [by eapply list_elem_of_lookup_2|done].
      * left. by destruct d; cbn [capture_one] in Hcap; result_inv; [..|destruct x0; injection Hcap as <-|].
    + intros Hsame x planned [i Hi]%list_elem_of_lookup Hp.
      destruct (Forall2_lookup_r _ _ _ _ _ Hall Hi) as (d & Hd & Hcap).
      apply list_elem_of_lookup_2 in Hd. apply (reread_captured w0 w d x planned); [done..|].
      rewrite <- Hcap. by apply Hsame.
  - rewrite verify_spec. cbn [basis_sources]. transitivity (omap assumption sources); [by destruct (omap (moved_source w) _)|].
    eapply omap_Forall2; [|exact Hall]. intros d x Hx. exact (captured_assumption w0 d x Hx).
Qed.
End captured.

(** * Concrete worlds *)

(** A world of three files, in which [README] has the text [readme] and the
    registry holds [value]. *)
Definition sample_basis_world (readme : rstring) (value : JsonValue) : BasisWorld := {|
  world_read path :=
    if bool_decide (path = lit "README") then Ok readme
    else if bool_decide (path = lit "ledger") then Ok (lit "one" ++ [10] ++ lit "two" ++ [10])
    else if bool_decide (path = lit "registry.json") then Ok (lit "{}")
    else Err (lit "No such file or directory (os error 2)");
  world_rev_parse repo rev :=
    Ok {| git_success := true; git_stdout := sample_oid ++ [10]; git_stderr := [] |};
  world_pointer text pointer := Ok (Some value)
|}.
Definition planned_world : BasisWorld := sample_basis_world (lit "plan") (JsonText (lit "5")).
Definition sample_declarations : list BasisDeclaration :=
  [DeclareFile (lit "README"); DeclareGit (lit "/srv/demo") (lit "main");
   DeclareRegistry (lit "registry.json") (lit "/version"); DeclareLedger (lit "ledger");
   DeclareUnverifiable (lit "the window is open")].
Definition sample_basis : BasisSet :=
  match capture planned_world sample_declarations with
  | Ok b => b
  | Err _ => {| basis_sources := []; basis_cap := 0 |}
  end.

Lemma sample_basis_captured :
  capture_with_cap planned_world sample_declarations DEFAULT_BASIS_CAP = Ok sample_basis.
Proof. by vm_compute. Qed.

(** A registry that held, as its version, the text of its own later failure, and the
    same world once the registry cannot be read. *)
Definition missing_registry : BasisError :=
  Unreadable (lit "registry.json") (lit "No such file or directory (os error 2)").
Definition masking_world : BasisWorld :=
  sample_basis_world (lit "plan") (JsonText (unreadable_text missing_registry)).
Definition unreadable_world : BasisWorld := {|
  world_read path :=
    if bool_decide (path = lit "registry.json")
    then Err (lit "No such file or directory (os error 2)") else world_read masking_world path;
  world_rev_parse := world_rev_parse masking_world;
  world_pointer := world_pointer masking_world
|}.
Definition masked_basis : BasisSet :=
  match capture masking_world sample_declarations with
  | Ok b => b
  | Err _ => {| basis_sources := []; basis_cap := 0 |}
  end.
Lemma masked_basis_captured :
  capture_with_cap masking_world sample_declarations DEFAULT_BASIS_CAP = Ok masked_basis.
Proof. by vm_compute. Qed.

(** Fresh as captured, stale when a file was edited, and fresh although the
    registry is gone. *)
Lemma captured_basis_is_fresh_iff_witness :
  basis_settles (verify planned_world sample_basis) = true ∧
  verdict_unverifiable (verify (sample_basis_world (lit "edited") (JsonText (lit "5"))) sample_basis)
    = [lit "unverifiable:the window is open"] ∧
  is_ok (capture_one unreadable_world (DeclareRegistry (lit "registry.json") (lit "/version"))) = false ∧
  basis_settles (verify unreadable_world masked_basis) = true.
Proof.
  destruct (captured_basis_is_fresh_iff planned_world planned_world sample_declarations
              DEFAULT_BASIS_CAP sample_basis sample_basis_captured) as [Hf _].
  split; [apply Hf; by left|].
  destruct (captured_basis_is_fresh_iff planned_world
              (sample_basis_world (lit "edited") (JsonText (lit "5"))) sample_declarations
              DEFAULT_BASIS_CAP sample_basis sample_basis_captured) as [_ Hu].
  split; [rewrite Hu; by vm_compute|]. split; [by vm_compute|].
  destruct (captured_basis_is_fresh_iff masking_world unreadable_world sample_declarations
              DEFAULT_BASIS_CAP masked_basis masked_basis_captured) as [Hm _].
  apply Hm, Forall_forall. unfold sample_declarations.
  do 2 (apply Forall_cons_2; [left; vm_compute; reflexivity|]).
  apply Forall_cons_2; [right; eexists _, missing_registry; split_and!; vm_compute; reflexivity|].
  do 2 (apply Forall_cons_2; [left; vm_compute; reflexivity|]). apply Forall_nil_2.
Defined.

Example edited_file_is_named :
  mismatch_source <$> verdict_mismatches
    (verify (sample_basis_world (lit "edited") (JsonText (lit "5"))) sample_basis) = [lit "file:README"].
Proof. by vm_compute. Qed.

(** A registry entry is versioned by its text: the string "5" that becomes the
    number 5 reads as the same version, and the basis is still fresh. *)
Example retyped_entry_is_fresh :
  basis_settles (verify (sample_basis_world (lit "plan") (JsonOther (lit "5"))) sample_basis) = true.
Proof. by vm_compute. Qed.
