(* ===== verification/Settlement.v ===== *)
(** Comparative settlement (src/settlement.rs): the record that chooses one of
    several candidate runs, and the constructor that refuses an incomplete one.

    Whether an archive's path exists is the world's: [exists_on_disk]. *)
From S2P Require Export Basis.
Local Open Scope Z_scope.

Definition DEFAULT_CANDIDATE_CAP : Z := 8.
Definition MIN_RATIONALE_BYTES : Z := 40.

(** * Errors *)

Inductive SettlementError : Type :=
  | InvalidSettlementId (kind value : rstring)
  | NoCandidates
  | SingleCandidate (id : rstring)
  | DuplicateCandidate (id : rstring)
  | UnknownCandidate (field id : rstring)
  | IneligibleSelection (id check : rstring)
  | NoChecks (id : rstring)
  | MissingCheck (candidate check : rstring)
  | RationaleTooShort (length minimum : Z)
  | ArchiveMissing (candidate path : rstring)
  | PassingCandidateNotRecorded (id : rstring)
  | CandidatesOverCap (count cap : Z)
  | FatalDisagreement (check : rstring).
Abbreviation settlement_result := (result SettlementError).

(** * The check matrix *)

(** [validate_open_id], behind [CandidateId] and [CheckId]. *)
Definition validate_settlement_id (kind value : rstring) : settlement_result rstring :=
  if is_empty value || (256 <? len value)
     || existsb (λ c, char_is_whitespace c || char_is_control c) value
  then Err (InvalidSettlementId kind value) else Ok value.
Definition CandidateId_try_new (value : rstring) : settlement_result rstring :=
  validate_settlement_id (lit "candidate_id") value.
Definition CheckId_try_new (value : rstring) : settlement_result rstring :=
  validate_settlement_id (lit "check_id") value.

Inductive CheckOutcome : Type := CheckPassed | CheckFailed | CheckInconclusive.
#[export] Instance CheckOutcome_eq_dec : EqDecision CheckOutcome.
Proof. solve_decision. Defined.

Definition show_check_outcome (o : CheckOutcome) : rstring :=
  match o with
  | CheckPassed => lit "passed"
  | CheckFailed => lit "failed"
  | CheckInconclusive => lit "inconclusive"
  end.

Record CheckResult := {
  result_check : rstring;
  result_outcome : CheckOutcome;
  result_fatal : bool;
  result_evidence : option rstring
}.

Definition disqualifying (r : CheckResult) : bool :=
  result_fatal r && bool_decide (result_outcome r ≠ CheckPassed).

(** * Candidates *)

Record CandidateResult := {
  candidate_id : rstring;
  candidate_worktree_archive : rstring;
  candidate_diff_summary : rstring;
  candidate_basis_verdict : BasisVerdict;
  candidate_checks : list CheckResult
}.

Definition passed_all (c : CandidateResult) : bool :=
  negb (bool_decide (zlen (candidate_checks c) = 0))
  && forallb (λ r, bool_decide (result_outcome r = CheckPassed)) (candidate_checks c).

Definition ineligibility_reason (c : CandidateResult) : option rstring :=
  if negb (basis_settles (candidate_basis_verdict c)) then
    let moved := mismatch_source <$> verdict_mismatches (candidate_basis_verdict c) in
    Some (lit "basis stale, " ++ show_Z (zlen moved) ++ lit " source(s) moved since plan: "
            ++ join_with (lit ", ") moved)
  else
    (λ r, match result_outcome r with
          | CheckFailed => lit "fatal check `" ++ result_check r ++ lit "` failed"
          | _ => lit "fatal check `" ++ result_check r ++ lit "` did not conclude"
          end)
    <$> List.find disqualifying (candidate_checks c).

Definition eligible (c : CandidateResult) : bool :=
  match ineligibility_reason c with None => true | Some _ => false end.

Definition check_ids (c : CandidateResult) : gset rstring :=
  list_to_set (result_check <$> candidate_checks c).

Record Graft := { graft_from : rstring; graft_piece : rstring }.
Record Dissent := {
  dissent_candidate : rstring;
  dissent_diff_summary : rstring;
  dissent_note : option rstring
}.

(** * The record *)

(** [winner] is set at construction. *)
Record SettlementRecord := {
  record_candidates : list CandidateResult;
  record_selected : rstring;
  record_rationale : rstring;
  record_grafts : list Graft;
  record_dissent : list Dissent;
  record_winner : CandidateResult
}.

(** [min] of a set of ids. *)
Definition min_id (ids : gset rstring) : option rstring :=
  head (stable_sort str_leb (elements ids)).

Definition every_check (candidates : list CandidateResult) : gset rstring :=
  ⋃ (check_ids <$> candidates).

(** A candidate's row of the matrix: populated, and missing no check any
    candidate ran. *)
Definition complete_row (every : gset rstring) (c : CandidateResult) : settlement_result unit :=
  reject_if (bool_decide (zlen (candidate_checks c) = 0)) (NoChecks (candidate_id c)) ;;
  match min_id (every ∖ check_ids c) with
  | Some missing => Err (MissingCheck (candidate_id c) missing)
  | None => Ok tt
  end.

(** The loop over every result of every candidate: a check keeps the fatal flag
    it was first seen with. *)
Fixpoint fatal_flags_agree (fatal_by_check : gmap rstring bool) (results : list CheckResult)
    : settlement_result unit :=
  match results with
  | [] => Ok tt
  | r :: results =>
      match fatal_by_check !! result_check r with
      | Some prior =>
          if bool_decide (prior ≠ result_fatal r) then Err (FatalDisagreement (result_check r))
          else fatal_flags_agree fatal_by_check results
      | None => fatal_flags_agree (<[result_check r := result_fatal r]> fatal_by_check) results
      end
  end.

Definition find_candidate (id : rstring) (candidates : list CandidateResult)
    : option CandidateResult :=
  List.find (λ c, bool_decide (candidate_id c = id)) candidates.

Section settlement.
Variable exists_on_disk : rstring → bool.

Definition check_graft (candidates : list CandidateResult) (g : Graft) : settlement_result unit :=
  source ← ok_or (find_candidate (graft_from g) candidates)
    (UnknownCandidate (lit "graft.from") (graft_from g)) ;
  reject_if (negb (exists_on_disk (candidate_worktree_archive source)))
    (ArchiveMissing (graft_from g) (candidate_worktree_archive source)).

Definition check_dissent (seen : gset rstring) (e : Dissent) : settlement_result unit :=
  reject_if (bool_decide (dissent_candidate e ∉ seen))
    (UnknownCandidate (lit "dissent.candidate") (dissent_candidate e)).

(** A loser that passed everything is in the dissent. *)
Definition check_loser (selected : rstring) (recorded : gset rstring) (c : CandidateResult)
    : settlement_result unit :=
  reject_if (bool_decide (candidate_id c ≠ selected) && passed_all c
             && bool_decide (candidate_id c ∉ recorded))
    (PassingCandidateNotRecorded (candidate_id c)).

Definition check_count (candidates : list CandidateResult) (cap : Z) : settlement_result unit :=
  match candidates with
  | [] => Err NoCandidates
  | first :: _ =>
      reject_if (zlen candidates =? 1) (SingleCandidate (candidate_id first)) ;;
      reject_if (cap <? zlen candidates) (CandidatesOverCap (zlen candidates) cap)
  end.

Definition check_matrix (candidates : list CandidateResult) : settlement_result unit :=
  for_each (complete_row (every_check candidates)) candidates ;;
  fatal_flags_agree ∅ (candidates ≫= candidate_checks).

Definition select_winner (candidates : list CandidateResult) (selected : rstring)
    : settlement_result CandidateResult :=
  winner ← ok_or (find_candidate selected candidates)
    (UnknownCandidate (lit "selected") selected) ;
  match ineligibility_reason winner with
  | Some reason => Err (IneligibleSelection selected reason)
  | None => Ok winner
  end.

(** [SettlementRecord::new_with_cap]. *)
Definition settlement_new_with_cap (candidates : list CandidateResult)
    (selected rationale : rstring) (grafts : list Graft) (dissent : list Dissent) (cap : Z)
    : settlement_result SettlementRecord :=
  check_count candidates cap ;;
  match first_duplicate ∅ (candidate_id <$> candidates) with
  | Some id => Err (DuplicateCandidate id)
  | None => Ok tt
  end ;;
  let seen : gset rstring := list_to_set (candidate_id <$> candidates) in
  check_matrix candidates ;;
  winner ← select_winner candidates selected ;
  reject_if (len (trim rationale) <? MIN_RATIONALE_BYTES)
    (RationaleTooShort (len (trim rationale)) MIN_RATIONALE_BYTES) ;;
  for_each (check_graft candidates) grafts ;;
  for_each (check_dissent seen) dissent ;;
  for_each (check_loser selected (list_to_set (dissent_candidate <$> dissent))) candidates ;;
  Ok {| record_candidates := candidates; record_selected := selected;
        record_rationale := rationale; record_grafts := grafts; record_dissent := dissent;
        record_winner := winner |}.

Definition settlement_new (candidates : list CandidateResult) (selected rationale : rstring)
    (grafts : list Graft) (dissent : list Dissent) : settlement_result SettlementRecord :=
  settlement_new_with_cap candidates selected rationale grafts dissent DEFAULT_CANDIDATE_CAP.

(** ** Serde *)

(** [SettlementRecordWire]: what a record serializes to, the winner left out. *)
Record SettlementRecordWire := {
  wire_candidates : list CandidateResult;
  wire_selected : rstring;
  wire_rationale : rstring;
  wire_grafts : list Graft;
  wire_dissent : list Dissent
}.

Definition settlement_serialize (r : SettlementRecord) : SettlementRecordWire :=
  {| wire_candidates := record_candidates r; wire_selected := record_selected r;
     wire_rationale := record_rationale r; wire_grafts := record_grafts r;
     wire_dissent := record_dissent r |}.

Definition settlement_deserialize (wire : SettlementRecordWire)
    : settlement_result SettlementRecord :=
  settlement_new (wire_candidates wire) (wire_selected wire) (wire_rationale wire)
    (wire_grafts wire) (wire_dissent wire).
End settlement.

(** [matrix_report]. *)
Definition report_candidate (selected : rstring) (c : CandidateResult) : rstring :=
  let standing :=
    if bool_decide (candidate_id c = selected) then lit "selected"
    else match ineligibility_reason c with
         | Some reason => lit "ineligible: " ++ reason
         | None => lit "eligible"
         end in
  lit "  candidate `" ++ candidate_id c ++ lit "` [" ++ standing ++ lit "]" ++ [10]
    ++ (candidate_checks c ≫= λ r,
          lit "    check `" ++ result_check r ++ lit "`: "
            ++ show_check_outcome (result_outcome r)
            ++ (if result_fatal r then lit " (fatal)" else []) ++ [10]).

Definition matrix_report (r : SettlementRecord) : rstring :=
  lit "settlement: selected `" ++ record_selected r ++ lit "` from "
    ++ show_Z (zlen (record_candidates r)) ++ lit " candidates" ++ [10]
    ++ lit "  rationale: " ++ trim (record_rationale r) ++ [10]
    ++ (record_candidates r ≫= report_candidate (record_selected r))
    ++ (record_grafts r ≫= λ g,
          lit "  graft: `" ++ graft_piece g ++ lit "` from candidate `" ++ graft_from g
            ++ lit "`" ++ [10])
    ++ (record_dissent r ≫= λ e,
          lit "  dissent: candidate `" ++ dissent_candidate e ++ lit "` " ++ [8212]
            ++ lit " " ++ dissent_diff_summary e ++ [10]).
