(* ===== verification/SettlementProps.v ===== *)
(** What a settlement record is: the constructor accepts exactly the complete
    comparisons, and which records can be read back. *)
From S2P Require Export Settlement BasisProps.
Local Open Scope Z_scope.

(** * The contract *)

(** A complete comparison that chooses [winner], at a moment when the archives
    [exists_on_disk] are there. *)
Record well_settled (exists_on_disk : rstring → bool) (cap : Z)
    (candidates : list CandidateResult) (selected rationale : rstring) (grafts : list Graft)
    (dissent : list Dissent) (winner : CandidateResult) : Prop := {
  ws_count : 2 ≤ zlen candidates ≤ cap;
  ws_distinct : NoDup (candidate_id <$> candidates);
  ws_checked c : c ∈ candidates → candidate_checks c ≠ [];
  ws_same_checks c c' : c ∈ candidates → c' ∈ candidates → check_ids c = check_ids c';
  ws_fatal c c' r r' : c ∈ candidates → c' ∈ candidates → r ∈ candidate_checks c →
    r' ∈ candidate_checks c' → result_check r = result_check r' →
    result_fatal r = result_fatal r';
  ws_winner : winner ∈ candidates ∧ candidate_id winner = selected;
  ws_fresh : basis_settles (candidate_basis_verdict winner) = true;
  ws_safe r : r ∈ candidate_checks winner → result_fatal r = true →
    result_outcome r = CheckPassed;
  ws_rationale : MIN_RATIONALE_BYTES ≤ len (trim rationale);
  ws_grafts g : g ∈ grafts → ∃ c, c ∈ candidates ∧ candidate_id c = graft_from g ∧
    exists_on_disk (candidate_worktree_archive c) = true;
  ws_dissent e : e ∈ dissent → ∃ c, c ∈ candidates ∧ candidate_id c = dissent_candidate e;
  ws_losers c : c ∈ candidates → candidate_id c ≠ selected →
    (∀ r, r ∈ candidate_checks c → result_outcome r = CheckPassed) →
    ∃ e, e ∈ dissent ∧ dissent_candidate e = candidate_id c
}.

(** * The parts of the constructor *)

Lemma zlen_zero {A} (l : list A) : zlen l = 0 ↔ l = [].
Proof. unfold zlen. destruct l; cbn; split; try done; lia. Qed.

Lemma find_Some {A} (p : A → bool) l x : List.find p l = Some x → x ∈ l ∧ p x = true.
Proof. intros H%List.find_some. by rewrite <- list_elem_of_In in H. Qed.

Lemma find_is_Some {A} (p : A → bool) l x :
  x ∈ l → p x = true → ∃ y, List.find p l = Some y.
Proof.
  intros Hin Hp. destruct (List.find p l) eqn:Hf; [by eexists|].
  apply list_elem_of_In in Hin. by rewrite (List.find_none _ _ Hf x Hin) in Hp.
Qed.

Lemma find_None_iff {A} (p : A → bool) l :
  List.find p l = None ↔ ∀ x, x ∈ l → p x = false.
Proof.
  split.
  - intros Hf x Hin. apply list_elem_of_In in Hin. by apply (List.find_none _ _ Hf).
  - intros Hall. destruct (List.find p l) as [x|] eqn:Hf; [|done].
    apply find_Some in Hf as [Hin Hp]. by rewrite Hall in Hp.
Qed.

Lemma find_candidate_Some id candidates c :
  find_candidate id candidates = Some c → c ∈ candidates ∧ candidate_id c = id.
Proof. by intros [? ?%bool_decide_eq_true]%find_Some. Qed.

Lemma NoDup_image_inj {A B} (f : A → B) l x y :
  NoDup (f <$> l) → x ∈ l → y ∈ l → f x = f y → x = y.
Proof.
  intros Hnd [i Hi]%list_elem_of_lookup [j Hj]%list_elem_of_lookup Heq.
  assert (i = j) as ->; [|congruence].
  apply (NoDup_lookup (f <$> l) i j (f x)); [done|by rewrite list_lookup_fmap, Hi|].
  by rewrite list_lookup_fmap, Hj, Heq.
Qed.

(** Where ids are distinct, an id finds its candidate. *)
Lemma find_candidate_distinct candidates c :
  NoDup (candidate_id <$> candidates) → c ∈ candidates →
  find_candidate (candidate_id c) candidates = Some c.
Proof.
  intros Hnd Hin. destruct (find_is_Some (λ x, bool_decide (candidate_id x = candidate_id c))
    candidates c) as [c' Hc']; [done|by rewrite bool_decide_true|].
  unfold find_candidate. rewrite Hc'. apply find_candidate_Some in Hc' as [Hin' Heq].
  f_equal. by eapply (NoDup_image_inj candidate_id).
Qed.

Lemma min_id_None ids : min_id ids = None ↔ ids = ∅.
Proof.
  unfold min_id. rewrite head_None. pose proof (stable_sort_perm str_leb (elements ids)) as Hp.
  split.
  - intros Heq. rewrite Heq in Hp. apply Permutation_nil_l in Hp.
    by apply leibniz_equiv, elements_empty_inv.
  - intros ->. rewrite elements_empty in Hp. by apply Permutation_nil_r in Hp.
Qed.

Lemma eligible_iff c :
  ineligibility_reason c = None ↔
  basis_settles (candidate_basis_verdict c) = true ∧
  ∀ r, r ∈ candidate_checks c → result_fatal r = true → result_outcome r = CheckPassed.
Proof.
  unfold ineligibility_reason. destruct (basis_settles _); cbn [negb]; [|naive_solver].
  rewrite fmap_None, find_None_iff. unfold disqualifying. split.
  - intros Hall. split; [done|]. intros r Hin Hf. specialize (Hall r Hin). rewrite Hf in Hall.
    cbn in Hall. by bool_inv.
  - intros [_ Hall] r Hin. destruct (result_fatal r) eqn:Hf; [|done]. cbn.
    by rewrite (Hall r Hin Hf).
Qed.

Lemma passed_all_iff c :
  passed_all c = true ↔
  candidate_checks c ≠ [] ∧ ∀ r, r ∈ candidate_checks c → result_outcome r = CheckPassed.
Proof.
  unfold passed_all. rewrite andb_true_iff, negb_true_iff, bool_decide_eq_false, zlen_zero.
  rewrite forallb_true_Forall, Forall_forall. by setoid_rewrite bool_decide_eq_true.
Qed.

Lemma check_count_Ok candidates cap u :
  check_count candidates cap = Ok u ↔ 2 ≤ zlen candidates ≤ cap.
Proof.
  destruct u. destruct candidates as [|c candidates]; cbn [check_count].
  { split; [done|]. rewrite zlen_nil. lia. }
  rewrite bind_Ok. setoid_rewrite reject_if_Ok.
  rewrite zlen_cons. pose proof (zlen_nonneg candidates). split.
  - intros ([] & Hn & Hc). bool_inv. lia.
  - intros Hl. exists tt. split; [apply Z.eqb_neq|apply Z.ltb_ge]; lia.
Qed.

(** ** The matrix *)

Lemma elem_of_every_check candidates k :
  k ∈ every_check candidates ↔ ∃ c, c ∈ candidates ∧ k ∈ check_ids c.
Proof.
  unfold every_check. rewrite elem_of_union_list. setoid_rewrite list_elem_of_fmap. naive_solver.
Qed.

Lemma complete_rows_Ok candidates u :
  for_each (complete_row (every_check candidates)) candidates = Ok u ↔
  (∀ c, c ∈ candidates → candidate_checks c ≠ []) ∧
  ∀ c c', c ∈ candidates → c' ∈ candidates → check_ids c = check_ids c'.
Proof.
  rewrite for_each_Ok, Forall_forall.
  assert (∀ c, complete_row (every_check candidates) c = Ok tt ↔
    candidate_checks c ≠ [] ∧ every_check candidates ⊆ check_ids c) as Hrow.
  { intros c. unfold complete_row. rewrite bind_Ok. setoid_rewrite reject_if_Ok.
    setoid_rewrite bool_decide_eq_false. setoid_rewrite zlen_zero.
    pose proof (min_id_None (every_check candidates ∖ check_ids c)) as Hmin.
    destruct (min_id _); split.
    - by intros (_ & _ & [=]).
    - intros [_ Hsub]. destruct Hmin as [_ Hmin]. discriminate Hmin. set_solver.
    - intros (_ & Hne & _). split; [done|]. assert (every_check candidates ∖ check_ids c = ∅)
        as Hempty by (by apply Hmin). intros k Hk. destruct (decide (k ∈ check_ids c)); [done|].
      set_solver.
    - intros [Hne _]. by exists tt. }
  setoid_rewrite Hrow. split.
  - intros Hall. split; [naive_solver|]. intros c c' Hc Hc'.
    apply set_eq. intros k. split; intros Hk.
    + apply (Hall c' Hc'). apply elem_of_every_check. eauto.
    + apply (Hall c Hc). apply elem_of_every_check. eauto.
  - intros [Hne Hsame] c Hc. split; [auto|]. intros k (c' & Hc' & Hk)%elem_of_every_check.
    by rewrite (Hsame c c').
Qed.

Lemma fatal_flags_Ok seen results u :
  fatal_flags_agree seen results = Ok u ↔
  (∀ r f, r ∈ results → seen !! result_check r = Some f → result_fatal r = f) ∧
  ∀ r r', r ∈ results → r' ∈ results → result_check r = result_check r' →
    result_fatal r = result_fatal r'.
Proof.
  destruct u. revert seen. induction results as [|r results IH]; intros seen; cbn [fatal_flags_agree].
  { split; [|done]. intros _. split; [intros r f Hr|intros r r' Hr]; by apply not_elem_of_nil in Hr. }
  destruct (seen !! result_check r) as [prior|] eqn:Hseen.
  - case_bool_decide as Hprior.
    + split; [done|]. intros [Hs _]. destruct Hprior. by rewrite (Hs r prior); [|left|].
    + rewrite IH. split.
      * intros [Hs Hp]. split.
        -- intros r' f [->|Hr']%elem_of_cons Hf; [congruence|by eapply Hs].
        -- assert (∀ r', r' ∈ results → result_check r' = result_check r →
             result_fatal r' = result_fatal r) as Hr.
           { intros r' Hr' Heq. rewrite <- Hprior. apply (Hs r'); [done|by rewrite Heq]. }
           intros x y [->|Hx]%elem_of_cons [->|Hy]%elem_of_cons Heq; eauto using eq_sym.
      * intros [Hs Hp]. split; [intros r' f Hr'; apply Hs; by right|].
        intros x y Hx Hy. apply Hp; by right.
  - rewrite IH. split.
    + intros [Hs Hp].
      assert (∀ r', r' ∈ results → result_check r' = result_check r →
        result_fatal r' = result_fatal r) as Hr.
      { intros r' Hr' Heq. apply (Hs r'); [done|]. rewrite Heq. apply lookup_insert_eq. }
      split.
      * intros r' f [->|Hr']%elem_of_cons Hf; [congruence|]. apply (Hs r'); [done|].
        rewrite lookup_insert_ne; [done|congruence].
      * intros x y [->|Hx]%elem_of_cons [->|Hy]%elem_of_cons Heq; eauto using eq_sym.
    + intros [Hs Hp]. split.
      * intros r' f Hr' Hf. apply lookup_insert_Some in Hf as [[Heq <-]|[_ Hf]].
        -- apply Hp; [by right|by left|done].
        -- apply (Hs r'); [by right|done].
      * intros x y Hx Hy. apply Hp; by right.
Qed.

Lemma elem_of_bind_checks candidates r :
  r ∈ candidates ≫= candidate_checks ↔ ∃ c, c ∈ candidates ∧ r ∈ candidate_checks c.
Proof. rewrite list_elem_of_bind. naive_solver. Qed.

Lemma check_matrix_Ok candidates u :
  check_matrix candidates = Ok u ↔
  (∀ c, c ∈ candidates → candidate_checks c ≠ []) ∧
  (∀ c c', c ∈ candidates → c' ∈ candidates → check_ids c = check_ids c') ∧
  ∀ c c' r r', c ∈ candidates → c' ∈ candidates → r ∈ candidate_checks c →
    r' ∈ candidate_checks c' → result_check r = result_check r' →
    result_fatal r = result_fatal r'.
Proof.
  unfold check_matrix. rewrite bind_Ok. setoid_rewrite complete_rows_Ok.
  setoid_rewrite fatal_flags_Ok. setoid_rewrite elem_of_bind_checks. split.
  - intros (_ & [Hne Hsame] & _ & Hp). split_and!; [done..|]. eauto 10.
  - intros (Hne & Hsame & Hp). exists tt. split_and!; [done..| |].
    + intros r f _ Hl. by rewrite lookup_empty in Hl.
    + intros r r' (c & Hc & Hr) (c' & Hc' & Hr'). eauto.
Qed.

Lemma select_winner_Ok candidates selected winner :
  NoDup (candidate_id <$> candidates) →
  select_winner candidates selected = Ok winner ↔
  winner ∈ candidates ∧ candidate_id winner = selected ∧
  basis_settles (candidate_basis_verdict winner) = true ∧
  ∀ r, r ∈ candidate_checks winner → result_fatal r = true → result_outcome r = CheckPassed.
Proof.
  intros Hnd. unfold select_winner. rewrite bind_Ok. setoid_rewrite ok_or_Ok. split.
  - intros (c & [Hin Hid]%find_candidate_Some & Hc).
    destruct (ineligibility_reason c) eqn:He; [done|]. injection Hc as <-.
    apply eligible_iff in He as [? ?]. done.
  - intros (Hin & <- & He). exists winner. split; [by apply find_candidate_distinct|].
    by apply eligible_iff in He as ->.
Qed.

Lemma check_dissent_Ok candidates e u :
  check_dissent (list_to_set (candidate_id <$> candidates)) e = Ok u ↔
  ∃ c, c ∈ candidates ∧ candidate_id c = dissent_candidate e.
Proof.
  unfold check_dissent. rewrite reject_if_Ok, bool_decide_eq_false. split.
  - intros Hin%dec_stable. apply elem_of_list_to_set, list_elem_of_fmap in Hin.
    destruct Hin as (c & ? & ?). eauto.
  - intros (c & Hc & Heq) Hn. apply Hn, elem_of_list_to_set, list_elem_of_fmap. eauto.
Qed.

Lemma check_loser_Ok selected dissent c u :
  candidate_checks c ≠ [] →
  check_loser selected (list_to_set (dissent_candidate <$> dissent)) c = Ok u ↔
  (candidate_id c ≠ selected →
   (∀ r, r ∈ candidate_checks c → result_outcome r = CheckPassed) →
   ∃ e, e ∈ dissent ∧ dissent_candidate e = candidate_id c).
Proof.
  intros Hne. unfold check_loser. rewrite reject_if_Ok, !andb_false_iff, !bool_decide_eq_false.
  assert (passed_all c = false ↔
    ¬ ∀ r, r ∈ candidate_checks c → result_outcome r = CheckPassed) as ->.
  { rewrite <- not_true_iff_false, passed_all_iff. naive_solver. }
  assert (¬ (candidate_id c ∉ (list_to_set (dissent_candidate <$> dissent) : gset rstring)) ↔
    ∃ e, e ∈ dissent ∧ dissent_candidate e = candidate_id c) as ->.
  { transitivity (candidate_id c ∈ (list_to_set (dissent_candidate <$> dissent) : gset rstring)).
    - split; [apply dec_stable|]. by intros Hin Hn.
    - rewrite elem_of_list_to_set, list_elem_of_fmap. naive_solver. }
  assert (Decision (∀ r, r ∈ candidate_checks c → result_outcome r = CheckPassed)).
  { destruct (decide (Forall (λ r, result_outcome r = CheckPassed) (candidate_checks c)));
      [left|right]; by rewrite <- Forall_forall. }
  destruct (decide (candidate_id c = selected)),
    (decide (∀ r, r ∈ candidate_checks c → result_outcome r = CheckPassed)); naive_solver.
Qed.

Section contract.
Variable exists_on_disk : rstring → bool.

Lemma check_graft_Ok candidates g u :
  NoDup (candidate_id <$> candidates) →
  check_graft exists_on_disk candidates g = Ok u ↔
  ∃ c, c ∈ candidates ∧ candidate_id c = graft_from g ∧
    exists_on_disk (candidate_worktree_archive c) = true.
Proof.
  intros Hnd. unfold check_graft. rewrite bind_Ok. setoid_rewrite ok_or_Ok.
  setoid_rewrite reject_if_Ok. setoid_rewrite negb_false_iff. split.
  - intros (c & [Hin Hid]%find_candidate_Some & He). eauto.
  - intros (c & Hin & Hid & He). exists c. split; [|done]. rewrite <- Hid.
    by apply find_candidate_distinct.
Qed.

(** What the constructor accepts is a complete comparison, whose winner the
    record keeps. *)
Lemma settlement_new_sound candidates selected rationale grafts dissent cap r :
  settlement_new_with_cap exists_on_disk candidates selected rationale grafts dissent cap = Ok r →
  well_settled exists_on_disk cap candidates selected rationale grafts dissent (record_winner r) ∧
  r = {| record_candidates := candidates; record_selected := selected;
         record_rationale := rationale; record_grafts := grafts; record_dissent := dissent;
         record_winner := record_winner r |}.
Proof.
  unfold settlement_new_with_cap. intros Hnew.
  destruct (first_duplicate ∅ (candidate_id <$> candidates)) eqn:Hdup; result_inv.
  apply first_duplicate_None in Hdup as [Hnd _].
  match goal with H : check_count _ _ = _ |- _ => apply check_count_Ok in H as Hcount end.
  match goal with H : check_matrix _ = _ |- _ => apply check_matrix_Ok in H as (Hne & Hsame & Hfatal) end.
  match goal with H : select_winner _ _ = _ |- _ =>
    apply select_winner_Ok in H as (Hin & Hid & Hfresh & Hsafe); [|done] end.
  bool_inv. cbn [record_winner]. split; [|done].
  repeat match goal with H : Forall _ _ |- _ => rewrite Forall_forall in H end.
  split; try done.
  - intros g Hg. by eapply check_graft_Ok; [|auto].
  - intros e He. by eapply check_dissent_Ok; auto.
  - intros c Hc. by apply (check_loser_Ok selected dissent c tt); auto.
Qed.

Lemma settlement_new_complete candidates selected rationale grafts dissent cap winner :
  well_settled exists_on_disk cap candidates selected rationale grafts dissent winner →
  settlement_new_with_cap exists_on_disk candidates selected rationale grafts dissent cap =
    Ok {| record_candidates := candidates; record_selected := selected;
          record_rationale := rationale; record_grafts := grafts; record_dissent := dissent;
          record_winner := winner |}.
Proof.
  intros [Hcount Hnd Hne Hsame Hfatal [Hin Hid] Hfresh Hsafe Hr Hg He Hl].
  unfold settlement_new_with_cap.
  rewrite (proj2 (check_count_Ok _ _ tt)) by done. cbn [mbind result_bind].
  rewrite (proj2 (first_duplicate_None _ _)) by set_solver. cbn [mbind result_bind].
  rewrite (proj2 (check_matrix_Ok _ tt)) by done. cbn [mbind result_bind].
  rewrite (proj2 (select_winner_Ok _ selected winner Hnd)) by done. cbn [mbind result_bind].
  rewrite (proj2 (reject_if_Ok _ _ tt)) by (by apply Z.ltb_ge). cbn [mbind result_bind].
  rewrite (proj2 (for_each_Ok _ grafts tt))
    by (apply Forall_forall; intros g ?; apply check_graft_Ok; auto). cbn [mbind result_bind].
  rewrite (proj2 (for_each_Ok _ dissent tt))
    by (apply Forall_forall; intros e ?; apply check_dissent_Ok; auto). cbn [mbind result_bind].
  rewrite (proj2 (for_each_Ok _ candidates tt))
    by (apply Forall_forall; intros c ?; apply check_loser_Ok; auto). done.
Qed.
End contract.

(** * The theorems *)

(** C36: the constructor accepts exactly the complete comparisons: between two
    and [cap] distinct candidates, every one of which ran at least one check and
    all of them the same checks under the same fatal flags; a winner among them
    whose basis is fresh and whose fatal checks all passed; a rationale long
    enough; grafts whose archives are there; dissent that names candidates and
    every loser that passed everything. The record keeps what it was given, with
    the winner. *)
Theorem settlement_is_a_complete_comparison exists_on_disk candidates selected rationale grafts
    dissent cap r :
  settlement_new_with_cap exists_on_disk candidates selected rationale grafts dissent cap = Ok r ↔
  well_settled exists_on_disk cap candidates selected rationale grafts dissent (record_winner r) ∧
  r = {| record_candidates := candidates; record_selected := selected;
         record_rationale := rationale; record_grafts := grafts; record_dissent := dissent;
         record_winner := record_winner r |}.
Proof.
  split; [apply settlement_new_sound|]. intros [Hw ->].
  by rewrite (settlement_new_complete _ _ _ _ _ _ _ _ Hw).
Qed.

(** C39: a record read back is the record that was written, and it is read back
    exactly when it has no more candidates than the default cap and the archive
    behind every graft is still on disk: one made with a larger cap, or whose
    archives are gone, is refused. *)
Theorem record_reloads_iff exists_then exists_now candidates selected rationale grafts dissent cap r :
  settlement_new_with_cap exists_then candidates selected rationale grafts dissent cap = Ok r →
  settlement_deserialize exists_now (settlement_serialize r) = Ok r ↔
  zlen candidates ≤ DEFAULT_CANDIDATE_CAP ∧
  ∀ g c, g ∈ grafts → c ∈ candidates → candidate_id c = graft_from g →
    exists_now (candidate_worktree_archive c) = true.
Proof.
  intros [Hw Hr]%settlement_new_sound. unfold settlement_deserialize, settlement_new.
  rewrite Hr. cbn [settlement_serialize wire_candidates wire_selected wire_rationale wire_grafts
    wire_dissent record_candidates record_selected record_rationale record_grafts record_dissent].
  split.
  - intros [[Hcount Hnd _ _ _ _ _ _ _ Hg _ _] _]%settlement_new_sound. split; [lia|].
    intros g c Hin Hc Hid. destruct (Hg g Hin) as (c' & Hc' & Hid' & He).
    by rewrite (NoDup_image_inj candidate_id candidates c c') by congruence.
  - intros [Hcap Hg]. apply settlement_new_complete.
    destruct Hw as [Hcount Hnd ? ? ? ? ? ? ? Hgw ? ?]. split; try done; [lia|].
    intros g Hin. destruct (Hgw g Hin) as (c & Hc & Hid & _). eauto.
Qed.

(** * A concrete settlement *)

Definition sample_fanout_candidate (id : string) (style : CheckOutcome) : CandidateResult :=
  {| candidate_id := lit id; candidate_worktree_archive := lit "/archive/" ++ lit id;
     candidate_diff_summary := lit "rewrites the parser";
     candidate_basis_verdict := verify planned_world sample_basis;
     candidate_checks :=
       [{| result_check := lit "tests"; result_outcome := CheckPassed; result_fatal := true;
           result_evidence := None |};
        {| result_check := lit "style"; result_outcome := style; result_fatal := false;
           result_evidence := Some (lit "log") |}] |}.
Definition sample_candidates_of_item : list CandidateResult :=
  [sample_fanout_candidate "first" CheckFailed; sample_fanout_candidate "second" CheckPassed].
Definition sample_rationale : rstring :=
  lit "the first keeps the error spans that the second one throws away".
Definition sample_grafts : list Graft :=
  [{| graft_from := lit "second"; graft_piece := lit "the recovery table" |}].
Definition sample_dissent : list Dissent :=
  [{| dissent_candidate := lit "second"; dissent_diff_summary := lit "smaller, passes everything";
      dissent_note := None |}].

Definition sample_settlement (exists_on_disk : rstring → bool) (dissent : list Dissent)
    : settlement_result SettlementRecord :=
  settlement_new_with_cap exists_on_disk sample_candidates_of_item (lit "first") sample_rationale
    sample_grafts dissent 2.
Definition everything (path : rstring) : bool := true.
Definition nothing (path : rstring) : bool := false.

Example unrecorded_loser_is_refused :
  sample_settlement everything [] = Err (PassingCandidateNotRecorded (lit "second")).
Proof. by vm_compute. Qed.

Definition sample_settlement_record : SettlementRecord :=
  {| record_candidates := sample_candidates_of_item; record_selected := lit "first";
     record_rationale := sample_rationale; record_grafts := sample_grafts;
     record_dissent := sample_dissent; record_winner := sample_fanout_candidate "first" CheckFailed |}.

Lemma sample_settles : sample_settlement everything sample_dissent = Ok sample_settlement_record.
Proof. by vm_compute. Qed.

(** The candidates agree on which checks are fatal. *)
Lemma settlement_is_a_complete_comparison_witness :
  well_settled everything 2 sample_candidates_of_item (lit "first") sample_rationale sample_grafts
    sample_dissent (sample_fanout_candidate "first" CheckFailed).
Proof.
  exact (proj1 (proj1 (settlement_is_a_complete_comparison everything sample_candidates_of_item
    (lit "first") sample_rationale sample_grafts sample_dissent 2 sample_settlement_record) sample_settles)).
Defined.

Lemma record_reloads_iff_witness :
  settlement_deserialize everything (settlement_serialize sample_settlement_record) = Ok sample_settlement_record ∧
  settlement_deserialize nothing (settlement_serialize sample_settlement_record) ≠ Ok sample_settlement_record.
Proof.
  split.
  - apply (record_reloads_iff everything everything _ _ _ _ _ _ _ sample_settles). by split.
  - intros Hr.
    apply (record_reloads_iff everything nothing _ _ _ _ _ _ _ sample_settles) in Hr as [_ Hg].
    specialize (Hg {| graft_from := lit "second"; graft_piece := lit "the recovery table" |}
                   (sample_fanout_candidate "second" CheckPassed)).
    discriminate Hg; [by left|by right; left|done].
Defined.
