(* ===== verification/Delegation.v ===== *)
(** The delegation tracker (src/delegation/types.rs, src/delegation/tracker.rs)
    and the daemon's requests on it (src/daemon/handlers.rs).

    A time is a [Z] of nanoseconds; each [Utc::now()] is an argument of the
    operation that reads it. The order in which a [HashMap] yields its values is
    unspecified: [HashOrder] stands for it. The context snapshot, the spec and
    the results are text, so weights are their UTF-8 lengths. *)
From S2P Require Export LoopContract RustText.
Local Open Scope Z_scope.

Definition MAX_DELEGATION_DEPTH : Z := 2.
Definition MAX_TRACKED_DELEGATIONS : Z := 256.
Definition MAX_CONTEXT_SNAPSHOT_BYTES : Z := 64 * 1024.
Definition MAX_DELEGATION_TEXT_BYTES : Z := 256 * 1024.
Definition DELEGATION_ITEM_BYTES : Z := 64.
Definition DELEGATION_TRACE_RECORD_BYTES : Z := 128.
Definition STALE_DELEGATION_SECS : Z := 60 * 60.

Inductive DelegationError : Type :=
  | DepthExceeded (max : Z)
  | TrackerFull (limit : Z)
  | TooLargePart (part : rstring) (weight limit : Z)
  | DelegationNotFound (id : rstring)
  | AlreadyFinished (id state : rstring).
Abbreviation delegation_result := (result DelegationError).

Record DelegationSpec := {
  spec_task : rstring;
  spec_target_files : list rstring;
  spec_constraints : option rstring;
  spec_max_depth : Z;
  spec_restricted_tools : list rstring
}.

Record ToolInvocationRecord := {
  tool_kind : rstring;
  tool_target : rstring;
  tool_timestamp : option rstring
}.
Record DiffSummary := { files_changed : Z; lines_added : Z; lines_removed : Z }.

Inductive DelegationState : Type :=
  | Pending
  | InProgress
  | Completed (summary : rstring) (tool_trace : list ToolInvocationRecord)
      (diff_summary : option DiffSummary)
  | FailedWith (error : rstring).

Definition delegation_state_as_str (s : DelegationState) : rstring :=
  match s with
  | Pending => lit "pending"
  | InProgress => lit "in_progress"
  | Completed _ _ _ => lit "completed"
  | FailedWith _ => lit "failed"
  end.

(** [coordinator_role] is [Coordinator] for every delegation and is left out. *)
Record TrackedDelegation := {
  delegation_id : rstring;
  coordinator_pane_id : Z;
  worker_pane_id : option Z;
  delegation_spec : DelegationSpec;
  delegation_state : DelegationState;
  delegation_created_at : Z;
  delegation_completed_at : option Z;
  context_snapshot : rstring;
  delegation_depth : Z
}.

Definition is_active (d : TrackedDelegation) : bool :=
  match delegation_state d with Pending | InProgress => true | _ => false end.
Definition is_completed (d : TrackedDelegation) : bool :=
  match delegation_state d with Completed _ _ _ | FailedWith _ => true | _ => false end.

Record DelegationTracker := {
  delegations : gmap rstring TrackedDelegation;
  next_id : Z
}.
Definition tracker_new : DelegationTracker := {| delegations := ∅; next_id := 1 |}.

(** [HashMap::values] in the order this process yields them. *)
Class HashOrder := {
  hash_values : gmap rstring TrackedDelegation → list TrackedDelegation;
  hash_values_perm m : hash_values m ≡ₚ (map_to_list m).*2
}.

(** * Weights *)

Definition saturating_sum (weights : list Z) : Z := foldl usize_saturating_add 0 weights.

Definition list_bytes (items : list rstring) : Z :=
  saturating_sum ((λ item, usize_saturating_add (len item) DELEGATION_ITEM_BYTES) <$> items).

Definition spec_bytes (spec : DelegationSpec) : Z :=
  saturating_sum
    [len (spec_task spec); from_option len 0 (spec_constraints spec);
     list_bytes (spec_target_files spec); list_bytes (spec_restricted_tools spec)].

Definition tool_bytes (tool : ToolInvocationRecord) : Z :=
  saturating_sum
    [DELEGATION_TRACE_RECORD_BYTES; len (tool_kind tool); len (tool_target tool);
     from_option len 0 (tool_timestamp tool)].

(** The trace is folded onto the summary's length. *)
Definition completion_bytes (summary : rstring) (tool_trace : list ToolInvocationRecord) : Z :=
  foldl usize_saturating_add (len summary) (tool_bytes <$> tool_trace).

Definition check_size (part : rstring) (weight : Z) : delegation_result unit :=
  reject_if (MAX_DELEGATION_TEXT_BYTES <? weight)
    (TooLargePart part weight MAX_DELEGATION_TEXT_BYTES).

(** [floor_char_boundary] and [truncate]: the longest prefix of whole characters
    in [budget] bytes. *)
Fixpoint truncate_bytes (budget : Z) (s : rstring) : rstring :=
  match s with
  | [] => []
  | c :: s' =>
      let size := zlen (utf8_encode c) in
      if size <=? budget then c :: truncate_bytes (budget - size) s' else []
  end.

Definition cut_snapshot (snapshot : rstring) : rstring :=
  if MAX_CONTEXT_SNAPSHOT_BYTES <? len snapshot
  then truncate_bytes MAX_CONTEXT_SNAPSHOT_BYTES snapshot else snapshot.

(** * Making room *)

(** [(now - then).num_seconds()] truncates toward zero. *)
Definition age_secs (now then_ : Z) : Z := Z.quot (now - then_) 1000000000.

(** The order of [(completed_at, created_at, id)], [None] first. *)
Definition finished_leb (a b : TrackedDelegation) : bool :=
  let key d := (delegation_completed_at d, delegation_created_at d, delegation_id d) in
  let '(ca, ra, ia) := key a in
  let '(cb, rb, ib) := key b in
  let tie := (ra <? rb) || (ra =? rb) && str_leb ia ib in
  match ca, cb with
  | None, Some _ => true
  | Some _, None => false
  | None, None => tie
  | Some x, Some y => (x <? y) || (x =? y) && tie
  end.

Definition created_leb (a b : TrackedDelegation) : bool :=
  delegation_created_at a <=? delegation_created_at b.

Definition remove_delegation (id : rstring) (t : DelegationTracker) : DelegationTracker :=
  {| delegations := delete id (delegations t); next_id := next_id t |}.

Section tracker.
Context `{HashOrder}.

Definition oldest_finished (t : DelegationTracker) : option TrackedDelegation :=
  head (stable_sort finished_leb (filter (λ d, is_completed d = true) (hash_values (delegations t)))).

Definition stale_active (now max_age_secs : Z) (t : DelegationTracker)
    : list TrackedDelegation :=
  stable_sort created_leb
    (filter (λ d, is_active d && (max_age_secs <=? age_secs now (delegation_created_at d)) = true)
       (hash_values (delegations t))).

Definition drop_oldest_finished (t : DelegationTracker) : bool * DelegationTracker :=
  match oldest_finished t with
  | Some d =>
      (bool_decide (is_Some (delegations t !! delegation_id d)),
       remove_delegation (delegation_id d) t)
  | None => (false, t)
  end.

Definition drop_oldest_stale (now : Z) (t : DelegationTracker) : bool * DelegationTracker :=
  match head (stale_active now STALE_DELEGATION_SECS t) with
  | Some d =>
      (bool_decide (is_Some (delegations t !! delegation_id d)),
       remove_delegation (delegation_id d) t)
  | None => (false, t)
  end.

(** The condition of [register] that makes room: [&&] stops at the first drop
    that succeeds. *)
Definition make_room (now : Z) (t : DelegationTracker) : bool * DelegationTracker :=
  if MAX_TRACKED_DELEGATIONS <=? Z.of_nat (size (delegations t)) then
    let '(dropped, t) := drop_oldest_finished t in
    if dropped then (true, t) else drop_oldest_stale now t
  else (true, t).

(** * Operations *)

(** [register]: [now_room] and [now] are its two looks at the clock. The id
    counter wraps at 64 bits. *)
Definition register (spec : DelegationSpec) (coordinator : Z) (snapshot : rstring)
    (current_depth now_room now : Z) (t : DelegationTracker)
    : delegation_result rstring * DelegationTracker :=
  if MAX_DELEGATION_DEPTH <=? current_depth then (Err (DepthExceeded MAX_DELEGATION_DEPTH), t)
  else
    match check_size (lit "spec") (spec_bytes spec) with
    | Err e => (Err e, t)
    | Ok _ =>
        let '(room, t) := make_room now_room t in
        if negb room then (Err (TrackerFull MAX_TRACKED_DELEGATIONS), t)
        else
          let id := lit "del-" ++ show_Z (next_id t) in
          let delegation :=
            {| delegation_id := id; coordinator_pane_id := coordinator; worker_pane_id := None;
               delegation_spec := spec; delegation_state := Pending;
               delegation_created_at := now; delegation_completed_at := None;
               context_snapshot := cut_snapshot snapshot; delegation_depth := current_depth |} in
          (Ok id,
           {| delegations := <[id := delegation]> (delegations t);
              next_id := (next_id t + 1) mod 2 ^ 64 |})
    end.

(** [active_mut]: the delegation to change. *)
Definition active_mut (id : rstring) (t : DelegationTracker)
    : delegation_result TrackedDelegation :=
  d ← ok_or (delegations t !! id) (DelegationNotFound id) ;
  reject_if (is_completed d) (AlreadyFinished id (delegation_state_as_str (delegation_state d))) ;;
  Ok d.

Definition store_delegation (d : TrackedDelegation) (id : rstring) (t : DelegationTracker)
    : DelegationTracker :=
  {| delegations := <[id := d]> (delegations t); next_id := next_id t |}.

Definition with_worker (worker : Z) (d : TrackedDelegation) : TrackedDelegation :=
  {| delegation_id := delegation_id d; coordinator_pane_id := coordinator_pane_id d;
     worker_pane_id := Some worker; delegation_spec := delegation_spec d;
     delegation_state := InProgress; delegation_created_at := delegation_created_at d;
     delegation_completed_at := delegation_completed_at d;
     context_snapshot := context_snapshot d; delegation_depth := delegation_depth d |}.

Definition finished_as (state : DelegationState) (now : Z) (d : TrackedDelegation)
    : TrackedDelegation :=
  {| delegation_id := delegation_id d; coordinator_pane_id := coordinator_pane_id d;
     worker_pane_id := worker_pane_id d; delegation_spec := delegation_spec d;
     delegation_state := state; delegation_created_at := delegation_created_at d;
     delegation_completed_at := Some now;
     context_snapshot := context_snapshot d; delegation_depth := delegation_depth d |}.

Definition assign_worker (id : rstring) (worker : Z) (t : DelegationTracker)
    : delegation_result unit * DelegationTracker :=
  match active_mut id t with
  | Err e => (Err e, t)
  | Ok d => (Ok tt, store_delegation (with_worker worker d) id t)
  end.

Definition complete (id summary : rstring) (tool_trace : list ToolInvocationRecord)
    (diff_summary : option DiffSummary) (now : Z) (t : DelegationTracker)
    : delegation_result unit * DelegationTracker :=
  match (d ← active_mut id t ;
         check_size (lit "completion") (completion_bytes summary tool_trace) ;; Ok d) with
  | Err e => (Err e, t)
  | Ok d =>
      (Ok tt, store_delegation (finished_as (Completed summary tool_trace diff_summary) now d) id t)
  end.

Definition fail (id error : rstring) (now : Z) (t : DelegationTracker)
    : delegation_result unit * DelegationTracker :=
  match (d ← active_mut id t ; check_size (lit "failure message") (len error) ;; Ok d) with
  | Err e => (Err e, t)
  | Ok d => (Ok tt, store_delegation (finished_as (FailedWith error) now d) id t)
  end.

(** [retain]: a finished delegation stays while it is younger. *)
Definition prune_completed (max_age_secs now : Z) (t : DelegationTracker) : DelegationTracker :=
  {| delegations :=
       filter (λ '(_, d), from_option (λ at_, age_secs now at_ <? max_age_secs) true
                            (delegation_completed_at d) = true) (delegations t);
     next_id := next_id t |}.

(** * Reads *)

Definition build_handoff_prompt (id : rstring) (t : DelegationTracker) : option rstring :=
  d ← delegations t !! id;
  let task := spec_task (delegation_spec d) in
  match delegation_state d with
  | Completed summary tool_trace diff_summary =>
      let files := spec_target_files (delegation_spec d) in
      Some (lit "## Delegation Complete" ++ [10; 10] ++ lit "**Task**: " ++ task ++ [10]
        ++ lit "**Status**: completed" ++ [10]
        ++ (match files with
            | [] => []
            | _ => lit "**Files**: " ++ join_with (lit ", ") files ++ [10]
            end)
        ++ [10] ++ lit "### Summary" ++ [10] ++ summary ++ [10]
        ++ (match tool_trace with
            | [] => []
            | _ => [10] ++ lit "### Tool Trace" ++ [10]
                ++ (tool_trace ≫= λ tool,
                      lit "- " ++ tool_kind tool ++ [32; 8594; 32] ++ tool_target tool ++ [10])
            end)
        ++ (match diff_summary with
            | None => []
            | Some diff => [10] ++ lit "### Diff Summary" ++ [10]
                ++ show_Z (files_changed diff) ++ lit " files changed, +"
                ++ show_Z (lines_added diff) ++ lit " -" ++ show_Z (lines_removed diff) ++ [10]
            end))
  | FailedWith error =>
      Some (lit "## Delegation Failed" ++ [10; 10] ++ lit "**Task**: " ++ task ++ [10]
              ++ lit "**Error**: " ++ error ++ [10])
  | _ => None
  end.

Definition active_for_pane (pane : Z) (t : DelegationTracker) : list TrackedDelegation :=
  filter (λ d, is_active d && ((coordinator_pane_id d =? pane)
                               || bool_decide (worker_pane_id d = Some pane)) = true)
    (hash_values (delegations t)).
Definition pending (t : DelegationTracker) : list TrackedDelegation :=
  filter (λ d, match delegation_state d with Pending => true | _ => false end = true)
    (hash_values (delegations t)).
Definition completed (t : DelegationTracker) : list TrackedDelegation :=
  filter (λ d, is_completed d = true) (hash_values (delegations t)).

Record DelegationSummary := {
  summary_id : rstring;
  summary_task : rstring;
  summary_state : rstring;
  summary_coordinator_pane_id : Z;
  summary_worker_pane_id : option Z;
  summary_created_at : rstring;
  summary_completed_at : option rstring;
  summary_tool_invocations : list ToolInvocationRecord;
  summary_diff_summary : option DiffSummary
}.

(** [to_summaries]; [to_rfc3339] is chrono's. *)
Definition to_summaries (to_rfc3339 : Z → rstring) (t : DelegationTracker)
    : list DelegationSummary :=
  (λ d,
     let '(tools, diff) :=
       match delegation_state d with
       | Completed _ tool_trace diff_summary => (tool_trace, diff_summary)
       | _ => ([], None)
       end in
     {| summary_id := delegation_id d; summary_task := spec_task (delegation_spec d);
        summary_state := delegation_state_as_str (delegation_state d);
        summary_coordinator_pane_id := coordinator_pane_id d;
        summary_worker_pane_id := worker_pane_id d;
        summary_created_at := to_rfc3339 (delegation_created_at d);
        summary_completed_at := to_rfc3339 <$> delegation_completed_at d;
        summary_tool_invocations := tools; summary_diff_summary := diff |})
  <$> hash_values (delegations t).

(** * The daemon's requests *)

Inductive DelegationRequest : Type :=
  | RegisterDelegation (spec : DelegationSpec) (coordinator : Z) (snapshot : rstring)
  | CompleteDelegation (id summary : rstring) (tool_trace : list ToolInvocationRecord)
      (diff_summary : option DiffSummary)
  | ListDelegations.

Inductive DelegationResponse : Type :=
  | DelegationRegistered (id : rstring)
  | DelegationCompleted (handoff_prompt : option rstring)
  | DelegationsListed (summaries : list DelegationSummary)
  | DelegationRefused (error : DelegationError).

(** [handle_delegation_request]: the daemon's delegations are top-level. *)
Definition handle_delegation_request (to_rfc3339 : Z → rstring) (now_room now : Z)
    (request : DelegationRequest) (t : DelegationTracker)
    : DelegationResponse * DelegationTracker :=
  match request with
  | RegisterDelegation spec coordinator snapshot =>
      match register spec coordinator snapshot 0 now_room now t with
      | (Ok id, t) => (DelegationRegistered id, t)
      | (Err e, t) => (DelegationRefused e, t)
      end
  | CompleteDelegation id summary tool_trace diff_summary =>
      match complete id summary tool_trace diff_summary now t with
      | (Ok _, t) => (DelegationCompleted (build_handoff_prompt id t), t)
      | (Err e, t) => (DelegationRefused e, t)
      end
  | ListDelegations => (DelegationsListed (to_summaries to_rfc3339 t), t)
  end.
End tracker.
