(* ===== verification/DelegationProps.v ===== *)
(** The delegation tracker: what it holds is bounded, what finished is final,
    and when it refuses a delegation or makes room for one. *)
From S2P Require Export RustTextFacts Delegation.
Local Open Scope Z_scope.

(** * Weights *)

Lemma truncate_bytes_spec budget s :
  0 ≤ budget →
  len (truncate_bytes budget s) ≤ budget ∧
  ∃ rest, s = truncate_bytes budget s ++ rest ∧
    (rest = [] ∨ budget < len (truncate_bytes budget s) + 4).
Proof.
  revert budget. induction s as [|c s IH]; intros budget Hb; cbn [truncate_bytes].
  { split; [done|]. exists []. by split; [|left]. }
  pose proof (utf8_encode_length c) as Hc.
  assert (1 ≤ zlen (utf8_encode c) ≤ 4) by (unfold zlen; lia). clear Hc. destruct (Z.leb_spec (zlen (utf8_encode c)) budget).
  - destruct (IH (budget - zlen (utf8_encode c))) as [Hl (rest & Hs & Hr)]; [lia|].
    rewrite len_cons. split; [lia|]. exists rest. split; [by rewrite Hs at 1|].
    destruct Hr as [->|Hr]; [by left|right; lia].
  - change (len []) with 0. split; [lia|]. exists (c :: s). split; [done|right; lia].
Qed.

Lemma cut_snapshot_bound s : len (cut_snapshot s) ≤ MAX_CONTEXT_SNAPSHOT_BYTES.
Proof.
  unfold cut_snapshot. destruct (Z.ltb_spec MAX_CONTEXT_SNAPSHOT_BYTES (len s)) as [|]; [|done].
  by apply truncate_bytes_spec.
Qed.

Lemma check_size_Ok part weight u :
  check_size part weight = Ok u ↔ weight ≤ MAX_DELEGATION_TEXT_BYTES.
Proof. unfold check_size. by rewrite reject_if_Ok, Z.ltb_ge. Qed.

(** * Sorted heads *)

Lemma head_filter_sort {A} (leb : A → A → bool) (P : A → bool) l :
  head (stable_sort leb (filter (λ x, P x = true) l)) = None ↔ ∀ x, x ∈ l → P x = false.
Proof.
  rewrite head_None. pose proof (stable_sort_perm leb (filter (λ x, P x = true) l)) as Hp.
  split.
  - intros Heq x Hin. rewrite Heq in Hp. apply Permutation_nil_l in Hp.
    destruct (P x) eqn:HP; [|done].
    assert (x ∈ filter (λ x, P x = true) l) as Hf by (by apply list_elem_of_filter).
    rewrite <- Hp in Hf. by apply not_elem_of_nil in Hf.
  - intros Hall. rewrite filter_none; [done|].
    apply Forall_forall. intros x Hx. by rewrite Hall.
Qed.

Lemma head_sort_filter_Some {A} (leb : A → A → bool) (P : A → bool) l x :
  (∀ x y, leb x y = true ∨ leb y x = true) →
  (∀ x y z, leb x y = true → leb y z = true → leb x z = true) →
  head (stable_sort leb (filter (λ x, P x = true) l)) = Some x →
  x ∈ l ∧ P x = true ∧ ∀ y, y ∈ l → P y = true → leb x y = true.
Proof.
  intros Ht Htr Hh. pose proof (stable_sort_perm leb (filter (λ x, P x = true) l)) as Hp.
  pose proof (stable_sort_sorted leb Ht Htr (filter (λ x, P x = true) l)) as Hs.
  destruct (stable_sort leb _) as [|z k]; [done|]. injection Hh as ->.
  assert (x ∈ filter (λ x, P x = true) l) as Hx by (rewrite <- Hp; by left).
  apply list_elem_of_filter in Hx as [HP Hin]. split_and!; [done..|].
  intros y Hy HPy. assert (y ∈ x :: k) as Hyk by (rewrite Hp; by apply list_elem_of_filter).
  apply StronglySorted_inv in Hs as [_ Hall]. apply elem_of_cons in Hyk as [->|Hyk].
  - by destruct (Ht x x).
  - rewrite Forall_forall in Hall. by apply Hall.
Qed.

Lemma created_leb_total x y : created_leb x y = true ∨ created_leb y x = true.
Proof. unfold created_leb. rewrite !Z.leb_le. lia. Qed.
Lemma created_leb_trans x y z :
  created_leb x y = true → created_leb y z = true → created_leb x z = true.
Proof. unfold created_leb. rewrite !Z.leb_le. lia. Qed.

Lemma finished_leb_total x y : finished_leb x y = true ∨ finished_leb y x = true.
Proof.
  unfold finished_leb.
  pose proof (str_leb_total (delegation_id x) (delegation_id y)) as Hids.
  pose proof (Z.lt_trichotomy (delegation_created_at x) (delegation_created_at y)) as Hcreated.
  destruct (delegation_completed_at x) as [a|], (delegation_completed_at y) as [b|]; auto;
    [pose proof (Z.lt_trichotomy a b)|];
    rewrite ?orb_true_iff, ?andb_true_iff, ?orb_true_iff, ?andb_true_iff, ?Z.ltb_lt, ?Z.eqb_eq;
    intuition.
Qed.

Lemma finished_leb_trans x y z :
  finished_leb x y = true → finished_leb y z = true → finished_leb x z = true.
Proof.
  unfold finished_leb.
  pose proof (str_leb_trans (delegation_id x) (delegation_id y) (delegation_id z)).
  destruct (delegation_completed_at x), (delegation_completed_at y), (delegation_completed_at z);
    try done;
    rewrite ?orb_true_iff, ?andb_true_iff, ?orb_true_iff, ?andb_true_iff, ?Z.ltb_lt, ?Z.eqb_eq;
    intuition (auto; try lia).
Qed.

(** * The invariant *)

Section tracker_props.
Context `{HashOrder}.
Implicit Types (t : DelegationTracker) (d : TrackedDelegation).

Lemma elem_of_hash_values m d : d ∈ hash_values m ↔ ∃ k, m !! k = Some d.
Proof.
  rewrite hash_values_perm, list_elem_of_fmap. split.
  - intros ([k x] & -> & Hk%elem_of_map_to_list). eauto.
  - intros [k Hk]. exists (k, d). by rewrite elem_of_map_to_list.
Qed.

(** The id of the [n]th registration. *)
Definition numbered (n : Z) : rstring := lit "del-" ++ show_Z n.

Lemma numbered_inj n m : 0 ≤ n → 0 ≤ m → numbered n = numbered m → n = m.
Proof.
  intros Hn Hm Heq. apply app_inv_head in Heq.
  destruct (show_Z_digits n Hn) as (_ & _ & Hvn), (show_Z_digits m Hm) as (_ & _ & Hvm).
  congruence.
Qed.

(** What a result weighs. *)
Definition result_bytes (s : DelegationState) : Z :=
  match s with
  | Completed summary tool_trace _ => completion_bytes summary tool_trace
  | FailedWith error => len error
  | _ => 0
  end.

Record delegation_wf d : Prop := {
  dw_finished : is_completed d = true ↔ is_Some (delegation_completed_at d);
  dw_worker : delegation_state d = InProgress → is_Some (worker_pane_id d);
  dw_unassigned : delegation_state d = Pending → worker_pane_id d = None;
  dw_spec : spec_bytes (delegation_spec d) ≤ MAX_DELEGATION_TEXT_BYTES;
  dw_result : result_bytes (delegation_state d) ≤ MAX_DELEGATION_TEXT_BYTES;
  dw_snapshot : len (context_snapshot d) ≤ MAX_CONTEXT_SNAPSHOT_BYTES;
  dw_depth : delegation_depth d < MAX_DELEGATION_DEPTH
}.

Record tracker_wf t : Prop := {
  tw_size : Z.of_nat (size (delegations t)) ≤ MAX_TRACKED_DELEGATIONS;
  tw_key k d : delegations t !! k = Some d → delegation_id d = k;
  tw_id k : is_Some (delegations t !! k) → ∃ n, 1 ≤ n < next_id t ∧ k = numbered n;
  tw_wf k d : delegations t !! k = Some d → delegation_wf d;
  tw_next : 1 ≤ next_id t
}.

Lemma tracker_new_wf : tracker_wf tracker_new.
Proof.
  split; cbn [delegations next_id tracker_new]; try done.
  - intros k [d Hd]. by rewrite lookup_empty in Hd.
Qed.

(** Fewer of the same delegations. *)
Definition keeps_of t t' : Prop :=
  delegations t' ⊆ delegations t ∧ next_id t' = next_id t.

Lemma keeps_of_wf t t' : keeps_of t t' → tracker_wf t → tracker_wf t'.
Proof.
  intros [Hsub Hn] [Hs Hk Hi Hw Hnext].
  assert (∀ k d, delegations t' !! k = Some d → delegations t !! k = Some d) as Hl.
  { intros k d Hd. by eapply lookup_weaken. }
  split; rewrite ?Hn; eauto.
  - apply map_subseteq_size in Hsub. lia.
  - intros k [d Hd]. apply Hi. eauto.
Qed.

Lemma remove_keeps id t : keeps_of t (remove_delegation id t).
Proof. split; [apply delete_subseteq|done]. Qed.

Lemma head_elem {A} (l : list A) x : head l = Some x → x ∈ l.
Proof. destruct l; [done|]. intros [= ->]. by left. Qed.

(** ** Making room *)

Lemma oldest_finished_None t :
  oldest_finished t = None ↔ ∀ k d, delegations t !! k = Some d → is_completed d = false.
Proof.
  unfold oldest_finished. rewrite head_filter_sort. setoid_rewrite elem_of_hash_values.
  naive_solver.
Qed.

Definition is_abandoned (now : Z) d : bool :=
  is_active d && (STALE_DELEGATION_SECS <=? age_secs now (delegation_created_at d)).

Lemma stale_head_None now t :
  head (stale_active now STALE_DELEGATION_SECS t) = None ↔
  ∀ k d, delegations t !! k = Some d → is_abandoned now d = false.
Proof.
  unfold stale_active. rewrite (head_filter_sort created_leb (is_abandoned now)).
  setoid_rewrite elem_of_hash_values. naive_solver.
Qed.

(** What making room may remove, in the source's order of preference. *)
Inductive makes_room (now : Z) t : DelegationTracker → Prop :=
  | room_left : Z.of_nat (size (delegations t)) < MAX_TRACKED_DELEGATIONS → makes_room now t t
  | room_finished k d :
      MAX_TRACKED_DELEGATIONS ≤ Z.of_nat (size (delegations t)) →
      delegations t !! k = Some d → is_completed d = true →
      (∀ k' d', delegations t !! k' = Some d' → is_completed d' = true →
        finished_leb d d' = true) →
      makes_room now t (remove_delegation k t)
  | room_stale k d :
      MAX_TRACKED_DELEGATIONS ≤ Z.of_nat (size (delegations t)) →
      (∀ k' d', delegations t !! k' = Some d' → is_completed d' = false) →
      delegations t !! k = Some d → is_abandoned now d = true →
      (∀ k' d', delegations t !! k' = Some d' → is_abandoned now d' = true →
        delegation_created_at d ≤ delegation_created_at d') →
      makes_room now t (remove_delegation k t).

Lemma make_room_spec now t :
  tracker_wf t →
  let '(room, t') := make_room now t in
  if room then makes_room now t t'
  else t' = t ∧ MAX_TRACKED_DELEGATIONS ≤ Z.of_nat (size (delegations t)) ∧
    ∀ k d, delegations t !! k = Some d → is_completed d = false ∧ is_abandoned now d = false.
Proof.
  intros Hwf. unfold make_room.
  destruct (Z.leb_spec MAX_TRACKED_DELEGATIONS (Z.of_nat (size (delegations t)))) as [Hfull|];
    [|by constructor].
  unfold drop_oldest_finished. destruct (oldest_finished t) as [d|] eqn:Hf.
  - unfold oldest_finished in Hf.
    apply head_sort_filter_Some in Hf as (Hin & Hd & Hmin);
      [|apply finished_leb_total|apply finished_leb_trans].
    apply elem_of_hash_values in Hin as [k Hk]. rewrite (tw_key _ Hwf k d Hk).
    rewrite bool_decide_true by (by rewrite Hk). eapply room_finished; [done..|].
    intros k' d' Hk' Hd'. apply Hmin; [|done]. apply elem_of_hash_values. eauto.
  - unfold drop_oldest_stale.
    destruct (head (stale_active now STALE_DELEGATION_SECS t)) as [d|] eqn:Hs.
    + unfold stale_active in Hs. change (λ d, _ = true) with (λ d, is_abandoned now d = true) in Hs.
      apply (head_sort_filter_Some created_leb (is_abandoned now)) in Hs as (Hin & Hd & Hmin);
        [|apply created_leb_total|apply created_leb_trans].
      apply elem_of_hash_values in Hin as [k Hk]. rewrite (tw_key _ Hwf k d Hk).
      rewrite bool_decide_true by (by rewrite Hk). eapply room_stale; [done| |done|done|].
      * by apply oldest_finished_None.
      * intros k' d' Hk' Hd'. apply Z.leb_le. apply (Hmin d'); [|done].
        apply elem_of_hash_values. eauto.
    + split_and!; [done..|]. intros k d Hk. split.
      * rewrite oldest_finished_None in Hf. eauto.
      * rewrite stale_head_None in Hs. eauto.
Qed.

Lemma makes_room_keeps now t t' : makes_room now t t' → keeps_of t t'.
Proof. by destruct 1; [split|apply remove_keeps..]. Qed.

Lemma makes_room_size now t t' :
  tracker_wf t → makes_room now t t' →
  Z.of_nat (size (delegations t')) < MAX_TRACKED_DELEGATIONS.
Proof.
  intros Hwf Hr. pose proof (tw_size _ Hwf) as Hs.
  destruct Hr as [?|k d Hfull Hk _ _|k d Hfull _ Hk _ _]; [done|..];
    unfold remove_delegation; cbn [delegations];
    rewrite map_size_delete_Some by (by rewrite Hk);
    assert (size (delegations t) ≠ 0%nat)
      by (apply map_size_non_empty_iff; intros He; by rewrite He, lookup_empty in Hk); lia.
Qed.

(** ** Operations *)

(** The delegation a registration records. *)
Definition registered_delegation (n : Z) (spec : DelegationSpec) (coordinator : Z)
    (snapshot : rstring) (depth now : Z) : TrackedDelegation :=
  {| delegation_id := numbered n; coordinator_pane_id := coordinator; worker_pane_id := None;
     delegation_spec := spec; delegation_state := Pending; delegation_created_at := now;
     delegation_completed_at := None; context_snapshot := cut_snapshot snapshot;
     delegation_depth := depth |}.

Lemma register_spec spec coordinator snapshot depth now_room now t :
  tracker_wf t →
  let '(answer, t') := register spec coordinator snapshot depth now_room now t in
  match answer with
  | Ok id => depth < MAX_DELEGATION_DEPTH ∧ spec_bytes spec ≤ MAX_DELEGATION_TEXT_BYTES ∧
      id = numbered (next_id t) ∧
      ∃ t1, makes_room now_room t t1 ∧
        t' = {| delegations := <[id := registered_delegation (next_id t) spec coordinator snapshot
                                         depth now]> (delegations t1);
                next_id := (next_id t + 1) mod 2 ^ 64 |}
  | Err e => t' = t ∧
      (MAX_DELEGATION_DEPTH ≤ depth ∨ MAX_DELEGATION_TEXT_BYTES < spec_bytes spec ∨
       MAX_TRACKED_DELEGATIONS ≤ Z.of_nat (size (delegations t)) ∧
       ∀ k d, delegations t !! k = Some d → is_completed d = false ∧ is_abandoned now_room d = false)
  end.
Proof.
  intros Hwf. unfold register. destruct (Z.leb_spec MAX_DELEGATION_DEPTH depth); [auto|].
  destruct (check_size _ _) as [u|e] eqn:Hc.
  - apply check_size_Ok in Hc. pose proof (make_room_spec now_room t Hwf) as Hroom.
    destruct (make_room now_room t) as [[] t1]; cbn [negb].
    + pose proof (makes_room_keeps _ _ _ Hroom) as [_ Hn]. rewrite Hn.
      split_and!; [done|done|done|]. by exists t1.
    + destruct Hroom as (-> & Hfull & Hall). auto.
  - split; [done|]. right; left. apply Z.nle_gt. intros Hle.
    by rewrite (proj2 (check_size_Ok _ _ tt) Hle) in Hc.
Qed.

Lemma active_mut_Ok id t d :
  active_mut id t = Ok d ↔ delegations t !! id = Some d ∧ is_completed d = false.
Proof.
  unfold active_mut. rewrite bind_Ok. setoid_rewrite ok_or_Ok. setoid_rewrite bind_Ok.
  setoid_rewrite reject_if_Ok. split.
  - intros (x & Hx & _ & Hc & [= ->]). done.
  - intros [Hd Hc]. exists d. split; [done|]. by exists tt.
Qed.

(** One operation of the tracker. *)
Inductive TrackerEvent : Type :=
  | Registers (spec : DelegationSpec) (coordinator : Z) (snapshot : rstring)
      (depth now_room now : Z)
  | Assigns (id : rstring) (worker : Z)
  | Completes (id summary : rstring) (tool_trace : list ToolInvocationRecord)
      (diff_summary : option DiffSummary) (now : Z)
  | Fails (id error : rstring) (now : Z)
  | Prunes (max_age_secs now : Z).

Definition tracker_event t (e : TrackerEvent) : DelegationTracker :=
  match e with
  | Registers spec coordinator snapshot depth now_room now =>
      snd (register spec coordinator snapshot depth now_room now t)
  | Assigns id worker => snd (assign_worker id worker t)
  | Completes id summary tool_trace diff_summary now =>
      snd (complete id summary tool_trace diff_summary now t)
  | Fails id error now => snd (fail id error now t)
  | Prunes max_age_secs now => prune_completed max_age_secs now t
  end.
Definition run_tracker t (events : list TrackerEvent) : DelegationTracker :=
  foldl tracker_event t events.

(** What an operation may do to the delegations of a tracker. *)
Inductive tracker_change t : DelegationTracker → Prop :=
  | change_keeps t' : keeps_of t t' → tracker_change t t'
  | change_registers now t1 d :
      makes_room now t t1 → delegation_wf d → delegation_id d = numbered (next_id t) →
      tracker_change t
        {| delegations := <[numbered (next_id t) := d]> (delegations t1);
           next_id := (next_id t + 1) mod 2 ^ 64 |}
  | change_updates id d d' :
      delegations t !! id = Some d → is_completed d = false → delegation_wf d' →
      delegation_id d' = delegation_id d →
      tracker_change t (store_delegation d' id t).

Lemma tracker_event_change t e : tracker_wf t → tracker_change t (tracker_event t e).
Proof.
  intros Hwf. assert (keeps_of t t) as Hsame by done.
  destruct e as [spec coordinator snapshot depth now_room now|id worker
                |id summary tool_trace diff_summary now|id error now|max_age_secs now];
    cbn [tracker_event].
  - pose proof (register_spec spec coordinator snapshot depth now_room now t Hwf) as Hr.
    destruct (register _ _ _ _ _ _ _) as [[id|e] t']; cbn [snd].
    + destruct Hr as (Hd & Hs & -> & t1 & Hroom & ->). eapply change_registers; [done| |done].
      split; cbn; try done. apply cut_snapshot_bound.
    + destruct Hr as [-> _]. by apply change_keeps.
  - unfold assign_worker. destruct (active_mut id t) as [d|e] eqn:Hd; [|by apply change_keeps].
    apply active_mut_Ok in Hd as [Hd Hc]. cbn [snd].
    destruct (tw_wf _ Hwf _ _ Hd) as [Hf _ _ ? _ ? ?].
    eapply change_updates; [done|done| |done]. split; cbn; try done.
    by rewrite <- Hf, Hc.
  - unfold complete. destruct (active_mut id t) as [d|e] eqn:Hd; cbn [mbind result_bind];
      [|by apply change_keeps].
    destruct (check_size _ _) eqn:Hsz; cbn [mbind result_bind]; [|by apply change_keeps].
    apply check_size_Ok in Hsz. apply active_mut_Ok in Hd as [Hd Hc]. cbn [snd].
    destruct (tw_wf _ Hwf _ _ Hd) as [_ _ _ ? _ ? ?].
    eapply change_updates; [done|done| |done]. by split; cbn; [split; [by eexists|]|..].
  - unfold fail. destruct (active_mut id t) as [d|e] eqn:Hd; cbn [mbind result_bind];
      [|by apply change_keeps].
    destruct (check_size _ _) eqn:Hsz; cbn [mbind result_bind]; [|by apply change_keeps].
    apply check_size_Ok in Hsz. apply active_mut_Ok in Hd as [Hd Hc]. cbn [snd].
    destruct (tw_wf _ Hwf _ _ Hd) as [_ _ _ ? _ ? ?].
    eapply change_updates; [done|done| |done]. by split; cbn; [split; [by eexists|]|..].
  - apply change_keeps. split; [apply map_filter_subseteq|done].
Qed.

Lemma tracker_change_wf t t' :
  tracker_wf t → next_id t < 2 ^ 64 - 1 → tracker_change t t' →
  tracker_wf t' ∧ next_id t ≤ next_id t' ≤ next_id t + 1.
Proof.
  intros Hwf Hlt Hch. pose proof (tw_next _ Hwf) as Hnext.
  destruct Hch as [t' Hk|now t1 d Hroom Hd Hid|id d d' Hd Hc Hd' Hid].
  - split; [by eapply keeps_of_wf|]. destruct Hk as [_ ->]. lia.
  - pose proof (makes_room_keeps _ _ _ Hroom) as Hk.
    pose proof (keeps_of_wf _ _ Hk Hwf) as [_ Hkey Hids Hwfs _].
    pose proof (makes_room_size _ _ _ Hwf Hroom) as Hsize. destruct Hk as [_ Hn].
    rewrite (Z.mod_small (next_id t + 1)) by lia. split; [|cbn; lia].
    split; cbn [delegations next_id].
    + rewrite map_size_insert. destruct (delegations t1 !! _); cbn; lia.
    + intros k x [[<- <-]|[_ Hx]]%lookup_insert_Some; eauto.
    + intros k [x [[<- <-]|[_ Hx]]%lookup_insert_Some]; [exists (next_id t); split; [lia|done]|].
      destruct (Hids k) as (n & Hn' & ->); [by exists x|]. exists n. split; [lia|done].
    + intros k x [[<- <-]|[_ Hx]]%lookup_insert_Some; eauto.
    + lia.
  - destruct Hwf as [Hs Hkey Hids Hwfs _]. cbn. split; [|lia]. split; cbn [delegations next_id store_delegation].
    + by rewrite map_size_insert_Some by (by eexists).
    + intros k x [[<- <-]|[_ Hx]]%lookup_insert_Some; [|eauto]. rewrite Hid. eauto.
    + intros k [x [[<- <-]|[_ Hx]]%lookup_insert_Some]; apply Hids; by eexists.
    + intros k x [[<- <-]|[_ Hx]]%lookup_insert_Some; eauto.
    + done.
Qed.

Lemma run_tracker_wf t events :
  tracker_wf t → next_id t + zlen events < 2 ^ 64 →
  tracker_wf (run_tracker t events) ∧
  next_id t ≤ next_id (run_tracker t events) ≤ next_id t + zlen events.
Proof.
  revert t. induction events as [|e events IH]; intros t Hwf Hlt; cbn [run_tracker foldl].
  { rewrite zlen_nil. split; [done|lia]. }
  rewrite zlen_cons in *. pose proof (zlen_nonneg events).
  destruct (tracker_change_wf t (tracker_event t e)) as [Hwf' Hn]; [done|lia|
    by apply tracker_event_change|].
  destruct (IH (tracker_event t e)) as [Hend Hne]; [done|lia|]. split; [done|].
  unfold run_tracker in Hne. lia.
Qed.

(** Still [d], or gone for good: the id is spent. *)
Definition final_or_gone (id : rstring) d t : Prop :=
  delegations t !! id = Some d ∨
  delegations t !! id = None ∧ ∃ n, 1 ≤ n < next_id t ∧ id = numbered n.

Lemma keeps_of_final id d t t' :
  tracker_wf t → keeps_of t t' → final_or_gone id d t → final_or_gone id d t'.
Proof.
  intros Hwf [Hsub Hn] Hf. unfold final_or_gone. rewrite Hn.
  destruct (delegations t' !! id) as [x|] eqn:Hx.
  - pose proof (lookup_weaken _ _ _ _ Hx Hsub) as Hx'.
    destruct Hf as [Hd|[Hd _]]; [left|]; congruence.
  - right. split; [done|]. destruct Hf as [Hd|[_ Hn']]; [|done]. apply (tw_id _ Hwf). by eexists.
Qed.

Lemma change_final id d t t' :
  tracker_wf t → next_id t < 2 ^ 64 - 1 → is_completed d = true →
  tracker_change t t' → final_or_gone id d t → final_or_gone id d t'.
Proof.
  intros Hwf Hlt Hfin Hch Hf. pose proof (tw_next _ Hwf) as Hnext.
  destruct Hch as [t' Hk|now t1 x Hroom _ _|id' x x' Hx Hc _ _].
  - by eapply keeps_of_final.
  - pose proof (makes_room_keeps _ _ _ Hroom) as Hk.
    pose proof (keeps_of_final id d _ _ Hwf Hk Hf) as Hf1. destruct Hk as [_ Hn].
    unfold final_or_gone in *. cbn [delegations next_id].
    rewrite Z.mod_small by lia. rewrite Hn in Hf1.
    assert (id ≠ numbered (next_id t)) as Hne.
    { intros ->. assert (∃ n, 1 ≤ n < next_id t ∧ numbered (next_id t) = numbered n) as (n & ? & Heq).
      { destruct Hf as [Hd|[_ Hn']]; [|done]. apply (tw_id _ Hwf). by eexists. }
      apply numbered_inj in Heq; lia. }
    rewrite lookup_insert_ne by done. destruct Hf1 as [|[? (n & ? & ->)]]; [by left|right].
    split; [done|]. exists n. split; [lia|done].
  - unfold final_or_gone in *. cbn [delegations next_id store_delegation].
    destruct (decide (id' = id)) as [->|Hne]; [|by rewrite lookup_insert_ne by done].
    destruct Hf as [Hd|[Hd _]]; congruence.
Qed.

(** ** The theorems *)

(** Whatever is registered, assigned, completed, failed and pruned, a tracker
    never holds more than 256 delegations, each under its own id, and each
    weighs at most what the limits allow: its spec and its result 256 KiB each,
    its snapshot 64 KiB. Exactly the finished ones carry a completion time, and
    exactly the assigned ones a worker. *)
Theorem tracker_stays_bounded events :
  zlen events < 2 ^ 64 - 1 → tracker_wf (run_tracker tracker_new events).
Proof.
  intros Hl. apply run_tracker_wf; [apply tracker_new_wf|]. cbn [next_id tracker_new]. lia.
Qed.

(** C38: once a delegation has finished, its result is what the coordinator was
    given: nothing that happens later changes the delegation or gives its id to
    another; it can only be dropped to make room or pruned. *)
Theorem finished_delegation_is_final events more id d :
  zlen (events ++ more) < 2 ^ 64 - 1 →
  delegations (run_tracker tracker_new events) !! id = Some d → is_completed d = true →
  delegations (run_tracker tracker_new (events ++ more)) !! id = Some d ∨
  delegations (run_tracker tracker_new (events ++ more)) !! id = None.
Proof.
  intros Hl Hd Hfin. rewrite zlen_app in Hl. unfold run_tracker. rewrite foldl_app.
  pose proof (zlen_nonneg more).
  destruct (run_tracker_wf tracker_new events) as [Hwf Hn];
    [apply tracker_new_wf|cbn [next_id tracker_new]; lia|].
  assert (next_id (run_tracker tracker_new events) + zlen more < 2 ^ 64) as Hlt
    by (cbn [next_id tracker_new] in Hn; lia).
  cut (final_or_gone id d (foldl tracker_event (run_tracker tracker_new events) more)).
  { intros [|[? _]]; [by left|by right]. }
  assert (final_or_gone id d (run_tracker tracker_new events)) as Hf by (by left).
  clear Hd Hl Hn. revert Hwf Hlt Hf. generalize (run_tracker tracker_new events).
  clear events. induction more as [|e more IH]; intros t Hwf Hlt Hf; cbn [foldl]; [done|].
  rewrite zlen_cons in Hlt. pose proof (zlen_nonneg more).
  pose proof (tracker_event_change t e Hwf) as Hch.
  destruct (tracker_change_wf t (tracker_event t e)) as [Hwf' Hn]; [done|lia|done|].
  apply IH; [done|done|lia|]. eapply change_final; [exact Hwf|lia|done..].
Qed.

(** A delegation is refused exactly when it is nested too deep, its spec is
    too large, or the tracker is full of delegations that are active and younger
    than an hour; a refusal changes nothing. What makes room for a new one never
    drops work that is active and younger than an hour, and the new delegation
    gets an id nothing held. *)
Theorem registration_refused_iff spec coordinator snapshot depth now_room now t :
  tracker_wf t →
  let '(answer, t') := register spec coordinator snapshot depth now_room now t in
  (is_ok answer = false ↔
   MAX_DELEGATION_DEPTH ≤ depth ∨ MAX_DELEGATION_TEXT_BYTES < spec_bytes spec ∨
   MAX_TRACKED_DELEGATIONS ≤ Z.of_nat (size (delegations t)) ∧
   ∀ k d, delegations t !! k = Some d → is_completed d = false ∧ is_abandoned now_room d = false) ∧
  (is_ok answer = false → t' = t) ∧
  (∀ k d, delegations t !! k = Some d → is_completed d = false → is_abandoned now_room d = false →
    delegations t' !! k = Some d) ∧
  (∀ id, answer = Ok id → delegations t !! id = None ∧
    delegations t' !! id
      = Some (registered_delegation (next_id t) spec coordinator snapshot depth now)).
Proof.
  intros Hwf. pose proof (register_spec spec coordinator snapshot depth now_room now t Hwf) as Hr.
  destruct (register _ _ _ _ _ _ _) as [[id|e] t']; cbn [is_ok].
  - destruct Hr as (Hd & Hs & -> & t1 & Hroom & ->).
    assert (delegations t !! numbered (next_id t) = None) as Hfresh.
    { destruct (delegations t !! numbered (next_id t)) as [x|] eqn:Hx; [|done].
      destruct (tw_id _ Hwf (numbered (next_id t))) as (n & Hn & Heq); [by eexists|].
      apply numbered_inj in Heq; lia. }
    split_and!; [|done| |].
    + split; [done|]. intros [|[|[Hfull Hall]]]; [lia|lia|].
      destruct Hroom as [|k x _ Hk Hx _|k x _ _ Hk Hx _]; [lia|..];
        destruct (Hall k x Hk); congruence.
    + intros k d Hk Hc Hst. cbn [delegations].
      rewrite lookup_insert_ne by congruence.
      destruct Hroom as [|k' x _ Hk' Hx _|k' x _ _ Hk' Hx _]; [done|..];
        cbn [delegations remove_delegation]; rewrite lookup_delete_ne; congruence.
    + intros id [= <-]. split; [done|]. cbn [delegations]. by rewrite lookup_insert_eq.
  - destruct Hr as [-> Hwhy]. by split_and!.
Qed.
End tracker_props.

(** * A concrete tracker *)

#[export] Instance sample_hash_order : HashOrder.
Proof. by refine {| hash_values m := (map_to_list m).*2 |}. Defined.

Definition sample_spec : DelegationSpec :=
  {| spec_task := lit "refactor auth"; spec_target_files := [lit "src/auth.rs"];
     spec_constraints := None; spec_max_depth := 2; spec_restricted_tools := [] |}.
Definition second_ns : Z := 1000000000.

(** Two delegations: the first completes, the second fails. *)
Definition sample_events : list TrackerEvent :=
  [Registers sample_spec 0 (lit "context") 0 0 0; Registers sample_spec 1 [] 1 0 second_ns;
   Assigns (lit "del-1") 3; Completes (lit "del-1") (lit "done") [] None (2 * second_ns)].
Definition sample_more : list TrackerEvent :=
  [Completes (lit "del-1") (lit "again") [] None (3 * second_ns);
   Fails (lit "del-2") (lit "worker died") (4 * second_ns)].
Definition sample_tracker : DelegationTracker := run_tracker tracker_new sample_events.
Definition sample_completed : TrackedDelegation :=
  {| delegation_id := lit "del-1"; coordinator_pane_id := 0; worker_pane_id := Some 3;
     delegation_spec := sample_spec; delegation_state := Completed (lit "done") [] None;
     delegation_created_at := 0; delegation_completed_at := Some (2 * second_ns);
     context_snapshot := lit "context"; delegation_depth := 0 |}.

Example completed_twice_is_refused :
  fst (complete (lit "del-1") (lit "again") [] None (3 * second_ns) sample_tracker)
  = Err (AlreadyFinished (lit "del-1") (lit "completed")).
Proof. by vm_compute. Qed.

Lemma tracker_stays_bounded_witness : tracker_wf (run_tracker tracker_new sample_events).
Proof. apply tracker_stays_bounded. unfold zlen. cbn. lia. Defined.

Lemma finished_delegation_is_final_witness :
  delegations (run_tracker tracker_new (sample_events ++ sample_more)) !! lit "del-1"
    = Some sample_completed ∨
  delegations (run_tracker tracker_new (sample_events ++ sample_more)) !! lit "del-1" = None.
Proof.
  apply finished_delegation_is_final.
  - unfold zlen. cbn. lia.
  - by vm_compute.
  - done.
Defined.

Lemma registration_refused_iff_witness :
  is_ok (fst (register sample_spec 4 [] 2 0 0 sample_tracker)) = false ∧
  is_ok (fst (register sample_spec 4 [] 1 0 0 sample_tracker)) = true.
Proof.
  assert (tracker_wf sample_tracker) as Hwf
    by (apply run_tracker_wf; [apply tracker_new_wf|unfold zlen; cbn; lia]).
  pose proof (registration_refused_iff sample_spec 4 [] 2 0 0 sample_tracker Hwf) as Hdeep.
  pose proof (registration_refused_iff sample_spec 4 [] 1 0 0 sample_tracker Hwf) as Hfits.
  destruct (register sample_spec 4 [] 2 0 0 sample_tracker) as [deep t1].
  destruct (register sample_spec 4 [] 1 0 0 sample_tracker) as [fits t2]. cbn [fst].
  split; [by apply Hdeep; left|].
  apply not_false_iff_true. intros Hno. apply Hfits in Hno as [Hd|[Hs|[Hfull _]]].
  - by unfold MAX_DELEGATION_DEPTH in Hd.
  - assert (spec_bytes sample_spec ≤ MAX_DELEGATION_TEXT_BYTES) by (by vm_compute). lia.
  - assert (Z.of_nat (size (delegations sample_tracker)) < MAX_TRACKED_DELEGATIONS)
      by (by vm_compute). lia.
Defined.
