(* ===== verification/Projection.v ===== *)
(** Paging over a stored payload (src/blackboard/projection.rs).

    Offsets count bytes of the UTF-8 text, so [text[a..b]] and
    [is_char_boundary] are built on [split_at_checked], which splits at a byte
    offset when a character starts there. *)
From S2P Require Export RustText LoopContract.
Local Open Scope Z_scope.

(** serde_json on a whole text: parsing, RFC 6901 lookup, and the two printers. *)
Class PayloadJson := {
  json_from_str : rstring → option json;
  json_pointer : rstring → json → option json;
  json_to_string_pretty : json → rstring;
  json_to_string : json → rstring
}.

(** * Byte offsets into a text *)

(** [str::split_at_checked]. *)
Fixpoint split_at_checked (i : Z) (text : rstring) : option (rstring * rstring) :=
  if i =? 0 then Some ([], text)
  else
    match text with
    | [] => None
    | c :: text =>
        '(before, after) ← split_at_checked (i - zlen (utf8_encode c)) text;
        Some (c :: before, after)
    end.

Definition is_char_boundary (text : rstring) (index : Z) : bool :=
  match split_at_checked index text with Some _ => true | None => false end.

(** [text[start..end_]]; [None] is a panic. *)
Definition str_slice (text : rstring) (start end_ : Z) : option rstring :=
  '(before, _) ← split_at_checked end_ text;
  '(_, slice) ← split_at_checked start before;
  Some slice.

(** The loops of [floor_char_boundary] and [ceil_char_boundary]. *)
Fixpoint floor_loop (text : rstring) (index : nat) : Z :=
  if is_char_boundary text (Z.of_nat index) then Z.of_nat index
  else match index with O => 0 | S index => floor_loop text index end.

Definition floor_char_boundary (text : rstring) (index : Z) : Z :=
  floor_loop text (Z.to_nat (Z.min index (len text))).

(** [fuel] is how far the end of the text is, where the loop stops at the
    latest. *)
Fixpoint ceil_loop (text : rstring) (fuel : nat) (index : Z) : Z :=
  if is_char_boundary text index then index
  else match fuel with O => index | S fuel => ceil_loop text fuel (index + 1) end.

Definition ceil_char_boundary (text : rstring) (index : Z) : Z :=
  let index := Z.min index (len text) in
  ceil_loop text (Z.to_nat (len text - index)) index.

(** * Pages *)

Definition MAX_PAGE_BYTES : Z := 8 * 1024.

Record Projection := {
  projection_json_pointer : option rstring;
  projection_offset : Z;
  projection_limit : option Z
}.

Definition projection_default : Projection :=
  {| projection_json_pointer := None; projection_offset := 0; projection_limit := None |}.

Record Page := {
  page_content : rstring;
  page_total_bytes : Z;
  page_offset : Z;
  page_next_offset : option Z
}.
#[export] Instance Page_eq_dec : EqDecision Page.
Proof. solve_decision. Defined.

Inductive ProjectionError : Type :=
  | NotText (bytes : Z) (content_type : rstring)
  | NotJson
  | PointerMissing (pointer : rstring)
  | OffsetPastEnd (offset total : Z)
  | ZeroLimit.
#[export] Instance ProjectionError_eq_dec : EqDecision ProjectionError.
Proof. solve_decision. Defined.
Abbreviation projection_result := (result ProjectionError).

(** The ends of the window that [page] cuts. *)
Definition page_window (text : rstring) (offset : Z) (limit : option Z) : Z * Z :=
  let total := len text in
  let start := floor_char_boundary text offset in
  let limit := Z.min (default MAX_PAGE_BYTES limit) MAX_PAGE_BYTES in
  let end_ := floor_char_boundary text (Z.min (usize_saturating_add start limit) total) in
  (start,
   if (end_ =? start) && (start <? total) then ceil_char_boundary text (start + 1) else end_).

(** [page]; [None] is the panic of a slice off a character boundary. *)
Definition page (text : rstring) (offset : Z) (limit : option Z)
    : option (projection_result Page) :=
  let total := len text in
  if bool_decide (limit = Some 0) then Some (Err ZeroLimit)
  else if (total <? offset) || (offset =? total) && (0 <? total)
  then Some (Err (OffsetPastEnd offset total))
  else
    let '(start, end_) := page_window text offset limit in
    content ← str_slice text start end_;
    Some (Ok {| page_content := content; page_total_bytes := total; page_offset := start;
                page_next_offset := if end_ <? total then Some end_ else None |}).

(** What a projection selects of a payload, before paging. *)
Definition project_text `{PayloadJson} (payload : list Z) (content_type : rstring)
    (projection : Projection) : projection_result rstring :=
  text ← ok_or (utf8_decode payload) (NotText (zlen payload) content_type) ;
  match projection_json_pointer projection with
  | None => Ok text
  | Some pointer =>
      value ← ok_or (json_from_str text) NotJson ;
      found ← ok_or (json_pointer pointer value) (PointerMissing pointer) ;
      Ok (match found with JString text => text | other => json_to_string_pretty other end)
  end.

Definition project `{PayloadJson} (payload : list Z) (content_type : rstring)
    (projection : Projection) : option (projection_result Page) :=
  match project_text payload content_type projection with
  | Err e => Some (Err e)
  | Ok text => page text (projection_offset projection) (projection_limit projection)
  end.

(** The first [max_bytes] of [text]; [None] is a panic. *)
Definition preview (text : rstring) (max_bytes : Z) : option rstring :=
  '(before, _) ← split_at_checked (floor_char_boundary text (Z.min max_bytes (len text))) text;
  Some before.
