(* ===== verification/ProjectionProps.v ===== *)
(** Paging: a slice never panics, and reading page after page gives the text
    back. *)
From S2P Require Export RustTextFacts Projection.
Local Open Scope Z_scope.

(** * Byte offsets *)

Lemma utf8_size_pos c : 1 ≤ zlen (utf8_encode c) ≤ 4.
Proof. pose proof (utf8_encode_length c). unfold zlen. lia. Qed.

Lemma len_pos s : s ≠ [] → 0 < len s.
Proof.
  destruct s as [|c s]; [done|]. intros _. rewrite len_cons.
  pose proof (utf8_size_pos c). pose proof (len_nonneg s). lia.
Qed.

Lemma split_at_checked_Some i text before after :
  split_at_checked i text = Some (before, after) ↔ text = before ++ after ∧ len before = i.
Proof.
  revert i before after. induction text as [|c text IH]; intros i before after;
    cbn [split_at_checked].
  - destruct (Z.eqb_spec i 0) as [->|Hi]; split.
    + by intros [= <- <-].
    + by intros [[-> ->]%eq_sym%app_nil _].
    + done.
    + by intros [[-> ->]%eq_sym%app_nil <-].
  - destruct (Z.eqb_spec i 0) as [->|Hi]; split.
    + by intros [= <- <-].
    + intros [Heq Hl]. destruct before as [|c' before]; [by rewrite Heq|].
      by pose proof (len_pos (c' :: before) ltac:(done)) as ?; lia.
    + intros ([b a] & [-> Hl]%IH & [= <- <-])%bind_Some. rewrite len_cons. split; [done|lia].
    + intros [Heq Hl]. destruct before as [|c' before]; [by rewrite <- Hl in Hi|].
      injection Heq as <- ->. rewrite len_cons in Hl.
      by rewrite (proj2 (IH (i - zlen (utf8_encode c)) before after)) by (split; [done|lia]).
Qed.

Lemma is_char_boundary_iff text i :
  is_char_boundary text i = true ↔ ∃ before after, text = before ++ after ∧ len before = i.
Proof.
  unfold is_char_boundary. destruct (split_at_checked i text) as [[b a]|] eqn:Hs.
  - apply split_at_checked_Some in Hs. naive_solver.
  - split; [done|]. intros (b & a & Hs'%split_at_checked_Some). congruence.
Qed.

Lemma boundary_0 text : is_char_boundary text 0 = true.
Proof. apply is_char_boundary_iff. by exists [], text. Qed.

Lemma boundary_len text : is_char_boundary text (len text) = true.
Proof. apply is_char_boundary_iff. exists text, []. by rewrite app_nil_r. Qed.

(** Two prefixes of a text are ordered as their lengths. *)
Lemma prefix_of_shorter (a b a' b' : rstring) :
  a ++ b = a' ++ b' → len a ≤ len a' → ∃ k, a' = a ++ k ∧ b = k ++ b'.
Proof.
  intros Heq Hl. apply app_eq_inv in Heq as [(k & Ha & Hb)|(k & Ha & Hb)].
  - destruct k as [|c k].
    { rewrite app_nil_r in Ha. exists []. by rewrite app_nil_r. }
    rewrite Ha, len_app in Hl. pose proof (len_pos (c :: k) ltac:(done)). lia.
  - by exists k.
Qed.

(** ** Rounding *)

Lemma floor_loop_spec text n :
  is_char_boundary text (floor_loop text n) = true ∧ 0 ≤ floor_loop text n ≤ Z.of_nat n ∧
  ∀ j, is_char_boundary text j = true → j ≤ Z.of_nat n → j ≤ floor_loop text n.
Proof.
  induction n as [|n IH]; cbn [floor_loop].
  - rewrite boundary_0. cbn. split; [apply boundary_0|]. split; [lia|done].
  - destruct (is_char_boundary text (Z.of_nat (S n))) eqn:Hb; [split; [done|]; split; [lia|done]|].
    destruct IH as (Hf & Hr & Hmax). split; [done|]. split; [lia|]. intros j Hj Hle.
    apply Hmax; [done|]. destruct (Z.eq_dec j (Z.of_nat (S n))) as [->|]; [congruence|lia].
Qed.

(** Where rounding down goes: the text before it, and no boundary between. *)
Lemma floor_char_boundary_spec text i :
  0 ≤ i → ∃ before after, text = before ++ after ∧ floor_char_boundary text i = len before ∧
  len before ≤ i ∧ (∀ c rest, after = c :: rest → i < len before + zlen (utf8_encode c)).
Proof.
  intros Hi. unfold floor_char_boundary. pose proof (len_nonneg text) as Hn.
  destruct (floor_loop_spec text (Z.to_nat (Z.min i (len text)))) as (Hb & Hr & Hmax).
  apply is_char_boundary_iff in Hb as (before & after & Ht & Hl). exists before, after.
  rewrite Z2Nat.id in * by lia. split_and!; [done|done|lia|]. intros c rest ->.
  destruct (Z.le_gt_cases (len before + zlen (utf8_encode c)) i) as [Hle|]; [exfalso|done].
  assert (len (before ++ [c]) = len before + zlen (utf8_encode c)) as Hc
    by (rewrite len_app, len_cons; change (len []) with 0; lia).
  assert (len (before ++ [c]) ≤ len text) as Hlt.
  { rewrite Ht. replace (before ++ c :: rest) with ((before ++ [c]) ++ rest)
      by (by rewrite <- app_assoc). apply len_le_app. }
  pose proof (utf8_size_pos c). specialize (Hmax (len (before ++ [c]))).
  cut (len (before ++ [c]) ≤ len before); [lia|]. rewrite Hl. apply Hmax; [|lia].
  apply is_char_boundary_iff. exists (before ++ [c]), rest. by rewrite <- app_assoc.
Qed.

Lemma floor_at_boundary before after :
  floor_char_boundary (before ++ after) (len before) = len before.
Proof.
  destruct (floor_char_boundary_spec (before ++ after) (len before)) as (b & a & Ht & Hf & Hl & Hm);
    [apply len_nonneg|].
  destruct (prefix_of_shorter b a before after) as (k & Hk & Ha); [congruence|done|].
  rewrite Hf. destruct k as [|c k]; [by rewrite Hk, app_nil_r|].
  cbn in Ha. specialize (Hm _ _ Ha). rewrite Hk, len_app, len_cons in Hm.
  pose proof (len_nonneg k). lia.
Qed.

Lemma ceil_loop_spec text c rest before fuel index :
  text = before ++ c :: rest → len before < index ≤ len before + zlen (utf8_encode c) →
  len before + zlen (utf8_encode c) - index ≤ Z.of_nat fuel →
  ceil_loop text fuel index = len before + zlen (utf8_encode c).
Proof.
  intros Ht. revert index. induction fuel as [|fuel IH]; intros index Hi Hf; cbn [ceil_loop].
  { assert (index = len before + zlen (utf8_encode c)) as -> by lia. by case_match. }
  destruct (is_char_boundary text index) eqn:Hb.
  - apply is_char_boundary_iff in Hb as (b & a & Hba & Hl).
    destruct (prefix_of_shorter before (c :: rest) b a) as (k & -> & Hk); [congruence|lia|].
    rewrite len_app in Hl. destruct k as [|c' k]; [change (len []) with 0 in Hl; lia|].
    injection Hk as <- _. rewrite len_cons in Hl. pose proof (len_nonneg k). lia.
  - apply IH; [|lia]. destruct (Z.eq_dec index (len before + zlen (utf8_encode c))) as [->|];
      [|lia]. exfalso. apply not_true_iff_false in Hb. apply Hb, is_char_boundary_iff.
    exists (before ++ [c]), rest. rewrite <- app_assoc, len_app, len_cons.
    change (len []) with 0. split; [done|lia].
Qed.

(** Rounding up inside a character goes to its end. *)
Lemma ceil_char_boundary_next before c rest :
  ceil_char_boundary (before ++ c :: rest) (len before + 1) = len (before ++ [c]).
Proof.
  pose proof (utf8_size_pos c). pose proof (len_nonneg rest).
  unfold ceil_char_boundary. rewrite !len_app, !len_cons. change (len []) with 0.
  rewrite Z.min_l, (ceil_loop_spec _ c rest before) by (done || lia). lia.
Qed.

Lemma str_slice_middle before middle after :
  str_slice (before ++ middle ++ after) (len before) (len (before ++ middle)) = Some middle.
Proof.
  unfold str_slice. rewrite (proj2 (split_at_checked_Some _ _ (before ++ middle) after));
    [|by rewrite app_assoc]. cbn [mbind option_bind].
  by rewrite (proj2 (split_at_checked_Some _ _ before middle)).
Qed.

(** ** Previews *)

(** A preview is a prefix within the bound, as long as whole characters allow. *)
Lemma preview_spec text max_bytes :
  0 ≤ max_bytes → ∃ shown rest, preview text max_bytes = Some shown ∧ text = shown ++ rest ∧
  len shown ≤ max_bytes ∧ (∀ c tail, rest = c :: tail → max_bytes < len shown + zlen (utf8_encode c)).
Proof.
  intros Hm. unfold preview. pose proof (len_nonneg text).
  destruct (floor_char_boundary_spec text (Z.min max_bytes (len text)))
    as (shown & rest & Ht & -> & Hl & Hmax); [lia|].
  exists shown, rest. rewrite (proj2 (split_at_checked_Some _ _ shown rest)) by done.
  split_and!; [done|done|lia|]. intros c tail Hr. specialize (Hmax _ _ Hr).
  assert (len shown + zlen (utf8_encode c) ≤ len text); [|lia].
  rewrite Ht, Hr, len_app, len_cons. pose proof (len_nonneg tail). lia.
Qed.

Lemma preview_all text max_bytes : len text ≤ max_bytes → preview text max_bytes = Some text.
Proof.
  intros Hl. pose proof (len_nonneg text).
  destruct (preview_spec text max_bytes) as (shown & rest & -> & Ht & _ & Hm); [lia|].
  destruct rest as [|c rest]; [by rewrite app_nil_r in Ht; subst|].
  specialize (Hm _ _ eq_refl). rewrite Ht, len_app, len_cons in Hl.
  pose proof (len_nonneg rest). lia.
Qed.

(** * Pages *)

Definition page_limit (limit : option Z) : Z := Z.min (default MAX_PAGE_BYTES limit) MAX_PAGE_BYTES.

(** A window is a nonempty piece of the text that is left. *)
Lemma page_window_spec before rest offset limit :
  floor_char_boundary (before ++ rest) offset = len before →
  len (before ++ rest) ≤ u64_max → (∀ l, limit = Some l → 1 ≤ l) →
  ∃ content after, rest = content ++ after ∧
    page_window (before ++ rest) offset limit = (len before, len (before ++ content)) ∧
    (rest ≠ [] → content ≠ []) ∧ len content ≤ Z.max 4 (page_limit limit).
Proof.
  intros Hstart Hmax Hlimit. unfold page_window. rewrite Hstart. fold (page_limit limit).
  assert (1 ≤ page_limit limit) as Hpos.
  { unfold page_limit, MAX_PAGE_BYTES. destruct limit as [l|]; cbn; [specialize (Hlimit l eq_refl)|]; lia. }
  pose proof (len_nonneg before). pose proof (len_nonneg rest).
  pose proof Hmax as Hlen. rewrite len_app in Hlen.
  set (index := Z.min (usize_saturating_add (len before) (page_limit limit)) (len (before ++ rest))).
  assert (index = Z.min (len before + page_limit limit) (len before + len rest)) as Hindex
    by (unfold index, usize_saturating_add; rewrite len_app; lia). clearbody index.
  destruct (floor_char_boundary_spec (before ++ rest) index) as (b & after & Ht & -> & Hl & Hm); [lia|].
  destruct (prefix_of_shorter before rest b after) as (content & -> & Hrest); [done| |].
  { destruct (Z.le_gt_cases (len before) (len b)) as [|Hlt]; [done|exfalso].
    destruct (prefix_of_shorter b after before rest) as (k & Hk & Ha); [done|lia|].
    destruct k as [|c k]; [rewrite Hk, app_nil_r in Hlt; lia|].
    specialize (Hm _ _ Ha). rewrite Hk, len_app, len_cons in Hlt, Hindex.
    rewrite Hk, len_app, len_cons in *. pose proof (len_nonneg k). lia. }
  destruct content as [|c content].
  - rewrite app_nil_r in *. rewrite Z.eqb_refl, len_app. destruct rest as [|c rest].
    { change (len []) with 0. rewrite Z.add_0_r, Z.ltb_irrefl.
      exists [], []. change (len []) with 0. split_and!; [done|by rewrite app_nil_r|done|lia]. }
    rewrite (proj2 (Z.ltb_lt _ _)) by (pose proof (len_pos (c :: rest) ltac:(done)); lia).
    cbn [andb]. exists [c], rest. rewrite ceil_char_boundary_next.
    split_and!; [done..|]. rewrite len_cons. change (len []) with 0.
    pose proof (utf8_size_pos c). lia.
  - exists (c :: content), after. split_and!; [done| |done|].
    + rewrite (proj2 (Z.eqb_neq _ _)); [done|].
      pose proof (len_pos (c :: content) ltac:(done)). rewrite len_app. lia.
    + rewrite len_app in Hl. lia.
Qed.

Lemma page_spec before rest offset limit :
  floor_char_boundary (before ++ rest) offset = len before →
  offset < len (before ++ rest) ∨ (offset = 0 ∧ rest = []) →
  len (before ++ rest) ≤ u64_max → (∀ l, limit = Some l → 1 ≤ l) →
  ∃ content after, rest = content ++ after ∧
    page (before ++ rest) offset limit
      = Some (Ok {| page_content := content; page_total_bytes := len (before ++ rest);
                    page_offset := len before;
                    page_next_offset := match after with
                                        | [] => None
                                        | _ :: _ => Some (len (before ++ content))
                                        end |}) ∧
    (rest ≠ [] → content ≠ []) ∧ len content ≤ Z.max 4 (page_limit limit).
Proof.
  intros Hstart Hoff Hmax Hlimit.
  destruct (page_window_spec before rest offset limit) as (content & after & Hrest & Hw & Hne & Hl);
    [done..|].
  exists content, after. split_and!; [done| |done|done]. unfold page. rewrite Hw.
  rewrite bool_decide_eq_false_2 by (intros ->; specialize (Hlimit 0 eq_refl); lia).
  assert (((len (before ++ rest) <? offset)
           || (offset =? len (before ++ rest)) && (0 <? len (before ++ rest))) = false) as ->.
  { pose proof (len_nonneg (before ++ rest)).
    destruct (Z.ltb_spec (len (before ++ rest)) offset), (Z.eqb_spec offset (len (before ++ rest))),
      (Z.ltb_spec 0 (len (before ++ rest))); cbn; lia. }
  rewrite Hrest, str_slice_middle. cbn [mbind option_bind]. do 3 f_equal.
  rewrite !len_app. destruct after as [|c after].
  - change (len []) with 0. rewrite (proj2 (Z.ltb_ge _ _)) by lia. done.
  - rewrite (proj2 (Z.ltb_lt _ _)) by (pose proof (len_pos (c :: after) ltac:(done)); lia). done.
Qed.

(** ** A reader that follows [next_offset]

    [fetch n offset] is the [n]th answer; [None] is a refusal or a panic, and
    for [read_pages] also fuel that ran out. *)

Fixpoint read_pages (fetch : nat → Z → option Page) (fuel n : nat) (offset : Z)
    : option (list rstring) :=
  match fuel with
  | O => None
  | S fuel =>
      p ← fetch n offset;
      match page_next_offset p with
      | None => Some [page_content p]
      | Some next => cons (page_content p) <$> read_pages fetch fuel (S n) next
      end
  end.

Definition page_answer (answer : option (projection_result Page)) : option Page :=
  match answer with Some (Ok p) => Some p | _ => None end.

Lemma read_pages_from fetch text limit before rest offset fuel n :
  (∀ n offset, fetch n offset = page_answer (page text offset limit)) →
  text = before ++ rest → floor_char_boundary text offset = len before →
  offset < len text ∨ (offset = 0 ∧ rest = []) →
  len text ≤ u64_max → (∀ l, limit = Some l → 1 ≤ l) → (length rest < fuel)%nat →
  ∃ pages, read_pages fetch fuel n offset = Some pages ∧ concat pages = rest ∧
    Forall (λ p, len p ≤ Z.max 4 (page_limit limit)) pages.
Proof.
  intros Hfetch Ht Hstart Hoff Hmax Hlimit. revert n before rest offset Ht Hstart Hoff.
  induction fuel as [|fuel IH]; intros n before rest offset -> Hstart Hoff Hfuel; [lia|].
  destruct (page_spec before rest offset limit) as (content & after & Hrest & Hp & Hne & Hl); [done..|].
  cbn [read_pages]. rewrite Hfetch, Hp. cbn [page_answer mbind option_bind page_next_offset page_content].
  destruct after as [|c after].
  { exists [content]. rewrite app_nil_r in Hrest. cbn. rewrite app_nil_r. by repeat constructor. }
  assert (content ≠ []) as Hc by (apply Hne; rewrite Hrest; by destruct content).
  assert (before ++ rest = (before ++ content) ++ c :: after) as Ht
    by (by rewrite Hrest, app_assoc).
  destruct (IH (S n) (before ++ content) (c :: after) (len (before ++ content)))
    as (pages & Hr & Hcat & Hall); [done|rewrite Ht; apply floor_at_boundary| | |].
  - left. rewrite Ht, (len_app (before ++ content)).
    pose proof (len_pos (c :: after) ltac:(done)). lia.
  - rewrite Hrest, length_app in Hfuel. cbn [length] in *. destruct content; [done|cbn in Hfuel; lia].
  - exists (content :: pages). rewrite Hr. cbn. rewrite Hcat, Hrest. by repeat constructor.
Qed.

(** C33: a reader that starts at any offset of a text and follows [next_offset]
    ends, never panics, and has then read exactly the text from the start of the
    character its offset lies in; each page is within the page limit, except
    that a limit smaller than a character yields that character. *)
Theorem pages_reassemble text offset limit n :
  len text ≤ u64_max → (∀ l, limit = Some l → 1 ≤ l) →
  0 ≤ offset < len text ∨ (offset = 0 ∧ text = []) →
  ∃ before rest pages, text = before ++ rest ∧ len before ≤ offset ∧
    (∀ c tail, rest = c :: tail → offset < len before + zlen (utf8_encode c)) ∧
    read_pages (λ _ offset, page_answer (page text offset limit)) (S (length text)) n offset
      = Some pages ∧
    concat pages = rest ∧
    Forall (λ p, len p ≤ Z.max 4 (Z.min (default MAX_PAGE_BYTES limit) MAX_PAGE_BYTES)) pages.
Proof.
  intros Hmax Hlimit Hoff.
  destruct (floor_char_boundary_spec text offset) as (before & rest & Ht & Hf & Hl & Hm); [lia|].
  destruct (read_pages_from (λ _ offset, page_answer (page text offset limit)) text limit before rest
              offset (S (length text)) n) as (pages & Hr & Hcat & Hall); [done..| |done|done| |].
  - destruct Hoff as [[_ Hoff]|[-> ->]]; [by left|right]. split; [done|].
    by symmetry in Ht; apply app_nil in Ht as [_ ->].
  - rewrite Ht, length_app. lia.
  - by exists before, rest, pages.
Qed.

Lemma pages_reassemble_witness :
  ∃ before rest pages, [97; 8364; 128512] = before ++ rest ∧ len before ≤ 2 ∧
    (∀ c tail, rest = c :: tail → 2 < len before + zlen (utf8_encode c)) ∧
    read_pages (λ _ offset, page_answer (page [97; 8364; 128512] offset (Some 1))) 4 0 2
      = Some pages ∧
    concat pages = rest ∧ Forall (λ p, len p ≤ Z.max 4 (Z.min 1 MAX_PAGE_BYTES)) pages.
Proof.
  apply (pages_reassemble [97; 8364; 128512] 2 (Some 1) 0); [by vm_compute| |left; by vm_compute].
  intros l [= <-]. lia.
Defined.

Example paging_goes_character_by_character :
  read_pages (λ _ offset, page_answer (page [97; 8364; 128512] offset (Some 1))) 4 0 0
  = Some [[97]; [8364]; [128512]].
Proof. by vm_compute. Qed.
