(* ===== verification/Blackboard.v ===== *)
(** The off-context blackboard (src/blackboard/mod.rs): a table of rows that
    expire, shared by every process of a project.

    A [Database] is the file; one statement of SQLite reads or changes it as a
    whole. [io] says which actions fail, under the names the source gives them,
    and a failed one changes nothing. The two clocks of an operation, the one
    that opens the file and its own, are arguments. *)
From S2P Require Export Projection Lifecycle.
Local Open Scope Z_scope.

Definition BLACKBOARD_SCHEMA_VERSION : Z := 1.
Definition MAX_KEY_BYTES : Z := 160.
Definition MAX_PAYLOAD_BYTES : Z := 16 * 1024 * 1024.
Definition MAX_METADATA_BYTES : Z := 16 * 1024.
Definition MAX_CONTENT_TYPE_BYTES : Z := 128.
Definition MAX_TTL_SECONDS : Z := 365 * 24 * 60 * 60.
Definition DEFAULT_CONTENT_TYPE : rstring := lit "text/plain".

(** * Errors *)

Inductive BlackboardError : Type :=
  | InvalidKey (key reason : rstring)
  | PayloadTooLarge (bytes max : Z)
  | InvalidMetadata (reason : rstring)
  | InvalidContentType (content_type reason : rstring)
  | InvalidTtl (ttl max : Z)
  | KeyExists (key : rstring)
  | NewerSchema (path : rstring) (found supported : Z)
  | BoardIo (action path source : rstring)
  | Sqlite (action source : rstring).
#[export] Instance BlackboardError_eq_dec : EqDecision BlackboardError.
Proof. solve_decision. Defined.
Abbreviation blackboard_result := (result BlackboardError).

(** The failures of the file system and of SQLite, by action. *)
Definition BoardFailures : Type := rstring → option rstring.

Definition sqlite (io : BoardFailures) (action : rstring) : blackboard_result unit :=
  match io action with Some source => Err (Sqlite action source) | None => Ok tt end.
Definition board_io (io : BoardFailures) (action path : rstring) : blackboard_result unit :=
  match io action with Some source => Err (BoardIo action path source) | None => Ok tt end.

(** * Validation *)

Definition is_key_byte (b : Z) : bool :=
  is_ascii_alphanumeric b || (b =? 46) || (b =? 95) || (b =? 58) || (b =? 45).

Definition validate_key (key : rstring) : blackboard_result unit :=
  let invalid reason := InvalidKey (take (Z.to_nat MAX_KEY_BYTES) key) reason in
  reject_if (is_empty key) (invalid (lit "must not be empty")) ;;
  reject_if (MAX_KEY_BYTES <? len key) (invalid (lit "longer than 160 bytes")) ;;
  reject_if (negb (match bytes key with b :: _ => is_ascii_alphanumeric b | [] => false end))
    (invalid (lit "must start with a letter or digit")) ;;
  reject_if (negb (forallb is_key_byte (bytes key)))
    (invalid (lit "may contain only letters, digits, '.', '_', ':' and '-'")).

Definition validate_content_type (content_type : rstring) : blackboard_result unit :=
  let invalid reason :=
    InvalidContentType (take (Z.to_nat MAX_CONTENT_TYPE_BYTES) content_type) reason in
  reject_if (is_empty (trim content_type)) (invalid (lit "must not be blank")) ;;
  reject_if (MAX_CONTENT_TYPE_BYTES <? len content_type) (invalid (lit "longer than 128 bytes")) ;;
  reject_if (existsb char_is_control content_type)
    (invalid (lit "must not contain control characters")).

Definition validate_ttl (ttl : Z) : blackboard_result unit :=
  reject_if ((ttl =? 0) || (MAX_TTL_SECONDS <? ttl)) (InvalidTtl ttl MAX_TTL_SECONDS).

Definition metadata_text `{PayloadJson} (metadata : json) : blackboard_result rstring :=
  metadata ← match metadata with
             | JNull => Ok (JObject [])
             | JObject entries => Ok (JObject entries)
             | _ => Err (InvalidMetadata (lit "must be a JSON object"))
             end ;
  let text := json_to_string metadata in
  reject_if (MAX_METADATA_BYTES <? len text)
    (InvalidMetadata (lit "serialized size " ++ show_Z (len text) ++ lit " exceeds "
                        ++ show_Z MAX_METADATA_BYTES ++ lit " bytes")) ;;
  Ok text.

(** * Configuration *)

Definition DEFAULT_SPILL_THRESHOLD_BYTES : Z := 4 * 1024.
Definition MIN_SPILL_THRESHOLD_BYTES : Z := 1024.
Definition MAX_SPILL_THRESHOLD_BYTES : Z := 1024 * 1024.
Definition DEFAULT_SPILL_TTL_SECONDS : Z := 7 * 24 * 60 * 60.
Definition DEFAULT_PURGE_INTERVAL_SECS : Z := 300.
Definition MIN_PURGE_INTERVAL_SECS : Z := 10.

Record BlackboardConfig := {
  spill_threshold_bytes : Z;
  spill_ttl_seconds : option Z;
  purge_interval_secs : Z
}.

Definition blackboard_config_default : BlackboardConfig :=
  {| spill_threshold_bytes := DEFAULT_SPILL_THRESHOLD_BYTES;
     spill_ttl_seconds := Some DEFAULT_SPILL_TTL_SECONDS;
     purge_interval_secs := DEFAULT_PURGE_INTERVAL_SECS |}.

(** The [Display] of [InvalidTtl], the one error a configuration shows. *)
Definition show_invalid_ttl (ttl : Z) : rstring :=
  lit "invalid blackboard ttl_seconds " ++ show_Z ttl ++ lit ": must be between 1 and "
    ++ show_Z MAX_TTL_SECONDS.

Definition validate_config (config : BlackboardConfig) : result rstring unit :=
  let threshold := spill_threshold_bytes config in
  reject_if (negb ((MIN_SPILL_THRESHOLD_BYTES <=? threshold)
                   && (threshold <=? MAX_SPILL_THRESHOLD_BYTES)))
    (lit "blackboard.spill_threshold_bytes must be between " ++ show_Z MIN_SPILL_THRESHOLD_BYTES
       ++ lit " and " ++ show_Z MAX_SPILL_THRESHOLD_BYTES ++ lit ", got " ++ show_Z threshold) ;;
  match spill_ttl_seconds config with
  | None => Ok tt
  | Some ttl =>
      map_err (λ _, lit "blackboard.spill_ttl_seconds: " ++ show_invalid_ttl ttl)
        (validate_ttl ttl)
  end ;;
  reject_if (purge_interval_secs config <? MIN_PURGE_INTERVAL_SECS)
    (lit "blackboard.purge_interval_secs must be at least " ++ show_Z MIN_PURGE_INTERVAL_SECS
       ++ lit ", got " ++ show_Z (purge_interval_secs config)).

(** serde's reading of the section and of the file around it. *)
Class ConfigJson := {
  config_of_section : json → result rstring BlackboardConfig;
  section_of_config : rstring → result rstring json
}.

Definition from_section `{ConfigJson} (section : json) : result rstring BlackboardConfig :=
  match section with
  | JNull => Ok blackboard_config_default
  | _ =>
      config ← map_err (λ err, lit "invalid blackboard section: " ++ err)
        (config_of_section section) ;
      validate_config config ;;
      Ok config
  end.

Inductive ConfigRead : Type :=
  | ConfigMissing
  | ConfigUnreadable (error : rstring)
  | ConfigText (raw : rstring).

(** [load_config] of what reading [config.json] at [path] gave. *)
Definition load_config `{ConfigJson} (path : rstring) (read : ConfigRead)
    : result rstring BlackboardConfig :=
  match read with
  | ConfigMissing => Ok blackboard_config_default
  | ConfigUnreadable error => Err (lit "cannot read " ++ path ++ lit ": " ++ error)
  | ConfigText raw =>
      section ← map_err (λ err, lit "cannot parse " ++ path ++ lit ": " ++ err)
        (section_of_config raw) ;
      map_err (λ reason, reason ++ lit " (in " ++ path ++ lit ")") (from_section section)
  end.

(** * Rows *)

Record Row := {
  row_payload : list Z;
  row_content_type : rstring;
  row_created_at : Z;
  row_ttl_seconds : option Z;
  row_metadata : rstring
}.

(** A new file has version 0 and no table, which reads as no rows. *)
Record Database := { user_version : Z; rows : gmap rstring Row }.
Definition new_database : Database := {| user_version := 0; rows := ∅ |}.
Definition set_rows (f : gmap rstring Row → gmap rstring Row) (db : Database) : Database :=
  {| user_version := user_version db; rows := f (rows db) |}.

(** [EXPIRED_AT]: [ttl_seconds IS NOT NULL AND created_at + ttl_seconds <= ?]. *)
Definition expired_at (now : Z) (r : Row) : bool :=
  match row_ttl_seconds r with
  | Some ttl => row_created_at r + ttl <=? now
  | None => false
  end.

Record NewEntry := {
  new_task_id : rstring;
  new_payload : list Z;
  new_content_type : rstring;
  new_ttl_seconds : option Z;
  new_metadata : json
}.

(** A metadata column that is no JSON is reported as its text. *)
Record Entry := {
  entry_task_id : rstring;
  entry_payload : list Z;
  entry_content_type : rstring;
  entry_created_at : Z;
  entry_ttl_seconds : option Z;
  entry_metadata : json
}.

Definition i64_saturating_add (a b : Z) : Z := Z.max (- 2 ^ 63) (Z.min i64_max (a + b)).
(** [ttl as i64]. *)
Definition u64_as_i64 (n : Z) : Z := if n <=? i64_max then n else n - 2 ^ 64.

Definition entry_expires_at (e : Entry) : option Z :=
  (λ ttl, i64_saturating_add (entry_created_at e) (u64_as_i64 ttl)) <$> entry_ttl_seconds e.

Record EntryRef := {
  ref_task_id : rstring;
  ref_content_type : rstring;
  ref_bytes : Z;
  ref_sha256 : rstring;
  ref_created_at : Z;
  ref_expires_at : option Z
}.

Definition ARTIFACT_ID_PREFIX : rstring := lit "blackboard:".
Definition artifact_id (r : EntryRef) : rstring := ARTIFACT_ID_PREFIX ++ ref_task_id r.

Definition BLACKBOARD_DB_FILE : rstring := lit "blackboard.db".
Definition db_path (impulse_dir : rstring) : rstring := path_join impulse_dir BLACKBOARD_DB_FILE.

(** * Operations on an open board *)

Section board.
Context `{Host} `{PayloadJson} (io : BoardFailures).

(** The row an accepted entry is written as. *)
Definition new_row (entry : NewEntry) (metadata : rstring) (now : Z) : Row :=
  {| row_payload := new_payload entry; row_content_type := new_content_type entry;
     row_created_at := now; row_ttl_seconds := u64_as_i64 <$> new_ttl_seconds entry;
     row_metadata := metadata |}.

Definition validate_entry (entry : NewEntry) : blackboard_result rstring :=
  validate_key (new_task_id entry) ;;
  validate_content_type (new_content_type entry) ;;
  reject_if (MAX_PAYLOAD_BYTES <? zlen (new_payload entry))
    (PayloadTooLarge (zlen (new_payload entry)) MAX_PAYLOAD_BYTES) ;;
  match new_ttl_seconds entry with Some ttl => validate_ttl ttl | None => Ok tt end ;;
  metadata_text (new_metadata entry).

(** The upsert: the number of rows it changed. *)
Definition upsert (key : rstring) (row : Row) (now : Z) (db : Database) : Z * Database :=
  match rows db !! key with
  | Some old => if expired_at now old then (1, set_rows <[key := row]> db) else (0, db)
  | None => (1, set_rows <[key := row]> db)
  end.

Definition put_at (entry : NewEntry) (now : Z) (db : Database)
    : blackboard_result EntryRef * Database :=
  match (metadata ← validate_entry entry ; sqlite io (lit "writing an entry") ;; Ok metadata) with
  | Err e => (Err e, db)
  | Ok metadata =>
      let '(changed, db) := upsert (new_task_id entry) (new_row entry metadata now) now db in
      if changed =? 0 then (Err (KeyExists (new_task_id entry)), db)
      else
        (Ok {| ref_task_id := new_task_id entry; ref_content_type := new_content_type entry;
               ref_bytes := zlen (new_payload entry);
               ref_sha256 := sha256_hex (new_payload entry);
               ref_created_at := now;
               ref_expires_at := (λ ttl, i64_saturating_add now (u64_as_i64 ttl))
                                   <$> new_ttl_seconds entry |}, db)
  end.

(** The live row of a key. *)
Definition live_row (key : rstring) (now : Z) (db : Database) : option Row :=
  r ← rows db !! key; if expired_at now r then None else Some r.

Definition entry_of_row (key : rstring) (r : Row) : Entry :=
  {| entry_task_id := key; entry_payload := row_payload r;
     entry_content_type := row_content_type r; entry_created_at := row_created_at r;
     entry_ttl_seconds := ttl ← row_ttl_seconds r; if 0 <=? ttl then Some ttl else None;
     entry_metadata := default (JString (row_metadata r)) (json_from_str (row_metadata r)) |}.

Definition get_at (key : rstring) (now : Z) (db : Database) : blackboard_result (option Entry) :=
  validate_key key ;;
  sqlite io (lit "reading an entry") ;;
  Ok (entry_of_row key <$> live_row key now db).

Definition board_delete (key : rstring) (db : Database) : blackboard_result bool * Database :=
  match (validate_key key ;; sqlite io (lit "deleting an entry")) with
  | Err e => (Err e, db)
  | Ok _ => (Ok (bool_decide (is_Some (rows db !! key))), set_rows (delete key) db)
  end.

Definition is_live (now : Z) (r : Row) : bool := negb (expired_at now r).
Definition live_rows (now : Z) (m : gmap rstring Row) : gmap rstring Row :=
  filter (λ kr, is_live now kr.2 = true) m.

Definition purge_expired_at (now : Z) (db : Database) : blackboard_result Z * Database :=
  match sqlite io (lit "purging expired entries") with
  | Err e => (Err e, db)
  | Ok _ =>
      (Ok (Z.of_nat (size (rows db)) - Z.of_nat (size (live_rows now (rows db)))),
       set_rows (live_rows now) db)
  end.

Definition live_count_at (now : Z) (db : Database) : blackboard_result Z :=
  sqlite io (lit "counting live entries") ;;
  Ok (Z.of_nat (size (live_rows now (rows db)))).

(** * Opening *)

(** [open_at]: what it returns and the file afterwards. *)
Definition open_at (path : rstring) (now : Z) (file : option Database)
    : blackboard_result Database * option Database :=
  match sqlite io (lit "opening the database") with
  | Err e => (Err e, file)
  | Ok _ =>
      let db := default new_database file in
      match ((if bool_decide (is_Some file) then Ok tt
              else board_io io (lit "restricting database permissions") path) ;;
             sqlite io (lit "setting the busy timeout") ;;
             sqlite io (lit "reading the schema version") ;;
             reject_if (BLACKBOARD_SCHEMA_VERSION <? user_version db)
               (NewerSchema path (user_version db) BLACKBOARD_SCHEMA_VERSION) ;;
             sqlite io (lit "creating the schema") ;;
             (if user_version db <? BLACKBOARD_SCHEMA_VERSION
              then sqlite io (lit "recording the schema version") else Ok tt)) with
      | Err e => (Err e, Some db)
      | Ok _ =>
          match purge_expired_at now
                  {| user_version := BLACKBOARD_SCHEMA_VERSION; rows := rows db |} with
          | (Err e, db) => (Err e, Some db)
          | (Ok _, db) => (Ok db, Some db)
          end
      end
  end.

Definition open (impulse_dir : rstring) (now : Z) (file : option Database)
    : blackboard_result Database * option Database :=
  match board_io io (lit "creating the .impulse directory") impulse_dir with
  | Err e => (Err e, file)
  | Ok _ => open_at (db_path impulse_dir) now file
  end.

Definition open_existing (impulse_dir : rstring) (now : Z) (file : option Database)
    : blackboard_result (option Database) * option Database :=
  match file with
  | None => (Ok None, None)
  | Some _ =>
      match open_at (db_path impulse_dir) now file with
      | (Ok db, file) => (Ok (Some db), file)
      | (Err e, file) => (Err e, file)
      end
  end.

Record PurgeReport := { purged : Z; live : Z }.

(** [maintain], at the clocks of its three looks at the time. *)
Definition maintain (impulse_dir : rstring) (now_open now_purge now_count : Z) (file : option Database)
    : blackboard_result (option PurgeReport) * option Database :=
  match open_existing impulse_dir now_open file with
  | (Err e, file) => (Err e, file)
  | (Ok None, file) => (Ok None, file)
  | (Ok (Some db), _) =>
      match purge_expired_at now_purge db with
      | (Err e, db) => (Err e, Some db)
      | (Ok purged, db) =>
          ((λ live, Some {| purged := purged; live := live |}) <$> live_count_at now_count db,
           Some db)
      end
  end.
End board.
