(* ===== verification/BlackboardProps.v ===== *)
(** The blackboard: a live entry is never overwritten, an expired one never
    read, and when expired rows are purged makes no difference. *)
From S2P Require Export Blackboard RustTextFacts Sample.
Local Open Scope Z_scope.

(** * Calls

    What processes do to an open board, in the order SQLite commits it. *)

Inductive BoardOperation : Type :=
  | PutCall (entry : NewEntry)
  | GetCall (key : rstring)
  | DeleteCall (key : rstring)
  | CountCall
  | PurgeCall.

(** A call at its clock, and what fails during it. *)
Record BoardCall := { call_io : BoardFailures; call_now : Z; call_operation : BoardOperation }.

(** Of a deletion only whether it failed: it also counts expired rows. *)
Inductive BoardAnswer : Type :=
  | PutAnswer (answer : blackboard_result EntryRef)
  | GetAnswer (answer : blackboard_result (option Entry))
  | DeleteAnswer (answer : blackboard_result unit)
  | CountAnswer (answer : blackboard_result Z)
  | PurgeAnswer (answer : blackboard_result Z).

Definition no_failures : BoardFailures := λ _, None.
Definition is_purge (c : BoardCall) : bool :=
  match call_operation c with PurgeCall => true | _ => false end.

Section board.
Context `{Host} `{PayloadJson}.

Definition board_call (c : BoardCall) (db : Database) : BoardAnswer * Database :=
  let io := call_io c in
  let now := call_now c in
  match call_operation c with
  | PutCall entry => let '(answer, db) := put_at io entry now db in (PutAnswer answer, db)
  | GetCall key => (GetAnswer (get_at io key now db), db)
  | DeleteCall key =>
      let '(answer, db) := board_delete io key db in (DeleteAnswer ((λ _, tt) <$> answer), db)
  | CountCall => (CountAnswer (live_count_at io now db), db)
  | PurgeCall => let '(answer, db) := purge_expired_at io now db in (PurgeAnswer answer, db)
  end.

Fixpoint run_board (calls : list BoardCall) (db : Database) : list BoardAnswer * Database :=
  match calls with
  | [] => ([], db)
  | c :: calls =>
      let '(answer, db) := board_call c db in
      let '(answers, db) := run_board calls db in
      (answer :: answers, db)
  end.

(** * What can be read *)

(** Boards that read alike at every clock from [now] on. *)
Definition reads_alike (now : Z) (db db' : Database) : Prop :=
  ∀ key t, now ≤ t → live_row key t db = live_row key t db'.

#[export] Instance reads_alike_equivalence now : Equivalence (reads_alike now).
Proof.
  split; [by intros ???|intros ?????; symmetry; auto|].
  intros ? db ? H1 H2 key t Ht. by rewrite H1, H2.
Qed.

Lemma reads_alike_later now later db db' :
  now ≤ later → reads_alike now db db' → reads_alike later db db'.
Proof. intros Hle Ha key t Ht. apply Ha. lia. Qed.

Lemma lookup_live_rows now m key :
  live_rows now m !! key = (r ← m !! key; if expired_at now r then None else Some r).
Proof.
  unfold live_rows. rewrite map_lookup_filter. destruct (m !! key) as [r|]; [|done]. cbn.
  unfold is_live. destruct (expired_at now r) eqn:He; by simplify_option_eq.
Qed.

Lemma live_row_lookup key now db : live_row key now db = live_rows now (rows db) !! key.
Proof. by rewrite lookup_live_rows. Qed.

(** A row that has expired stays so. *)
Lemma expired_later now t r : now ≤ t → expired_at now r = true → expired_at t r = true.
Proof.
  unfold expired_at. destruct (row_ttl_seconds r); [|done]. rewrite !Z.leb_le. lia.
Qed.

Lemma purge_is_unobservable now db : reads_alike now db (set_rows (live_rows now) db).
Proof.
  intros key t Ht. unfold live_row. cbn [set_rows rows]. rewrite lookup_live_rows.
  destruct (rows db !! key) as [r|]; [|done]. cbn.
  destruct (expired_at now r) eqn:He; [|done]. by rewrite (expired_later now t r).
Qed.

Lemma live_row_insert key r k t db :
  live_row k t (set_rows <[key := r]> db)
  = if bool_decide (k = key) then (if expired_at t r then None else Some r) else live_row k t db.
Proof.
  unfold live_row. cbn [set_rows rows]. case_bool_decide as Hk.
  - subst. by rewrite lookup_insert_eq.
  - by rewrite lookup_insert_ne.
Qed.

Lemma live_row_delete key k t db :
  live_row k t (set_rows (delete key) db)
  = if bool_decide (k = key) then None else live_row k t db.
Proof.
  unfold live_row. cbn [set_rows rows]. case_bool_decide as Hk.
  - subst. by rewrite lookup_delete_eq.
  - by rewrite lookup_delete_ne.
Qed.

(** The upsert's condition, by what can be read. *)
Lemma upsert_live key r now db :
  upsert key r now db
  = match live_row key now db with
    | Some _ => (0, db)
    | None => (1, set_rows <[key := r]> db)
    end.
Proof.
  unfold upsert, live_row. destruct (rows db !! key) as [old|]; [|done]. cbn.
  by destruct (expired_at now old).
Qed.

(** * Purging *)

Lemma live_rows_alike now t db db' :
  reads_alike now db db' → now ≤ t → live_rows t (rows db) = live_rows t (rows db').
Proof. intros Ha Ht. apply map_eq. intros key. rewrite <- !live_row_lookup. by apply Ha. Qed.

Lemma reads_alike_insert now key r db db' :
  reads_alike now db db' →
  reads_alike now (set_rows <[key := r]> db) (set_rows <[key := r]> db').
Proof. intros Ha k t Ht. rewrite !live_row_insert. by rewrite (Ha k t Ht). Qed.

Lemma reads_alike_delete now key db db' :
  reads_alike now db db' → reads_alike now (set_rows (delete key) db) (set_rows (delete key) db').
Proof. intros Ha k t Ht. rewrite !live_row_delete. by rewrite (Ha k t Ht). Qed.

(** On boards that read alike every call but a purge has the same answer, and
    leaves them reading alike. *)
Lemma board_call_alike now c db db' :
  reads_alike now db db' → now ≤ call_now c → is_purge c = false →
  (board_call c db).1 = (board_call c db').1 ∧
  reads_alike now (board_call c db).2 (board_call c db').2.
Proof.
  intros Ha Ht Hp. destruct c as [io t [entry|key|key| |]]; try discriminate Hp; cbn in *.
  - unfold put_at. destruct (_ ≫= _) as [metadata|e]; [|done]. rewrite !upsert_live.
    rewrite (Ha _ _ Ht). destruct (live_row _ _ db'); cbn; [done|].
    split; [done|by apply reads_alike_insert].
  - unfold get_at. by rewrite (Ha _ _ Ht).
  - unfold board_delete. destruct (_ ≫= _); cbn; [|done]. split; [done|by apply reads_alike_delete].
  - unfold live_count_at. by rewrite (live_rows_alike _ _ _ _ Ha Ht).
Qed.

Lemma purge_call_alike c db : is_purge c = true → reads_alike (call_now c) db (board_call c db).2.
Proof.
  destruct c as [io t []]; try done. intros _. cbn. unfold purge_expired_at.
  destruct (sqlite io _); [apply purge_is_unobservable|done].
Qed.

Definition is_purge_answer (a : BoardAnswer) : bool :=
  match a with PurgeAnswer _ => true | _ => false end.

Lemma is_purge_answer_call c db : is_purge_answer (board_call c db).1 = is_purge c.
Proof. destruct c as [io t []]; cbn; repeat case_match; done. Qed.

Lemma run_board_cons c calls db :
  run_board (c :: calls) db
  = ((board_call c db).1 :: (run_board calls (board_call c db).2).1,
     (run_board calls (board_call c db).2).2).
Proof.
  cbn [run_board]. destruct (board_call c db) as [a d]. cbn. by destruct (run_board calls d).
Qed.

Lemma purges_change_nothing start calls db db' :
  reads_alike start db db' → Forall (λ c, start ≤ call_now c) calls →
  StronglySorted Z.le (call_now <$> calls) →
  filter (λ a, is_purge_answer a = false) (run_board calls db).1
    = (run_board (filter (λ c, is_purge c = false) calls) db').1 ∧
  ∀ later, start ≤ later → Forall (λ c, call_now c ≤ later) calls →
    reads_alike later (run_board calls db).2
      (run_board (filter (λ c, is_purge c = false) calls) db').2.
Proof.
  revert start db db'. induction calls as [|c calls IH]; intros start db db' Ha Hstart Hsort.
  { split; [done|]. intros later Hl _. by eapply reads_alike_later. }
  rewrite fmap_cons in Hsort. apply Forall_cons in Hstart as [Hc Hstart].
  apply StronglySorted_cons in Hsort as [Hle Hsort].
  rewrite Forall_fmap in Hle. rewrite !run_board_cons. cbn [fst snd].
  rewrite !filter_cons, is_purge_answer_call. destruct (is_purge c) eqn:Hp.
  - rewrite !decide_False by done. assert (reads_alike (call_now c) (board_call c db).2 db') as Hc'.
    { transitivity db; [symmetry; by apply purge_call_alike|by eapply reads_alike_later]. }
    destruct (IH _ _ _ Hc' Hle Hsort) as [IH1 IH2]. split; [done|].
    intros later Hl [Hlc Hall]%Forall_cons. by apply IH2.
  - rewrite !decide_True by done. rewrite run_board_cons.
    destruct (board_call_alike start c db db' Ha Hc Hp) as [-> Hc'].
    destruct (IH start _ _ Hc' Hstart Hsort) as [-> IH2]. split; [done|].
    intros later Hl [_ Hall]%Forall_cons. by apply IH2.
Qed.

(** C34: expired means absent: as long as clocks do not run backwards, taking
    every purge out of a history changes no answer of a write, a read or a
    count, and no later read. *)
Theorem purges_are_unobservable calls db :
  StronglySorted Z.le (call_now <$> calls) →
  filter (λ a, is_purge_answer a = false) (run_board calls db).1
    = (run_board (filter (λ c, is_purge c = false) calls) db).1 ∧
  ∀ key t, Forall (λ c, call_now c ≤ t) calls →
    live_row key t (run_board calls db).2
      = live_row key t (run_board (filter (λ c, is_purge c = false) calls) db).2.
Proof.
  intros Hsort. destruct calls as [|c calls]; [done|].
  assert (Forall (λ x, call_now c ≤ call_now x) (c :: calls)) as Hmin.
  { rewrite fmap_cons in Hsort. apply StronglySorted_cons in Hsort as [Hle _].
    rewrite Forall_fmap in Hle. by constructor. }
  destruct (purges_change_nothing (call_now c) (c :: calls) db db) as [Heq Ha]; [done..|].
  split; [done|]. intros key t Hall. apply (Ha t); [|done|lia].
  apply Forall_cons in Hall as [Hall _]. done.
Qed.

(** * Keeping *)

(** What must not happen to an entry for it to stay: its deletion, or a clock
    past its end. *)
Definition spares (key : rstring) (expiry : option Z) (c : BoardCall) : Prop :=
  call_operation c ≠ DeleteCall key ∧
  match expiry with Some e => call_now c < e | None => True end.

Definition row_expiry (r : Row) : option Z := (λ ttl, row_created_at r + ttl) <$> row_ttl_seconds r.

Lemma spared_not_expired key r c : spares key (row_expiry r) c → expired_at (call_now c) r = false.
Proof.
  intros [_ Hlt]. unfold row_expiry, expired_at in *.
  destruct (row_ttl_seconds r); cbn in *; [|done]. apply Z.leb_gt. lia.
Qed.

Lemma board_call_keeps key r c db :
  rows db !! key = Some r → spares key (row_expiry r) c →
  rows (board_call c db).2 !! key = Some r.
Proof.
  intros Hr Hs. pose proof (spared_not_expired _ _ _ Hs) as Hlive. destruct Hs as [Hdel _].
  destruct c as [io t [entry|k|k| |]]; cbn in *; try done.
  - unfold put_at. destruct (_ ≫= _) as [metadata|e]; [|done]. rewrite upsert_live.
    destruct (live_row (new_task_id entry) t db) eqn:Hl; [done|]. cbn.
    rewrite lookup_insert_ne; [done|]. intros <-.
    unfold live_row in Hl. rewrite Hr in Hl. cbn in Hl. by rewrite Hlive in Hl.
  - unfold board_delete. destruct (_ ≫= _); [|done]. cbn. rewrite lookup_delete_ne; [done|congruence].
  - unfold purge_expired_at. destruct (sqlite io _); [|done]. cbn.
    rewrite lookup_live_rows, Hr. cbn. by rewrite Hlive.
Qed.

Lemma run_board_keeps key r calls db :
  rows db !! key = Some r → Forall (spares key (row_expiry r)) calls →
  rows (run_board calls db).2 !! key = Some r.
Proof.
  intros Hr Hall. revert db Hr. induction Hall as [|c calls Hc _ IH]; intros db Hr; [done|].
  rewrite run_board_cons. cbn [snd]. by apply IH, board_call_keeps.
Qed.

(** What a successful put means. *)
Lemma put_at_Ok io entry now db ref db' :
  put_at io entry now db = (Ok ref, db') →
  ∃ metadata, validate_entry entry = Ok metadata ∧ live_row (new_task_id entry) now db = None ∧
    db' = set_rows <[new_task_id entry := new_row entry metadata now]> db ∧
    ref_task_id ref = new_task_id entry ∧ ref_content_type ref = new_content_type entry ∧
    ref_bytes ref = zlen (new_payload entry) ∧ ref_sha256 ref = sha256_hex (new_payload entry).
Proof.
  unfold put_at. destruct (_ ≫= _) as [metadata|e] eqn:Hv; [|done]. result_inv.
  rewrite upsert_live. destruct (live_row _ _ db) eqn:Hl; cbn; intros [= <- <-].
  by exists metadata.
Qed.

Lemma validate_entry_key entry metadata :
  validate_entry entry = Ok metadata → validate_key (new_task_id entry) = Ok tt.
Proof. unfold validate_entry. intros Hv. by result_inv. Qed.

Lemma validate_entry_ttl entry metadata :
  validate_entry entry = Ok metadata →
  u64_as_i64 <$> new_ttl_seconds entry = new_ttl_seconds entry.
Proof.
  unfold validate_entry. intros Hv. result_inv. destruct (new_ttl_seconds entry) as [ttl|]; [|done].
  match goal with Ht : validate_ttl ttl = Ok _ |- _ => unfold validate_ttl in Ht; result_inv end.
  bool_inv. cbn. unfold u64_as_i64, i64_max, MAX_TTL_SECONDS in *.
  by rewrite (proj2 (Z.leb_le _ _)) by lia.
Qed.

(** The row of an accepted entry stays, and is what its key reads as. *)
Lemma put_row_is_kept io entry now db ref db' calls :
  put_at io entry now db = (Ok ref, db') →
  Forall (spares (new_task_id entry) ((λ ttl, now + ttl) <$> new_ttl_seconds entry)) calls →
  ∃ metadata, validate_entry entry = Ok metadata ∧
    rows (run_board calls db').2 !! new_task_id entry = Some (new_row entry metadata now).
Proof.
  intros (metadata & Hv & _ & -> & _)%put_at_Ok Hall. exists metadata. split; [done|].
  apply run_board_keeps; [apply lookup_insert_eq|].
  unfold row_expiry. cbn [new_row row_ttl_seconds row_created_at].
  by rewrite (validate_entry_ttl _ _ Hv).
Qed.

Lemma get_at_row key r t db :
  validate_key key = Ok tt → rows db !! key = Some r →
  get_at no_failures key t db
  = Ok (if expired_at t r then None else Some (entry_of_row key r)).
Proof.
  intros Hv Hr. unfold get_at, live_row. rewrite Hv, Hr. cbn. by destruct (expired_at t r).
Qed.

(** An accepted entry is what every read of its key gives until its time is
    up, whatever else is written, purged and counted meanwhile, and nothing
    from then on; its reference has the digest and the size of what is read. *)
Theorem stored_entry_is_kept io entry now db ref db' calls t :
  (∀ ttl, new_ttl_seconds entry = Some ttl → 0 ≤ ttl) →
  put_at io entry now db = (Ok ref, db') →
  Forall (spares (new_task_id entry) ((λ ttl, now + ttl) <$> new_ttl_seconds entry)) calls →
  let kept := get_at no_failures (ref_task_id ref) t (run_board calls db').2 in
  if from_option (λ ttl, now + ttl <=? t) false (new_ttl_seconds entry) then kept = Ok None
  else ∃ e, kept = Ok (Some e) ∧ entry_task_id e = new_task_id entry ∧
    entry_payload e = new_payload entry ∧ entry_content_type e = new_content_type entry ∧
    entry_created_at e = now ∧ entry_ttl_seconds e = new_ttl_seconds entry ∧
    ref_sha256 ref = sha256_hex (entry_payload e) ∧ ref_bytes ref = zlen (entry_payload e).
Proof.
  intros Hu64 Hput Hall kept.
  destruct (put_row_is_kept _ _ _ _ _ _ _ Hput Hall) as (metadata & Hv & Hr).
  destruct (put_at_Ok _ _ _ _ _ _ Hput) as (_ & _ & _ & _ & Hid & _ & Hbytes & Hsha).
  pose proof (validate_entry_ttl _ _ Hv) as Httl. unfold kept. clear kept. rewrite Hid.
  rewrite (get_at_row _ _ t _ (validate_entry_key _ _ Hv) Hr).
  assert (expired_at t (new_row entry metadata now)
          = from_option (λ ttl, now + ttl <=? t) false (new_ttl_seconds entry)) as ->.
  { unfold expired_at. cbn [new_row row_ttl_seconds row_created_at]. rewrite Httl.
    by destruct (new_ttl_seconds entry). }
  case_match; [done|]. eexists. split; [done|].
  cbn [entry_of_row entry_task_id entry_payload entry_content_type entry_created_at
    entry_ttl_seconds new_row row_payload row_content_type row_created_at row_ttl_seconds].
  split_and!; try done. rewrite Httl. destruct (new_ttl_seconds entry) as [ttl|]; [|done]. cbn.
  by rewrite (proj2 (Z.leb_le _ _)) by auto.
Qed.

(** A write is refused, when SQLite does not fail, exactly when one of its
    fields is invalid or its key holds an entry that is still live; a refused
    write changes nothing. *)
Theorem put_refused_iff entry now db :
  let '(answer, db') := put_at no_failures entry now db in
  (is_ok answer = false ↔
   is_ok (validate_entry entry) = false ∨ is_Some (live_row (new_task_id entry) now db)) ∧
  (is_ok answer = false → db' = db).
Proof.
  unfold put_at. destruct (validate_entry entry) as [metadata|e]; cbn; [|naive_solver].
  rewrite upsert_live. destruct (live_row _ _ db); cbn; [split; [|done]; split; [by eauto|done]|].
  split; [|done]. split; [done|]. intros [|[? [=]]]; done.
Qed.
End board.

(** * Witnesses *)

#[export] Instance sample_payload_json : PayloadJson := {|
  json_from_str _ := None;
  json_pointer _ _ := None;
  json_to_string_pretty _ := lit "{}";
  json_to_string _ := lit "{}"
|}.

Definition sample_entry (key : rstring) (ttl : option Z) : NewEntry :=
  {| new_task_id := key; new_payload := bytes (lit "payload of " ++ key);
     new_content_type := DEFAULT_CONTENT_TYPE; new_ttl_seconds := ttl; new_metadata := JNull |}.

Definition sample_board_call (now : Z) (operation : BoardOperation) : BoardCall :=
  {| call_io := no_failures; call_now := now; call_operation := operation |}.

(** Two entries, one of which expires and is written again. *)
Definition sample_calls : list BoardCall :=
  [sample_board_call 1000 (PutCall (sample_entry (lit "a") (Some 10)));
   sample_board_call 1001 (PutCall (sample_entry (lit "b") None));
   sample_board_call 1005 PurgeCall;
   sample_board_call 1009 (GetCall (lit "a"));
   sample_board_call 1010 PurgeCall;
   sample_board_call 1010 (GetCall (lit "a"));
   sample_board_call 1011 (PutCall (sample_entry (lit "a") None));
   sample_board_call 1012 CountCall].

Lemma purges_are_unobservable_witness :
  filter (λ a, is_purge_answer a = false) (run_board sample_calls new_database).1
    = (run_board (filter (λ c, is_purge c = false) sample_calls) new_database).1 ∧
  ∀ key t, Forall (λ c, call_now c ≤ t) sample_calls →
    live_row key t (run_board sample_calls new_database).2
      = live_row key t (run_board (filter (λ c, is_purge c = false) sample_calls) new_database).2.
Proof.
  apply (purges_are_unobservable sample_calls new_database).
  repeat constructor; by vm_compute.
Defined.

Lemma stored_entry_is_kept_witness :
  let '(answer, db) := put_at no_failures (sample_entry (lit "k") (Some 60)) 1000 new_database in
  ∃ ref, answer = Ok ref ∧ ∃ e,
    get_at no_failures (ref_task_id ref) 1059 (run_board (take 7 sample_calls) db).2 = Ok (Some e) ∧
    entry_task_id e = lit "k" ∧ entry_payload e = bytes (lit "payload of k") ∧
    entry_content_type e = DEFAULT_CONTENT_TYPE ∧ entry_created_at e = 1000 ∧
    entry_ttl_seconds e = Some 60 ∧ ref_sha256 ref = sha256_hex (entry_payload e) ∧
    ref_bytes ref = zlen (entry_payload e).
Proof.
  destruct (put_at no_failures (sample_entry (lit "k") (Some 60)) 1000 new_database)
    as [[ref|e] db] eqn:Hp; [|by vm_compute in Hp].
  exists ref. split; [done|].
  apply (stored_entry_is_kept no_failures (sample_entry (lit "k") (Some 60)) 1000 new_database ref db
           (take 7 sample_calls) 1059); [by intros ? [= <-]|exact Hp|].
  repeat constructor; by vm_compute.
Defined.
